(** * SEO product mapper: a shallow embedding of the matching engine

    The development follows the TypeScript sources file by file:

    - [Text]       src/lib/text.ts        tokenizer, normalizer, char n-grams, overlap
    - [TfIdf]      the class TfIdfVectorizer that seo-mapper.ts imports from
                   './tfidf', as a term-vector model; the text of the class
                   stands in the tree after the code of src/lib/exporters.ts
                   and is followed statement by statement in [TfIdfClass]
    - [Mapper]     src/lib/seo-mapper.ts  hybrid scorer, acceptance gate, semantic reranker
    - [F64]        the class and src/lib/seo-mapper.ts again, on binary64 numbers

    Conventions.

    - A JavaScript string is the list of its UTF-16 code units ([jsstring]).
    - In [TfIdf] and [Mapper] a JavaScript number is an exact rational ([Q]):
      IEEE-754 rounding of the individual operations is not modelled there,
      decimal rounding done by the program itself ([toFixed], [Math.round])
      is. What is stated about the value of a score, a gap, a threshold or
      the confidence is stated on [F64], where a number is a binary64 value
      and a typed array holds binary32 values.
    - Functions of the host ([String.prototype.toLowerCase], [Math.log],
      [Math.sqrt]) and of the Snowball library (the Russian stemmer) are the
      fields of the class [JsHost]; the embedding endpoint is a function from
      requests to replies, and every request issued is recorded in a log.
    - Exceptions and the request log are carried by the monad [M]. *)

From Stdlib Require Import String Ascii.
From Stdlib Require Import List Bool Arith ZArith NArith QArith Qround.
From Stdlib Require Import Lia Sorted Permutation.
From Stdlib Require Import Lqa.
Import ListNotations.
Close Scope Q_scope.

Set Implicit Arguments.

(* ===================================================================== *)
(** * JavaScript values *)
(* ===================================================================== *)

Module Js.

(** UTF-16 code units. *)
Definition jsstring := list N.

Definition str (s : string) : jsstring :=
  map N_of_ascii (list_ascii_of_string s).

Arguments str s%_string.

Fixpoint jsstring_eqb (a b : jsstring) : bool :=
  match a, b with
  | [], [] => true
  | x :: a', y :: b' => N.eqb x y && jsstring_eqb a' b'
  | _, _ => false
  end.

Definition inRange (lo hi c : N) : bool := N.leb lo c && N.leb c hi.

(** [WhiteSpace] and [LineTerminator] of ECMAScript: what [\s] matches and
    what [trim] strips. *)
Definition isWhiteSpace (c : N) : bool :=
  inRange 9 13 c || N.eqb c 32 || N.eqb c 160 || N.eqb c 5760
  || inRange 8192 8202 c || N.eqb c 8232 || N.eqb c 8233 || N.eqb c 8239
  || N.eqb c 8287 || N.eqb c 12288 || N.eqb c 65279.

Fixpoint trimStart (s : jsstring) : jsstring :=
  match s with
  | c :: s' => if isWhiteSpace c then trimStart s' else s
  | [] => []
  end.

Definition trimEnd (s : jsstring) : jsstring := rev (trimStart (rev s)).

Definition trim (s : jsstring) : jsstring := trimEnd (trimStart s).

(** [s.slice(i, j)] for [0 <= i]. *)
Definition slice (i j : nat) (s : jsstring) : jsstring :=
  firstn (j - i) (skipn i s).

(** [parts.join(sep)]. *)
Fixpoint join (sep : jsstring) (parts : list jsstring) : jsstring :=
  match parts with
  | [] => []
  | [p] => p
  | p :: rest => p ++ sep ++ join sep rest
  end.

(** A string is truthy when it is not empty. *)
Definition truthy (s : jsstring) : bool :=
  match s with [] => false | _ => true end.

(** [new Set(xs)]: the distinct elements in insertion order. *)
Fixpoint mem (x : jsstring) (xs : list jsstring) : bool :=
  match xs with
  | [] => false
  | y :: ys => jsstring_eqb x y || mem x ys
  end.

Fixpoint setOfAcc (seen : list jsstring) (xs : list jsstring) : list jsstring :=
  match xs with
  | [] => rev seen
  | x :: xs' => if mem x seen then setOfAcc seen xs' else setOfAcc (x :: seen) xs'
  end.

Definition setOf (xs : list jsstring) : list jsstring := setOfAcc [] xs.

(** [Number(x.toFixed(d))]: the nearest multiple of [10^-d], a tie going away
    from zero. (For [|x| >= 1e21] [toFixed] prints the number itself; every
    binary64 that large is an integer, so the value is unchanged, as here.) *)
Definition roundHalfAway (x : Q) : Z :=
  if Qle_bool 0 x then Qfloor (x + (1 # 2))%Q else (- Qfloor ((- x) + (1 # 2))%Q)%Z.

Definition toFixed (d : nat) (x : Q) : Q :=
  (inject_Z (roundHalfAway (x * inject_Z (10 ^ Z.of_nat d)))
   / inject_Z (10 ^ Z.of_nat d))%Q.

(** [Math.round(x)]: the nearest integer, a tie going up. *)
Definition Math_round (x : Q) : Z := Qfloor (x + (1 # 2))%Q.

Definition Math_max (a b : Q) : Q := if Qle_bool a b then b else a.

Definition ofNat (n : nat) : Q := inject_Z (Z.of_nat n).

End Js.

Import Js.

(** What the program takes from its host and from the Snowball package. *)
Class JsHost := {
  toLowerCase : jsstring -> jsstring;   (* String.prototype.toLowerCase *)
  stem        : jsstring -> jsstring;   (* newStemmer('russian').stem *)
  Math_log    : Q -> Q;                 (* Math.log *)
  Math_sqrt   : Q -> Q                  (* Math.sqrt *)
}.

(* ===================================================================== *)
(** * src/lib/text.ts *)
(* ===================================================================== *)

Module Text.

(** The stop words, in the order of the source. *)
Definition STOP_WORDS : list jsstring := [
    [1080]%N;
    [1074]%N;
    [1074; 1086]%N;
    [1085; 1077]%N;
    [1095; 1090; 1086]%N;
    [1086; 1085]%N;
    [1086; 1085; 1072]%N;
    [1085; 1086]%N;
    [1072]%N;
    [1082; 1072; 1082]%N;
    [1082]%N;
    [1082; 1086]%N;
    [1076; 1086]%N;
    [1074; 1099]%N;
    [1084; 1099]%N;
    [1086; 1085; 1080]%N;
    [1080; 1079]%N;
    [1091]%N;
    [1087; 1086]%N;
    [1085; 1072]%N;
    [1101; 1090; 1086]%N;
    [1090; 1086; 1090]%N;
    [1090; 1072]%N;
    [1090; 1077]%N;
    [1076; 1083; 1103]%N;
    [1087; 1088; 1080]%N;
    [1086; 1090]%N;
    [1089; 1086]%N;
    [1089; 1086; 1086; 1090; 1074; 1077; 1090; 1089; 1090; 1074; 1080; 1077]%N;
    [1082; 1086; 1084; 1087; 1083; 1077; 1082; 1090]%N;
    [1089; 1080; 1089; 1090; 1077; 1084; 1072]%N;
    [1089; 1080; 1089; 1090; 1077; 1084; 1099]%N;
    [1089; 1080; 1089; 1090; 1077; 1084; 1085; 1099; 1081]%N;
    [1086; 1073; 1086; 1088; 1091; 1076; 1086; 1074; 1072; 1085; 1080; 1077]%N;
    [1086; 1073; 1086; 1088; 1091; 1076; 1086; 1074; 1072; 1085; 1080; 1103]%N;
    [1088; 1077; 1096; 1077; 1085; 1080; 1077]%N;
    [1088; 1077; 1096; 1077; 1085; 1080; 1103]%N;
    [1087; 1083; 1072; 1090; 1092; 1086; 1088; 1084; 1072]%N;
    [1087; 1083; 1072; 1090; 1092; 1086; 1088; 1084; 1099]%N;
    [1089; 1077; 1088; 1080; 1103]%N;
    [1089; 1077; 1088; 1080; 1080]%N;
    [1090; 1080; 1087]%N;
    [1090; 1080; 1087; 1072]%N;
    [1091; 1089; 1090; 1088; 1086; 1081; 1089; 1090; 1074; 1086]%N;
    [1091; 1089; 1090; 1088; 1086; 1081; 1089; 1090; 1074; 1072]%N;
    str "timmer";
    [1073; 1088; 1077; 1085; 1076]%N;
    str "brand";
    str "series";
    str "system";
    str "systems";
    str "device";
    str "devices"
  ].

(** The class [[a-zа-яё0-9]] under the flag [i]: a code unit matches when its
    upper-case form is that of a member of the class. Besides both cases of
    the Latin and Russian letters this holds for the seven letters
    U+1C80..U+1C86, whose upper case lies in U+0410..U+042F. *)
Definition isTokenChar (c : N) : bool :=
  inRange 97 122 c || inRange 65 90 c || inRange 48 57 c
  || inRange 1072 1103 c || inRange 1040 1071 c
  || N.eqb c 1105 || N.eqb c 1025
  || inRange 7296 7302 c.

(** The class [[a-zа-яё0-9 ]] without flags (its complement is removed). *)
Definition isNgramChar (c : N) : bool :=
  inRange 97 122 c || inRange 1072 1103 c || N.eqb c 1105
  || inRange 48 57 c || N.eqb c 32.

(** [text.match(TOKEN_REGEX)]: the maximal runs of token characters.
    [cur] is the run being read, reversed. *)
Fixpoint matchRuns (cur : jsstring) (s : jsstring) : list jsstring :=
  match s with
  | [] => match cur with [] => [] | _ => [rev cur] end
  | c :: s' =>
      if isTokenChar c then matchRuns (c :: cur) s'
      else match cur with
           | [] => matchRuns [] s'
           | _ => rev cur :: matchRuns [] s'
           end
  end.

(** [tokenize(text)]; [None] is [undefined] or [null]. *)
Definition tokenize (text : option jsstring) : list jsstring :=
  match text with
  | None => []
  | Some [] => []
  | Some s => matchRuns [] s
  end.

(** [value.replace(/\s+/g, ' ')]. [inRun] tells that the previous code unit
    was white space, already replaced. *)
Fixpoint collapseSpaces (inRun : bool) (s : jsstring) : jsstring :=
  match s with
  | [] => []
  | c :: s' =>
      if isWhiteSpace c
      then (if inRun then collapseSpaces true s' else 32%N :: collapseSpaces true s')
      else c :: collapseSpaces false s'
  end.

Section WithHost.
Context {host : JsHost}.

Definition normalizeTokens (text : option jsstring) : list jsstring :=
  filter (fun token => Nat.ltb 1 (length token) && negb (mem token STOP_WORDS))
         (map stem (map toLowerCase (tokenize text))).

Definition joinTokens (tokens : list jsstring) : jsstring :=
  join (str " ") tokens.

(** The inner loop of [generateCharNgrams]: [i] from [0] to [length - n]. *)
Definition ngramsOfLength (cleaned : jsstring) (n : nat) : list jsstring :=
  map (fun i => slice i (i + n) cleaned) (seq 0 (length cleaned + 1 - n)).

Definition generateCharNgramsRange (value : jsstring) (min max : nat) : list jsstring :=
  let normalized := collapseSpaces false (toLowerCase value) in
  let cleaned := filter isNgramChar normalized in
  flat_map (ngramsOfLength cleaned) (seq min (max + 1 - min)).

(** [generateCharNgrams(value)] with the default bounds. *)
Definition generateCharNgrams (value : jsstring) : list jsstring :=
  generateCharNgramsRange value 3 5.

End WithHost.

(** [computeOverlap(tokensA, tokensB)] on two sets. *)
Definition computeOverlap (tokensA tokensB : list jsstring) : nat :=
  fold_left (fun count token => if mem token tokensB then count + 1 else count)
            tokensA 0.

End Text.

(* ===================================================================== *)
(** * The class TfIdfVectorizer, as a term-vector model *)
(* ===================================================================== *)

Module TfIdf.
Section WithHost.
Context {host : JsHost}.

(** The class [TfIdfVectorizer] that seo-mapper.ts imports from './tfidf';
    its text stands in the tree after the code of src/lib/exporters.ts. This
    module states what the class computes as a term-vector model; the module
    [TfIdfClass] follows the text of the class statement by statement, and
    the two are proved to agree. A model is built once from a corpus of
    token sequences and holds the vocabulary (the terms in first-seen order,
    a term's dense index being its position) and the inverse document
    frequency of every term. *)
Record TfIdfVectorizer := {
  vocabulary : list jsstring;
  idf : list Q
}.

(** [df], the number of corpus documents that contain
    the term at least once. *)
Definition documentFrequency (corpus : list (list jsstring)) (term : jsstring) : nat :=
  length (filter (mem term) corpus).

(** The weight [Math.log((totalDocs + 1) / (docFreq[i] + 1)) + 1] of a term. *)
Definition inverseDocumentFrequency (N df : nat) : Q :=
  (Math_log (ofNat (N + 1) / ofNat (df + 1)) + 1)%Q.

(** [new TfIdfVectorizer(corpus)]. *)
Definition build (corpus : list (list jsstring)) : TfIdfVectorizer :=
  let vocab := setOf (concat corpus) in
  {| vocabulary := vocab;
     idf := map (fun term =>
                   inverseDocumentFrequency (length corpus)
                                            (documentFrequency corpus term))
                vocab |}.

(** The raw count of a vocabulary term in a token
    sequence. Tokens outside the vocabulary are never counted. *)
Definition termCount (term : jsstring) (tokens : list jsstring) : nat :=
  length (filter (jsstring_eqb term) tokens).

(** The dot product of two vectors of one model. *)
Definition dot (a b : list Q) : Q :=
  fold_left (fun acc xy => (acc + fst xy * snd xy)%Q) (combine a b) 0%Q.

(** The L2 norm. *)
Definition norm (v : list Q) : Q := Math_sqrt (dot v v).

(** [vectorize(tokens)], the term counts over the
    vocabulary times the weights, L2-normalized; a vector of norm zero is
    returned as it is. *)
Definition vectorize (model : TfIdfVectorizer) (tokens : list jsstring) : list Q :=
  let weighted :=
    map (fun tw => (ofNat (termCount (fst tw) tokens) * snd tw)%Q)
        (combine (vocabulary model) (idf model)) in
  let n := norm weighted in
  if Qeq_bool n 0 then weighted else map (fun x => (x / n)%Q) weighted.

(** [similarity(a, b)]. *)
Definition similarity (model : TfIdfVectorizer) (a b : list Q) : Q := dot a b.

End WithHost.
End TfIdf.

(* ===================================================================== *)
(** * src/lib/types.ts *)
(* ===================================================================== *)

Module SeoCategory.
Record t := {
  id : jsstring;
  rawPath : jsstring;
  levels : list jsstring;
  tokens : list jsstring;
  normalizedText : jsstring
}.
End SeoCategory.

(** A row of the first sheet: column header and formatted cell text. *)
Definition Row := list (jsstring * jsstring).

Module ProductRecord.
Record t := {
  id : jsstring;
  sourceFile : jsstring;
  rowIndex : nat;
  fields : Row;
  productName : jsstring;
  categoryOld : option jsstring;
  description : option jsstring;
  aggregatedText : jsstring;
  tokens : list jsstring
}.
End ProductRecord.

Module CandidateMatch.
Record t := {
  categoryId : jsstring;
  categoryPath : jsstring;
  score : Q;
  overlap : nat;
  jaccard : Q
}.

(** [{ ...candidate, score: s }]. *)
Definition withScore (c : t) (s : Q) : t :=
  {| categoryId := categoryId c; categoryPath := categoryPath c;
     score := s; overlap := overlap c; jaccard := jaccard c |}.
End CandidateMatch.

Module MappingOptions.
Record t := {
  similarityThreshold : Q;
  gapThreshold : Q;
  tokenOverlapThreshold : Q;
  useOpenAI : bool;
  openAIApiKey : option jsstring;
  confidenceMinPercent : Q
}.
End MappingOptions.

Inductive Status := mapped | not_mapped.

Definition Status_eqb (a b : Status) : bool :=
  match a, b with
  | mapped, mapped | not_mapped, not_mapped => true
  | _, _ => false
  end.

(** The numbers printed in a summary,
    [score=.., overlap=.., gap=.., jaccard=..], each with two decimals. *)
Record Summary := {
  sum_score : Q;
  sum_overlap : nat;
  sum_gap : Q;
  sum_jaccard : Q
}.

(** Exceptions. *)
Inductive Exn :=
| SeoStructureNotLoaded
    (* new Error('SEO структура не загружена') *)
| EmbeddingsRequestFailed (status : Z) (errorText : jsstring)
    (* new Error(`OpenAI embeddings request failed (${status}): ${errorText}`) *)
| HostException (message : jsstring)
    (* raised by fetch, response.json() or a malformed body *)
| TypeErrorUndefined.
    (* a property of undefined was read *)

(** The reason trail is a text whose pieces are joined by ['; ']; it is kept
    as the list of its pieces, the empty list being the empty string. *)
Inductive ReasonPart :=
| AutoMapped (s : option Summary)       (* 'Автоматически сопоставлено (..)' *)
| LowConfidence (s : option Summary)    (* 'Недостаточная уверенность (..)' *)
| NoCandidates                          (* 'Кандидаты не найдены' *)
| CategoryNotFound                      (* 'Категория не найдена' *)
| OpenAINoText    (* 'OpenAI: недостаточно текста для построения эмбеддингов' *)
| OpenAIConfirmed (score gap : Q)
    (* 'OpenAI embeddings подтвердили категорию (score=.., gap=..)' *)
| OpenAINoMatch (max gap : Q)
    (* 'OpenAI embeddings не дали уверенного совпадения (max=.., gap=..)' *)
| OpenAIFallbackError (e : Exn)         (* `OpenAI fallback error: ${message}` *)
| SummaryText (s : Summary)             (* a bare summary *)
| ConfidenceFloor.                      (* 'Порог уверенности не достигнут' *)

Module MappedProduct.
Record t := {
  product : ProductRecord.t;            (* ...product *)
  seoCategory : option jsstring;
  confidence : Z;
  status : Status;
  candidates : list CandidateMatch.t;
  reason : list ReasonPart
}.
End MappedProduct.

Module MappingStatistics.
Record t := {
  brandName : option jsstring;
  sourceFile : jsstring;
  totalProducts : nat;
  mappedProducts : nat;
  unmappedProducts : nat;
  mappingSuccessRate : Q;
  categoriesUsed : nat
}.
End MappingStatistics.

Module MappingResponse.
Record t := {
  items : list MappedProduct.t;
  stats : MappingStatistics.t
}.
End MappingResponse.

(* ===================================================================== *)
(** * Exceptions and the request log *)
(* ===================================================================== *)

Module Effects.

Inductive result (A : Type) : Type :=
| Ok (a : A)
| Throw (e : Exn).

Arguments Ok {A} a.
Arguments Throw {A} e.

(** One call of the embeddings endpoint: the texts sent and the credential
    (the model named in the body is the constant OPENAI_MODEL). *)
Record Request := {
  inputs : list jsstring;
  apiKey : jsstring
}.

(** What comes back. *)
Inductive Reply :=
| ReplyRejected (message : jsstring)
    (* fetch or response.json() rejects, or the body has not the shape read *)
| ReplyNotOk (status : Z) (errorText : jsstring)
    (* response.ok is false *)
| ReplyData (data : list (list Q)).
    (* json.data[i].embedding *)

Definition EmbeddingService := Request -> Reply.

(** A computation reads the log of the requests issued so far and returns a
    value or an exception together with the extended log. *)
Definition M (A : Type) : Type := list Request -> result A * list Request.

Definition ret {A} (a : A) : M A := fun log => (Ok a, log).

Definition throw {A} (e : Exn) : M A := fun log => (Throw e, log).

Definition bind {A B} (m : M A) (k : A -> M B) : M B :=
  fun log =>
    match m log with
    | (Ok a, log') => k a log'
    | (Throw e, log') => (Throw e, log')
    end.

(** [try { m } catch (error) { handler(error) }]. *)
Definition tryCatch {A} (m : M A) (handler : Exn -> M A) : M A :=
  fun log =>
    match m log with
    | (Ok a, log') => (Ok a, log')
    | (Throw e, log') => handler e log'
    end.

(** An exception raised by code that issues no request. *)
Definition lift {A} (r : result A) : M A := fun log => (r, log).

(** [for (const x of xs) { ys.push(await f(x)) }]. *)
Fixpoint forEach {A B} (f : A -> M B) (xs : list A) : M (list B) :=
  match xs with
  | [] => ret []
  | x :: xs' => bind (f x) (fun y => bind (forEach f xs') (fun ys => ret (y :: ys)))
  end.

Module Notations.
  Notation "x <- m ;; k" := (bind m (fun x => k))
    (at level 61, m at next level, right associativity).
End Notations.

End Effects.

Import Effects.
Import Effects.Notations.

(* ===================================================================== *)
(** * src/lib/seo-mapper.ts *)
(* ===================================================================== *)

Module Mapper.

Record ParsedProducts := {
  brandName : option jsstring;
  sourceFile : jsstring;
  records : list ProductRecord.t
}.

Definition DEFAULT_OPTIONS : MappingOptions.t := {|
  MappingOptions.similarityThreshold := 55 # 100;
  MappingOptions.gapThreshold := 5 # 100;
  MappingOptions.tokenOverlapThreshold := 1;
  MappingOptions.useOpenAI := false;
  MappingOptions.openAIApiKey := None;
  MappingOptions.confidenceMinPercent := 50
|}.

Definition OPENAI_TOP_K : nat := 6.
Definition OPENAI_SIMILARITY_THRESHOLD : Q := 78 # 100.
Definition OPENAI_GAP_THRESHOLD : Q := 2 # 100.

(** [xs.map((x, index) => f(x, index))]. *)
Definition mapi {A B} (f : A -> nat -> B) (xs : list A) : list B :=
  map (fun ix => f (snd ix) (fst ix)) (combine (seq 0 (length xs)) xs).

(** [xs.sort((a, b) => key(b) - key(a))]: the sort of the language is stable,
    so with this comparator the result is the one list that is non-increasing
    in [key] and keeps elements of equal key in their order. *)
Fixpoint insertDescBy {A} (key : A -> Q) (x : A) (sorted : list A) : list A :=
  match sorted with
  | [] => [x]
  | y :: rest =>
      if Qle_bool (key y) (key x) then x :: y :: rest
      else y :: insertDescBy key x rest
  end.

Definition sortDescBy {A} (key : A -> Q) (xs : list A) : list A :=
  fold_right (insertDescBy key) [] xs.

(** [new Map()] with [set] and [get]: the binding set last is found first. *)
Definition CategoryMap := list (jsstring * SeoCategory.t).

Definition mapSet (k : jsstring) (v : SeoCategory.t) (m : CategoryMap) : CategoryMap :=
  (k, v) :: m.

Fixpoint mapGet (k : jsstring) (m : CategoryMap) : option SeoCategory.t :=
  match m with
  | [] => None
  | (k', v) :: m' => if jsstring_eqb k k' then Some v else mapGet k m'
  end.

(** [row[key]]. *)
Fixpoint cell (row : Row) (key : jsstring) : option jsstring :=
  match row with
  | [] => None
  | (k, v) :: row' => if jsstring_eqb key k then Some v else cell row' key
  end.

(** [a ?? b]. *)
Definition orElse {A} (a : option A) (b : A) : A :=
  match a with Some x => x | None => b end.

(** [s || undefined]. *)
Definition orUndefined (s : jsstring) : option jsstring :=
  if truthy s then Some s else None.

(** [rawPath.split('///')]. [cur] is the piece being read, reversed. *)
Fixpoint splitLevels (cur : jsstring) (s : jsstring) : list jsstring :=
  match s with
  | [] => [rev cur]
  | 47%N :: 47%N :: 47%N :: rest => rev cur :: splitLevels [] rest
  | c :: s' => splitLevels (c :: cur) s'
  end.

Section WithHost.
Context {host : JsHost}.

(** The body of [rows.forEach] in [parseSeoStructure]: one cell of column A,
    with the identifier drawn for it; [None] when the row is skipped. *)
Definition categoryOfCell (uuid : jsstring) (cell0 : jsstring) : option SeoCategory.t :=
  if negb (truthy cell0) then None
  else
    let rawPath := trim cell0 in
    if negb (truthy rawPath) then None
    else
      let levels := filter truthy (map trim (splitLevels [] rawPath)) in
      let tokens := Text.normalizeTokens (Some rawPath) in
      Some {| SeoCategory.id := uuid;
              SeoCategory.rawPath := rawPath;
              SeoCategory.levels := levels;
              SeoCategory.tokens := tokens;
              SeoCategory.normalizedText := Text.joinTokens tokens |}.

(** The body of [rows.map] in [parseProducts]. *)
Definition recordOfRow (uuid filename : jsstring) (row : Row) (index : nat)
  : ProductRecord.t :=
  let productName :=
    trim (orElse (cell row (str "Product name"))
                 (orElse (cell row (str "product name")) [])) in
  let categoryOld :=
    orUndefined (trim (orElse (cell row (str "Category"))
                              (orElse (cell row (str "category")) []))) in
  let description :=
    orUndefined (trim (orElse (cell row (str "Description"))
                              (orElse (cell row (str "description")) []))) in
  let metaDescription := trim (orElse (cell row (str "Meta description")) []) in
  let pageTitle := trim (orElse (cell row (str "Page title")) []) in
  let seoName := trim (orElse (cell row (str "SEO name")) []) in
  let characteristics :=
    trim (orElse (cell row [1061; 1072; 1088; 1072; 1082; 1090; 1077; 1088;
                            1080; 1089; 1090; 1080; 1082; 1080]%N) []) in
  let aggregatedText :=
    join (str " ")
         (filter truthy
                 [productName; orElse categoryOld []; orElse description [];
                  metaDescription; pageTitle; seoName; characteristics]) in
  let tokens := Text.normalizeTokens (Some aggregatedText) in
  {| ProductRecord.id := uuid;
     ProductRecord.sourceFile := filename;
     ProductRecord.rowIndex := index;
     ProductRecord.fields := row;
     ProductRecord.productName := productName;
     ProductRecord.categoryOld := categoryOld;
     ProductRecord.description := description;
     ProductRecord.aggregatedText := aggregatedText;
     ProductRecord.tokens := tokens |}.

(** [normalizeVector]; the conversion to 32-bit floats is not modelled. *)
Definition normalizeVector (vector : list Q) : list Q :=
  let norm := Math_sqrt (fold_left (fun norm x => (norm + x * x)%Q) vector 0%Q) in
  if Qeq_bool norm 0 then vector
  else map (fun x => (x / norm)%Q) vector.

(** [cosineSimilarity]: the dot product over the common length. *)
Definition cosineSimilarity (vecA vecB : list Q) : Q :=
  fold_left (fun dot ab => (dot + fst ab * snd ab)%Q) (combine vecA vecB) 0%Q.

(** ** The embedding call *)

Section WithService.
Variable service : EmbeddingService.

(** [fetchOpenAIEmbeddings(inputs, apiKey)]. *)
Definition fetchOpenAIEmbeddings (inputs : list jsstring) (apiKey : jsstring)
  : M (list (list Q)) :=
  fun log =>
    let request := {| Effects.inputs := inputs; Effects.apiKey := apiKey |} in
    let log' := log ++ [request] in
    match service request with
    | ReplyRejected message => (Throw (HostException message), log')
    | ReplyNotOk status errorText =>
        (Throw (EmbeddingsRequestFailed status errorText), log')
    | ReplyData data => (Ok (map normalizeVector data), log')
    end.

(** ** The semantic reranker *)

Record Refinement := {
  r_status : Status;
  r_bestCandidate : option CandidateMatch.t;
  r_rankedCandidates : list CandidateMatch.t;
  r_confidence : Z;
  r_reason : ReasonPart
}.

(** [best && second ? best.score - second.score : best?.score ?? 0]. *)
Definition gapOf (best second : option CandidateMatch.t) : Q :=
  match best, second with
  | Some b, Some s => (CandidateMatch.score b - CandidateMatch.score s)%Q
  | Some b, None => CandidateMatch.score b
  | None, _ => 0%Q
  end.

(** [best?.score ?? 0]. *)
Definition scoreOrZero (best : option CandidateMatch.t) : Q :=
  match best with Some b => CandidateMatch.score b | None => 0%Q end.

(** [Math.round((best?.score ?? 0) * 100)]. *)
Definition percentOf (best : option CandidateMatch.t) : Z :=
  Math_round (scoreOrZero best * 100)%Q.

(** [topCandidates.map((candidate, index) => ...)] of [refineWithOpenAI]:
    reading [embeddings[0]] or [embeddings[index + 1]] beyond the reply makes
    [cosineSimilarity] read [length] of [undefined]. *)
Fixpoint rescore (productEmbedding : option (list Q)) (embeddings : list (list Q))
         (topCandidates : list CandidateMatch.t) (index : nat)
  : result (list CandidateMatch.t) :=
  match topCandidates with
  | [] => Ok []
  | candidate :: rest =>
      match productEmbedding, nth_error embeddings (index + 1) with
      | Some vecA, Some vecB =>
          let similarity := cosineSimilarity vecA vecB in
          match rescore productEmbedding embeddings rest (S index) with
          | Ok rest' =>
              Ok (CandidateMatch.withScore candidate (toFixed 6 similarity) :: rest')
          | Throw e => Throw e
          end
      | _, _ => Throw TypeErrorUndefined
      end
  end.

(** The acceptance test of the reranker, on the rescored candidates. *)
Definition rerankAccepts (options : MappingOptions.t)
           (best second : option CandidateMatch.t) (gap : Q) : bool :=
  let similarityThreshold :=
    Math_max (MappingOptions.similarityThreshold options) OPENAI_SIMILARITY_THRESHOLD in
  let gapThreshold :=
    Math_max (MappingOptions.gapThreshold options / 2)%Q OPENAI_GAP_THRESHOLD in
  let requiredOverlap :=
    Math_max 0%Q (MappingOptions.tokenOverlapThreshold options - 1)%Q in
  match best with
  | None => false
  | Some b =>
      Qle_bool similarityThreshold (CandidateMatch.score b)
      && Qle_bool requiredOverlap (ofNat (CandidateMatch.overlap b))
      && (match second with None => true | Some _ => Qle_bool gapThreshold gap end)
  end.

(** What [refineWithOpenAI] computes once the embeddings are there. *)
Definition refineWithEmbeddings (options : MappingOptions.t)
           (rankedCandidates topCandidates : list CandidateMatch.t)
           (embeddings : list (list Q)) : result (option Refinement) :=
  let productEmbedding := nth_error embeddings 0 in
  match rescore productEmbedding embeddings topCandidates 0 with
  | Throw e => Throw e
  | Ok rescoredTop =>
      let rescoredSorted := sortDescBy CandidateMatch.score rescoredTop in
      let best := nth_error rescoredSorted 0 in
      let second := nth_error rescoredSorted 1 in
      let gap := gapOf best second in
      let confidencePercent := percentOf best in
      let mergedCandidates :=
        sortDescBy CandidateMatch.score
                   (rescoredSorted ++ skipn (length topCandidates) rankedCandidates) in
      if rerankAccepts options best second gap then
        Ok (Some {| r_status := mapped;
                    r_bestCandidate := best;
                    r_rankedCandidates := mergedCandidates;
                    r_confidence := confidencePercent;
                    r_reason := OpenAIConfirmed (toFixed 2 (scoreOrZero best))
                                                (toFixed 2 gap) |})
      else
        Ok (Some {| r_status := not_mapped;
                    r_bestCandidate := best;
                    r_rankedCandidates := mergedCandidates;
                    r_confidence := confidencePercent;
                    r_reason := OpenAINoMatch (toFixed 2 (scoreOrZero best))
                                              (toFixed 2 gap) |})
  end.

(** [category?.rawPath ?? candidate.categoryPath]. *)
Definition candidateText (categoryMap : CategoryMap) (candidate : CandidateMatch.t)
  : jsstring :=
  match mapGet (CandidateMatch.categoryId candidate) categoryMap with
  | Some category => SeoCategory.rawPath category
  | None => CandidateMatch.categoryPath candidate
  end.

(** A credential is used when it is present and not the empty string. *)
Definition usableKey (options : MappingOptions.t) : option jsstring :=
  match MappingOptions.openAIApiKey options with
  | Some k => if truthy k then Some k else None
  | None => None
  end.

(** [refineWithOpenAI(product, rankedCandidates, categoryMap, options)];
    [None] is [null]. *)
Definition refineWithOpenAI (product : ProductRecord.t)
           (rankedCandidates : list CandidateMatch.t)
           (categoryMap : CategoryMap) (options : MappingOptions.t)
  : M (option Refinement) :=
  match usableKey options with
  | None => ret None
  | Some apiKey =>
      let productText := trim (ProductRecord.aggregatedText product) in
      if negb (truthy productText) then
        ret (Some {| r_status := not_mapped;
                     r_bestCandidate := nth_error rankedCandidates 0;
                     r_rankedCandidates := rankedCandidates;
                     r_confidence := 0%Z;
                     r_reason := OpenAINoText |})
      else
        let topCandidates :=
          firstn (Nat.min OPENAI_TOP_K (length rankedCandidates)) rankedCandidates in
        match topCandidates with
        | [] => ret None
        | _ :: _ =>
            let candidateTexts := map (candidateText categoryMap) topCandidates in
            embeddings <- fetchOpenAIEmbeddings (productText :: candidateTexts) apiKey ;;
            lift (refineWithEmbeddings options rankedCandidates topCandidates embeddings)
        end
  end.

(** ** mapProducts: what is built once per run *)

Record Models := {
  categoryMap : CategoryMap;
  wordVectorizer : TfIdf.TfIdfVectorizer;
  categoryWordVectors : list (list Q);
  charVectorizer : TfIdf.TfIdfVectorizer;
  categoryCharVectors : list (list Q)
}.

Definition buildModels (categories : list SeoCategory.t) : Models :=
  let categoryMap :=
    fold_left (fun m category => mapSet (SeoCategory.id category) category m)
              categories [] in
  let wordVectorizer := TfIdf.build (map SeoCategory.tokens categories) in
  let categoryWordVectors :=
    map (fun c => TfIdf.vectorize wordVectorizer (SeoCategory.tokens c)) categories in
  let categoryCharTokens :=
    map (fun c => Text.generateCharNgrams (SeoCategory.rawPath c)) categories in
  let charVectorizer := TfIdf.build categoryCharTokens in
  let categoryCharVectors :=
    map (fun tokens => TfIdf.vectorize charVectorizer tokens) categoryCharTokens in
  {| categoryMap := categoryMap;
     wordVectorizer := wordVectorizer;
     categoryWordVectors := categoryWordVectors;
     charVectorizer := charVectorizer;
     categoryCharVectors := categoryCharVectors |}.

(** ** mapProducts: the hybrid scorer *)

(** [`${product.productName} ${product.categoryOld ?? ''}`]. *)
Definition charSource (product : ProductRecord.t) : jsstring :=
  ProductRecord.productName product ++ str " "
    ++ orElse (ProductRecord.categoryOld product) [].

(** The word-axis and the char-axis similarity of a product and the category
    at [index]. *)
Definition wordScore (models : Models) (product : ProductRecord.t) (index : nat) : Q :=
  let productWordVec :=
    TfIdf.vectorize (wordVectorizer models) (ProductRecord.tokens product) in
  TfIdf.similarity (wordVectorizer models) productWordVec
                   (nth index (categoryWordVectors models) []).

Definition charScore (models : Models) (product : ProductRecord.t) (index : nat) : Q :=
  let charTokens := Text.generateCharNgrams (charSource product) in
  let productCharVec := TfIdf.vectorize (charVectorizer models) charTokens in
  TfIdf.similarity (charVectorizer models) productCharVec
                   (nth index (categoryCharVectors models) []).

(** The legacy-label boost. *)
Definition legacyBoost (product : ProductRecord.t) (category : SeoCategory.t) : Q :=
  let oldTokens := setOf (Text.normalizeTokens (ProductRecord.categoryOld product)) in
  let categoryTokenSet := setOf (SeoCategory.tokens category) in
  if Nat.ltb 0 (length oldTokens) then
    let overlapOld := Text.computeOverlap oldTokens categoryTokenSet in
    if Nat.ltb 0 overlapOld then (5 # 100) * ofNat overlapOld else 0
  else 0.

Definition overlapOf (product : ProductRecord.t) (category : SeoCategory.t) : nat :=
  Text.computeOverlap (setOf (ProductRecord.tokens product))
                      (setOf (SeoCategory.tokens category)).

Definition jaccardOf (product : ProductRecord.t) (category : SeoCategory.t) : Q :=
  let productTokenSet := setOf (ProductRecord.tokens product) in
  let categoryTokenSet := setOf (SeoCategory.tokens category) in
  let overlap := overlapOf product category in
  let unionSize := (length productTokenSet + length categoryTokenSet - overlap)%nat in
  if Nat.ltb 0 unionSize then (ofNat overlap / ofNat unionSize)%Q else 0%Q.

(** The value of [combined] when the candidate is emitted. *)
Definition combinedScore (models : Models) (product : ProductRecord.t)
           (category : SeoCategory.t) (index : nat) : Q :=
  ((6 # 10) * wordScore models product index
   + (4 # 10) * charScore models product index
   + legacyBoost product category
   + (1 # 10) * jaccardOf product category)%Q.

(** The callback of [categories.map] in the loop over the products. *)
Definition candidateOf (models : Models) (product : ProductRecord.t)
           (category : SeoCategory.t) (index : nat) : CandidateMatch.t :=
  {| CandidateMatch.categoryId := SeoCategory.id category;
     CandidateMatch.categoryPath := SeoCategory.rawPath category;
     CandidateMatch.score := toFixed 6 (combinedScore models product category index);
     CandidateMatch.overlap := overlapOf product category;
     CandidateMatch.jaccard := toFixed 6 (jaccardOf product category) |}.

(** The candidates in corpus order, then ranked. *)
Definition scoreCandidates (models : Models) (categories : list SeoCategory.t)
           (product : ProductRecord.t) : list CandidateMatch.t :=
  mapi (candidateOf models product) categories.

Definition rankCandidates (models : Models) (categories : list SeoCategory.t)
           (product : ProductRecord.t) : list CandidateMatch.t :=
  sortDescBy CandidateMatch.score (scoreCandidates models categories product).

(** ** mapProducts: the acceptance gate *)

(** The variables of the loop body. *)
Record Locals := {
  rankedCandidates : list CandidateMatch.t;
  best : option CandidateMatch.t;
  second : option CandidateMatch.t;
  gap : Q;
  summary : option Summary;
  status : Status;
  reason : list ReasonPart;
  confidencePercent : Z
}.

Definition summaryOf (best : option CandidateMatch.t) (gap : Q) : option Summary :=
  match best with
  | Some b => Some {| sum_score := toFixed 2 (CandidateMatch.score b);
                      sum_overlap := CandidateMatch.overlap b;
                      sum_gap := toFixed 2 gap;
                      sum_jaccard := toFixed 2 (CandidateMatch.jaccard b) |}
  | None => None
  end.

(** [allowMapping], for a best candidate that exists. *)
Definition allowMapping (options : MappingOptions.t) (best : CandidateMatch.t)
           (second : option CandidateMatch.t) (gap : Q) : bool :=
  let passesScore :=
    Qle_bool (MappingOptions.similarityThreshold options) (CandidateMatch.score best) in
  let passesOverlap :=
    Qle_bool (MappingOptions.tokenOverlapThreshold options)
             (ofNat (CandidateMatch.overlap best)) in
  let passesGap := Qle_bool (MappingOptions.gapThreshold options) gap in
  let passesJaccard := Qle_bool (3 # 10) (CandidateMatch.jaccard best) in
  (passesScore && passesOverlap && passesGap)
  || (passesScore && passesOverlap && passesJaccard
      && Qle_bool (MappingOptions.gapThreshold options * (4 # 10))%Q gap)
  || (passesScore && passesJaccard
      && Qle_bool (MappingOptions.tokenOverlapThreshold options + 1)%Q
                  (ofNat (CandidateMatch.overlap best))
      && (match second with
          | None => true
          | Some _ => Qle_bool (MappingOptions.gapThreshold options * (2 # 10))%Q gap
          end))
  || (passesScore && passesJaccard
      && Qle_bool (MappingOptions.similarityThreshold options + (8 # 100))%Q
                  (CandidateMatch.score best)).

(** From the sort of the candidates to the end of the lexical verdict. *)
Definition lexicalGate (options : MappingOptions.t)
           (rankedCandidates : list CandidateMatch.t) : Locals :=
  let best := nth_error rankedCandidates 0 in
  let second := nth_error rankedCandidates 1 in
  let gap := gapOf best second in
  let summary := summaryOf best gap in
  let confidencePercent := percentOf best in
  match best with
  | None =>
      {| rankedCandidates := rankedCandidates; best := best; second := second;
         gap := gap; summary := summary;
         status := not_mapped; reason := [NoCandidates];
         confidencePercent := confidencePercent |}
  | Some b =>
      if allowMapping options b second gap then
        {| rankedCandidates := rankedCandidates; best := best; second := second;
           gap := gap; summary := summary;
           status := mapped; reason := [AutoMapped summary];
           confidencePercent := confidencePercent |}
      else
        {| rankedCandidates := rankedCandidates; best := best; second := second;
           gap := gap; summary := summary;
           status := not_mapped; reason := [LowConfidence summary];
           confidencePercent := confidencePercent |}
  end.

(** ** mapProducts: the rerank step *)

(** [reason + (summary ? `; ${summary}` : '')]. *)
Definition withSummary (reason : ReasonPart) (summary : option Summary)
  : list ReasonPart :=
  match summary with
  | Some s => [reason; SummaryText s]
  | None => [reason]
  end.

(** The body of [if (openAIResult) { ... }]. *)
Definition applyRefinement (openAIResult : Refinement) (st : Locals) : Locals :=
  let rankedCandidates := r_rankedCandidates openAIResult in
  let best := nth_error rankedCandidates 0 in
  let second := nth_error rankedCandidates 1 in
  let gap := gapOf best second in
  let summary := summaryOf best gap in
  let confidencePercent := percentOf best in
  match r_status openAIResult, r_bestCandidate openAIResult with
  | mapped, Some chosen =>
      let best := Some chosen in
      let second := nth_error rankedCandidates 1 in
      let gap := gapOf best second in
      let summary := summaryOf best gap in
      {| rankedCandidates := rankedCandidates; best := best; second := second;
         gap := gap; summary := summary;
         status := mapped;
         reason := withSummary (r_reason openAIResult) summary;
         confidencePercent := r_confidence openAIResult |}
  | _, _ =>
      {| rankedCandidates := rankedCandidates; best := best; second := second;
         gap := gap; summary := summary;
         status := status st;
         reason := withSummary (r_reason openAIResult) summary;
         confidencePercent := confidencePercent |}
  end.

(** The [catch] block. *)
Definition onFallbackError (error : Exn) (st : Locals) : Locals :=
  let fallbackMessage := OpenAIFallbackError error in
  {| rankedCandidates := rankedCandidates st; best := best st; second := second st;
     gap := gap st; summary := summary st;
     status := status st;
     reason := match reason st with
               | [] => withSummary fallbackMessage (summary st)
               | _ :: _ => reason st ++ [fallbackMessage]
               end;
     confidencePercent := confidencePercent st |}.

(** [if (status === 'not_mapped' && options.useOpenAI && options.openAIApiKey)
    { try { ... } catch (error) { ... } }]. *)
Definition rerankStep (models : Models) (product : ProductRecord.t)
           (options : MappingOptions.t) (st : Locals) : M Locals :=
  if Status_eqb (status st) not_mapped
     && MappingOptions.useOpenAI options
     && (match usableKey options with Some _ => true | None => false end)
  then
    tryCatch
      (openAIResult <- refineWithOpenAI product (rankedCandidates st)
                                        (categoryMap models) options ;;
       ret (match openAIResult with
            | Some r => applyRefinement r st
            | None => st
            end))
      (fun error => ret (onFallbackError error st))
  else ret st.

(** ** mapProducts: the outcome *)

(** The two statements after the rerank step. *)
Definition annotate (options : MappingOptions.t) (st : Locals) : list ReasonPart :=
  let reason :=
    if Status_eqb (status st) not_mapped
       && Qle_bool (MappingOptions.confidenceMinPercent options)
                   (inject_Z (confidencePercent st))
    then reason st ++ [ConfidenceFloor]
    else reason st in
  match reason with
  | [] =>
      match summary st, status st with
      | Some _, mapped => [AutoMapped (summary st)]
      | Some _, not_mapped => [LowConfidence (summary st)]
      | None, mapped => [AutoMapped None]
      | None, not_mapped => [CategoryNotFound]
      end
  | _ :: _ => reason
  end.

(** The object pushed to [mappedProducts]. *)
Definition outcomeOf (options : MappingOptions.t) (product : ProductRecord.t)
           (st : Locals) : MappedProduct.t :=
  {| MappedProduct.product := product;
     MappedProduct.seoCategory :=
       match status st, best st with
       | mapped, Some b => Some (CandidateMatch.categoryPath b)
       | _, _ => None
       end;
     MappedProduct.confidence := confidencePercent st;
     MappedProduct.status := status st;
     MappedProduct.candidates := firstn 5 (rankedCandidates st);
     MappedProduct.reason := annotate options st |}.

(** The variables of the loop body after the rerank step. *)
Definition verdictOf (models : Models) (categories : list SeoCategory.t)
           (options : MappingOptions.t) (product : ProductRecord.t) : M Locals :=
  rerankStep models product options
             (lexicalGate options (rankCandidates models categories product)).

(** One turn of [for (const product of products.records)]. *)
Definition mapProduct (models : Models) (categories : list SeoCategory.t)
           (options : MappingOptions.t) (product : ProductRecord.t)
  : M MappedProduct.t :=
  st <- verdictOf models categories options product ;;
  ret (outcomeOf options product st).

(** ** mapProducts: the run *)

Definition isMapped (item : MappedProduct.t) : bool :=
  Status_eqb (MappedProduct.status item) mapped.

(** [item.seoCategory] is truthy. *)
Definition usedCategory (item : MappedProduct.t) : option jsstring :=
  match MappedProduct.seoCategory item with
  | Some path => if truthy path then Some path else None
  | None => None
  end.

Fixpoint usedCategories (items : list MappedProduct.t) : list jsstring :=
  match items with
  | [] => []
  | item :: rest =>
      match usedCategory item with
      | Some path => path :: usedCategories rest
      | None => usedCategories rest
      end
  end.

Definition statsOf (products : ParsedProducts) (mappedProducts : list MappedProduct.t)
  : MappingStatistics.t :=
  let mappedCount := length (filter isMapped mappedProducts) in
  let categoriesUsed := length (setOf (usedCategories mappedProducts)) in
  {| MappingStatistics.brandName := brandName products;
     MappingStatistics.sourceFile := sourceFile products;
     MappingStatistics.totalProducts := length mappedProducts;
     MappingStatistics.mappedProducts := mappedCount;
     MappingStatistics.unmappedProducts := length mappedProducts - mappedCount;
     MappingStatistics.mappingSuccessRate :=
       if Nat.ltb 0 (length mappedProducts)
       then (ofNat mappedCount / ofNat (length mappedProducts) * 100)%Q
       else 0%Q;
     MappingStatistics.categoriesUsed := categoriesUsed |}.

(** [mapProducts(categories, products, options)]. *)
Definition mapProducts (categories : list SeoCategory.t) (products : ParsedProducts)
           (options : MappingOptions.t) : M MappingResponse.t :=
  match categories with
  | [] => throw SeoStructureNotLoaded
  | _ :: _ =>
      let models := buildModels categories in
      mappedProducts <- forEach (mapProduct models categories options)
                                (records products) ;;
      ret {| MappingResponse.items := mappedProducts;
             MappingResponse.stats := statsOf products mappedProducts |}
  end.

End WithService.
End WithHost.

End Mapper.

(* ===================================================================== *)
(** * A host for running the model *)
(* ===================================================================== *)

(** Concrete runs need the four host functions. The ones below are right
    on what the runs of this file feed them: lower-casing is right on Latin
    and Russian letters, the Russian stemmer leaves a word without Cyrillic
    letters as it is, and the square root is exact on squares of rationals.
    The logarithm is a truncated series, exact at 1; where a run takes it
    elsewhere, the weight it yields is common to a whole vector and cancels
    when the vector is normalized, or the vector meets a zero vector. *)
Module Standin.

Definition lowerUnit (c : N) : N :=
  if inRange 65 90 c || inRange 1040 1071 c then (c + 32)%N
  else if N.eqb c 1025 then 1105%N
  else c.

Definition lower (s : jsstring) : jsstring := map lowerUnit s.

Definition identityStem (s : jsstring) : jsstring := s.

Definition sqrtQ (x : Q) : Q :=
  let r := Qred x in
  inject_Z (Z.sqrt (Qnum r)) / inject_Z (Z.sqrt (Zpos (Qden r))).

(** [2 (z + z^3/3 + z^5/5 + z^7/7)] at [z = (x-1)/(x+1)]. *)
Definition logQ (x : Q) : Q :=
  let z := Qred ((x - 1) / (x + 1)) in
  let z2 := Qred (z * z) in
  Qred (2 * z * (1 + z2 * ((1 # 3) + z2 * ((1 # 5) + z2 * (1 # 7))))).

#[export] Instance host : JsHost := {|
  toLowerCase := lower;
  stem := identityStem;
  Math_log := logQ;
  Math_sqrt := sqrtQ
|}.

End Standin.

(* ===================================================================== *)
(** * The statements of the specification *)
(* ===================================================================== *)

Import Mapper.

Module Spec.

(** ** The four admission rules of the acceptance gate, as the
    specification words them. *)
Section Rules.
Variable options : MappingOptions.t.
Variable best : CandidateMatch.t.
Variable second : option CandidateMatch.t.

Let scoreB := CandidateMatch.score best.
Let overlapB := ofNat (CandidateMatch.overlap best).
Let jaccardB := CandidateMatch.jaccard best.
Let similarityT := MappingOptions.similarityThreshold options.
Let gapT := MappingOptions.gapThreshold options.
Let overlapT := MappingOptions.tokenOverlapThreshold options.

(** [gap = best.score - second.score] if a second candidate exists, else
    [gap = best.score]. *)
Definition gap : Q :=
  match second with
  | Some s => (scoreB - CandidateMatch.score s)%Q
  | None => scoreB
  end.

Definition R1 : Prop :=
  (similarityT <= scoreB /\ overlapT <= overlapB /\ gapT <= gap)%Q.

Definition R2 : Prop :=
  (similarityT <= scoreB /\ overlapT <= overlapB /\ (3 # 10) <= jaccardB
   /\ (4 # 10) * gapT <= gap)%Q.

Definition R3 : Prop :=
  (similarityT <= scoreB /\ (3 # 10) <= jaccardB /\ overlapT + 1 <= overlapB
   /\ (second = None \/ (2 # 10) * gapT <= gap))%Q.

Definition R4 : Prop :=
  (similarityT <= scoreB /\ (3 # 10) <= jaccardB
   /\ similarityT + (8 # 100) <= scoreB)%Q.

End Rules.

(** ** The acceptance rule of the reranker, as the specification words it:
    [score >= max(similarityThreshold, 0.78)], [overlap >=
    max(0, tokenOverlapThreshold - 1)] and no second candidate or
    [gap >= max(gapThreshold / 2, 0.02)]. *)
Definition RerankRule (options : MappingOptions.t) (best : CandidateMatch.t)
           (second : option CandidateMatch.t) : Prop :=
  (Math_max (MappingOptions.similarityThreshold options) (78 # 100)
   <= CandidateMatch.score best)%Q
  /\ (Math_max 0 (MappingOptions.tokenOverlapThreshold options - 1)
      <= ofNat (CandidateMatch.overlap best))%Q
  /\ (second = None
      \/ (Math_max (MappingOptions.gapThreshold options / 2) (2 # 100)
          <= gap best second)%Q).

(** The shortlist with every score replaced by the cosine of the product
    embedding (the first vector) and the candidate's embedding (the vector
    after it, in the order sent), to six decimals. *)
Definition rescoredBy {host : JsHost} (embeddings : list (list Q))
           (top : list CandidateMatch.t) : list CandidateMatch.t :=
  mapi (fun candidate index =>
          CandidateMatch.withScore candidate
            (toFixed 6 (cosineSimilarity (nth 0 embeddings [])
                                         (nth (index + 1) embeddings []))))
       top.

(** The request that the reranker sends for a product. *)
Definition rerankRequest (models : Models) (product : ProductRecord.t)
           (ranked : list CandidateMatch.t) (key : jsstring) : Request :=
  {| inputs := trim (ProductRecord.aggregatedText product)
                 :: map (candidateText (categoryMap models))
                        (firstn OPENAI_TOP_K ranked);
     apiKey := key |}.



(** What the loop body maintains about [best] and [confidencePercent]. *)
Definition Consistent (st : Locals) : Prop :=
  confidencePercent st = percentOf (best st)
  /\ (status st = mapped -> best st <> None)
  /\ (status st = not_mapped -> best st = nth_error (rankedCandidates st) 0).

(** Two facts about [Math.log] and [Math.sqrt]: the logarithm is not
    negative from 1 on, and a square root is never negative. *)
Definition HostNonneg {host : JsHost} : Prop :=
  (forall q, (1 <= q)%Q -> (0 <= Math_log q)%Q)
  /\ (forall q, (0 <= Math_sqrt q)%Q).

(** ** The combined score, as the specification words it *)

(** The number of distinct tokens of [a] that occur in [b]. *)
Definition intersectionSize (a b : list jsstring) : nat :=
  length (filter (fun token => mem token b) (setOf a)).

(** The number of distinct tokens of [a] and [b] together. *)
Definition unionSize (a b : list jsstring) : nat := length (setOf (a ++ b)).

(** [|intersection| / |union|] of the two token sets (0 when both are empty). *)
Definition jaccardIndex (a b : list jsstring) : Q :=
  (ofNat (intersectionSize a b) / ofNat (unionSize a b))%Q.

(** The stem-overlap count of the legacy label and a category; 0 without a
    label. *)
Definition legacyOverlap {host : JsHost} (product : ProductRecord.t)
           (category : SeoCategory.t) : nat :=
  match ProductRecord.categoryOld product with
  | Some label =>
      intersectionSize (Text.normalizeTokens (Some label))
                       (SeoCategory.tokens category)
  | None => 0
  end.

(** [0.6 * wordCosine + 0.4 * charCosine], plus [0.05 * overlapCount] when the
    product has a legacy label and the count is positive, plus
    [0.1 * |intersection| / |union|]. *)
Definition combinedFormula {host : JsHost} (models : Models)
           (product : ProductRecord.t) (category : SeoCategory.t) (index : nat) : Q :=
  ((6 # 10) * wordScore models product index
   + (4 # 10) * charScore models product index
   + (if Nat.ltb 0 (legacyOverlap product category)
      then (5 # 100) * ofNat (legacyOverlap product category) else 0)
   + (1 # 10) * jaccardIndex (ProductRecord.tokens product)
                             (SeoCategory.tokens category))%Q.


(** ** Orderings of a ranked list *)

(** [x] does not come after [y]: non-increasing keys. *)
Definition notBelow {A : Type} (key : A -> Q) (x y : A) : Prop :=
  (key y <= key x)%Q.

(** For elements that carry their position in the corpus: of two elements
    the one with the larger key comes first, and of two elements with equal
    keys the one with the smaller position. *)
Definition rankedBefore {A : Type} (key : nat * A -> Q) (x y : nat * A) : Prop :=
  (key y < key x)%Q \/ ((key x == key y)%Q /\ fst x < fst y).

(** The configuration with reranking switched off. *)
Definition withoutRerank (options : MappingOptions.t) : MappingOptions.t :=
  {| MappingOptions.similarityThreshold := MappingOptions.similarityThreshold options;
     MappingOptions.gapThreshold := MappingOptions.gapThreshold options;
     MappingOptions.tokenOverlapThreshold := MappingOptions.tokenOverlapThreshold options;
     MappingOptions.useOpenAI := false;
     MappingOptions.openAIApiKey := MappingOptions.openAIApiKey options;
     MappingOptions.confidenceMinPercent := MappingOptions.confidenceMinPercent options |}.

(** Candidates of equal score appear in the order of the category corpus. *)
Definition TiesInCorpusOrder (categories : list SeoCategory.t)
           (out : list CandidateMatch.t) : Prop :=
  forall i j ci cj,
    i < j -> nth_error out i = Some ci -> nth_error out j = Some cj ->
    (CandidateMatch.score ci == CandidateMatch.score cj)%Q ->
    exists a b ca cb,
      a < b
      /\ nth_error categories a = Some ca /\ nth_error categories b = Some cb
      /\ CandidateMatch.categoryId ci = SeoCategory.id ca
      /\ CandidateMatch.categoryId cj = SeoCategory.id cb.

End Spec.


(* ===================================================================== *)
(** * Concrete runs *)
(* ===================================================================== *)

Module Examples.
Import Standin.

Definition uuid (prefix : string) (n : nat) : jsstring :=
  str prefix ++ [(48 + N.of_nat n)%N].

(** The categories that [parseSeoStructure] builds from the cells of
    column A, with the identifiers c0, c1, ... *)
Definition categoriesOf (cells : list jsstring) : list SeoCategory.t :=
  flat_map (fun ic => match categoryOfCell (uuid "c" (fst ic)) (snd ic) with
                      | Some c => [c]
                      | None => []
                      end)
           (combine (seq 0 (length cells)) cells).

(** The records that [parseProducts] builds from the rows of a sheet. *)
Definition productsOf (rows : list Row) : ParsedProducts :=
  {| brandName := None;
     sourceFile := str "products.xlsx";
     records := mapi (fun row index =>
                        recordOfRow (uuid "p" index) (str "products.xlsx") row index)
                     rows |}.

Definition recordOf (row : Row) : ProductRecord.t :=
  recordOfRow (uuid "p" 0) (str "products.xlsx") row 0.

Definition optionsWith (similarity gapT overlapT : Q) (rerank : bool)
  : MappingOptions.t :=
  {| MappingOptions.similarityThreshold := similarity;
     MappingOptions.gapThreshold := gapT;
     MappingOptions.tokenOverlapThreshold := overlapT;
     MappingOptions.useOpenAI := rerank;
     MappingOptions.openAIApiKey := if rerank then Some (str "sk-test") else None;
     MappingOptions.confidenceMinPercent := 50 |}.

(** A service that is down. *)
Definition unreachable : EmbeddingService :=
  fun _ => ReplyRejected (str "fetch failed").

(** Two categories and a product whose only token is the second one's; the
    lexical gate rejects it at similarityThreshold 0.9, and the service
    returns embeddings of equal cosine 0.6 for both categories. *)
Module Ties.
Definition categories := categoriesOf [str "xx"; str "yy"].
Definition product := recordOf [(str "Description", str "yy")].
Definition products := productsOf [[(str "Description", str "yy")]].
Definition options := optionsWith (9 # 10) (5 # 100) 1 true.
Definition service : EmbeddingService :=
  fun _ => ReplyData [[1; 0]; [3 # 5; 4 # 5]; [3 # 5; - (4 # 5)]]%Q.
End Ties.

(** The categories, product and options of [Ties], with a service whose
    category embeddings are opposite to the product's: both cosines are -1. *)
Module Opposite.
Definition service : EmbeddingService :=
  fun _ => ReplyData [[1; 0]; [- (1); 0]; [- (1); 0]]%Q.
End Opposite.

(** One category "abc" and a product named "abc": both cosines and the
    Jaccard index are 1. *)
Module FullMatch.
Definition categories := categoriesOf [str "abc"].
Definition product := recordOf [(str "Product name", str "abc")].
Definition products := productsOf [[(str "Product name", str "abc")]].
End FullMatch.

(** One category and a product whose row has no text at all; the three
    thresholds are set to 0. *)
Module Blank.
Definition categories := categoriesOf [str "abc"].
Definition product := recordOf [].
Definition products := productsOf [[]].
Definition options := optionsWith 0 0 0 false.
End Blank.

(** One category "aa" and a product with the text "aa bb cc": the word
    cosine is 1, the char cosine 0 and the Jaccard index 1/3. *)
Module Thirds.
Definition categories := categoriesOf [str "aa"].
Definition product := recordOf [(str "Description", str "aa bb cc")].
Definition products := productsOf [[(str "Description", str "aa bb cc")]].
End Thirds.

(** The product of [FullMatch] with a description added. *)
Module Described.
Definition product :=
  recordOf [(str "Product name", str "abc"); (str "Description", str "abc def")].
End Described.

(** Seven categories with the one token "yy"; the product's text is "yy".
    All lexical scores are 0.7, the gap is 0 and the gate rejects. The
    service puts the first candidate at cosine 0.8 and the five others that
    are sent at 0; the seventh keeps its lexical 0.7. *)
Module Shortlist.
Definition categories :=
  categoriesOf [str "yy 1"; str "yy 2"; str "yy 3"; str "yy 4"; str "yy 5";
                str "yy 6"; str "yy 7"].
Definition product := recordOf [(str "Description", str "yy")].
Definition products := productsOf [[(str "Description", str "yy")]].
Definition options := optionsWith (65 # 100) (5 # 10) 1 true.
Definition service : EmbeddingService :=
  fun _ => ReplyData [[1; 0]; [4; 3]; [0; 1]; [0; 1]; [0; 1]; [0; 1]; [0; 1]]%Q.
End Shortlist.

End Examples.

(* ===================================================================== *)
(** * The class TfIdfVectorizer, as written *)
(* ===================================================================== *)

(** The text of the class stands in the tree after the code of
    src/lib/exporters.ts. This module follows it statement by statement: the
    vocabulary is a [Map] from token to dense index, filled token by token;
    the document frequencies and the term frequencies are counters in typed
    arrays, bumped by index. Counters are natural numbers here, weights
    rationals. The module [TfIdf] above is what the theorems on the matching
    engine are stated with; the two are proved to agree. *)
Module TfIdfClass.

(** [Map<string, number>], in insertion order. *)
Definition Vocabulary := list (jsstring * nat).

Fixpoint get (m : Vocabulary) (token : jsstring) : option nat :=
  match m with
  | [] => None
  | (k, v) :: m' => if jsstring_eqb token k then Some v else get m' token
  end.

Definition has (m : Vocabulary) (token : jsstring) : bool :=
  match get m token with Some _ => true | None => false end.

(** [m.set(token, v)]: a present key keeps its place and takes the value, a
    new key goes last. *)
Fixpoint set (m : Vocabulary) (token : jsstring) (v : nat) : Vocabulary :=
  match m with
  | [] => [(token, v)]
  | (k, w) :: m' =>
      if jsstring_eqb token k then (k, v) :: m' else (k, w) :: set m' token v
  end.

(** [arr[idx] += 1] on a typed array: a write beyond the end is ignored. *)
Fixpoint increment (idx : nat) (arr : list nat) : list nat :=
  match arr, idx with
  | [], _ => []
  | x :: rest, 0 => (x + 1) :: rest
  | x :: rest, S i => x :: increment i rest
  end.

(** [seen.has(idx)] on a [Set<number>]. *)
Definition seenHas (seen : list nat) (idx : nat) : bool :=
  existsb (Nat.eqb idx) seen.

Section WithHost.
Context {host : JsHost}.

Record t := {
  vocabulary : Vocabulary;
  idf : list Q;
  vocabSize : nat
}.

(** The body of the first [tokens.forEach] of the constructor. *)
Definition addToken (vocab : Vocabulary) (token : jsstring) : Vocabulary :=
  if negb (has vocab token) then set vocab token (length vocab) else vocab.

Definition buildVocabulary (documents : list (list jsstring)) : Vocabulary :=
  fold_left (fun vocab tokens => fold_left addToken tokens vocab) documents [].

(** The body of the second [tokens.forEach]: the counters and the indices
    seen in the document at hand. *)
Definition countToken (vocab : Vocabulary) (state : list nat * list nat)
           (token : jsstring) : list nat * list nat :=
  let (docFreq, seen) := state in
  match get vocab token with
  | Some idx =>
      if negb (seenHas seen idx) then (increment idx docFreq, seen ++ [idx])
      else (docFreq, seen)
  | None => (docFreq, seen)
  end.

Definition countDocument (vocab : Vocabulary) (docFreq : list nat)
           (tokens : list jsstring) : list nat :=
  fst (fold_left (countToken vocab) tokens (docFreq, [])).

Definition documentFrequencies (vocab : Vocabulary)
           (documents : list (list jsstring)) : list nat :=
  fold_left (countDocument vocab) documents (repeat 0 (length vocab)).

(** [new TfIdfVectorizer(documents)]. *)
Definition new (documents : list (list jsstring)) : t :=
  let vocab := buildVocabulary documents in
  let docFreq := documentFrequencies vocab documents in
  let totalDocs := Nat.max 1 (length documents) in
  {| vocabulary := vocab;
     idf := map (fun df => (Math_log (ofNat (totalDocs + 1) / ofNat (df + 1)) + 1)%Q)
                docFreq;
     vocabSize := length vocab |}.

(** The counting loop of [vectorize]. *)
Definition termFrequencies (model : t) (tokens : list jsstring) : list nat :=
  fold_left (fun tf token =>
               match get (vocabulary model) token with
               | Some idx => increment idx tf
               | None => tf
               end)
            tokens (repeat 0 (vocabSize model)).

(** [vectorize(tokens)]. The two arrays of the weighting loop have
    [vocabSize] entries each. *)
Definition vectorize (model : t) (tokens : list jsstring) : list Q :=
  let tf := map (fun ci => (ofNat (fst ci) * snd ci)%Q)
                (combine (termFrequencies model tokens) (idf model)) in
  let norm := Math_sqrt (fold_left (fun norm x => (norm + x * x)%Q) tf 0%Q) in
  if Qeq_bool norm 0 then tf else map (fun x => (x / norm)%Q) tf.

(** [similarity(vecA, vecB)]: the loop runs over [vocabSize] indices; reading
    beyond a vector gives [undefined] and the sum is [NaN], here [None]. *)
Fixpoint similarityFrom (vecA vecB : list Q) (i count : nat) (sum : Q) : option Q :=
  match count with
  | 0 => Some sum
  | S count' =>
      match nth_error vecA i, nth_error vecB i with
      | Some a, Some b => similarityFrom vecA vecB (S i) count' (sum + a * b)%Q
      | _, _ => None
      end
  end.

Definition similarity (model : t) (vecA vecB : list Q) : option Q :=
  similarityFrom vecA vecB 0 (vocabSize model) 0%Q.

End WithHost.
End TfIdfClass.

(** The two similarity axes as [mapProducts] computes them with the class;
    [None] where a vector is read beyond the corpus or the sum is not a
    number. *)
Module ClassScores.
Section WithHost.
Context {host : JsHost}.

Definition wordScore (categories : list SeoCategory.t) (product : ProductRecord.t)
           (index : nat) : option Q :=
  let wordVectorizer := TfIdfClass.new (map SeoCategory.tokens categories) in
  let categoryWordVectors :=
    map (fun c => TfIdfClass.vectorize wordVectorizer (SeoCategory.tokens c))
        categories in
  let productWordVec :=
    TfIdfClass.vectorize wordVectorizer (ProductRecord.tokens product) in
  match nth_error categoryWordVectors index with
  | Some vector => TfIdfClass.similarity wordVectorizer productWordVec vector
  | None => None
  end.

Definition charScore (categories : list SeoCategory.t) (product : ProductRecord.t)
           (index : nat) : option Q :=
  let categoryCharTokens :=
    map (fun c => Text.generateCharNgrams (SeoCategory.rawPath c)) categories in
  let charVectorizer := TfIdfClass.new categoryCharTokens in
  let categoryCharVectors :=
    map (fun tokens => TfIdfClass.vectorize charVectorizer tokens)
        categoryCharTokens in
  let charTokens := Text.generateCharNgrams (Mapper.charSource product) in
  let productCharVec := TfIdfClass.vectorize charVectorizer charTokens in
  match nth_error categoryCharVectors index with
  | Some vector => TfIdfClass.similarity charVectorizer productCharVec vector
  | None => None
  end.

End WithHost.
End ClassScores.

(* ===================================================================== *)
(** * src/lib/seo-mapper.ts: reading the two workbooks *)
(* ===================================================================== *)

Module Parsing.

(** The word of the pattern of [extractBrandName], 'бренд'. *)
Definition BRAND_WORD : jsstring := [1073; 1088; 1077; 1085; 1076]%N.

(** A pattern letter of [BRAND_WORD] under the flag [i] (without [u]): a code
    unit matches when its upper case is the upper case of the letter, which
    for these letters lies 32 below. U+0414 is also the upper case of
    U+1C81. *)
Definition sameLetter (letter c : N) : bool :=
  N.eqb c letter || N.eqb c (letter - 32)
  || (N.eqb letter 1076 && N.eqb c 7297).

Fixpoint matchLiteral (word s : jsstring) : option jsstring :=
  match word, s with
  | [], _ => Some s
  | letter :: word', c :: s' =>
      if sameLetter letter c then matchLiteral word' s' else None
  | _ :: _, [] => None
  end.

(** [[^.]*]: the code units up to the first full stop. *)
Fixpoint takeUntilDot (s : jsstring) : jsstring :=
  match s with
  | [] => []
  | c :: s' => if N.eqb c 46 then [] else c :: takeUntilDot s'
  end.

(** The pattern of [extractBrandName] tried at the head of [s]: the word,
    white space, a hyphen, white space, and the group of the code units
    that are no full stop; the result is the text of the group when the
    pattern matches there. Each run of white space takes all there is: the
    hyphen is no white space, and the group matches whatever follows. *)
Definition matchBrandAt (s : jsstring) : option jsstring :=
  match matchLiteral BRAND_WORD s with
  | Some rest =>
      match trimStart rest with
      | 45%N :: rest' => Some (takeUntilDot (trimStart rest'))
      | _ => None
      end
  | None => None
  end.

(** [filename.match(re)]: the match at the first position that has one. *)
Fixpoint matchBrand (s : jsstring) : option jsstring :=
  match matchBrandAt s with
  | Some group => Some group
  | None =>
      match s with
      | [] => None
      | _ :: s' => matchBrand s'
      end
  end.

(** [extractBrandName(filename)]; [None] is [null]. *)
Definition extractBrandName (filename : jsstring) : option jsstring :=
  match matchBrand filename with
  | Some group => if truthy group then Some (trim group) else None
  | None => None
  end.

Section WithHost.
Context {host : JsHost}.

(** [parseSeoStructure], from the rows of the first sheet on: [cells] has
    [row[0]] of every row, the empty string where a row has none, and
    [uuidv4 n] is what the call number [n] of [uuidv4()] returns. *)
Definition parseSeoStructure (uuidv4 : nat -> jsstring) (cells : list jsstring)
  : list SeoCategory.t :=
  fold_left (fun categories cell0 =>
               match Mapper.categoryOfCell (uuidv4 (length categories)) cell0 with
               | Some category => categories ++ [category]
               | None => categories
               end)
            cells [].

(** [parseProducts], from the rows of the first sheet on. *)
Definition parseProducts (uuidv4 : nat -> jsstring) (rows : list Row)
           (filename : jsstring) : Mapper.ParsedProducts :=
  {| Mapper.brandName := extractBrandName filename;
     Mapper.sourceFile := filename;
     Mapper.records :=
       Mapper.mapi (fun row index => Mapper.recordOfRow (uuidv4 index) filename row index)
                   rows |}.

End WithHost.
End Parsing.

(* ===================================================================== *)
(** * src/lib/exporters.ts: the two category columns *)
(* ===================================================================== *)

Module Exporters.

(** 'Не найдено' and 'не найдено'. *)
Definition NOT_FOUND : jsstring :=
  [1053; 1077; 32; 1085; 1072; 1081; 1076; 1077; 1085; 1086]%N.

Definition not_found_lower : jsstring :=
  [1085; 1077; 32; 1085; 1072; 1081; 1076; 1077; 1085; 1086]%N.

Section WithHost.
Context {host : JsHost}.

(** [buildCategoryBrand(brandName, categoryPath)]; [None] is [null] or
    [undefined]. *)
Definition buildCategoryBrand (brandName : option jsstring)
           (categoryPath : option jsstring) : jsstring :=
  let normalized := match categoryPath with Some path => trim path | None => [] end in
  if negb (truthy normalized) then Mapper.orElse brandName []
  else if jsstring_eqb (toLowerCase normalized) not_found_lower then NOT_FOUND
  else
    match brandName with
    | None => normalized
    | Some brand =>
        if negb (truthy brand) then normalized
        else
          let levels := filter truthy (map trim (Mapper.splitLevels [] normalized)) in
          match levels with
          | [] => brand ++ str "///" ++ normalized ++ str " " ++ brand
          | _ :: _ =>
              join (str " ")
                   (map (fun level => brand ++ str "///" ++ level) levels ++ [brand])
          end
    end.

(** [normalizedCategory] of [buildRow]. *)
Definition normalizedCategory (seoCategory : option jsstring) : jsstring :=
  let rawCategory := Mapper.orElse seoCategory NOT_FOUND in
  let joined :=
    join (str "///") (filter truthy (map trim (Mapper.splitLevels [] rawCategory))) in
  if truthy joined then joined else NOT_FOUND.

(** [(product.fields['Brand'] as string) || (product.fields['brand'] as string)
    || undefined]. *)
Definition inferredBrand (fields : Row) : option jsstring :=
  match Mapper.cell fields (str "Brand") with
  | Some (c :: brand) => Some (c :: brand)
  | _ =>
      match Mapper.cell fields (str "brand") with
      | Some (c :: brand) => Some (c :: brand)
      | _ => None
      end
  end.

(** [row['Category']] and [row['Category brand']] of [buildRow]. *)
Definition categoryColumn (product : MappedProduct.t) : jsstring :=
  normalizedCategory (MappedProduct.seoCategory product).

Definition categoryBrandColumn (product : MappedProduct.t) (brandName : option jsstring)
  : jsstring :=
  let brand :=
    match brandName with
    | Some brand => Some brand
    | None => inferredBrand (ProductRecord.fields (MappedProduct.product product))
    end in
  buildCategoryBrand brand (Some (normalizedCategory (MappedProduct.seoCategory product))).

End WithHost.
End Exporters.

(* ===================================================================== *)
(** * session/store.ts *)
(* ===================================================================== *)

(** The store is the module-level [Map]; a function takes it and returns it.
    A session object is reached through the map only, so a write to the
    object is a write to the binding of its key. The clock and the
    identifier generator are arguments: [now] is what [Date.now()] returns
    in the call, [uuid] what [uuidv4()] returns. *)
Module SessionStore.

Record ProductPayload := {
  parsed : Mapper.ParsedProducts;               (* ...parsedProducts *)
  id : jsstring;
  mapped : option MappingResponse.t
}.

Record SessionData := {
  sessionId : jsstring;                         (* id *)
  createdAt : Z;
  categories : option (list SeoCategory.t);
  products : list ProductPayload
}.

(** [Map<string, SessionData>], in insertion order. *)
Definition Sessions := list (jsstring * SessionData).

Fixpoint get (sessions : Sessions) (key : jsstring) : option SessionData :=
  match sessions with
  | [] => None
  | (k, v) :: rest => if jsstring_eqb key k then Some v else get rest key
  end.

Fixpoint set (sessions : Sessions) (key : jsstring) (value : SessionData) : Sessions :=
  match sessions with
  | [] => [(key, value)]
  | (k, v) :: rest =>
      if jsstring_eqb key k then (k, value) :: rest else (k, v) :: set rest key value
  end.

(** [sessions.delete(key)]: the key has no binding afterwards. *)
Definition delete (sessions : Sessions) (key : jsstring) : Sessions :=
  filter (fun binding => negb (jsstring_eqb key (fst binding))) sessions.

Definition SESSION_TTL_MS : Z := 1000 * 60 * 60.

Inductive StoreError :=
| SessionNotFound      (* 'Сессия не найдена' *)
| DatasetNotFound.     (* 'Файл товаров не найден в сессии' *)

Definition createSession (uuid : jsstring) (now : Z) (sessions : Sessions)
  : SessionData * Sessions :=
  let session := {| sessionId := uuid; createdAt := now;
                    categories := None; products := [] |} in
  (session, set sessions uuid session).

Definition getSession (now : Z) (key : jsstring) (sessions : Sessions)
  : option SessionData * Sessions :=
  match get sessions key with
  | None => (None, sessions)
  | Some session =>
      if Z.ltb SESSION_TTL_MS (now - createdAt session)
      then (None, delete sessions key)
      else (Some session, sessions)
  end.

Definition deleteSession (key : jsstring) (sessions : Sessions) : Sessions :=
  delete sessions key.

Definition withoutMapping (product : ProductPayload) : ProductPayload :=
  {| parsed := parsed product; id := id product; mapped := None |}.

Definition upsertSeoCategories (now : Z) (key : jsstring)
           (newCategories : list SeoCategory.t) (sessions : Sessions)
  : (StoreError + SessionData) * Sessions :=
  match getSession now key sessions with
  | (None, sessions') => (inl SessionNotFound, sessions')
  | (Some session, sessions') =>
      let session' := {| sessionId := sessionId session;
                         createdAt := createdAt session;
                         categories := Some newCategories;
                         products := map withoutMapping (products session) |} in
      (inr session', set sessions' key session')
  end.

Definition addProductDataset (uuid : jsstring) (now : Z) (key : jsstring)
           (parsedProducts : Mapper.ParsedProducts) (sessions : Sessions)
  : (StoreError + ProductPayload) * Sessions :=
  match getSession now key sessions with
  | (None, sessions') => (inl SessionNotFound, sessions')
  | (Some session, sessions') =>
      let payload := {| parsed := parsedProducts; id := uuid; mapped := None |} in
      let session' := {| sessionId := sessionId session;
                         createdAt := createdAt session;
                         categories := categories session;
                         products := products session ++ [payload] |} in
      (inr payload, set sessions' key session')
  end.

(** [target.mapped = mapping] on the first product [find] returns; [None]
    when there is none. *)
Fixpoint setMapping (productId : jsstring) (mapping : MappingResponse.t)
         (items : list ProductPayload) : option (list ProductPayload) :=
  match items with
  | [] => None
  | product :: rest =>
      if jsstring_eqb (id product) productId
      then Some ({| parsed := parsed product; id := id product;
                    mapped := Some mapping |} :: rest)
      else match setMapping productId mapping rest with
           | Some rest' => Some (product :: rest')
           | None => None
           end
  end.

Definition updateMapping (now : Z) (key productId : jsstring)
           (mapping : MappingResponse.t) (sessions : Sessions)
  : (StoreError + unit) * Sessions :=
  match getSession now key sessions with
  | (None, sessions') => (inl SessionNotFound, sessions')
  | (Some session, sessions') =>
      match setMapping productId mapping (products session) with
      | None => (inl DatasetNotFound, sessions')
      | Some products' =>
          let session' := {| sessionId := sessionId session;
                             createdAt := createdAt session;
                             categories := categories session;
                             products := products' |} in
          (inr tt, set sessions' key session')
      end
  end.

Definition clearSession (now : Z) (key : jsstring) (sessions : Sessions)
  : (StoreError + SessionData) * Sessions :=
  match getSession now key sessions with
  | (None, sessions') => (inl SessionNotFound, sessions')
  | (Some session, sessions') =>
      let session' := {| sessionId := sessionId session;
                         createdAt := createdAt session;
                         categories := None;
                         products := [] |} in
      (inr session', set sessions' key session')
  end.

Definition listSessions (sessions : Sessions) : list SessionData :=
  map snd sessions.

End SessionStore.

(* ===================================================================== *)
(** * What a run keeps *)
(* ===================================================================== *)

Module Shape.
Import Mapper.

(** A candidate without its score: the identifier and the path of the
    category, the overlap and the Jaccard index. *)
Definition unscored (candidate : CandidateMatch.t) : jsstring * jsstring * nat * Q :=
  (CandidateMatch.categoryId candidate, CandidateMatch.categoryPath candidate,
   CandidateMatch.overlap candidate, CandidateMatch.jaccard candidate).

Definition unscoredOf (product : ProductRecord.t) (category : SeoCategory.t)
  : jsstring * jsstring * nat * Q :=
  (SeoCategory.id category, SeoCategory.rawPath category,
   overlapOf product category, toFixed 6 (jaccardOf product category)).

(** The variables of the loop body hold one candidate per category of the
    corpus, whatever the scores. *)
Definition NamesCorpus (categories : list SeoCategory.t) (product : ProductRecord.t)
           (st : Locals) : Prop :=
  Permutation (map unscored (rankedCandidates st)) (map (unscoredOf product) categories)
  /\ (forall b, best st = Some b ->
                In (unscored b) (map (unscoredOf product) categories)).

(** A request of the reranker for [product]: the credential of the options,
    the product's text, and after it the paths of [count] categories. *)
Definition RequestFor (categories : list SeoCategory.t) (options : MappingOptions.t)
           (product : ProductRecord.t) (request : Request) : Prop :=
  MappingOptions.useOpenAI options = true
  /\ usableKey options = Some (apiKey request)
  /\ trim (ProductRecord.aggregatedText product) <> []
  /\ exists texts,
       inputs request = trim (ProductRecord.aggregatedText product) :: texts
       /\ length texts = Nat.min OPENAI_TOP_K (length categories)
       /\ Forall (fun text => exists category,
                     In category categories /\ text = SeoCategory.rawPath category)
                 texts.

End Shape.
(* ===================================================================== *)
(** * The matching engine in the arithmetic of the language *)
(* ===================================================================== *)

(** The module [Mapper] above reads a number as the rational it stands for.
    That is enough for what does not turn on rounding: which requests are
    sent, what an exception leaves behind, how the outcome is put together.
    Scores, gaps, thresholds and the confidence do turn on it, so the module
    [F64] gives the engine again, statement by statement, with the numbers
    of the language: binary64 values with NaN, the two infinities and the
    two zeros; typed arrays that round every store to binary32; and
    [toFixed], [Number], [Math.round] and [Math.max] as ECMAScript defines
    them. Strings, tokens, token sets and the request log are the ones of
    the modules above. *)

From Stdlib Require Import Floats.

Set Warnings "-inexact-float".

Module F64.

Local Open Scope float_scope.

(* ===================================================================== *)
(** ** Numbers *)
(* ===================================================================== *)

(** [x !== x]. *)
Definition isNaN (x : float) : bool := negb (x =? x).

(** The number value of an integer: the binary64 value nearest to it, ties
    to even. *)
Definition ofZ (z : Z) : float := SF2Prim (binary_normalize prec emax z 0 false).

(** A count ([size], [length], a value returned by [computeOverlap]) read
    as a number. *)
Definition ofNat (n : nat) : float := ofZ (Z.of_nat n).

(** [Math.fround(x)], the value a [Float32Array] keeps when [x] is stored
    in it: the nearest binary32 value, ties to even; beyond the range of
    binary32 an infinity. *)
Definition fround (x : float) : float :=
  match Prim2SF x with
  | S754_finite s m e => SF2Prim (binary_round 24 128 s m e)
  | _ => x
  end.

(** The text that [toFixed] returns. *)
Inductive Decimal :=
| DecNaN                                 (* 'NaN' *)
| DecInfinity (negative : bool)          (* 'Infinity', '-Infinity' *)
| DecFixed (negative : bool) (n : N) (fractionDigits : nat)
    (* the digits of [n] with a point before the last [fractionDigits] of
       them, after a '-' when [negative] *)
| DecString (x : float).                 (* ToString(x), for 1e21 <= |x| *)

(** [x.toFixed(fractionDigits)] (Number.prototype.toFixed): for a finite [x]
    below 1e21 in magnitude, [n] is the integer for which [n / 10^f] is
    nearest to the exact magnitude of [x], the larger one of two. *)
Definition toFixed (fractionDigits : nat) (x : float) : Decimal :=
  match Prim2SF x with
  | S754_nan => DecNaN
  | S754_infinity s => DecInfinity s
  | S754_zero _ => DecFixed false 0 fractionDigits
  | S754_finite s m e =>
      if 1e21 <=? abs x then DecString x
      else
        let scaled := (Zpos m * 10 ^ Z.of_nat fractionDigits)%Z in
        let n := if (0 <=? e)%Z then (scaled * 2 ^ e)%Z
                 else ((2 * scaled + 2 ^ (- e)) / 2 ^ (1 - e))%Z in
        DecFixed s (Z.to_N n) fractionDigits
  end.

(** [Number(text)] on a text that [toFixed] returned: the binary64 value
    nearest to the decimal, ties to even. *)
Definition Number (text : Decimal) : float :=
  match text with
  | DecNaN => nan
  | DecInfinity s => if s then neg_infinity else infinity
  | DecFixed s N0 _ => if s then neg_zero else 0
  | DecFixed s (Npos n) f =>
      SF2Prim (SFdiv prec emax (S754_finite s n 0)
                     (S754_finite false (Z.to_pos (10 ^ Z.of_nat f)) 0))
  | DecString x => x
  end.

(** [Math.round(x)]: the integer nearest to [x], the larger one of two; a
    result of zero has the sign of [x]. *)
Definition Math_round (x : float) : float :=
  match Prim2SF x with
  | S754_finite s m e =>
      if (0 <=? e)%Z then x
      else
        let signed := if s then Zneg m else Zpos m in
        let n := ((2 * signed + 2 ^ (- e)) / 2 ^ (1 - e))%Z in
        if (n =? 0)%Z then (if s then neg_zero else 0) else ofZ n
  | _ => x
  end.

(** [Math.max(a, b)]: NaN if one of them is; of the two zeros the positive
    one is the larger. *)
Definition Math_max (a b : float) : float :=
  if isNaN a || isNaN b then nan
  else if a <? b then b
  else if b <? a then a
  else match Prim2SF a, Prim2SF b with
       | S754_zero sa, S754_zero sb => if sa && sb then neg_zero else 0
       | _, _ => a
       end.

(** [Math.log] and [Math.sqrt], which the language leaves to the
    implementation. *)
Class MathHost := {
  Math_log : float -> float;
  Math_sqrt : float -> float
}.

(** [array[i]] in a product: beyond the end it is [undefined], which is not
    a number. *)
Definition at_ (array : list float) (i : nat) : float := nth i array nan.

(* ===================================================================== *)
(** ** The class TfIdfVectorizer *)
(* ===================================================================== *)

(** The vocabulary is the [Map] of [TfIdfClass]; [docFreq], [idf] and [tf]
    are [Float32Array]s. *)
Module TfIdfVectorizer.

(** [arr[idx] += 1] on a [Float32Array]; a write beyond the end is
    ignored. *)
Fixpoint increment (idx : nat) (arr : list float) : list float :=
  match arr, idx with
  | [], _ => []
  | x :: rest, O => fround (x + 1) :: rest
  | x :: rest, S i => x :: increment i rest
  end.

Record t := {
  vocabulary : TfIdfClass.Vocabulary;
  idf : list float;
  vocabSize : nat
}.

(** The body of the second [tokens.forEach] of the constructor. *)
Definition countToken (vocab : TfIdfClass.Vocabulary)
           (state : list float * list nat) (token : jsstring)
  : list float * list nat :=
  let (docFreq, seen) := state in
  match TfIdfClass.get vocab token with
  | Some idx =>
      if negb (TfIdfClass.seenHas seen idx)
      then (increment idx docFreq, seen ++ [idx])
      else (docFreq, seen)
  | None => (docFreq, seen)
  end.

Definition countDocument (vocab : TfIdfClass.Vocabulary) (docFreq : list float)
           (tokens : list jsstring) : list float :=
  fst (fold_left (countToken vocab) tokens (docFreq, [])).

Definition documentFrequencies (vocab : TfIdfClass.Vocabulary)
           (documents : list (list jsstring)) : list float :=
  fold_left (countDocument vocab) documents (repeat 0 (length vocab)).

Section WithHost.
Context {math : MathHost}.

(** [new TfIdfVectorizer(documents)]. *)
Definition new (documents : list (list jsstring)) : t :=
  let vocab := TfIdfClass.buildVocabulary documents in
  let docFreq := documentFrequencies vocab documents in
  let totalDocs := Nat.max 1 (length documents) in
  {| vocabulary := vocab;
     idf := map (fun df => fround (Math_log ((ofNat totalDocs + 1) / (df + 1)) + 1))
                docFreq;
     vocabSize := length vocab |}.

(** The counting loop of [vectorize]. *)
Definition termFrequencies (model : t) (tokens : list jsstring) : list float :=
  fold_left (fun tf token =>
               match TfIdfClass.get (vocabulary model) token with
               | Some idx => increment idx tf
               | None => tf
               end)
            tokens (repeat 0 (vocabSize model)).

(** [vectorize(tokens)]: [tf[i] *= idf[i]] stores the product rounded, and
    the norm is summed in binary64 over the stored values. *)
Definition vectorize (model : t) (tokens : list jsstring) : list float :=
  let tf := map (fun ci => fround (fst ci * snd ci))
                (combine (termFrequencies model tokens) (idf model)) in
  let norm := Math_sqrt (fold_left (fun norm x => norm + x * x) tf 0) in
  if norm =? 0 then tf else map (fun x => fround (x / norm)) tf.

(** [similarity(vecA, vecB)]: the loop runs over [vocabSize] indices. *)
Definition similarity (model : t) (vecA vecB : list float) : float :=
  fold_left (fun sum i => sum + at_ vecA i * at_ vecB i)
            (seq 0 (vocabSize model)) 0.

End WithHost.
End TfIdfVectorizer.

(* ===================================================================== *)
(** ** The records of src/lib/types.ts that hold numbers *)
(* ===================================================================== *)

Module CandidateMatch.
Record t := {
  categoryId : jsstring;
  categoryPath : jsstring;
  score : float;
  overlap : nat;
  jaccard : float
}.

(** [{ ...candidate, score: s }]. *)
Definition withScore (c : t) (s : float) : t :=
  {| categoryId := categoryId c; categoryPath := categoryPath c;
     score := s; overlap := overlap c; jaccard := jaccard c |}.
End CandidateMatch.

Module MappingOptions.
Record t := {
  similarityThreshold : float;
  gapThreshold : float;
  tokenOverlapThreshold : float;
  useOpenAI : bool;
  openAIApiKey : option jsstring;
  confidenceMinPercent : float
}.
End MappingOptions.

(** The numbers printed in a summary,
    [score=.., overlap=.., gap=.., jaccard=..]. *)
Record Summary := {
  sum_score : Decimal;
  sum_overlap : nat;
  sum_gap : Decimal;
  sum_jaccard : Decimal
}.

(** The pieces of the reason trail. *)
Inductive ReasonPart :=
| AutoMapped (s : option Summary)       (* 'Автоматически сопоставлено (..)' *)
| LowConfidence (s : option Summary)    (* 'Недостаточная уверенность (..)' *)
| NoCandidates                          (* 'Кандидаты не найдены' *)
| CategoryNotFound                      (* 'Категория не найдена' *)
| OpenAINoText    (* 'OpenAI: недостаточно текста для построения эмбеддингов' *)
| OpenAIConfirmed (score gap : Decimal)
    (* 'OpenAI embeddings подтвердили категорию (score=.., gap=..)' *)
| OpenAINoMatch (max gap : Decimal)
    (* 'OpenAI embeddings не дали уверенного совпадения (max=.., gap=..)' *)
| OpenAIFallbackError (e : Exn)         (* `OpenAI fallback error: ${message}` *)
| SummaryText (s : Summary)             (* a bare summary *)
| ConfidenceFloor.                      (* 'Порог уверенности не достигнут' *)

Module MappedProduct.
Record t := {
  product : ProductRecord.t;            (* ...product *)
  seoCategory : option jsstring;
  confidence : float;
  status : Status;
  candidates : list CandidateMatch.t;
  reason : list ReasonPart
}.
End MappedProduct.

Module MappingStatistics.
Record t := {
  brandName : option jsstring;
  sourceFile : jsstring;
  totalProducts : nat;
  mappedProducts : nat;
  unmappedProducts : nat;
  mappingSuccessRate : float;
  categoriesUsed : nat
}.
End MappingStatistics.

Module MappingResponse.
Record t := {
  items : list MappedProduct.t;
  stats : MappingStatistics.t
}.
End MappingResponse.

(** What comes back from the embeddings endpoint; a number of the body is
    any binary64 value that JSON can spell, an infinity for a literal
    beyond the range. *)
Inductive Reply :=
| ReplyRejected (message : jsstring)
    (* fetch or response.json() rejects, or the body has not the shape read *)
| ReplyNotOk (status : Z) (errorText : jsstring)
    (* response.ok is false *)
| ReplyData (data : list (list float)).
    (* json.data[i].embedding *)

Definition EmbeddingService := Request -> Reply.

(* ===================================================================== *)
(** ** src/lib/seo-mapper.ts *)
(* ===================================================================== *)

Definition DEFAULT_OPTIONS : MappingOptions.t := {|
  MappingOptions.similarityThreshold := 0.55;
  MappingOptions.gapThreshold := 0.05;
  MappingOptions.tokenOverlapThreshold := 1;
  MappingOptions.useOpenAI := false;
  MappingOptions.openAIApiKey := None;
  MappingOptions.confidenceMinPercent := 50
|}.

Definition OPENAI_TOP_K : nat := 6.
Definition OPENAI_SIMILARITY_THRESHOLD : float := 0.78.
Definition OPENAI_GAP_THRESHOLD : float := 0.02.

(** The comparator [(a, b) => key(b) - key(a)] at [(x, y)] is positive: the
    sort puts [y] before [x]. A difference that is NaN is not positive; the
    sort reads it as 0. *)
Definition comesAfter {A} (key : A -> float) (x y : A) : bool :=
  0 <? key y - key x.

(** The stable sort by that comparator, as an insertion from the right:
    an element goes before the first element that the comparator does not
    put before it. *)
Fixpoint insertDescBy {A} (key : A -> float) (x : A) (sorted : list A) : list A :=
  match sorted with
  | [] => [x]
  | y :: rest =>
      if comesAfter key x y then y :: insertDescBy key x rest
      else x :: y :: rest
  end.

Definition sortDescBy {A} (key : A -> float) (xs : list A) : list A :=
  fold_right (insertDescBy key) [] xs.

(** Every key is a number: none of them is NaN. *)
Definition Numbers (keys : list float) : Prop :=
  Forall (fun x => isNaN x = false) keys.

(** [xs.sort((a, b) => key(b) - key(a))] (Array.prototype.sort). The result
    holds the elements of the array, each as often as the array does, in
    every case. The sort is stable, and where the comparator is a consistent
    comparison of the elements, as it is when no key is NaN, the result is
    the one sorted order that keeps equal elements as they stood, which
    [sortDescBy] computes. Where the comparator is not consistent the
    language leaves the order to the implementation. *)
Class ArrayHost := {
  Array_sort : forall A : Type, (A -> float) -> list A -> list A;
  Array_sort_permutation :
    forall (A : Type) (key : A -> float) (xs : list A),
      Permutation (Array_sort key xs) xs;
  Array_sort_numbers :
    forall (A : Type) (key : A -> float) (xs : list A),
      Numbers (map key xs) -> Array_sort key xs = sortDescBy key xs
}.

Arguments Array_sort {_} {A} key xs.

(** [normalizeVector(vector)] on the [number[]] of a reply. *)
Definition normalizeVector {math : MathHost} (vector : list float) : list float :=
  let floatArr := map fround vector in
  let norm := Math_sqrt (fold_left (fun norm x => norm + x * x) floatArr 0) in
  if norm =? 0 then floatArr
  else map (fun x => fround (x / norm)) floatArr.

(** [cosineSimilarity(vecA, vecB)]: the dot product over the common
    length. *)
Definition cosineSimilarity (vecA vecB : list float) : float :=
  fold_left (fun dot ab => dot + fst ab * snd ab) (combine vecA vecB) 0.

Section WithHost.
Context {host : JsHost} {math : MathHost} {array : ArrayHost}.

Section WithService.
Variable service : EmbeddingService.

(** [fetchOpenAIEmbeddings(inputs, apiKey)]. *)
Definition fetchOpenAIEmbeddings (inputs : list jsstring) (apiKey : jsstring)
  : M (list (list float)) :=
  fun log =>
    let request := {| Effects.inputs := inputs; Effects.apiKey := apiKey |} in
    let log' := (log ++ [request])%list in
    match service request with
    | ReplyRejected message => (Throw (HostException message), log')
    | ReplyNotOk status errorText =>
        (Throw (EmbeddingsRequestFailed status errorText), log')
    | ReplyData data => (Ok (map normalizeVector data), log')
    end.

(** *** The semantic reranker *)

Record Refinement := {
  r_status : Status;
  r_bestCandidate : option CandidateMatch.t;
  r_rankedCandidates : list CandidateMatch.t;
  r_confidence : float;
  r_reason : ReasonPart
}.

(** [best && second ? best.score - second.score : best?.score ?? 0]. *)
Definition gapOf (best second : option CandidateMatch.t) : float :=
  match best, second with
  | Some b, Some s => CandidateMatch.score b - CandidateMatch.score s
  | Some b, None => CandidateMatch.score b
  | None, _ => 0
  end.

(** [best?.score ?? 0]. *)
Definition scoreOrZero (best : option CandidateMatch.t) : float :=
  match best with Some b => CandidateMatch.score b | None => 0 end.

(** [Math.round((best?.score ?? 0) * 100)]. *)
Definition percentOf (best : option CandidateMatch.t) : float :=
  Math_round (scoreOrZero best * 100).

(** [topCandidates.map((candidate, index) => ...)] of [refineWithOpenAI]:
    reading [embeddings[0]] or [embeddings[index + 1]] beyond the reply makes
    [cosineSimilarity] read [length] of [undefined]. *)
Fixpoint rescore (productEmbedding : option (list float))
         (embeddings : list (list float))
         (topCandidates : list CandidateMatch.t) (index : nat)
  : result (list CandidateMatch.t) :=
  match topCandidates with
  | [] => Ok []
  | candidate :: rest =>
      match productEmbedding, nth_error embeddings (index + 1)%nat with
      | Some vecA, Some vecB =>
          let similarity := cosineSimilarity vecA vecB in
          match rescore productEmbedding embeddings rest (S index) with
          | Ok rest' =>
              Ok (CandidateMatch.withScore candidate (Number (toFixed 6 similarity))
                    :: rest')
          | Throw e => Throw e
          end
      | _, _ => Throw TypeErrorUndefined
      end
  end.

(** The acceptance test of the reranker, on the rescored candidates. *)
Definition rerankAccepts (options : MappingOptions.t)
           (best second : option CandidateMatch.t) (gap : float) : bool :=
  let similarityThreshold :=
    Math_max (MappingOptions.similarityThreshold options) OPENAI_SIMILARITY_THRESHOLD in
  let gapThreshold :=
    Math_max (MappingOptions.gapThreshold options / 2) OPENAI_GAP_THRESHOLD in
  let requiredOverlap :=
    Math_max 0 (MappingOptions.tokenOverlapThreshold options - 1) in
  match best with
  | None => false
  | Some b =>
      (similarityThreshold <=? CandidateMatch.score b)
      && (requiredOverlap <=? ofNat (CandidateMatch.overlap b))
      && (match second with None => true | Some _ => gapThreshold <=? gap end)
  end.

(** What [refineWithOpenAI] computes once the embeddings are there. *)
Definition refineWithEmbeddings (options : MappingOptions.t)
           (rankedCandidates topCandidates : list CandidateMatch.t)
           (embeddings : list (list float)) : result (option Refinement) :=
  let productEmbedding := nth_error embeddings 0 in
  match rescore productEmbedding embeddings topCandidates 0 with
  | Throw e => Throw e
  | Ok rescoredTop =>
      let rescoredSorted := Array_sort CandidateMatch.score rescoredTop in
      let best := nth_error rescoredSorted 0 in
      let second := nth_error rescoredSorted 1 in
      let gap := gapOf best second in
      let confidencePercent := percentOf best in
      let mergedCandidates :=
        Array_sort CandidateMatch.score
                   (rescoredSorted ++ skipn (length topCandidates) rankedCandidates) in
      if rerankAccepts options best second gap then
        Ok (Some {| r_status := mapped;
                    r_bestCandidate := best;
                    r_rankedCandidates := mergedCandidates;
                    r_confidence := confidencePercent;
                    r_reason := OpenAIConfirmed (toFixed 2 (scoreOrZero best))
                                                (toFixed 2 gap) |})
      else
        Ok (Some {| r_status := not_mapped;
                    r_bestCandidate := best;
                    r_rankedCandidates := mergedCandidates;
                    r_confidence := confidencePercent;
                    r_reason := OpenAINoMatch (toFixed 2 (scoreOrZero best))
                                              (toFixed 2 gap) |})
  end.

(** [category?.rawPath ?? candidate.categoryPath]. *)
Definition candidateText (categoryMap : Mapper.CategoryMap)
           (candidate : CandidateMatch.t) : jsstring :=
  match Mapper.mapGet (CandidateMatch.categoryId candidate) categoryMap with
  | Some category => SeoCategory.rawPath category
  | None => CandidateMatch.categoryPath candidate
  end.

(** A credential is used when it is present and not the empty string. *)
Definition usableKey (options : MappingOptions.t) : option jsstring :=
  match MappingOptions.openAIApiKey options with
  | Some k => if truthy k then Some k else None
  | None => None
  end.

(** [refineWithOpenAI(product, rankedCandidates, categoryMap, options)];
    [None] is [null]. *)
Definition refineWithOpenAI (product : ProductRecord.t)
           (rankedCandidates : list CandidateMatch.t)
           (categoryMap : Mapper.CategoryMap) (options : MappingOptions.t)
  : M (option Refinement) :=
  match usableKey options with
  | None => ret None
  | Some apiKey =>
      let productText := trim (ProductRecord.aggregatedText product) in
      if negb (truthy productText) then
        ret (Some {| r_status := not_mapped;
                     r_bestCandidate := nth_error rankedCandidates 0;
                     r_rankedCandidates := rankedCandidates;
                     r_confidence := 0;
                     r_reason := OpenAINoText |})
      else
        let topCandidates :=
          firstn (Nat.min OPENAI_TOP_K (length rankedCandidates)) rankedCandidates in
        match topCandidates with
        | [] => ret None
        | _ :: _ =>
            let candidateTexts := map (candidateText categoryMap) topCandidates in
            embeddings <- fetchOpenAIEmbeddings (productText :: candidateTexts) apiKey ;;
            lift (refineWithEmbeddings options rankedCandidates topCandidates embeddings)
        end
  end.

(** *** mapProducts: what is built once per run *)

Record Models := {
  categoryMap : Mapper.CategoryMap;
  wordVectorizer : TfIdfVectorizer.t;
  categoryWordVectors : list (list float);
  charVectorizer : TfIdfVectorizer.t;
  categoryCharVectors : list (list float)
}.

Definition buildModels (categories : list SeoCategory.t) : Models :=
  let categoryMap :=
    fold_left (fun m category => Mapper.mapSet (SeoCategory.id category) category m)
              categories [] in
  let wordVectorizer := TfIdfVectorizer.new (map SeoCategory.tokens categories) in
  let categoryWordVectors :=
    map (fun c => TfIdfVectorizer.vectorize wordVectorizer (SeoCategory.tokens c))
        categories in
  let categoryCharTokens :=
    map (fun c => Text.generateCharNgrams (SeoCategory.rawPath c)) categories in
  let charVectorizer := TfIdfVectorizer.new categoryCharTokens in
  let categoryCharVectors :=
    map (fun tokens => TfIdfVectorizer.vectorize charVectorizer tokens)
        categoryCharTokens in
  {| categoryMap := categoryMap;
     wordVectorizer := wordVectorizer;
     categoryWordVectors := categoryWordVectors;
     charVectorizer := charVectorizer;
     categoryCharVectors := categoryCharVectors |}.

(** *** mapProducts: the hybrid scorer *)

(** [wordVectorizer.similarity(productWordVec, categoryWordVectors[index])]
    and the same on the char axis, for an [index] of [categories.map]. *)
Definition wordScore (models : Models) (product : ProductRecord.t) (index : nat)
  : float :=
  let productWordVec :=
    TfIdfVectorizer.vectorize (wordVectorizer models) (ProductRecord.tokens product) in
  TfIdfVectorizer.similarity (wordVectorizer models) productWordVec
                             (nth index (categoryWordVectors models) []).

Definition charScore (models : Models) (product : ProductRecord.t) (index : nat)
  : float :=
  let charTokens := Text.generateCharNgrams (Mapper.charSource product) in
  let productCharVec := TfIdfVectorizer.vectorize (charVectorizer models) charTokens in
  TfIdfVectorizer.similarity (charVectorizer models) productCharVec
                             (nth index (categoryCharVectors models) []).

(** [combined] after the statement on the legacy label. *)
Definition withLegacyBoost (product : ProductRecord.t) (category : SeoCategory.t)
           (combined : float) : float :=
  let oldTokens := setOf (Text.normalizeTokens (ProductRecord.categoryOld product)) in
  let categoryTokenSet := setOf (SeoCategory.tokens category) in
  if Nat.ltb 0 (length oldTokens) then
    let overlapOld := Text.computeOverlap oldTokens categoryTokenSet in
    if Nat.ltb 0 overlapOld then combined + 0.05 * ofNat overlapOld else combined
  else combined.

(** [unionSize > 0 ? overlap / unionSize : 0]. *)
Definition jaccardOf (product : ProductRecord.t) (category : SeoCategory.t) : float :=
  let productTokenSet := setOf (ProductRecord.tokens product) in
  let categoryTokenSet := setOf (SeoCategory.tokens category) in
  let overlap := Mapper.overlapOf product category in
  let unionSize := (length productTokenSet + length categoryTokenSet - overlap)%nat in
  if Nat.ltb 0 unionSize then ofNat overlap / ofNat unionSize else 0.

(** The value of [combined] when the candidate is emitted. *)
Definition combinedScore (models : Models) (product : ProductRecord.t)
           (category : SeoCategory.t) (index : nat) : float :=
  let combined :=
    0.6 * wordScore models product index + 0.4 * charScore models product index in
  let combined := withLegacyBoost product category combined in
  combined + 0.1 * jaccardOf product category.

(** The callback of [categories.map] in the loop over the products. *)
Definition candidateOf (models : Models) (product : ProductRecord.t)
           (category : SeoCategory.t) (index : nat) : CandidateMatch.t :=
  {| CandidateMatch.categoryId := SeoCategory.id category;
     CandidateMatch.categoryPath := SeoCategory.rawPath category;
     CandidateMatch.score :=
       Number (toFixed 6 (combinedScore models product category index));
     CandidateMatch.overlap := Mapper.overlapOf product category;
     CandidateMatch.jaccard := Number (toFixed 6 (jaccardOf product category)) |}.

(** The candidates in corpus order, then ranked. *)
Definition scoreCandidates (models : Models) (categories : list SeoCategory.t)
           (product : ProductRecord.t) : list CandidateMatch.t :=
  mapi (candidateOf models product) categories.

Definition rankCandidates (models : Models) (categories : list SeoCategory.t)
           (product : ProductRecord.t) : list CandidateMatch.t :=
  Array_sort CandidateMatch.score (scoreCandidates models categories product).

(** *** mapProducts: the acceptance gate *)

(** The variables of the loop body. *)
Record Locals := {
  rankedCandidates : list CandidateMatch.t;
  best : option CandidateMatch.t;
  second : option CandidateMatch.t;
  gap : float;
  summary : option Summary;
  status : Status;
  reason : list ReasonPart;
  confidencePercent : float
}.

Definition summaryOf (best : option CandidateMatch.t) (gap : float) : option Summary :=
  match best with
  | Some b => Some {| sum_score := toFixed 2 (CandidateMatch.score b);
                      sum_overlap := CandidateMatch.overlap b;
                      sum_gap := toFixed 2 gap;
                      sum_jaccard := toFixed 2 (CandidateMatch.jaccard b) |}
  | None => None
  end.

(** [allowMapping], for a best candidate that exists. *)
Definition allowMapping (options : MappingOptions.t) (best : CandidateMatch.t)
           (second : option CandidateMatch.t) (gap : float) : bool :=
  let passesScore :=
    MappingOptions.similarityThreshold options <=? CandidateMatch.score best in
  let passesOverlap :=
    MappingOptions.tokenOverlapThreshold options
    <=? ofNat (CandidateMatch.overlap best) in
  let passesGap := MappingOptions.gapThreshold options <=? gap in
  let passesJaccard := 0.3 <=? CandidateMatch.jaccard best in
  (passesScore && passesOverlap && passesGap)
  || (passesScore && passesOverlap && passesJaccard
      && (MappingOptions.gapThreshold options * 0.4 <=? gap))
  || (passesScore && passesJaccard
      && (MappingOptions.tokenOverlapThreshold options + 1
          <=? ofNat (CandidateMatch.overlap best))
      && (match second with
          | None => true
          | Some _ => MappingOptions.gapThreshold options * 0.2 <=? gap
          end))
  || (passesScore && passesJaccard
      && (MappingOptions.similarityThreshold options + 0.08
          <=? CandidateMatch.score best)).

(** From the sort of the candidates to the end of the lexical verdict. *)
Definition lexicalGate (options : MappingOptions.t)
           (rankedCandidates : list CandidateMatch.t) : Locals :=
  let best := nth_error rankedCandidates 0 in
  let second := nth_error rankedCandidates 1 in
  let gap := gapOf best second in
  let summary := summaryOf best gap in
  let confidencePercent := percentOf best in
  match best with
  | None =>
      {| rankedCandidates := rankedCandidates; best := best; second := second;
         gap := gap; summary := summary;
         status := not_mapped; reason := [NoCandidates];
         confidencePercent := confidencePercent |}
  | Some b =>
      if allowMapping options b second gap then
        {| rankedCandidates := rankedCandidates; best := best; second := second;
           gap := gap; summary := summary;
           status := mapped; reason := [AutoMapped summary];
           confidencePercent := confidencePercent |}
      else
        {| rankedCandidates := rankedCandidates; best := best; second := second;
           gap := gap; summary := summary;
           status := not_mapped; reason := [LowConfidence summary];
           confidencePercent := confidencePercent |}
  end.

(** *** mapProducts: the rerank step *)

(** [reason + (summary ? `; ${summary}` : '')]. *)
Definition withSummary (reason : ReasonPart) (summary : option Summary)
  : list ReasonPart :=
  match summary with
  | Some s => [reason; SummaryText s]
  | None => [reason]
  end.

(** The body of [if (openAIResult) { ... }]. *)
Definition applyRefinement (openAIResult : Refinement) (st : Locals) : Locals :=
  let rankedCandidates := r_rankedCandidates openAIResult in
  let best := nth_error rankedCandidates 0 in
  let second := nth_error rankedCandidates 1 in
  let gap := gapOf best second in
  let summary := summaryOf best gap in
  let confidencePercent := percentOf best in
  match r_status openAIResult, r_bestCandidate openAIResult with
  | mapped, Some chosen =>
      let best := Some chosen in
      let second := nth_error rankedCandidates 1 in
      let gap := gapOf best second in
      let summary := summaryOf best gap in
      {| rankedCandidates := rankedCandidates; best := best; second := second;
         gap := gap; summary := summary;
         status := mapped;
         reason := withSummary (r_reason openAIResult) summary;
         confidencePercent := r_confidence openAIResult |}
  | _, _ =>
      {| rankedCandidates := rankedCandidates; best := best; second := second;
         gap := gap; summary := summary;
         status := status st;
         reason := withSummary (r_reason openAIResult) summary;
         confidencePercent := confidencePercent |}
  end.

(** The [catch] block. *)
Definition onFallbackError (error : Exn) (st : Locals) : Locals :=
  let fallbackMessage := OpenAIFallbackError error in
  {| rankedCandidates := rankedCandidates st; best := best st; second := second st;
     gap := gap st; summary := summary st;
     status := status st;
     reason := match reason st with
               | [] => withSummary fallbackMessage (summary st)
               | _ :: _ => (reason st ++ [fallbackMessage])%list
               end;
     confidencePercent := confidencePercent st |}.

(** [if (status === 'not_mapped' && options.useOpenAI && options.openAIApiKey)
    { try { ... } catch (error) { ... } }]. *)
Definition rerankStep (models : Models) (product : ProductRecord.t)
           (options : MappingOptions.t) (st : Locals) : M Locals :=
  if Status_eqb (status st) not_mapped
     && MappingOptions.useOpenAI options
     && (match usableKey options with Some _ => true | None => false end)
  then
    tryCatch
      (openAIResult <- refineWithOpenAI product (rankedCandidates st)
                                        (categoryMap models) options ;;
       ret (match openAIResult with
            | Some r => applyRefinement r st
            | None => st
            end))
      (fun error => ret (onFallbackError error st))
  else ret st.

(** *** mapProducts: the outcome *)

(** The two statements after the rerank step. *)
Definition annotate (options : MappingOptions.t) (st : Locals) : list ReasonPart :=
  let reason :=
    if Status_eqb (status st) not_mapped
       && (MappingOptions.confidenceMinPercent options <=? confidencePercent st)
    then (reason st ++ [ConfidenceFloor])%list
    else reason st in
  match reason with
  | [] =>
      match summary st, status st with
      | Some _, mapped => [AutoMapped (summary st)]
      | Some _, not_mapped => [LowConfidence (summary st)]
      | None, mapped => [AutoMapped None]
      | None, not_mapped => [CategoryNotFound]
      end
  | _ :: _ => reason
  end.

(** The object pushed to [mappedProducts]. *)
Definition outcomeOf (options : MappingOptions.t) (product : ProductRecord.t)
           (st : Locals) : MappedProduct.t :=
  {| MappedProduct.product := product;
     MappedProduct.seoCategory :=
       match status st, best st with
       | mapped, Some b => Some (CandidateMatch.categoryPath b)
       | _, _ => None
       end;
     MappedProduct.confidence := confidencePercent st;
     MappedProduct.status := status st;
     MappedProduct.candidates := firstn 5 (rankedCandidates st);
     MappedProduct.reason := annotate options st |}.

(** The variables of the loop body after the rerank step. *)
Definition verdictOf (models : Models) (categories : list SeoCategory.t)
           (options : MappingOptions.t) (product : ProductRecord.t) : M Locals :=
  rerankStep models product options
             (lexicalGate options (rankCandidates models categories product)).

(** One turn of [for (const product of products.records)]. *)
Definition mapProduct (models : Models) (categories : list SeoCategory.t)
           (options : MappingOptions.t) (product : ProductRecord.t)
  : M MappedProduct.t :=
  st <- verdictOf models categories options product ;;
  ret (outcomeOf options product st).

(** *** mapProducts: the run *)

Definition isMapped (item : MappedProduct.t) : bool :=
  Status_eqb (MappedProduct.status item) mapped.

(** [item.seoCategory] is truthy. *)
Definition usedCategory (item : MappedProduct.t) : option jsstring :=
  match MappedProduct.seoCategory item with
  | Some path => if truthy path then Some path else None
  | None => None
  end.

Fixpoint usedCategories (items : list MappedProduct.t) : list jsstring :=
  match items with
  | [] => []
  | item :: rest =>
      match usedCategory item with
      | Some path => path :: usedCategories rest
      | None => usedCategories rest
      end
  end.

Definition statsOf (products : Mapper.ParsedProducts)
           (mappedProducts : list MappedProduct.t) : MappingStatistics.t :=
  let mappedCount := length (filter isMapped mappedProducts) in
  let categoriesUsed := length (setOf (usedCategories mappedProducts)) in
  {| MappingStatistics.brandName := Mapper.brandName products;
     MappingStatistics.sourceFile := Mapper.sourceFile products;
     MappingStatistics.totalProducts := length mappedProducts;
     MappingStatistics.mappedProducts := mappedCount;
     MappingStatistics.unmappedProducts := (length mappedProducts - mappedCount)%nat;
     MappingStatistics.mappingSuccessRate :=
       if Nat.ltb 0 (length mappedProducts)
       then ofNat mappedCount / ofNat (length mappedProducts) * 100
       else 0;
     MappingStatistics.categoriesUsed := categoriesUsed |}.

(** [mapProducts(categories, products, options)]. *)
Definition mapProducts (categories : list SeoCategory.t)
           (products : Mapper.ParsedProducts)
           (options : MappingOptions.t) : M MappingResponse.t :=
  match categories with
  | [] => throw SeoStructureNotLoaded
  | _ :: _ =>
      let models := buildModels categories in
      mappedProducts <- forEach (mapProduct models categories options)
                                (Mapper.records products) ;;
      ret {| MappingResponse.items := mappedProducts;
             MappingResponse.stats := statsOf products mappedProducts |}
  end.

End WithService.
End WithHost.

End F64.

(* ===================================================================== *)
(** * The order of binary64 *)
(* ===================================================================== *)

(** The comparisons of the language are those of IEEE 754. What is needed
    of them is read off the standard's definitions: a value that is not NaN
    has a place in a lexicographic order of integer triples (the class and
    sign, the exponent, the mantissa), and the comparison of two values is
    the comparison of their places. *)
Module Binary64.

Local Open Scope Z_scope.

Definition sf_nan (f : spec_float) : bool :=
  match f with S754_nan => true | _ => false end.

(** The place of a value: zeros in the middle, the infinities at the ends,
    finite values by sign, then exponent, then mantissa. *)
Definition ord (f : spec_float) : Z * Z * Z :=
  match f with
  | S754_zero _ => (0, 0, 0)
  | S754_infinity s => (if s then -2 else 2, 0, 0)
  | S754_nan => (0, 0, 0)
  | S754_finite s m e => if s then (-1, - e, - Zpos m) else (1, e, Zpos m)
  end.

Definition lexlt (a b : Z * Z * Z) : Prop :=
  fst (fst a) < fst (fst b)
  \/ (fst (fst a) = fst (fst b)
      /\ (snd (fst a) < snd (fst b)
          \/ (snd (fst a) = snd (fst b) /\ snd a < snd b))).

Definition lexeq (a b : Z * Z * Z) : Prop :=
  fst (fst a) = fst (fst b) /\ snd (fst a) = snd (fst b) /\ snd a = snd b.

Definition cmpSpec (a b : Z * Z * Z) (c : comparison) : Prop :=
  match c with
  | Lt => lexlt a b
  | Eq => lexeq a b
  | Gt => lexlt b a
  end.

(** The least exponent of binary64. *)
Definition emin64 : Z := -1074.

(** [0 < f]. *)
Definition positive_sf (f : spec_float) : bool := SFltb (S754_zero false) f.

End Binary64.

(* ===================================================================== *)
(** * The statements of the specification on the numbers of the language *)
(* ===================================================================== *)

Module Spec64.
Import F64.

Local Open Scope float_scope.

(** [a >= b] as the language decides it; it fails when one of the two is
    NaN. *)
Definition atLeast (a b : float) : Prop := (b <=? a) = true.

(** ** The four admission rules of the acceptance gate, as the
    specification words them. *)
Section Rules.
Variable options : MappingOptions.t.
Variable best : CandidateMatch.t.
Variable second : option CandidateMatch.t.

Let scoreB := CandidateMatch.score best.
Let overlapB := ofNat (CandidateMatch.overlap best).
Let jaccardB := CandidateMatch.jaccard best.
Let similarityT := MappingOptions.similarityThreshold options.
Let gapT := MappingOptions.gapThreshold options.
Let overlapT := MappingOptions.tokenOverlapThreshold options.

(** [gap = best.score - second.score] if a second candidate exists, else
    [gap = best.score]. *)
Definition gap : float :=
  match second with
  | Some s => scoreB - CandidateMatch.score s
  | None => scoreB
  end.

Definition R1 : Prop :=
  atLeast scoreB similarityT /\ atLeast overlapB overlapT /\ atLeast gap gapT.

Definition R2 : Prop :=
  atLeast scoreB similarityT /\ atLeast overlapB overlapT /\ atLeast jaccardB 0.3
  /\ atLeast gap (0.4 * gapT).

Definition R3 : Prop :=
  atLeast scoreB similarityT /\ atLeast jaccardB 0.3
  /\ atLeast overlapB (overlapT + 1)
  /\ (second = None \/ atLeast gap (0.2 * gapT)).

Definition R4 : Prop :=
  atLeast scoreB similarityT /\ atLeast jaccardB 0.3
  /\ atLeast scoreB (similarityT + 0.08).

End Rules.

(** ** The acceptance rule of the reranker, as the specification words it:
    [score >= max(similarityThreshold, 0.78)], [overlap >=
    max(0, tokenOverlapThreshold - 1)] and no second candidate or
    [gap >= max(gapThreshold / 2, 0.02)]. *)
Definition RerankRule (options : MappingOptions.t) (best : CandidateMatch.t)
           (second : option CandidateMatch.t) : Prop :=
  atLeast (CandidateMatch.score best)
          (Math_max (MappingOptions.similarityThreshold options) 0.78)
  /\ atLeast (ofNat (CandidateMatch.overlap best))
             (Math_max 0 (MappingOptions.tokenOverlapThreshold options - 1))
  /\ (second = None
      \/ atLeast (gap best second)
                 (Math_max (MappingOptions.gapThreshold options / 2) 0.02)).

(** The shortlist with every score replaced by the cosine of the product
    embedding (the first vector) and the candidate's embedding (the vector
    after it, in the order sent), to six decimals. *)
Definition rescoredBy (embeddings : list (list float))
           (top : list CandidateMatch.t) : list CandidateMatch.t :=
  mapi (fun candidate index =>
          CandidateMatch.withScore candidate
            (Number (toFixed 6 (cosineSimilarity (nth 0 embeddings [])
                                                 (nth (index + 1)%nat embeddings [])))))
       top.

(** The request that the reranker sends for a product. *)
Definition rerankRequest (models : Models) (product : ProductRecord.t)
           (ranked : list CandidateMatch.t) (key : jsstring) : Request :=
  {| inputs := trim (ProductRecord.aggregatedText product)
                 :: map (candidateText (categoryMap models))
                        (firstn OPENAI_TOP_K ranked);
     apiKey := key |}.

(** What a turn of the rerank step can be. Either nothing is sent, and the
    verdict stays or it is refined without text; or the request is sent, and
    then the reply is an error or too short, or it is rescored. *)
Section RerankCases.
Context {host : JsHost} {math : MathHost} {array : ArrayHost}.
Variable service : EmbeddingService.
Variable models : Models.
Variable product : ProductRecord.t.
Variable options : MappingOptions.t.

Definition noTextRefinement (st : Locals) : Refinement :=
  {| r_status := not_mapped;
     r_bestCandidate := nth_error (rankedCandidates st) 0;
     r_rankedCandidates := rankedCandidates st;
     r_confidence := 0;
     r_reason := OpenAINoText |}.

Inductive RerankCase (st : Locals) (log : list Request)
  : Locals -> list Request -> Prop :=
| RerankSkipped : RerankCase st log st log
| RerankNoText :
    status st = not_mapped ->
    MappingOptions.useOpenAI options = true ->
    RerankCase st log (applyRefinement (noTextRefinement st) st) log
| RerankFailed key e :
    status st = not_mapped ->
    MappingOptions.useOpenAI options = true ->
    usableKey options = Some key ->
    RerankCase st log (onFallbackError e st)
               (log ++ [rerankRequest models product (rankedCandidates st) key])
| RerankRescored key data r :
    status st = not_mapped ->
    MappingOptions.useOpenAI options = true ->
    usableKey options = Some key ->
    service (rerankRequest models product (rankedCandidates st) key)
    = ReplyData data ->
    refineWithEmbeddings options (rankedCandidates st)
                         (firstn OPENAI_TOP_K (rankedCandidates st))
                         (map normalizeVector data) = Ok (Some r) ->
    RerankCase st log (applyRefinement r st)
               (log ++ [rerankRequest models product (rankedCandidates st) key]).

End RerankCases.

(** What the loop body maintains about [best] and [confidencePercent]. *)
Definition Consistent (st : Locals) : Prop :=
  confidencePercent st = percentOf (best st)
  /\ (status st = mapped -> best st <> None)
  /\ (status st = not_mapped -> best st = nth_error (rankedCandidates st) 0).

(** ** The combined score, as the specification words it *)

(** [|intersection| / |union|] of the two token sets, 0 when both are
    empty. *)
Definition jaccardIndex (a b : list jsstring) : float :=
  if Nat.ltb 0 (Spec.unionSize a b)
  then ofNat (Spec.intersectionSize a b) / ofNat (Spec.unionSize a b)
  else 0.

(** [0.6 * wordCosine + 0.4 * charCosine], plus [0.05 * overlapCount] when the
    product has a legacy label and the count is positive, plus
    [0.1 * |intersection| / |union|], summed from left to right. *)
Definition combinedFormula {host : JsHost} {math : MathHost} (models : Models)
           (product : ProductRecord.t) (category : SeoCategory.t) (index : nat)
  : float :=
  let axes :=
    0.6 * wordScore models product index + 0.4 * charScore models product index in
  let boosted :=
    if Nat.ltb 0 (Spec.legacyOverlap product category)
    then axes + 0.05 * ofNat (Spec.legacyOverlap product category)
    else axes in
  boosted + 0.1 * jaccardIndex (ProductRecord.tokens product)
                               (SeoCategory.tokens category).

(** ** Orderings of a ranked list *)

(** What the sorts need of the keys they compare: the sign of the
    comparator [(a, b) => b - a] at two of them is what [<] says of them,
    any two of them are comparable, and [<], [<=] and [==] are the strict
    part, the order and the equivalence of one preorder on them. This holds
    of numbers, and a NaN among the keys rules it out. *)
Definition Ordered (keys : list float) : Prop :=
  forall x y z, In x keys -> In y keys -> In z keys ->
    (0 <? y - x) = (x <? y)
    /\ (x <=? y) || (y <=? x) = true
    /\ (x <? y) = (x <=? y) && negb (y <=? x)
    /\ (x =? y) = (x <=? y) && (y <=? x)
    /\ ((x <=? y) = true -> (y <=? z) = true -> (x <=? z) = true).

(** [x] does not come after [y]: non-increasing keys. *)
Definition notBelow {A : Type} (key : A -> float) (x y : A) : Prop :=
  atLeast (key x) (key y).

(** For elements that carry their position in the corpus: of two elements
    the one with the larger key comes first, and of two elements with equal
    keys the one with the smaller position. *)
Definition rankedBefore {A : Type} (key : nat * A -> float) (x y : nat * A) : Prop :=
  (key y <? key x) = true \/ ((key x =? key y) = true /\ fst x < fst y).

(** Candidates of equal score appear in the order of the category corpus. *)
Definition TiesInCorpusOrder (categories : list SeoCategory.t)
           (out : list CandidateMatch.t) : Prop :=
  forall i j ci cj,
    i < j -> nth_error out i = Some ci -> nth_error out j = Some cj ->
    (CandidateMatch.score ci =? CandidateMatch.score cj) = true ->
    exists a b ca cb,
      a < b
      /\ nth_error categories a = Some ca /\ nth_error categories b = Some cb
      /\ CandidateMatch.categoryId ci = SeoCategory.id ca
      /\ CandidateMatch.categoryId cj = SeoCategory.id cb.

End Spec64.

(* ===================================================================== *)
(** * A host for running the engine on these numbers *)
(* ===================================================================== *)

(** The square root is the correctly rounded one. The logarithm is computed
    from the binary exponent and a series for the mantissa; it is exact
    at 1 and close to the logarithm elsewhere, without being the function of
    any engine to the last bit. The runs of this file take it at 1, or
    where the weight it yields is common to a whole vector and cancels when
    the vector is normalized, or where the vector meets a zero vector. *)
Module Standin64.
Import F64.

Local Open Scope float_scope.

(** [2 s (1 + z/3 + z^2/5 + ... + z^11/23)] at [s = (m-1)/(m+1)],
    [z = s^2]. *)
Definition logMantissa (m : float) : float :=
  let s := (m - 1) / (m + 1) in
  let z := s * s in
  2 * s * (1 + z * (1/3 + z * (1/5 + z * (1/7 + z * (1/9 + z * (1/11
           + z * (1/13 + z * (1/15 + z * (1/17 + z * (1/19
           + z * (1/21 + z * (1/23)))))))))))).

Definition log (x : float) : float :=
  if isNaN x || (x <? 0) then nan
  else if x =? 0 then neg_infinity
  else if x =? infinity then infinity
  else
    let (m, e) := Z.frexp x in
    let (m, e) := if m <? 0.70710678118654757 then (2 * m, (e - 1)%Z) else (m, e) in
    ofZ e * 0.69314718055994529 + logMantissa m.

#[export] Instance math : MathHost := {|
  Math_log := log;
  Math_sqrt := PrimFloat.sqrt
|}.

End Standin64.

(* ===================================================================== *)
(** * Concrete runs on these numbers *)
(* ===================================================================== *)

(** The categories and products are those of [Examples]; the options and
    the replies of the service are given here as numbers. *)
Module Examples64.
Import F64.

Local Open Scope float_scope.

Definition optionsWith (similarity gapT overlapT : float) (rerank : bool)
  : MappingOptions.t :=
  {| MappingOptions.similarityThreshold := similarity;
     MappingOptions.gapThreshold := gapT;
     MappingOptions.tokenOverlapThreshold := overlapT;
     MappingOptions.useOpenAI := rerank;
     MappingOptions.openAIApiKey := if rerank then Some (str "sk-test") else None;
     MappingOptions.confidenceMinPercent := 50 |}.

(** A candidate with a score, an overlap and a Jaccard index. *)
Definition candidate (id : string) (score : float) (overlap : nat) (jaccard : float)
  : CandidateMatch.t :=
  {| CandidateMatch.categoryId := str id;
     CandidateMatch.categoryPath := str id;
     CandidateMatch.score := score;
     CandidateMatch.overlap := overlap;
     CandidateMatch.jaccard := jaccard |}.

(** A service that is down. *)
Definition unreachable : EmbeddingService :=
  fun _ => ReplyRejected (str "fetch failed").

(** Two categories and a product whose only token is the second one's; the
    lexical gate rejects it at similarityThreshold 0.9, and the service
    returns embeddings of equal cosine for both categories. *)
Module Ties.
Definition categories := Examples.Ties.categories.
Definition product := Examples.Ties.product.
Definition products := Examples.Ties.products.
Definition options := optionsWith 0.9 0.05 1 true.
Definition service : EmbeddingService :=
  fun _ => ReplyData [[1; 0]; [0.6; 0.8]; [0.6; -0.8]].
End Ties.

(** The categories, product and options of [Ties], with a service whose
    category embeddings are opposite to the product's: both cosines are -1. *)
Module Opposite.
Definition service : EmbeddingService :=
  fun _ => ReplyData [[1; 0]; [-1; 0]; [-1; 0]].
End Opposite.

(** The categories, product and options of [Ties], with a service whose
    first number is beyond the range of binary32. *)
Module Overflow.
Definition service : EmbeddingService :=
  fun _ => ReplyData [[1e39; 0]; [1; 0]; [0; 1]].
End Overflow.

(** One category "abc" and a product named "abc": both cosines and the
    Jaccard index are 1. *)
Module FullMatch.
Definition categories := Examples.FullMatch.categories.
Definition product := Examples.FullMatch.product.
Definition products := Examples.FullMatch.products.
End FullMatch.

(** One category "aa" and a product with the text "aa bb cc": the word
    cosine is 1, the char cosine 0 and the Jaccard index 1/3. *)
Module Thirds.
Definition categories := Examples.Thirds.categories.
Definition product := Examples.Thirds.product.
Definition products := Examples.Thirds.products.
End Thirds.

(** Seven categories with the one token "yy"; the product's text is "yy".
    All lexical scores are 0.7, the gap is 0 and the gate rejects. The
    service puts the first candidate at cosine 0.8 and the five others that
    are sent at 0; the seventh keeps its lexical 0.7. *)
Module Shortlist.
Definition categories := Examples.Shortlist.categories.
Definition product := Examples.Shortlist.product.
Definition products := Examples.Shortlist.products.
Definition options := optionsWith 0.65 0.5 1 true.
Definition service : EmbeddingService :=
  fun _ => ReplyData [[1; 0]; [4; 3]; [0; 1]; [0; 1]; [0; 1]; [0; 1]; [0; 1]].
End Shortlist.

End Examples64.
(* ===================================================================== *)
(** * Properties *)
(* ===================================================================== *)

(** ** The text functions and the roundings at work *)

Example tokenize_runs :
  Text.tokenize (Some (str "Foo-bar, 42!")) = [str "Foo"; str "bar"; str "42"].
Proof. reflexivity. Qed.

Example normalizeTokens_drops_short_and_stop_words :
  Text.normalizeTokens (host := Standin.host) (Some (str "A System x1 of Brakes"))
  = [str "x1"; str "of"; str "brakes"].
Proof. reflexivity. Qed.

Example generateCharNgrams_of_name :
  Text.generateCharNgrams (host := Standin.host) (str "abc ")
  = [str "abc"; str "bc "; str "abc "].
Proof. reflexivity. Qed.

Example generateCharNgrams_cleans :
  Text.generateCharNgrams (host := Standin.host) (str "A-b,   c")
  = [str "ab "; str "b c"; str "ab c"].
Proof. reflexivity. Qed.

Example computeOverlap_counts :
  Text.computeOverlap [str "aa"; str "bb"; str "cc"] [str "cc"; str "aa"] = 2.
Proof. reflexivity. Qed.

Example splitLevels_on_delimiter :
  splitLevels [] (str "a///b c///") = [str "a"; str "b c"; []].
Proof. reflexivity. Qed.

Example toFixed_third : toFixed 6 (1 # 3) = (333333 # 1000000)%Q.
Proof. reflexivity. Qed.

Example toFixed_tie_away_from_zero :
  toFixed 2 (- (5 # 1000)) = (- (1 # 100))%Q /\ toFixed 2 (5 # 1000) = (1 # 100)%Q.
Proof. split; reflexivity. Qed.

Example Math_round_tie_up : Math_round (5 # 2) = 3%Z /\ Math_round (- (5 # 2)) = (-2)%Z.
Proof. split; reflexivity. Qed.

(** ** Rational comparisons *)

Lemma Qle_bool_false (x y : Q) : Qle_bool x y = false <-> (y < x)%Q.
Proof.
  split; intro H.
  - destruct (Qlt_le_dec y x) as [Hlt | Hle]; [exact Hlt |].
    apply Qle_bool_iff in Hle. congruence.
  - destruct (Qle_bool x y) eqn:E; [| reflexivity].
    apply Qle_bool_iff in E. exfalso. apply (Qlt_not_le _ _ H E).
Qed.


(** ** The acceptance gate *)

Section Gate.
Context {host : JsHost}.

Lemma gapOf_spec (b : CandidateMatch.t) (second : option CandidateMatch.t) :
  gapOf (Some b) second = Spec.gap b second.
Proof. destruct second; reflexivity. Qed.

Lemma allowMapping_rules (options : MappingOptions.t) (b : CandidateMatch.t)
      (second : option CandidateMatch.t) :
  allowMapping options b second (Spec.gap b second) = true
  <-> Spec.R1 options b second \/ Spec.R2 options b second
      \/ Spec.R3 options b second \/ Spec.R4 options b.
Proof.
  unfold allowMapping, Spec.R1, Spec.R2, Spec.R3, Spec.R4.
  rewrite !orb_true_iff, !andb_true_iff, !Qle_bool_iff.
  rewrite (Qmult_comm (MappingOptions.gapThreshold options) (4 # 10)).
  assert (third :
    (match second with
     | Some _ => Qle_bool (MappingOptions.gapThreshold options * (2 # 10))
                          (Spec.gap b second)
     | None => true
     end) = true
    <-> (second = None
         \/ ((2 # 10) * MappingOptions.gapThreshold options <= Spec.gap b second)%Q)).
  { destruct second as [s |].
    - rewrite Qle_bool_iff, (Qmult_comm _ (2 # 10)). split.
      + intro H. right. exact H.
      + intros [H | H]; [discriminate | exact H].
    - split; [intros _; left; reflexivity | reflexivity]. }
  rewrite third. tauto.
Qed.

End Gate.

(** ** The stable descending sort *)

Lemma insertDescBy_perm {A : Type} (key : A -> Q) (x : A) (l : list A) :
  Permutation (insertDescBy key x l) (x :: l).
Proof.
  induction l as [| y l IH]; simpl.
  - apply Permutation_refl.
  - destruct (Qle_bool (key y) (key x)).
    + apply Permutation_refl.
    + eapply Permutation_trans; [apply perm_skip, IH | apply perm_swap].
Qed.

Lemma sortDescBy_perm {A : Type} (key : A -> Q) (l : list A) :
  Permutation (sortDescBy key l) l.
Proof.
  induction l as [| x l IH]; simpl.
  - apply Permutation_refl.
  - eapply Permutation_trans; [apply insertDescBy_perm | apply perm_skip, IH].
Qed.

Lemma sortDescBy_length {A : Type} (key : A -> Q) (l : list A) :
  length (sortDescBy key l) = length l.
Proof. apply Permutation_length, sortDescBy_perm. Qed.

Lemma insertDescBy_Forall {A : Type} (key : A -> Q) (P : A -> Prop) (x : A) (l : list A) :
  P x -> Forall P l -> Forall P (insertDescBy key x l).
Proof.
  intros Hx Hl.
  eapply Permutation_Forall; [apply Permutation_sym, insertDescBy_perm |].
  constructor; assumption.
Qed.

Section Sorting.
Variable A : Type.
Variable key : A -> Q.

Lemma insertDescBy_sorted (x : A) (l : list A) :
  StronglySorted (Spec.notBelow key) l -> StronglySorted (Spec.notBelow key) (insertDescBy key x l).
Proof.
  induction l as [| y l IH]; intro Hs; simpl.
  - repeat constructor.
  - apply StronglySorted_inv in Hs. destruct Hs as [Hl Hy].
    destruct (Qle_bool (key y) (key x)) eqn:E.
    + apply Qle_bool_iff in E. constructor.
      * constructor; assumption.
      * constructor; [exact E |].
        eapply Forall_impl; [| exact Hy].
        intros z Hz. unfold Spec.notBelow in *. eapply Qle_trans; eassumption.
    + apply Qle_bool_false in E. constructor.
      * apply IH, Hl.
      * apply insertDescBy_Forall; [| exact Hy].
        unfold Spec.notBelow. apply Qlt_le_weak, E.
Qed.

Lemma sortDescBy_sorted (l : list A) : StronglySorted (Spec.notBelow key) (sortDescBy key l).
Proof.
  induction l as [| x l IH]; simpl.
  - constructor.
  - apply insertDescBy_sorted, IH.
Qed.

End Sorting.

Section TaggedSorting.
Variable A : Type.
Variable key : nat * A -> Q.

Lemma insertDescBy_tagged_sorted (x : nat * A) (l : list (nat * A)) :
  StronglySorted (Spec.rankedBefore key) l ->
  Forall (fun y => fst x < fst y) l ->
  StronglySorted (Spec.rankedBefore key) (insertDescBy key x l).
Proof.
  induction l as [| y l IH]; intros Hs Hx; simpl.
  - repeat constructor.
  - apply StronglySorted_inv in Hs. destruct Hs as [Hl Hy].
    apply Forall_cons_iff in Hx. destruct Hx as [Hxy Hxl].
    destruct (Qle_bool (key y) (key x)) eqn:E.
    + apply Qle_bool_iff in E.
      assert (Hfirst : Spec.rankedBefore key x y).
      { destruct (Qlt_le_dec (key y) (key x)) as [Hlt | Hle].
        - left. exact Hlt.
        - right. split; [apply Qle_antisym; assumption | exact Hxy]. }
      constructor.
      * constructor; assumption.
      * constructor; [exact Hfirst |].
        rewrite Forall_forall in Hy, Hxl. apply Forall_forall. intros z Hz.
        specialize (Hy z Hz). specialize (Hxl z Hz).
        assert (Hzy : (key z <= key y)%Q).
        { destruct Hy as [Hlt | [Heq _]].
          - apply Qlt_le_weak, Hlt.
          - rewrite Heq. apply Qle_refl. }
        destruct (Qlt_le_dec (key z) (key x)) as [Hlt | Hle].
        -- left. exact Hlt.
        -- right. split; [| exact Hxl].
           apply Qle_antisym; [exact Hle |].
           eapply Qle_trans; eassumption.
    + apply Qle_bool_false in E. constructor.
      * apply IH; assumption.
      * apply insertDescBy_Forall; [| exact Hy].
        left. exact E.
Qed.

Lemma sortDescBy_tagged_sorted (l : list (nat * A)) :
  StronglySorted (fun x y => fst x < fst y) l ->
  StronglySorted (Spec.rankedBefore key) (sortDescBy key l).
Proof.
  induction l as [| x l IH]; intro Hs; simpl.
  - constructor.
  - apply StronglySorted_inv in Hs. destruct Hs as [Hl Hx].
    apply insertDescBy_tagged_sorted; [apply IH, Hl |].
    eapply Permutation_Forall; [apply Permutation_sym, sortDescBy_perm | exact Hx].
Qed.

End TaggedSorting.

Lemma insertDescBy_map {A B : Type} (key : A -> Q) (f : B -> A) (x : B) (l : list B) :
  insertDescBy key (f x) (map f l) = map f (insertDescBy (fun b => key (f b)) x l).
Proof.
  induction l as [| y l IH]; simpl; [reflexivity |].
  destruct (Qle_bool (key (f y)) (key (f x))); simpl; [reflexivity |].
  rewrite IH. reflexivity.
Qed.

Lemma sortDescBy_map {A B : Type} (key : A -> Q) (f : B -> A) (l : list B) :
  sortDescBy key (map f l) = map f (sortDescBy (fun b => key (f b)) l).
Proof.
  induction l as [| x l IH]; simpl; [reflexivity |].
  rewrite IH. apply insertDescBy_map.
Qed.

(** The positions [start, start+1, ...] are increasing. *)
Lemma combine_seq_increasing {A : Type} (l : list A) (start : nat) :
  StronglySorted (fun x y : nat * A => fst x < fst y)
                 (combine (seq start (length l)) l).
Proof.
  revert start. induction l as [| x l IH]; intro start; simpl.
  - constructor.
  - constructor; [apply IH |].
    apply Forall_forall. intros [i y] Hin. simpl.
    apply in_combine_l in Hin. apply in_seq in Hin. lia.
Qed.

Lemma combine_seq_nth {A : Type} (l : list A) (start : nat) :
  Forall (fun t : nat * A => start <= fst t /\ nth_error l (fst t - start) = Some (snd t))
         (combine (seq start (length l)) l).
Proof.
  revert start. induction l as [| x l IH]; intro start; simpl.
  - constructor.
  - constructor.
    + simpl. split; [lia |]. replace (start - start) with 0 by lia. reflexivity.
    + eapply Forall_impl; [| apply (IH (S start))].
      intros [i y] [Hle Hnth]. simpl in *. split; [lia |].
      replace (i - start) with (S (i - S start)) by lia. exact Hnth.
Qed.

(** ** Lists *)

Lemma StronglySorted_nth {A : Type} (R : A -> A -> Prop) (l : list A) :
  StronglySorted R l ->
  forall i j x y,
    i < j -> nth_error l i = Some x -> nth_error l j = Some y -> R x y.
Proof.
  induction 1 as [| a l Hs IH Ha]; intros i j x y Hij Hi Hj.
  - destruct i; discriminate.
  - destruct j as [| j]; [lia |]. simpl in Hj.
    destruct i as [| i]; simpl in Hi.
    + injection Hi as <-. rewrite Forall_forall in Ha.
      apply Ha. eapply nth_error_In. exact Hj.
    + apply (IH i j); [lia | assumption | assumption].
Qed.


Lemma nth_error_firstn_Some {A : Type} (n i : nat) (l : list A) (x : A) :
  nth_error (firstn n l) i = Some x -> nth_error l i = Some x.
Proof.
  revert n l. induction i as [| i IH]; intros [| n] [| a l]; simpl;
    try discriminate; auto.
  apply IH.
Qed.

Lemma nth_error_map_Some {A B : Type} (f : A -> B) (l : list A) (i : nat) (y : B) :
  nth_error (map f l) i = Some y ->
  exists x, nth_error l i = Some x /\ y = f x.
Proof.
  revert l. induction i as [| i IH]; intros [| a l]; simpl; try discriminate.
  - intros [= <-]. eauto.
  - apply IH.
Qed.

(** ** The ranked candidates of a product *)

Section Ranking.
Context {host : JsHost}.
Variable models : Models.
Variable categories : list SeoCategory.t.
Variable product : ProductRecord.t.

Lemma rankCandidates_length :
  length (rankCandidates models categories product) = length categories.
Proof.
  unfold rankCandidates, scoreCandidates, mapi.
  rewrite sortDescBy_length, length_map, length_combine, length_seq.
  apply Nat.min_id.
Qed.

Lemma rankCandidates_sorted :
  StronglySorted (Spec.notBelow CandidateMatch.score)
                 (rankCandidates models categories product).
Proof. apply sortDescBy_sorted. Qed.

(** The ranked list is the image of the categories paired with their
    positions, sorted so that ties keep the smaller position first. *)
Lemma rankCandidates_tagged :
  let emit := fun t : nat * SeoCategory.t =>
                candidateOf models product (snd t) (fst t) in
  exists tagged : list (nat * SeoCategory.t),
    rankCandidates models categories product = map emit tagged
    /\ StronglySorted
         (Spec.rankedBefore (fun t => CandidateMatch.score (emit t))) tagged
    /\ Forall (fun t => nth_error categories (fst t) = Some (snd t)) tagged.
Proof.
  intro emit.
  exists (sortDescBy (fun t => CandidateMatch.score (emit t))
                     (combine (seq 0 (length categories)) categories)).
  split; [| split].
  - unfold rankCandidates, scoreCandidates, mapi. apply sortDescBy_map.
  - apply sortDescBy_tagged_sorted, combine_seq_increasing.
  - eapply Permutation_Forall; [apply Permutation_sym, sortDescBy_perm |].
    eapply Forall_impl; [| apply (combine_seq_nth categories 0)].
    intros [i c] [_ H]. simpl in *. rewrite Nat.sub_0_r in H. exact H.
Qed.

Lemma rankCandidates_ties :
  Spec.TiesInCorpusOrder categories (rankCandidates models categories product).
Proof.
  destruct rankCandidates_tagged as (tagged & Heq & Hsorted & Hnth).
  intros i j ci cj Hij Hi Hj Hscore. rewrite Heq in Hi, Hj.
  apply nth_error_map_Some in Hi. destruct Hi as (ti & Hti & ->).
  apply nth_error_map_Some in Hj. destruct Hj as (tj & Htj & ->).
  pose proof (StronglySorted_nth Hsorted Hij Hti Htj) as Hrank.
  rewrite Forall_forall in Hnth.
  exists (fst ti), (fst tj), (snd ti), (snd tj).
  destruct Hrank as [Hlt | [_ Hlt]].
  - exfalso. rewrite Hscore in Hlt. apply (Qlt_irrefl _ Hlt).
  - repeat split; try exact Hlt.
    + apply Hnth. eapply nth_error_In. exact Hti.
    + apply Hnth. eapply nth_error_In. exact Htj.
Qed.


End Ranking.


(** ** The reranker *)

Lemma firstn_min_length {A : Type} (n : nat) (l : list A) :
  firstn (Nat.min n (length l)) l = firstn n l.
Proof.
  destruct (Nat.le_ge_cases n (length l)) as [H | H].
  - rewrite Nat.min_l by exact H. reflexivity.
  - rewrite Nat.min_r by exact H.
    rewrite firstn_all, firstn_all2 by exact H. reflexivity.
Qed.

Section Reranker.
Context {host : JsHost}.
Variable service : EmbeddingService.

Lemma refineWithEmbeddings_cases (options : MappingOptions.t)
      (ranked top : list CandidateMatch.t) (embeddings : list (list Q))
      (r : Refinement) :
  refineWithEmbeddings options ranked top embeddings = Ok (Some r) ->
  exists rescoredTop,
    rescore (nth_error embeddings 0) embeddings top 0 = Ok rescoredTop
    /\ let rescoredSorted := sortDescBy CandidateMatch.score rescoredTop in
       let best := nth_error rescoredSorted 0 in
       let second := nth_error rescoredSorted 1 in
       r_bestCandidate r = best
       /\ r_rankedCandidates r =
            sortDescBy CandidateMatch.score (rescoredSorted ++ skipn (length top) ranked)
       /\ r_confidence r = percentOf best
       /\ r_status r =
            (if rerankAccepts options best second (gapOf best second)
             then mapped else not_mapped).
Proof.
  unfold refineWithEmbeddings.
  destruct (rescore (nth_error embeddings 0) embeddings top 0) as [rescoredTop | e];
    [| discriminate].
  intro H. exists rescoredTop. split; [reflexivity |].
  cbv zeta in *.
  destruct (rerankAccepts options _ _ _); injection H as <-; cbn;
    repeat split; reflexivity.
Qed.


(** [refineWithOpenAI] without the monad. *)
Lemma refineWithOpenAI_unfold (product : ProductRecord.t)
      (ranked : list CandidateMatch.t) (cmap : CategoryMap)
      (options : MappingOptions.t) (log : list Request) :
  refineWithOpenAI service product ranked cmap options log =
  match usableKey options with
  | None => (Ok None, log)
  | Some apiKey =>
      let productText := trim (ProductRecord.aggregatedText product) in
      if truthy productText then
        match ranked with
        | [] => (Ok None, log)
        | _ :: _ =>
            let top := firstn OPENAI_TOP_K ranked in
            let request :=
              {| inputs := productText :: map (candidateText cmap) top;
                 apiKey := apiKey |} in
            (match service request with
             | ReplyRejected message => Throw (HostException message)
             | ReplyNotOk st errorText =>
                 Throw (EmbeddingsRequestFailed st errorText)
             | ReplyData data =>
                 refineWithEmbeddings options ranked top (map normalizeVector data)
             end, log ++ [request])
        end
      else
        (Ok (Some {| r_status := not_mapped;
                     r_bestCandidate := nth_error ranked 0;
                     r_rankedCandidates := ranked;
                     r_confidence := 0%Z;
                     r_reason := OpenAINoText |}), log)
  end.
Proof.
  unfold refineWithOpenAI.
  destruct (usableKey options) as [apiKey |]; [| reflexivity].
  cbv zeta.
  destruct (truthy (trim (ProductRecord.aggregatedText product))); cbn [negb];
    [| reflexivity].
  rewrite firstn_min_length.
  destruct ranked as [| c rest]; [reflexivity |].
  change (firstn OPENAI_TOP_K (c :: rest)) with (c :: firstn 5 rest).
  cbv beta iota.
  unfold bind, fetchOpenAIEmbeddings, lift.
  destruct (service _); reflexivity.
Qed.

Section RerankStep.
Variable models : Models.
Variable product : ProductRecord.t.
Variable options : MappingOptions.t.

(** The rerank step without the monad. *)
Lemma rerankStep_unfold (st : Locals) (log : list Request) :
  rerankStep service models product options st log =
  if Status_eqb (status st) not_mapped
     && MappingOptions.useOpenAI options
     && (match usableKey options with Some _ => true | None => false end)
  then
    match refineWithOpenAI service product (rankedCandidates st)
                           (categoryMap models) options log with
    | (Ok (Some r), log') => (Ok (applyRefinement r st), log')
    | (Ok None, log') => (Ok st, log')
    | (Throw e, log') => (Ok (onFallbackError e st), log')
    end
  else (Ok st, log).
Proof.
  unfold rerankStep.
  destruct (Status_eqb (status st) not_mapped && MappingOptions.useOpenAI options
            && _); [| reflexivity].
  unfold tryCatch, bind, ret.
  destruct (refineWithOpenAI _ _ _ _ _ _) as [[[r |] | e] log']; reflexivity.
Qed.

(** The rerank step never raises. *)
Lemma rerankStep_total (st : Locals) (log : list Request) :
  exists st' log', rerankStep service models product options st log = (Ok st', log').
Proof.
  rewrite rerankStep_unfold.
  destruct (_ && _ && _); [| eauto].
  destruct (refineWithOpenAI _ _ _ _ _ _) as [[[r |] | e] log']; eauto.
Qed.


Lemma rerankStep_disabled (st : Locals) (log : list Request) :
  MappingOptions.useOpenAI options = false ->
  rerankStep service models product options st log = (Ok st, log).
Proof.
  intro H. rewrite rerankStep_unfold, H, andb_false_r. reflexivity.
Qed.

(** The candidates stay sorted by score through the rerank step. *)
Lemma rerankStep_sorted (st st' : Locals) (log log' : list Request) :
  StronglySorted (Spec.notBelow CandidateMatch.score) (rankedCandidates st) ->
  rerankStep service models product options st log = (Ok st', log') ->
  StronglySorted (Spec.notBelow CandidateMatch.score) (rankedCandidates st').
Proof.
  intros Hsorted. rewrite rerankStep_unfold.
  destruct (_ && _ && _); [| intros [= <- _]; exact Hsorted].
  rewrite refineWithOpenAI_unfold.
  destruct (usableKey options) as [apiKey |]; [| intros [= <- _]; exact Hsorted].
  cbv zeta.
  destruct (truthy (trim (ProductRecord.aggregatedText product))).
  - destruct (rankedCandidates st) as [| c rest] eqn:Hranked;
      [intros [= <- _]; rewrite Hranked; exact Hsorted |].
    destruct (service _) as [message | code errorText | data].
    + intros [= <- _]. cbn. rewrite Hranked. exact Hsorted.
    + intros [= <- _]. cbn. rewrite Hranked. exact Hsorted.
    + destruct (refineWithEmbeddings _ _ _ _) as [[r |] | e] eqn:Hrefine;
        intros [= <- _].
      * apply refineWithEmbeddings_cases in Hrefine.
        destruct Hrefine as (rescoredTop & _ & _ & Hmerged & _).
        assert (Hr : rankedCandidates (applyRefinement r st) = r_rankedCandidates r).
        { unfold applyRefinement.
          destruct (r_status r), (r_bestCandidate r); reflexivity. }
        rewrite Hr, Hmerged. apply sortDescBy_sorted.
      * rewrite Hranked. exact Hsorted.
      * cbn. rewrite Hranked. exact Hsorted.
  - intros [= <- _].
    unfold applyRefinement. cbn. exact Hsorted.
Qed.

(** When no request is issued, the candidates are those of the lexical
    ranking. *)
Lemma rerankStep_same_log (st st' : Locals) (log log' : list Request) :
  rerankStep service models product options st log = (Ok st', log') ->
  log' = log ->
  rankedCandidates st' = rankedCandidates st.
Proof.
  rewrite rerankStep_unfold.
  destruct (_ && _ && _); [| intros [= <- _] _; reflexivity].
  rewrite refineWithOpenAI_unfold.
  destruct (usableKey options) as [apiKey |]; [| intros [= <- _] _; reflexivity].
  cbv zeta.
  destruct (truthy (trim (ProductRecord.aggregatedText product))).
  - destruct (rankedCandidates st) as [| c rest] eqn:Hranked;
      [intros [= <- _] _; exact Hranked |].
    intros Hrun Hlog. exfalso.
    assert (Hlen : log' = log ++ [{| inputs := trim (ProductRecord.aggregatedText product)
                                             :: map (candidateText (categoryMap models))
                                                    (firstn OPENAI_TOP_K (c :: rest));
                                    apiKey := apiKey |}]).
    { destruct (service _); [| | destruct (refineWithEmbeddings _ _ _ _) as [[r |] | e]];
        injection Hrun as _ <-; reflexivity. }
    rewrite Hlog in Hlen. apply (f_equal (@length Request)) in Hlen.
    rewrite length_app in Hlen. cbn in Hlen. lia.
  - intros [= <- _] _. unfold applyRefinement. reflexivity.
Qed.

End RerankStep.

End Reranker.

(** ** One product *)

Section OneProduct.
Context {host : JsHost}.
Variable service : EmbeddingService.
Variable models : Models.
Variable categories : list SeoCategory.t.
Variable options : MappingOptions.t.
Variable product : ProductRecord.t.

Lemma lexicalGate_ranked (ranked : list CandidateMatch.t) :
  rankedCandidates (lexicalGate options ranked) = ranked.
Proof.
  unfold lexicalGate. destruct (nth_error ranked 0) as [b |]; [| reflexivity].
  destruct (allowMapping _ _ _ _); reflexivity.
Qed.

Lemma mapProduct_unfold (log : list Request) :
  mapProduct service models categories options product log =
  match verdictOf service models categories options product log with
  | (Ok st, log') => (Ok (outcomeOf options product st), log')
  | (Throw e, log') => (Throw e, log')
  end.
Proof.
  unfold mapProduct, bind, ret.
  destruct (verdictOf _ _ _ _ _ _) as [[st | e] log']; reflexivity.
Qed.

(** A turn of the loop never raises. *)
Lemma mapProduct_total (log : list Request) :
  exists st log',
    verdictOf service models categories options product log = (Ok st, log')
    /\ mapProduct service models categories options product log
       = (Ok (outcomeOf options product st), log').
Proof.
  destruct (rerankStep_total service models product options
              (lexicalGate options (rankCandidates models categories product)) log)
    as (st & log' & H).
  exists st, log'. split; [exact H |].
  rewrite mapProduct_unfold. unfold verdictOf in *. rewrite H. reflexivity.
Qed.

Lemma TiesInCorpusOrder_firstn (n : nat) (l : list CandidateMatch.t) :
  Spec.TiesInCorpusOrder categories l ->
  Spec.TiesInCorpusOrder categories (firstn n l).
Proof.
  intros H i j ci cj Hij Hi Hj. apply (H i j ci cj Hij).
  - eapply nth_error_firstn_Some, Hi.
  - eapply nth_error_firstn_Some, Hj.
Qed.



Lemma outcomeOf_withoutRerank (st : Locals) :
  outcomeOf (Spec.withoutRerank options) product st = outcomeOf options product st.
Proof. reflexivity. Qed.


End OneProduct.

(** ** When the verdict is mapped *)

Section Verdict.
Context {host : JsHost}.
Variable service : EmbeddingService.
Variable models : Models.
Variable categories : list SeoCategory.t.
Variable product : ProductRecord.t.





End Verdict.

(** ** The acceptance test of the reranker *)

Section RerankGate.
Context {host : JsHost}.
Variable service : EmbeddingService.
Variable models : Models.
Variable categories : list SeoCategory.t.
Variable options : MappingOptions.t.
Variable product : ProductRecord.t.

Lemma rerankAccepts_rule (b : CandidateMatch.t) (second : option CandidateMatch.t) :
  rerankAccepts options (Some b) second (gapOf (Some b) second) = true
  <-> Spec.RerankRule options b second.
Proof.
  unfold rerankAccepts, Spec.RerankRule.
  rewrite gapOf_spec, !andb_true_iff, !Qle_bool_iff.
  unfold OPENAI_SIMILARITY_THRESHOLD, OPENAI_GAP_THRESHOLD.
  destruct second as [s |].
  - rewrite Qle_bool_iff. split.
    + intros [[H1 H2] H3]. auto.
    + intros (H1 & H2 & [H3 | H3]); [discriminate | auto].
  - split.
    + intros [[H1 H2] _]. auto.
    + intros (H1 & H2 & _). auto.
Qed.

(** With a vector for the product and one for every candidate sent,
    rescoring succeeds and replaces each score by the rounded cosine. *)
Lemma rescore_enough (embeddings : list (list Q)) (top : list CandidateMatch.t)
      (k : nat) :
  k + length top < length embeddings ->
  rescore (nth_error embeddings 0) embeddings top k
  = Ok (map (fun ic =>
               CandidateMatch.withScore (snd ic)
                 (toFixed 6 (cosineSimilarity (nth 0 embeddings [])
                                              (nth (fst ic + 1) embeddings []))))
            (combine (seq k (length top)) top)).
Proof.
  revert k. induction top as [| c rest IH]; intros k Hlen; [reflexivity |].
  cbn [length] in Hlen. cbn [rescore length seq combine map fst snd].
  rewrite IH by lia.
  rewrite (nth_error_nth' embeddings [] (n := 0)) by lia.
  rewrite (nth_error_nth' embeddings [] (n := k + 1)) by lia.
  reflexivity.
Qed.

Lemma refineWithOpenAI_called (ranked : list CandidateMatch.t)
      (log : list Request) (key : jsstring) :
  usableKey options = Some key ->
  truthy (trim (ProductRecord.aggregatedText product)) = true ->
  ranked <> [] ->
  refineWithOpenAI service product ranked (categoryMap models) options log
  = (match service (Spec.rerankRequest models product ranked key) with
     | ReplyRejected message => Throw (HostException message)
     | ReplyNotOk st errorText => Throw (EmbeddingsRequestFailed st errorText)
     | ReplyData data =>
         refineWithEmbeddings options ranked (firstn OPENAI_TOP_K ranked)
                              (map normalizeVector data)
     end, log ++ [Spec.rerankRequest models product ranked key]).
Proof.
  intros Hkey Htext Hne.
  rewrite refineWithOpenAI_unfold, Hkey. cbv zeta. rewrite Htext.
  destruct ranked; [congruence | reflexivity].
Qed.


End RerankGate.

(** ** The confidence percent *)

Section Confidence.
Context {host : JsHost}.
Variable service : EmbeddingService.
Variable models : Models.
Variable product : ProductRecord.t.
Variable options : MappingOptions.t.

Local Notation "'Consistent'" := Spec.Consistent.

Lemma lexicalGate_consistent (ranked : list CandidateMatch.t) :
  Consistent (lexicalGate options ranked).
Proof.
  unfold Spec.Consistent, lexicalGate.
  destruct (nth_error ranked 0) as [b |] eqn:Hbest.
  - destruct (allowMapping _ _ _ _);
      cbn [confidencePercent best status rankedCandidates];
      (split; [reflexivity | split; congruence]).
  - cbn [confidencePercent best status rankedCandidates].
    split; [reflexivity | split; congruence].
Qed.

Lemma applyRefinement_consistent (r : Refinement) (st : Locals) :
  status st = not_mapped ->
  (r_status r = mapped -> r_confidence r = percentOf (r_bestCandidate r)) ->
  Consistent (applyRefinement r st).
Proof.
  intros Hst Hconf. unfold Spec.Consistent, applyRefinement.
  destruct (r_status r) eqn:Hstatus; [destruct (r_bestCandidate r) as [b |] |];
    cbn [confidencePercent best status rankedCandidates].
  - split; [apply Hconf; reflexivity |]. split; congruence.
  - split; [reflexivity |]. split; congruence.
  - split; [reflexivity |]. split; congruence.
Qed.

Lemma onFallbackError_consistent (e : Exn) (st : Locals) :
  Consistent st -> Consistent (onFallbackError e st).
Proof. intro H. exact H. Qed.

Lemma rerankStep_consistent (st st' : Locals) (log log' : list Request) :
  Consistent st ->
  rerankStep service models product options st log = (Ok st', log') ->
  Consistent st'.
Proof.
  intro Hst. rewrite rerankStep_unfold.
  destruct (Status_eqb (status st) not_mapped) eqn:Hnot;
    [| intros [= <- _]; exact Hst].
  assert (Hstatus : status st = not_mapped) by (destruct (status st); [discriminate | reflexivity]).
  destruct (_ && _); cbn [andb]; [| intros [= <- _]; exact Hst].
  rewrite refineWithOpenAI_unfold.
  destruct (usableKey options) as [key |]; [| intros [= <- _]; exact Hst].
  cbv zeta. destruct (truthy _).
  - destruct (rankedCandidates st) as [| c rest] eqn:Hranked;
      [intros [= <- _]; exact Hst |].
    destruct (service _) as [message | code errorText | data];
      try (intros [= <- _]; apply onFallbackError_consistent, Hst).
    destruct (refineWithEmbeddings _ _ _ _) as [[r |] | e] eqn:Hrefine;
      intros [= <- _].
    + apply applyRefinement_consistent; [exact Hstatus |].
      apply refineWithEmbeddings_cases in Hrefine.
      destruct Hrefine as (rescoredTop & _ & Hbest & _ & Hconf & _).
      intros _. rewrite Hconf, Hbest. reflexivity.
    + exact Hst.
    + apply onFallbackError_consistent, Hst.
  - intros [= <- _]. apply applyRefinement_consistent; [exact Hstatus |].
    cbn. discriminate.
Qed.

End Confidence.

(** ** Scores are not negative *)

Lemma ofNat_nonneg (n : nat) : (0 <= ofNat n)%Q.
Proof.
  unfold ofNat. change 0%Q with (inject_Z 0). rewrite <- Zle_Qle. lia.
Qed.

Lemma Qdiv_nonneg (a b : Q) : (0 <= a)%Q -> (0 <= b)%Q -> (0 <= a / b)%Q.
Proof.
  intros Ha Hb. unfold Qdiv. apply Qmult_le_0_compat; [exact Ha |].
  apply Qinv_le_0_compat, Hb.
Qed.

Lemma Qfloor_half_nonneg (x : Q) : (0 <= x)%Q -> (0 <= Qfloor (x + (1 # 2)))%Z.
Proof.
  intro Hx. change 0%Z with (Qfloor 0). apply Qfloor_resp_le. lra.
Qed.

Lemma toFixed_nonneg (d : nat) (x : Q) : (0 <= x)%Q -> (0 <= toFixed d x)%Q.
Proof.
  intro Hx. unfold toFixed, roundHalfAway.
  assert (Hpow : (0 <= inject_Z (10 ^ Z.of_nat d))%Q).
  { change 0%Q with (inject_Z 0). rewrite <- Zle_Qle.
    apply Z.pow_nonneg. lia. }
  assert (Hscaled : (0 <= x * inject_Z (10 ^ Z.of_nat d))%Q)
    by (apply Qmult_le_0_compat; assumption).
  apply Qle_bool_iff in Hscaled as Hbool. rewrite Hbool.
  apply Qdiv_nonneg; [| exact Hpow].
  change 0%Q with (inject_Z 0). rewrite <- Zle_Qle.
  apply Qfloor_half_nonneg, Hscaled.
Qed.

Lemma Math_round_nonneg (x : Q) : (0 <= x)%Q -> (0 <= Math_round x)%Z.
Proof. apply Qfloor_half_nonneg. Qed.

Section Nonneg.
Context {host : JsHost}.
Hypothesis host_nonneg : Spec.HostNonneg.

Local Notation "'NonnegVec'" := (Forall (fun x : Q => (0 <= x)%Q)).

Lemma dot_from_nonneg (a b : list Q) (acc : Q) :
  (0 <= acc)%Q -> NonnegVec a -> NonnegVec b ->
  (0 <= fold_left (fun acc xy => (acc + fst xy * snd xy)%Q) (combine a b) acc)%Q.
Proof.
  intros Hacc Ha. revert b acc Hacc.
  induction Ha as [| x a Hx Ha IH]; intros b acc Hacc Hb; [exact Hacc |].
  destruct Hb as [| y b Hy Hb]; [exact Hacc |].
  cbn [combine fold_left fst snd]. apply IH; [| exact Hb].
  pose proof (Qmult_le_0_compat _ _ Hx Hy). lra.
Qed.

Lemma dot_nonneg (a b : list Q) :
  NonnegVec a -> NonnegVec b -> (0 <= TfIdf.dot a b)%Q.
Proof. apply dot_from_nonneg. apply Qle_refl. Qed.

Lemma documentFrequency_le (corpus : list (list jsstring)) (term : jsstring) :
  TfIdf.documentFrequency corpus term <= length corpus.
Proof. apply filter_length_le. Qed.

Lemma inverseDocumentFrequency_nonneg (N df : nat) :
  df <= N -> (0 <= TfIdf.inverseDocumentFrequency N df)%Q.
Proof.
  intro Hle. unfold TfIdf.inverseDocumentFrequency.
  destruct host_nonneg as [Hlog _].
  assert (H1 : (1 <= ofNat (N + 1) / ofNat (df + 1))%Q).
  { apply Qle_shift_div_l.
    - unfold ofNat. change 0%Q with (inject_Z 0). rewrite <- Zlt_Qlt. lia.
    - rewrite Qmult_1_l. unfold ofNat. rewrite <- Zle_Qle. lia. }
  pose proof (Hlog _ H1). lra.
Qed.

Lemma build_idf_nonneg (corpus : list (list jsstring)) :
  NonnegVec (TfIdf.idf (TfIdf.build corpus)).
Proof.
  unfold TfIdf.build. cbn [TfIdf.idf]. apply Forall_map, Forall_forall.
  intros term _. apply inverseDocumentFrequency_nonneg, documentFrequency_le.
Qed.

Lemma vectorize_nonneg (model : TfIdf.TfIdfVectorizer) (tokens : list jsstring) :
  NonnegVec (TfIdf.idf model) -> NonnegVec (TfIdf.vectorize model tokens).
Proof.
  intro Hidf. unfold TfIdf.vectorize.
  set (weighted := map _ (combine (TfIdf.vocabulary model) (TfIdf.idf model))).
  assert (Hw : NonnegVec weighted).
  { apply Forall_map, Forall_forall. intros [t w] Hin. cbn [fst snd].
    apply Qmult_le_0_compat; [apply ofNat_nonneg |].
    rewrite Forall_forall in Hidf. apply Hidf. eapply in_combine_r, Hin. }
  cbv zeta. destruct (Qeq_bool _ 0); [exact Hw |].
  apply Forall_map. eapply Forall_impl; [| exact Hw].
  intros x Hx. apply Qdiv_nonneg; [exact Hx |].
  destruct host_nonneg as [_ Hsqrt]. apply Hsqrt.
Qed.

Lemma nth_nonneg (vectors : list (list Q)) (index : nat) :
  Forall (fun v => NonnegVec v) vectors -> NonnegVec (nth index vectors []).
Proof.
  intro H. destruct (nth_in_or_default index vectors []) as [Hin | ->].
  - rewrite Forall_forall in H. apply H, Hin.
  - constructor.
Qed.

Lemma combinedScore_nonneg (categories : list SeoCategory.t)
      (product : ProductRecord.t) (category : SeoCategory.t) (index : nat) :
  (0 <= combinedScore (buildModels categories) product category index)%Q.
Proof.
  unfold combinedScore.
  assert (Hword : (0 <= wordScore (buildModels categories) product index)%Q).
  { unfold wordScore, TfIdf.similarity. cbv zeta.
    apply dot_nonneg.
    - apply vectorize_nonneg, build_idf_nonneg.
    - apply nth_nonneg. cbn [buildModels categoryWordVectors].
      apply Forall_map, Forall_forall. intros c _.
      apply vectorize_nonneg, build_idf_nonneg. }
  assert (Hchar : (0 <= charScore (buildModels categories) product index)%Q).
  { unfold charScore, TfIdf.similarity. cbv zeta.
    apply dot_nonneg.
    - apply vectorize_nonneg, build_idf_nonneg.
    - apply nth_nonneg. cbn [buildModels categoryCharVectors].
      apply Forall_map, Forall_forall. intros c _.
      apply vectorize_nonneg, build_idf_nonneg. }
  assert (Hboost : (0 <= legacyBoost product category)%Q).
  { unfold legacyBoost. cbv zeta.
    destruct (Nat.ltb 0 _); [| apply Qle_refl].
    destruct (Nat.ltb 0 _); [| apply Qle_refl].
    apply Qmult_le_0_compat; [discriminate | apply ofNat_nonneg]. }
  assert (Hjaccard : (0 <= jaccardOf product category)%Q).
  { unfold jaccardOf. cbv zeta.
    destruct (Nat.ltb 0 _); [| apply Qle_refl].
    apply Qdiv_nonneg; apply ofNat_nonneg. }
  lra.
Qed.

Lemma rankCandidates_nonneg (categories : list SeoCategory.t)
      (product : ProductRecord.t) :
  Forall (fun c => (0 <= CandidateMatch.score c)%Q)
         (rankCandidates (buildModels categories) categories product).
Proof.
  eapply Permutation_Forall; [apply Permutation_sym, sortDescBy_perm |].
  unfold scoreCandidates, mapi. apply Forall_map, Forall_forall.
  intros [i c] _. cbn [candidateOf CandidateMatch.score fst snd].
  apply toFixed_nonneg, combinedScore_nonneg.
Qed.

Lemma lexical_confidence_nonneg (categories : list SeoCategory.t)
      (options : MappingOptions.t) (product : ProductRecord.t) :
  (0 <= confidencePercent
          (lexicalGate options
             (rankCandidates (buildModels categories) categories product)))%Z.
Proof.
  pose proof (rankCandidates_nonneg categories product) as Hall.
  set (ranked := rankCandidates _ _ _) in *.
  assert (Hconf : confidencePercent (lexicalGate options ranked)
                  = percentOf (nth_error ranked 0)).
  { unfold lexicalGate. destruct (nth_error ranked 0);
      [destruct (allowMapping _ _ _ _) |]; reflexivity. }
  rewrite Hconf. unfold percentOf, scoreOrZero.
  apply Math_round_nonneg.
  destruct (nth_error ranked 0) as [b |] eqn:Hb; [| lra].
  rewrite Forall_forall in Hall.
  pose proof (Hall b (nth_error_In _ _ Hb)). lra.
Qed.

End Nonneg.

Lemma nth_error_firstn_head {A : Type} (n : nat) (l : list A) :
  nth_error (firstn (S n) l) 0 = nth_error l 0.
Proof. destruct l; reflexivity. Qed.


(** ** A product without text *)

Lemma toFixed_comp (d : nat) (x y : Q) : (x == y)%Q -> toFixed d x = toFixed d y.
Proof.
  intro H. unfold toFixed, roundHalfAway.
  set (k := inject_Z (10 ^ Z.of_nat d)).
  assert (H1 : Qle_bool 0 (x * k) = Qle_bool 0 (y * k))
    by (rewrite H; reflexivity).
  assert (H2 : Qfloor (x * k + (1 # 2)) = Qfloor (y * k + (1 # 2)))
    by (apply Qfloor_comp; rewrite H; reflexivity).
  assert (H3 : Qfloor (- (x * k) + (1 # 2)) = Qfloor (- (y * k) + (1 # 2)))
    by (apply Qfloor_comp; rewrite H; reflexivity).
  rewrite H1, H2, H3. reflexivity.
Qed.

Lemma toFixed_zero (d : nat) (x : Q) : (x == 0)%Q -> (toFixed d x == 0)%Q.
Proof.
  intro H. rewrite (toFixed_comp d H). unfold toFixed, roundHalfAway.
  rewrite Qmult_0_l. cbn [Qle_bool Qnum Qden Z.leb Z.mul Z.compare].
  unfold Qdiv. change (Qfloor (0 + (1 # 2))) with 0%Z.
  apply Qmult_0_l.
Qed.

Lemma join_truthy_nil (sep : jsstring) (parts : list jsstring) :
  Forall (fun p => truthy p = true) parts -> join sep parts = [] -> parts = [].
Proof.
  intros Hall Hjoin. destruct parts as [| p rest]; [reflexivity |].
  apply Forall_cons_iff in Hall. destruct Hall as [Hp _].
  destruct p as [| c p]; [discriminate |].
  destruct rest; discriminate.
Qed.

Lemma filter_truthy_nil (parts : list jsstring) :
  filter truthy parts = [] -> Forall (fun p => p = []) parts.
Proof.
  induction parts as [| p rest IH]; intro H; [constructor |].
  cbn [filter] in H. destruct p as [| c p]; [| discriminate].
  constructor; [reflexivity | apply IH, H].
Qed.

Section EmptyText.
Context {host : JsHost}.

Lemma recordOfRow_empty (uuid filename : jsstring) (row : Row) (index : nat) :
  let product := recordOfRow uuid filename row index in
  ProductRecord.aggregatedText product = [] ->
  ProductRecord.productName product = []
  /\ ProductRecord.categoryOld product = None
  /\ ProductRecord.tokens product = [].
Proof.
  intros product Hempty.
  assert (Htokens : ProductRecord.tokens product = []).
  { change (ProductRecord.tokens product)
      with (Text.normalizeTokens (Some (ProductRecord.aggregatedText product))).
    rewrite Hempty. reflexivity. }
  unfold product, recordOfRow in Hempty. cbn [ProductRecord.aggregatedText] in Hempty.
  apply join_truthy_nil in Hempty;
    [| apply Forall_forall; intros p Hp; apply filter_In in Hp; apply Hp].
  apply filter_truthy_nil in Hempty.
  apply Forall_cons_iff in Hempty. destruct Hempty as [Hname Hrest].
  apply Forall_cons_iff in Hrest. destruct Hrest as [Hlabel _].
  split; [exact Hname |]. split; [| exact Htokens].
  unfold product, recordOfRow. cbn [ProductRecord.categoryOld].
  unfold orUndefined in *.
  destruct (truthy (trim _)) eqn:Htruthy; [| reflexivity].
  cbn [orElse] in Hlabel. rewrite Hlabel in Htruthy. discriminate.
Qed.

(** The char n-grams of a single space. *)
Lemma generateCharNgrams_space :
  toLowerCase (str " ") = str " " -> Text.generateCharNgrams (str " ") = [].
Proof.
  intro Hlower. unfold Text.generateCharNgrams, Text.generateCharNgramsRange.
  rewrite Hlower. reflexivity.
Qed.

Local Notation "'ZeroVec'" := (Forall (fun x : Q => (x == 0)%Q)).

Lemma vectorize_nil_zero (model : TfIdf.TfIdfVectorizer) :
  ZeroVec (TfIdf.vectorize model []).
Proof.
  unfold TfIdf.vectorize.
  set (weighted := map _ (combine (TfIdf.vocabulary model) (TfIdf.idf model))).
  assert (Hw : ZeroVec weighted).
  { apply Forall_map, Forall_forall. intros [t w] _. cbn [fst snd].
    change (ofNat (TfIdf.termCount t [])) with 0%Q. apply Qmult_0_l. }
  cbv zeta. destruct (Qeq_bool _ 0); [exact Hw |].
  apply Forall_map. eapply Forall_impl; [| exact Hw].
  intros x Hx. unfold Qdiv. rewrite Hx. apply Qmult_0_l.
Qed.

Lemma dot_from_zero (a b : list Q) (acc : Q) :
  (acc == 0)%Q -> ZeroVec a ->
  (fold_left (fun acc xy => (acc + fst xy * snd xy)%Q) (combine a b) acc == 0)%Q.
Proof.
  intros Hacc Ha. revert b acc Hacc.
  induction Ha as [| x a Hx Ha IH]; intros b acc Hacc; [exact Hacc |].
  destruct b as [| y b]; [exact Hacc |].
  cbn [combine fold_left fst snd]. apply IH.
  rewrite Hacc, Hx. ring.
Qed.

Lemma dot_zero (a b : list Q) : ZeroVec a -> (TfIdf.dot a b == 0)%Q.
Proof. apply dot_from_zero. reflexivity. Qed.

Variable categories : list SeoCategory.t.
Variable product : ProductRecord.t.
Hypothesis lower_space : toLowerCase (str " ") = str " ".
Hypothesis no_name : ProductRecord.productName product = [].
Hypothesis no_label : ProductRecord.categoryOld product = None.
Hypothesis no_tokens : ProductRecord.tokens product = [].

Lemma empty_word_vector (models : Models) :
  ZeroVec (TfIdf.vectorize (wordVectorizer models) (ProductRecord.tokens product)).
Proof. rewrite no_tokens. apply vectorize_nil_zero. Qed.

Lemma empty_char_vector (models : Models) :
  ZeroVec (TfIdf.vectorize (charVectorizer models)
                           (Text.generateCharNgrams (charSource product))).
Proof.
  unfold charSource. rewrite no_name, no_label. cbn [orElse app].
  change (str " " ++ []) with (str " ").
  rewrite generateCharNgrams_space by exact lower_space.
  apply vectorize_nil_zero.
Qed.

Lemma empty_candidate (models : Models) (category : SeoCategory.t) (index : nat) :
  let c := candidateOf models product category index in
  (CandidateMatch.score c == 0)%Q
  /\ CandidateMatch.overlap c = 0
  /\ (CandidateMatch.jaccard c == 0)%Q.
Proof.
  assert (Hoverlap : overlapOf product category = 0).
  { unfold overlapOf. rewrite no_tokens. reflexivity. }
  assert (Hjaccard : (jaccardOf product category == 0)%Q).
  { unfold jaccardOf. cbv zeta. rewrite Hoverlap.
    destruct (Nat.ltb 0 _); [| reflexivity].
    unfold Qdiv. change (ofNat 0) with 0%Q. apply Qmult_0_l. }
  assert (Hboost : legacyBoost product category = 0%Q).
  { unfold legacyBoost. rewrite no_label. reflexivity. }
  cbn [candidateOf CandidateMatch.score CandidateMatch.overlap CandidateMatch.jaccard].
  split; [| split; [exact Hoverlap | apply toFixed_zero, Hjaccard]].
  apply toFixed_zero. unfold combinedScore.
  rewrite Hboost, Hjaccard.
  unfold wordScore, charScore, TfIdf.similarity. cbv zeta.
  rewrite (dot_zero _ (empty_word_vector models)).
  rewrite (dot_zero _ (empty_char_vector models)).
  ring.
Qed.

Lemma empty_ranked (models : Models) :
  Forall (fun c => (CandidateMatch.score c == 0)%Q
                   /\ CandidateMatch.overlap c = 0
                   /\ (CandidateMatch.jaccard c == 0)%Q)
         (rankCandidates models categories product).
Proof.
  eapply Permutation_Forall; [apply Permutation_sym, sortDescBy_perm |].
  unfold scoreCandidates, mapi. apply Forall_map, Forall_forall.
  intros [i c] _. apply empty_candidate.
Qed.

End EmptyText.

Section EmptyTextVerdict.
Context {host : JsHost}.
Variable service : EmbeddingService.
Variable models : Models.
Variable categories : list SeoCategory.t.
Variable options : MappingOptions.t.
Variable product : ProductRecord.t.

(** Without usable text the rerank step issues no request and changes
    neither the status nor the candidates. *)
Lemma rerankStep_no_text (st : Locals) (log : list Request) :
  truthy (trim (ProductRecord.aggregatedText product)) = false ->
  exists st',
    rerankStep service models product options st log = (Ok st', log)
    /\ status st' = status st
    /\ rankedCandidates st' = rankedCandidates st.
Proof.
  intro Htext. rewrite rerankStep_unfold.
  assert (Hsame : exists st', (Ok st, log) = (Ok st', log)
                              /\ status st' = status st
                              /\ rankedCandidates st' = rankedCandidates st)
    by (exists st; repeat split).
  destruct (Status_eqb (status st) not_mapped) eqn:Hnot; [| exact Hsame].
  assert (Hstatus : status st = not_mapped)
    by (destruct (status st); [discriminate | reflexivity]).
  destruct (_ && _); cbn [andb]; [| exact Hsame].
  rewrite refineWithOpenAI_unfold.
  destruct (usableKey options); [| exact Hsame].
  cbv zeta. rewrite Htext.
  eexists. split; [reflexivity |]. split; reflexivity.
Qed.

(** The gate on candidates whose score, overlap and Jaccard index are zero:
    only R1 can hold, and only with thresholds that are not positive. *)
Lemma lexicalGate_all_zero (ranked : list CandidateMatch.t) :
  Forall (fun c => (CandidateMatch.score c == 0)%Q
                   /\ CandidateMatch.overlap c = 0
                   /\ (CandidateMatch.jaccard c == 0)%Q) ranked ->
  (status (lexicalGate options ranked) = mapped
   <-> ranked <> []
       /\ (MappingOptions.similarityThreshold options <= 0)%Q
       /\ (MappingOptions.tokenOverlapThreshold options <= 0)%Q
       /\ (MappingOptions.gapThreshold options <= 0)%Q).
Proof.
  intro Hall. rewrite Forall_forall in Hall. unfold lexicalGate.
  destruct (nth_error ranked 0) as [b |] eqn:Hbest.
  2:{ destruct ranked; [| discriminate]. cbn [status]. split; [discriminate |].
      intros [H _]. congruence. }
  assert (Hne : ranked <> []) by (destruct ranked; discriminate).
  destruct (Hall b (nth_error_In _ _ Hbest)) as (Hscore & Hoverlap & Hjaccard).
  assert (Hgap : (Spec.gap b (nth_error ranked 1) == 0)%Q).
  { unfold Spec.gap. destruct (nth_error ranked 1) as [s |] eqn:Hsecond;
      [| exact Hscore].
    destruct (Hall s (nth_error_In _ _ Hsecond)) as (Hs & _).
    rewrite Hscore, Hs. reflexivity. }
  rewrite gapOf_spec.
  assert (Hrules :
            allowMapping options b (nth_error ranked 1)
                         (Spec.gap b (nth_error ranked 1)) = true
            <-> (MappingOptions.similarityThreshold options <= 0)%Q
                /\ (MappingOptions.tokenOverlapThreshold options <= 0)%Q
                /\ (MappingOptions.gapThreshold options <= 0)%Q).
  { rewrite allowMapping_rules.
    unfold Spec.R1, Spec.R2, Spec.R3, Spec.R4.
    rewrite Hgap, Hscore, Hjaccard, Hoverlap. change (ofNat 0) with 0%Q.
    assert (Hno : ~ ((3 # 10) <= 0)%Q)
      by (intro H; apply Qle_bool_iff in H; discriminate H).
    tauto. }
  destruct (allowMapping _ _ _ _); cbn [status].
  - split; [| reflexivity]. intros _. split; [exact Hne |].
    apply Hrules. reflexivity.
  - split; [discriminate |]. intros [_ H]. apply Hrules in H. discriminate.
Qed.

End EmptyTextVerdict.

(** C6 (amended). For every product whose aggregated free text is empty and
    every threshold configuration, both axis vectors are all-zero, every
    candidate's combined score is 0 and no request is sent to the embedding
    service; the product's status is not_mapped whenever at least one of
    similarityThreshold, tokenOverlapThreshold and gapThreshold is positive,
    and it is mapped (by rule R1) when there are categories and none of the
    three is positive. Lower-casing is taken to leave a space as it is. *)
Theorem empty_text_scores_zero
        {host : JsHost} (service : EmbeddingService)
        (categories : list SeoCategory.t) (options : MappingOptions.t)
        (uuid filename : jsstring) (row : Row) (index : nat) (log : list Request) :
  let product := recordOfRow uuid filename row index in
  let models := buildModels categories in
  toLowerCase (str " ") = str " " ->
  ProductRecord.aggregatedText product = [] ->
  Forall (fun x => (x == 0)%Q)
         (TfIdf.vectorize (wordVectorizer models) (ProductRecord.tokens product))
  /\ Forall (fun x => (x == 0)%Q)
            (TfIdf.vectorize (charVectorizer models)
                             (Text.generateCharNgrams (charSource product)))
  /\ Forall (fun c => (CandidateMatch.score c == 0)%Q)
            (scoreCandidates models categories product)
  /\ exists item,
       mapProduct service models categories options product log = (Ok item, log)
       /\ Forall (fun c => (CandidateMatch.score c == 0)%Q)
                 (MappedProduct.candidates item)
       /\ (MappedProduct.status item = mapped
           <-> categories <> []
               /\ (MappingOptions.similarityThreshold options <= 0)%Q
               /\ (MappingOptions.tokenOverlapThreshold options <= 0)%Q
               /\ (MappingOptions.gapThreshold options <= 0)%Q).
Proof.
  intros product models Hlower Hempty.
  destruct (recordOfRow_empty uuid filename row index Hempty)
    as (Hname & Hlabel & Htokens).
  fold product in Hname, Hlabel, Htokens.
  split; [apply empty_word_vector, Htokens |].
  split; [apply empty_char_vector; assumption |].
  split.
  { unfold scoreCandidates, mapi. apply Forall_map, Forall_forall.
    intros [i c] _.
    exact (proj1 (@empty_candidate _ product Hlower Hname Hlabel Htokens
                                   models c i)). }
  pose proof (@empty_ranked _ categories product Hlower Hname Hlabel Htokens models)
    as Hall.
  set (ranked := rankCandidates models categories product) in *.
  assert (Htext : truthy (trim (ProductRecord.aggregatedText product)) = false)
    by (rewrite Hempty; reflexivity).
  destruct (@rerankStep_no_text _ service models options product
                                (lexicalGate options ranked) log Htext)
    as (st & Hstep & Hstatus & Hranked).
  exists (outcomeOf options product st). split; [| split].
  - rewrite mapProduct_unfold. unfold verdictOf. fold ranked.
    rewrite Hstep. reflexivity.
  - cbn [outcomeOf MappedProduct.candidates].
    rewrite Hranked, lexicalGate_ranked.
    apply Forall_forall. intros c Hc.
    rewrite Forall_forall in Hall. apply Hall.
    rewrite <- (firstn_skipn 5 ranked). apply in_or_app. left. exact Hc.
  - cbn [outcomeOf MappedProduct.status]. rewrite Hstatus.
    rewrite (lexicalGate_all_zero options Hall).
    assert (Hiff : ranked <> [] <-> categories <> []).
    { rewrite <- !length_zero_iff_nil. unfold ranked.
      rewrite rankCandidates_length. reflexivity. }
    rewrite Hiff. reflexivity.
Qed.

(** ** Token sets and the combined score *)

Lemma jsstring_eqb_eq (a b : jsstring) : jsstring_eqb a b = true <-> a = b.
Proof.
  revert b. induction a as [| x a IH]; intros [| y b]; simpl;
    try (split; [discriminate | discriminate]); [tauto |].
  rewrite andb_true_iff, N.eqb_eq, IH. split.
  - intros [-> ->]. reflexivity.
  - intros [= -> ->]. auto.
Qed.

Lemma mem_In (x : jsstring) (l : list jsstring) : mem x l = true <-> In x l.
Proof.
  induction l as [| y l IH]; simpl; [split; [discriminate | tauto] |].
  rewrite orb_true_iff, jsstring_eqb_eq, IH. split; intros [H | H]; auto.
Qed.

Lemma mem_ext (x : jsstring) (l l' : list jsstring) :
  (forall y, In y l <-> In y l') -> mem x l = mem x l'.
Proof.
  intro H. destruct (mem x l) eqn:E1, (mem x l') eqn:E2; try reflexivity.
  - apply mem_In, H, mem_In in E1. congruence.
  - apply mem_In, H, mem_In in E2. congruence.
Qed.

Lemma setOfAcc_In (x : jsstring) (xs seen : list jsstring) :
  In x (setOfAcc seen xs) <-> In x seen \/ In x xs.
Proof.
  revert seen. induction xs as [| y xs IH]; intro seen; simpl.
  - rewrite <- in_rev. tauto.
  - destruct (mem y seen) eqn:E; rewrite IH; simpl.
    + apply mem_In in E. split; [tauto |]. intros [H | [<- | H]]; auto.
    + tauto.
Qed.

Lemma setOfAcc_NoDup (xs seen : list jsstring) :
  NoDup seen -> NoDup (setOfAcc seen xs).
Proof.
  revert seen. induction xs as [| y xs IH]; intros seen Hseen; simpl.
  - apply NoDup_rev, Hseen.
  - destruct (mem y seen) eqn:E; apply IH; [exact Hseen |].
    constructor; [| exact Hseen].
    intro Hin. apply mem_In in Hin. congruence.
Qed.

Lemma setOf_In (x : jsstring) (xs : list jsstring) : In x (setOf xs) <-> In x xs.
Proof. unfold setOf. rewrite setOfAcc_In. simpl. tauto. Qed.

Lemma setOf_NoDup (xs : list jsstring) : NoDup (setOf xs).
Proof. apply setOfAcc_NoDup. constructor. Qed.

(** [computeOverlap] counts the tokens of the first set found in the second. *)
Lemma computeOverlap_count (tokensA tokensB : list jsstring) :
  Text.computeOverlap tokensA tokensB
  = length (filter (fun token => mem token tokensB) tokensA).
Proof.
  unfold Text.computeOverlap.
  assert (H : forall n,
             fold_left (fun count token =>
                          if mem token tokensB then count + 1 else count)
                       tokensA n
             = n + length (filter (fun token => mem token tokensB) tokensA)).
  { induction tokensA as [| t rest IH]; intro n; simpl; [lia |].
    rewrite IH. destruct (mem t tokensB); simpl; lia. }
  apply H.
Qed.

Lemma computeOverlap_sets (a b : list jsstring) :
  Text.computeOverlap (setOf a) (setOf b) = Spec.intersectionSize a b.
Proof.
  rewrite computeOverlap_count. unfold Spec.intersectionSize.
  f_equal. apply filter_ext. intro t. apply mem_ext. intro y. apply setOf_In.
Qed.

(** The count is the same from either side. *)
Lemma intersectionSize_comm (a b : list jsstring) :
  Spec.intersectionSize a b = Spec.intersectionSize b a.
Proof.
  unfold Spec.intersectionSize. apply Permutation_length, NoDup_Permutation.
  - apply NoDup_filter, setOf_NoDup.
  - apply NoDup_filter, setOf_NoDup.
  - intro x. rewrite !filter_In, !setOf_In, !mem_In. tauto.
Qed.

(** Inclusion and exclusion for the two token sets. *)
Lemma unionSize_plus_intersection (a b : list jsstring) :
  Spec.unionSize a b + Spec.intersectionSize a b
  = length (setOf a) + length (setOf b).
Proof.
  unfold Spec.unionSize.
  assert (Hperm : Permutation (setOf (a ++ b))
                    (setOf a ++ filter (fun t => negb (mem t a)) (setOf b))).
  { apply NoDup_Permutation.
    - apply setOf_NoDup.
    - apply NoDup_app; [apply setOf_NoDup | apply NoDup_filter, setOf_NoDup |].
      intros x Hx Hx'. rewrite setOf_In in Hx. rewrite filter_In in Hx'.
      destruct Hx' as [_ Hx']. rewrite <- mem_In in Hx. rewrite Hx in Hx'.
      discriminate.
    - intro x. rewrite in_app_iff, filter_In, !setOf_In, in_app_iff.
      rewrite negb_true_iff. split.
      + intros [H | H]; [left; exact H |].
        destruct (mem x a) eqn:E; [left; apply mem_In, E | right; auto].
      + intros [H | [H _]]; auto. }
  rewrite (Permutation_length Hperm), length_app.
  rewrite (intersectionSize_comm a b). unfold Spec.intersectionSize.
  pose proof (filter_length (fun t => mem t a) (setOf b)). lia.
Qed.

Section CombinedScore.
Context {host : JsHost}.

Lemma jaccardOf_index (product : ProductRecord.t) (category : SeoCategory.t) :
  (jaccardOf product category
   == Spec.jaccardIndex (ProductRecord.tokens product) (SeoCategory.tokens category))%Q.
Proof.
  unfold jaccardOf, overlapOf, Spec.jaccardIndex. cbv zeta.
  rewrite computeOverlap_sets.
  pose proof (unionSize_plus_intersection (ProductRecord.tokens product)
                                          (SeoCategory.tokens category)) as Hsum.
  set (i := Spec.intersectionSize _ _) in *.
  set (u := Spec.unionSize _ _) in *.
  replace (length (setOf (ProductRecord.tokens product))
           + length (setOf (SeoCategory.tokens category)) - i) with u by lia.
  destruct (Nat.ltb 0 u) eqn:E; [reflexivity |].
  apply Nat.ltb_ge in E. replace u with 0 by lia.
  unfold Qdiv. change (/ ofNat 0)%Q with 0%Q. ring.
Qed.

Lemma legacyBoost_overlap (product : ProductRecord.t) (category : SeoCategory.t) :
  legacyBoost product category
  = (if Nat.ltb 0 (Spec.legacyOverlap product category)
     then (5 # 100) * ofNat (Spec.legacyOverlap product category) else 0)%Q.
Proof.
  unfold legacyBoost, Spec.legacyOverlap. cbv zeta.
  destruct (ProductRecord.categoryOld product) as [label |]; [| reflexivity].
  rewrite computeOverlap_sets.
  destruct (Nat.ltb 0 (length _)) eqn:E; [reflexivity |].
  apply Nat.ltb_ge in E.
  assert (Hnil : setOf (Text.normalizeTokens (Some label)) = [])
    by (apply length_zero_iff_nil; lia).
  unfold Spec.intersectionSize. rewrite Hnil. reflexivity.
Qed.

Lemma combinedScore_formula (models : Models) (product : ProductRecord.t)
      (category : SeoCategory.t) (index : nat) :
  (combinedScore models product category index
   == Spec.combinedFormula models product category index)%Q.
Proof.
  unfold combinedScore, Spec.combinedFormula.
  rewrite legacyBoost_overlap, jaccardOf_index. reflexivity.
Qed.

Lemma combine_seq_nth_error {A : Type} (l : list A) (start i : nat) (x : A) :
  nth_error l i = Some x ->
  nth_error (combine (seq start (length l)) l) i = Some (start + i, x).
Proof.
  revert start i. induction l as [| y l IH]; intros start [| i] H; simpl in *;
    try discriminate.
  - injection H as ->. rewrite Nat.add_0_r. reflexivity.
  - rewrite (IH (S start) i H). f_equal. f_equal. lia.
Qed.

Lemma mapi_nth_error {A B : Type} (f : A -> nat -> B) (l : list A) (i : nat) (x : A) :
  nth_error l i = Some x -> nth_error (mapi f l) i = Some (f x i).
Proof.
  intro H. unfold mapi.
  rewrite nth_error_map, (combine_seq_nth_error l 0 i H). reflexivity.
Qed.


End CombinedScore.

(** ** The loop over the products *)

Lemma forEach_Forall2 {A B : Type} (f : A -> M B) (xs : list A) :
  (forall x log, exists y log', f x log = (Ok y, log')) ->
  forall log,
  exists ys log',
    forEach f xs log = (Ok ys, log')
    /\ Forall2 (fun x y => exists l l', f x l = (Ok y, l')) xs ys.
Proof.
  intro Htotal. induction xs as [| x xs IH]; intro log.
  - exists [], log. split; [reflexivity | constructor].
  - destruct (Htotal x log) as (y & log1 & Hy).
    destruct (IH log1) as (ys & log2 & Hys & Hall).
    exists (y :: ys), log2. split.
    + simpl. unfold bind, ret. rewrite Hy, Hys. reflexivity.
    + constructor; [eauto | exact Hall].
Qed.


Section Run.
Context {host : JsHost}.
Variable service : EmbeddingService.

(** A run over a non-empty corpus returns one outcome per product, each the
    result of a turn of the loop. *)
Lemma mapProducts_items (categories : list SeoCategory.t) (products : ParsedProducts)
      (options : MappingOptions.t) (log : list Request) :
  categories <> [] ->
  exists mappedProducts log',
    mapProducts service categories products options log
    = (Ok {| MappingResponse.items := mappedProducts;
             MappingResponse.stats := statsOf products mappedProducts |}, log')
    /\ Forall2 (fun p item =>
                  exists l l',
                    mapProduct service (buildModels categories) categories options p l
                    = (Ok item, l'))
               (records products) mappedProducts.
Proof.
  intro Hne. destruct categories as [| c rest]; [congruence |].
  destruct (forEach_Forall2
              (mapProduct service (buildModels (c :: rest)) (c :: rest) options)
              (records products)) with (log := log)
    as (ys & log' & Hrun & Hall).
  - intros p l.
    destruct (mapProduct_total service (buildModels (c :: rest)) (c :: rest)
                               options p l) as (st & l' & _ & H).
    eauto.
  - exists ys, log'. split; [| exact Hall].
    unfold mapProducts, bind, ret. rewrite Hrun. reflexivity.
Qed.










End Run.

(** ** The char axis *)

Section CharAxis.
Context {host : JsHost}.

(** C10. The char-n-gram axis of a product depends on its product name and
    its legacy category label only: two products that agree on both get the
    same char-axis similarity against every category, whatever their other
    fields are. *)
Theorem char_axis_depends_on_name_and_label
        (models : Models) (p1 p2 : ProductRecord.t) (index : nat) :
  ProductRecord.productName p1 = ProductRecord.productName p2 ->
  ProductRecord.categoryOld p1 = ProductRecord.categoryOld p2 ->
  charScore models p1 index = charScore models p2 index.
Proof.
  intros Hname Hlabel. unfold charScore, charSource.
  rewrite Hname, Hlabel. reflexivity.
Qed.

End CharAxis.

(** ** Runs of the examples: ranking and reranking *)

Import Standin Examples.


(** C10 at two products with the name "abc", one of them with a description. *)
Lemma char_axis_depends_on_name_and_label_witness :
  let models := buildModels FullMatch.categories in
  ProductRecord.productName FullMatch.product
  = ProductRecord.productName Described.product
  /\ ProductRecord.categoryOld FullMatch.product
     = ProductRecord.categoryOld Described.product
  /\ ProductRecord.tokens FullMatch.product <> ProductRecord.tokens Described.product
  /\ charScore models FullMatch.product 0 = charScore models Described.product 0.
Proof.
  intro models.
  assert (Hname : ProductRecord.productName FullMatch.product
                  = ProductRecord.productName Described.product)
    by (vm_compute; reflexivity).
  assert (Hlabel : ProductRecord.categoryOld FullMatch.product
                   = ProductRecord.categoryOld Described.product)
    by (vm_compute; reflexivity).
  split; [exact Hname |]. split; [exact Hlabel |]. split.
  - vm_compute. discriminate.
  - exact (char_axis_depends_on_name_and_label models FullMatch.product
             Described.product 0 Hname Hlabel).
Defined.

(** ** Runs of the examples: the whole run *)



(** ** Runs of the examples: the two host facts *)

(** The stand-in host has the two facts asked of the logarithm and of the
    square root. *)
Lemma standin_nonneg : Spec.HostNonneg (host := Standin.host).
Proof.
  split; intro q.
  - intro Hq. cbn [Math_log Standin.host]. unfold logQ.
    set (z := Qred ((q - 1) / (q + 1))).
    assert (Hz : (0 <= z)%Q).
    { unfold z. rewrite Qred_correct. apply Qdiv_nonneg; lra. }
    set (z2 := Qred (z * z)).
    assert (Hz2 : (0 <= z2)%Q).
    { unfold z2. rewrite Qred_correct. apply Qmult_le_0_compat; exact Hz. }
    rewrite Qred_correct.
    assert (H7 : (0 <= z2 * (1 # 7))%Q) by (apply Qmult_le_0_compat; lra).
    assert (H5 : (0 <= z2 * ((1 # 5) + z2 * (1 # 7)))%Q)
      by (apply Qmult_le_0_compat; lra).
    assert (H3 : (0 <= z2 * ((1 # 3) + z2 * ((1 # 5) + z2 * (1 # 7))))%Q)
      by (apply Qmult_le_0_compat; lra).
    apply Qmult_le_0_compat; [| lra].
    apply Qmult_le_0_compat; lra.
  - cbn [Math_sqrt Standin.host]. unfold sqrtQ.
    apply Qdiv_nonneg; change 0%Q with (inject_Z 0); rewrite <- Zle_Qle;
      apply Z.sqrt_nonneg.
Qed.


(** ** Runs of the examples: a product without text *)

(** C6, counterexample. A product whose row carries no text, one category,
    and the three thresholds at 0: every score is 0 and rule R1 holds, so
    the product is mapped. *)
Lemma empty_text_mapped_at_zero_thresholds :
  exists response log' item,
    mapProducts unreachable Blank.categories Blank.products Blank.options []
    = (Ok response, log')
    /\ MappingResponse.items response = [item]
    /\ ProductRecord.aggregatedText (MappedProduct.product item) = []
    /\ MappedProduct.status item = mapped.
Proof.
  eexists. eexists. eexists.
  split; [vm_compute; reflexivity |].
  repeat split.
Qed.

(** C6 (amended) at the product of the counterexample, under the default
    options: the status is not mapped. *)
Lemma empty_text_scores_zero_witness :
  exists item,
    mapProduct unreachable (buildModels Blank.categories) Blank.categories
               DEFAULT_OPTIONS Blank.product []
    = (Ok item, [])
    /\ Forall (fun c => (CandidateMatch.score c == 0)%Q)
              (MappedProduct.candidates item)
    /\ MappedProduct.status item <> mapped.
Proof.
  destruct (empty_text_scores_zero
              unreachable Blank.categories DEFAULT_OPTIONS
              (uuid "p" 0) (str "products.xlsx") [] 0 [])
    as (_ & _ & _ & item & Hrun & Hzero & Hiff).
  - reflexivity.
  - vm_compute. reflexivity.
  - exists item. split; [exact Hrun |]. split; [exact Hzero |].
    intro Hmapped. apply Hiff in Hmapped. destruct Hmapped as (_ & Hsim & _).
    apply Qle_bool_iff in Hsim. discriminate Hsim.
Defined.

(* ===================================================================== *)
(** * The class TfIdfVectorizer against the term-vector model *)
(* ===================================================================== *)

(** ** The vocabulary map *)

Lemma mem_rev (x : jsstring) (l : list jsstring) : mem x (rev l) = mem x l.
Proof. apply mem_ext. intro y. symmetry. apply in_rev. Qed.

Lemma jsstring_eqb_refl (a : jsstring) : jsstring_eqb a a = true.
Proof. apply jsstring_eqb_eq. reflexivity. Qed.

Lemma jsstring_eqb_sym (a b : jsstring) : jsstring_eqb a b = jsstring_eqb b a.
Proof.
  destruct (jsstring_eqb a b) eqn:E1, (jsstring_eqb b a) eqn:E2; try reflexivity.
  - apply jsstring_eqb_eq in E1. subst. rewrite jsstring_eqb_refl in E2. discriminate.
  - apply jsstring_eqb_eq in E2. subst. rewrite jsstring_eqb_refl in E1. discriminate.
Qed.

Lemma vocabulary_has_mem (v : TfIdfClass.Vocabulary) (token : jsstring) :
  TfIdfClass.has v token = mem token (map fst v).
Proof.
  unfold TfIdfClass.has. induction v as [| [k i] v IH]; simpl; [reflexivity |].
  destruct (jsstring_eqb token k); simpl; [reflexivity | exact IH].
Qed.

Lemma vocabulary_set_new (v : TfIdfClass.Vocabulary) (token : jsstring) (n : nat) :
  TfIdfClass.has v token = false -> TfIdfClass.set v token n = v ++ [(token, n)].
Proof.
  unfold TfIdfClass.has. induction v as [| [k i] v IH]; simpl; [reflexivity |].
  destruct (jsstring_eqb token k); [discriminate |].
  intro H. rewrite IH by exact H. reflexivity.
Qed.

Lemma vocabulary_get_In (v : TfIdfClass.Vocabulary) (token : jsstring) (idx : nat) :
  TfIdfClass.get v token = Some idx -> In (token, idx) v.
Proof.
  induction v as [| [k i] v IH]; simpl; [discriminate |].
  destruct (jsstring_eqb token k) eqn:E.
  - apply jsstring_eqb_eq in E. intros [= <-]. left. congruence.
  - intro H. right. apply IH, H.
Qed.

Lemma vocabulary_get_None (v : TfIdfClass.Vocabulary) (token : jsstring) :
  TfIdfClass.get v token = None -> ~ In token (map fst v).
Proof.
  intros H Hin. apply mem_In in Hin. rewrite <- vocabulary_has_mem in Hin.
  unfold TfIdfClass.has in Hin. rewrite H in Hin. discriminate.
Qed.

Lemma NoDup_fst_functional {A B : Type} (l : list (A * B)) (a : A) (b b' : B) :
  NoDup (map fst l) -> In (a, b) l -> In (a, b') l -> b = b'.
Proof.
  induction l as [| [x y] l IH]; simpl; [tauto |].
  intros Hnd [H1 | H1] [H2 | H2]; inversion Hnd as [| ? ? Hnot Hnd']; subst.
  - congruence.
  - inversion H1; subst. exfalso. apply Hnot. apply (in_map fst) in H2. exact H2.
  - inversion H2; subst. exfalso. apply Hnot. apply (in_map fst) in H1. exact H1.
  - apply IH; assumption.
Qed.

Lemma NoDup_snd_functional {A B : Type} (l : list (A * B)) (a a' : A) (b : B) :
  NoDup (map snd l) -> In (a, b) l -> In (a', b) l -> a = a'.
Proof.
  induction l as [| [x y] l IH]; simpl; [tauto |].
  intros Hnd [H1 | H1] [H2 | H2]; inversion Hnd as [| ? ? Hnot Hnd']; subst.
  - congruence.
  - inversion H1; subst. exfalso. apply Hnot. apply (in_map snd) in H2. exact H2.
  - inversion H2; subst. exfalso. apply Hnot. apply (in_map snd) in H1. exact H1.
  - apply IH; assumption.
Qed.

(** On a vocabulary with distinct keys and distinct indices, an entry has the
    index of a token exactly when its key is the token. *)
Lemma vocabulary_entry_of (v : TfIdfClass.Vocabulary) (token k : jsstring) (idx i : nat) :
  NoDup (map fst v) -> NoDup (map snd v) ->
  TfIdfClass.get v token = Some idx -> In (k, i) v ->
  Nat.eqb i idx = jsstring_eqb k token.
Proof.
  intros Hk Hi Hget Hin. apply vocabulary_get_In in Hget.
  destruct (jsstring_eqb k token) eqn:E.
  - apply jsstring_eqb_eq in E. subst k. apply Nat.eqb_eq.
    eapply NoDup_fst_functional; eassumption.
  - apply Nat.eqb_neq. intros ->.
    assert (k = token) by (eapply NoDup_snd_functional; eassumption).
    subst. rewrite jsstring_eqb_refl in E. discriminate.
Qed.

Lemma fold_left_concat {A B : Type} (f : A -> B -> A) (ls : list (list B)) (a : A) :
  fold_left (fun acc l => fold_left f l acc) ls a = fold_left f (concat ls) a.
Proof.
  revert a. induction ls as [| l ls IH]; intro a; simpl; [reflexivity |].
  rewrite fold_left_app. apply IH.
Qed.

Section Vocabulary.
Context {host : JsHost}.

(** Keys in first-seen order, each with its position. *)
Lemma addTokens_shape (tokens : list jsstring) (v : TfIdfClass.Vocabulary) :
  map snd v = seq 0 (length v) ->
  let v' := fold_left TfIdfClass.addToken tokens v in
  map fst v' = setOfAcc (rev (map fst v)) tokens
  /\ map snd v' = seq 0 (length v').
Proof.
  revert v. induction tokens as [| t tokens IH]; intros v Hv; cbn [fold_left setOfAcc].
  - cbv zeta. rewrite rev_involutive. auto.
  - rewrite mem_rev, <- vocabulary_has_mem.
    assert (Hstep : TfIdfClass.addToken v t
                    = if TfIdfClass.has v t then v else v ++ [(t, length v)]).
    { unfold TfIdfClass.addToken. destruct (TfIdfClass.has v t) eqn:E; cbn [negb];
        [reflexivity | apply vocabulary_set_new, E]. }
    rewrite Hstep. destruct (TfIdfClass.has v t) eqn:E.
    + apply IH, Hv.
    + specialize (IH (v ++ [(t, length v)])).
      rewrite !map_app, rev_app_distr, length_app in IH. cbn [map fst snd rev app length] in IH.
      apply IH. rewrite Hv, Nat.add_1_r, seq_S. reflexivity.
Qed.

Lemma combine_fst_snd {A B : Type} (l : list (A * B)) :
  combine (map fst l) (map snd l) = l.
Proof. induction l as [| [a b] l IH]; simpl; congruence. Qed.

Lemma buildVocabulary_shape (documents : list (list jsstring)) :
  let terms := setOf (concat documents) in
  TfIdfClass.buildVocabulary documents = combine terms (seq 0 (length terms)).
Proof.
  cbv zeta. unfold TfIdfClass.buildVocabulary. rewrite fold_left_concat.
  destruct (@addTokens_shape (concat documents) [] eq_refl) as [Hk Hi].
  cbn [map rev] in Hk. fold (setOf (concat documents)) in Hk.
  set (v := fold_left TfIdfClass.addToken (concat documents) []) in *.
  rewrite <- (combine_fst_snd v), Hi, <- Hk, length_map. reflexivity.
Qed.

End Vocabulary.

(** ** The counters *)

Lemma increment_length (idx : nat) (arr : list nat) :
  length (TfIdfClass.increment idx arr) = length arr.
Proof.
  revert idx. induction arr as [| x arr IH]; intros [| idx]; simpl; auto.
Qed.

Lemma map_snd_combine {A B : Type} (l : list A) (r : list B) :
  length r = length l -> map snd (combine l r) = r.
Proof.
  revert r. induction l as [| a l IH]; intros [| b r]; simpl; try discriminate; auto.
  intros [= H]. rewrite IH by exact H. reflexivity.
Qed.

Lemma combine_map_r {A B C : Type} (g : A * B -> C) (l : list A) (r : list B) :
  combine l (map g (combine l r)) = map (fun p => (fst p, g p)) (combine l r).
Proof.
  revert r. induction l as [| a l IH]; intros [| b r]; simpl; auto.
  rewrite IH. reflexivity.
Qed.

Lemma combine_map_l {A B C : Type} (f : A -> C) (l : list A) (r : list B) :
  combine (map f l) r = map (fun p => (f (fst p), snd p)) (combine l r).
Proof.
  revert r. induction l as [| a l IH]; intros [| b r]; simpl; auto.
  rewrite IH. reflexivity.
Qed.

Lemma combine_repeat {A B C : Type} (F : A * B -> C) (l : list A) (z : B) :
  map F (combine l (repeat z (length l))) = map (fun a => F (a, z)) l.
Proof. induction l as [| a l IH]; simpl; congruence. Qed.

(** Bumping the counter of index [idx] touches the entry of that index only. *)
Lemma increment_combine (v : TfIdfClass.Vocabulary) (s idx : nat) (arr : list nat) :
  map snd v = seq s (length v) -> s <= idx ->
  combine v (TfIdfClass.increment (idx - s) arr)
  = map (fun p => (fst p, snd p + if Nat.eqb (snd (fst p)) idx then 1 else 0))
        (combine v arr).
Proof.
  revert s arr. induction v as [| [k i] v IH]; intros s [| a arr] Hv Hle;
    try reflexivity; [destruct (idx - s); reflexivity |].
  cbn [map snd length seq] in Hv. injection Hv as -> Hv.
  destruct (idx - s) as [| m] eqn:E.
  - assert (idx = s) by lia. subst idx.
    cbn [TfIdfClass.increment combine map fst snd]. rewrite Nat.eqb_refl. f_equal.
    rewrite <- (map_id (combine v arr)) at 1. apply map_ext_in.
    intros [[k' i'] a'] Hin. cbn [fst snd].
    assert (Hi' : In i' (seq (S s) (length v))).
    { rewrite <- Hv. apply in_combine_l in Hin. apply (in_map snd) in Hin. exact Hin. }
    apply in_seq in Hi'. destruct (Nat.eqb_spec i' s); [lia |].
    rewrite Nat.add_0_r. reflexivity.
  - cbn [TfIdfClass.increment combine map fst snd].
    destruct (Nat.eqb_spec s idx); [lia |]. rewrite Nat.add_0_r. f_equal.
    replace m with (idx - S s) by lia. apply IH; [exact Hv | lia].
Qed.

Section Counters.
Variable v : TfIdfClass.Vocabulary.
Hypothesis distinct_keys : NoDup (map fst v).
Hypothesis dense_indices : map snd v = seq 0 (length v).

Lemma distinct_indices : NoDup (map snd v).
Proof. rewrite dense_indices. apply seq_NoDup. Qed.

Lemma get_None_eqb (token k : jsstring) (i : nat) :
  TfIdfClass.get v token = None -> In (k, i) v -> jsstring_eqb k token = false.
Proof.
  intros Hget Hin. destruct (jsstring_eqb k token) eqn:E; [| reflexivity].
  apply jsstring_eqb_eq in E. subst k. exfalso.
  apply (@vocabulary_get_None _ _ Hget). apply (in_map fst) in Hin. exact Hin.
Qed.

(** The inner loop of the document-frequency pass: a term of the vocabulary
    is counted once when the document has it and its index was not seen. *)
Lemma countToken_fold (tokens : list jsstring) (docFreq seen : list nat) :
  length docFreq = length v ->
  fst (fold_left (TfIdfClass.countToken v) tokens (docFreq, seen))
  = map (fun p => snd p + if mem (fst (fst p)) tokens
                               && negb (TfIdfClass.seenHas seen (snd (fst p)))
                          then 1 else 0)
        (combine v docFreq).
Proof.
  revert docFreq seen. induction tokens as [| t tokens IH]; intros docFreq seen Hlen.
  - cbn [fold_left fst mem andb].
    rewrite <- (map_snd_combine v docFreq Hlen) at 1. apply map_ext.
    intros p. rewrite Nat.add_0_r. reflexivity.
  - cbn [fold_left]. unfold TfIdfClass.countToken at 2.
    destruct (TfIdfClass.get v t) as [idx |] eqn:Hget.
    + destruct (TfIdfClass.seenHas seen idx) eqn:Hseen; cbn [negb].
      * rewrite IH by exact Hlen. apply map_ext_in.
        intros [[k i] a] Hin. cbn [fst snd mem]. apply in_combine_l in Hin.
        pose proof (@vocabulary_entry_of _ _ _ _ _ distinct_keys distinct_indices Hget Hin) as Heq.
        destruct (jsstring_eqb k t); cbn [orb]; [| reflexivity].
        apply Nat.eqb_eq in Heq. subst i. rewrite Hseen. cbn [negb].
        rewrite !andb_false_r. reflexivity.
      * rewrite IH by (rewrite increment_length; exact Hlen).
        rewrite <- (Nat.sub_0_r idx) at 1.
        rewrite (@increment_combine v 0 idx docFreq dense_indices (Nat.le_0_l _)).
        rewrite map_map. apply map_ext_in.
        intros [[k i] a] Hin. cbn [fst snd mem]. apply in_combine_l in Hin.
        pose proof (@vocabulary_entry_of _ _ _ _ _ distinct_keys distinct_indices Hget Hin) as Heq.
        unfold TfIdfClass.seenHas. rewrite existsb_app. cbn [existsb].
        rewrite orb_false_r. fold (TfIdfClass.seenHas seen i).
        destruct (jsstring_eqb k t); cbn [orb].
        -- apply Nat.eqb_eq in Heq. subst i. rewrite Nat.eqb_refl, Hseen.
           rewrite orb_true_r. cbn [negb andb]. rewrite andb_false_r. lia.
        -- rewrite Heq, orb_false_r. lia.
    + rewrite IH by exact Hlen. apply map_ext_in.
      intros [[k i] a] Hin. cbn [fst snd mem]. apply in_combine_l in Hin.
      rewrite (@get_None_eqb _ _ _ Hget Hin). reflexivity.
Qed.

Lemma countDocument_spec (docFreq : list nat) (tokens : list jsstring) :
  length docFreq = length v ->
  TfIdfClass.countDocument v docFreq tokens
  = map (fun p => snd p + if mem (fst (fst p)) tokens then 1 else 0) (combine v docFreq).
Proof.
  intro Hlen. unfold TfIdfClass.countDocument. rewrite countToken_fold by exact Hlen.
  apply map_ext. intro p. cbn [TfIdfClass.seenHas existsb negb].
  rewrite andb_true_r. reflexivity.
Qed.

Lemma countDocuments_fold (documents : list (list jsstring)) (docFreq : list nat) :
  length docFreq = length v ->
  fold_left (TfIdfClass.countDocument v) documents docFreq
  = map (fun p => snd p + TfIdf.documentFrequency documents (fst (fst p)))
        (combine v docFreq).
Proof.
  revert docFreq. induction documents as [| d documents IH]; intros docFreq Hlen.
  - cbn [fold_left]. rewrite <- (map_snd_combine v docFreq Hlen) at 1.
    apply map_ext. intro p. unfold TfIdf.documentFrequency. cbn [filter length].
    rewrite Nat.add_0_r. reflexivity.
  - cbn [fold_left]. rewrite countDocument_spec by exact Hlen.
    rewrite IH.
    + rewrite combine_map_r, map_map. apply map_ext. intros [[k i] a].
      cbn [fst snd]. unfold TfIdf.documentFrequency. cbn [filter].
      destruct (mem k d); cbn [length]; lia.
    + rewrite length_map, length_combine. lia.
Qed.

Lemma documentFrequencies_spec (documents : list (list jsstring)) :
  TfIdfClass.documentFrequencies v documents
  = map (TfIdf.documentFrequency documents) (map fst v).
Proof.
  unfold TfIdfClass.documentFrequencies.
  rewrite countDocuments_fold by apply repeat_length.
  rewrite combine_repeat, map_map. apply map_ext. intros [k i]. reflexivity.
Qed.

(** The counting loop of [vectorize]: one bump per occurrence of the term. *)
Lemma termCount_fold (tokens : list jsstring) (tf : list nat) :
  length tf = length v ->
  fold_left (fun tf token =>
               match TfIdfClass.get v token with
               | Some idx => TfIdfClass.increment idx tf
               | None => tf
               end) tokens tf
  = map (fun p => snd p + TfIdf.termCount (fst (fst p)) tokens) (combine v tf).
Proof.
  revert tf. induction tokens as [| t tokens IH]; intros tf Hlen.
  - cbn [fold_left]. rewrite <- (map_snd_combine v tf Hlen) at 1.
    apply map_ext. intro p. unfold TfIdf.termCount. cbn [filter length].
    rewrite Nat.add_0_r. reflexivity.
  - cbn [fold_left]. destruct (TfIdfClass.get v t) as [idx |] eqn:Hget.
    + rewrite IH by (rewrite increment_length; exact Hlen).
      rewrite <- (Nat.sub_0_r idx) at 1.
      rewrite (@increment_combine v 0 idx tf dense_indices (Nat.le_0_l _)).
      rewrite map_map. apply map_ext_in.
      intros [[k i] a] Hin. cbn [fst snd]. apply in_combine_l in Hin.
      rewrite (@vocabulary_entry_of _ _ _ _ _ distinct_keys distinct_indices Hget Hin).
      unfold TfIdf.termCount. cbn [filter].
      destruct (jsstring_eqb k t); cbn [length]; lia.
    + rewrite IH by exact Hlen. apply map_ext_in.
      intros [[k i] a] Hin. cbn [fst snd]. apply in_combine_l in Hin.
      unfold TfIdf.termCount. cbn [filter].
      rewrite (@get_None_eqb _ _ _ Hget Hin). reflexivity.
Qed.

End Counters.

(** ** The class computes the model *)

Lemma sum_squares_dot (l : list Q) (acc : Q) :
  fold_left (fun norm x => (norm + x * x)%Q) l acc
  = fold_left (fun acc xy => (acc + fst xy * snd xy)%Q) (combine l l) acc.
Proof.
  revert acc. induction l as [| x l IH]; intro acc; simpl; [reflexivity | apply IH].
Qed.

Lemma nth_error_middle {A : Type} (p : list A) (x : A) (r : list A) :
  nth_error (p ++ x :: r) (length p) = Some x.
Proof. induction p as [| y p IH]; simpl; auto. Qed.

Lemma get_combine_seq (terms : list jsstring) (s i : nat) (token : jsstring) :
  NoDup terms ->
  TfIdfClass.get (combine terms (seq s (length terms))) token = Some i
  <-> s <= i /\ nth_error terms (i - s) = Some token.
Proof.
  intro Hnd. revert s. induction terms as [| k terms IH]; intro s;
    cbn [length seq combine TfIdfClass.get].
  - split; [discriminate |]. intros [_ H]. destruct (i - s); discriminate.
  - inversion Hnd as [| ? ? Hnot Hnd']; subst.
    destruct (jsstring_eqb token k) eqn:E.
    + apply jsstring_eqb_eq in E. subst k. split.
      * intros [= <-]. rewrite Nat.sub_diag. split; [lia | reflexivity].
      * intros [Hle H]. destruct (i - s) as [| m] eqn:Em; [f_equal; lia |].
        cbn [nth_error] in H. apply nth_error_In in H. contradiction.
    + rewrite (IH Hnd' (S s)). split.
      * intros [Hle H]. split; [lia |].
        replace (i - s) with (S (i - S s)) by lia. exact H.
      * intros [Hle H]. destruct (i - s) as [| m] eqn:Em; cbn [nth_error] in H.
        -- injection H as <-. rewrite jsstring_eqb_refl in E. discriminate.
        -- split; [lia |]. replace (i - S s) with m by lia. exact H.
Qed.

Lemma similarityFrom_dot (ra rb pa pb : list Q) (sum : Q) :
  length pa = length pb -> length ra = length rb ->
  TfIdfClass.similarityFrom (pa ++ ra) (pb ++ rb) (length pa) (length ra) sum
  = Some (fold_left (fun acc xy => (acc + fst xy * snd xy)%Q) (combine ra rb) sum).
Proof.
  revert rb pa pb sum. induction ra as [| a ra IH]; intros [| b rb] pa pb sum Hp Hr;
    try discriminate; [reflexivity |].
  cbn [length TfIdfClass.similarityFrom].
  rewrite (nth_error_middle pa a ra), Hp, (nth_error_middle pb b rb), <- Hp.
  cbn [combine fold_left fst snd].
  specialize (IH rb (pa ++ [a]) (pb ++ [b]) (sum + a * b)%Q).
  rewrite <- !app_assoc, !length_app in IH. cbn [app length] in IH.
  rewrite Nat.add_1_r in IH. apply IH; [lia | injection Hr; auto].
Qed.

Lemma similarityFrom_short (vecA vecB : list Q) (i count : nat) (sum : Q) :
  i <= length vecA -> i <= length vecB ->
  length vecA < i + count \/ length vecB < i + count ->
  TfIdfClass.similarityFrom vecA vecB i count sum = None.
Proof.
  revert i sum. induction count as [| count IH]; intros i sum Ha Hb H; [lia |].
  cbn [TfIdfClass.similarityFrom].
  destruct (nth_error vecA i) as [a |] eqn:Ea; [| reflexivity].
  destruct (nth_error vecB i) as [b |] eqn:Eb; [| reflexivity].
  assert (i < length vecA) by (apply nth_error_Some; congruence).
  assert (i < length vecB) by (apply nth_error_Some; congruence).
  apply IH; lia.
Qed.

Section ClassRefines.
Context {host : JsHost}.
Variable documents : list (list jsstring).

Lemma buildVocabulary_keys :
  map fst (TfIdfClass.buildVocabulary documents) = setOf (concat documents).
Proof.
  unfold TfIdfClass.buildVocabulary. rewrite fold_left_concat.
  apply (@addTokens_shape (concat documents) [] eq_refl).
Qed.

Lemma buildVocabulary_indices :
  map snd (TfIdfClass.buildVocabulary documents)
  = seq 0 (length (TfIdfClass.buildVocabulary documents)).
Proof.
  unfold TfIdfClass.buildVocabulary. rewrite fold_left_concat.
  apply (@addTokens_shape (concat documents) [] eq_refl).
Qed.

Lemma buildVocabulary_distinct : NoDup (map fst (TfIdfClass.buildVocabulary documents)).
Proof. rewrite buildVocabulary_keys. apply setOf_NoDup. Qed.

Lemma new_vocabSize :
  TfIdfClass.vocabSize (TfIdfClass.new documents) = length (setOf (concat documents)).
Proof.
  unfold TfIdfClass.new. cbn [TfIdfClass.vocabSize].
  rewrite <- buildVocabulary_keys, length_map. reflexivity.
Qed.

Lemma new_idf :
  TfIdfClass.idf (TfIdfClass.new documents) = TfIdf.idf (TfIdf.build documents).
Proof.
  unfold TfIdfClass.new, TfIdf.build. cbn [TfIdfClass.idf TfIdf.idf].
  rewrite (@documentFrequencies_spec _ buildVocabulary_distinct buildVocabulary_indices).
  rewrite buildVocabulary_keys, map_map.
  destruct documents as [| d ds] eqn:E; [reflexivity |].
  apply map_ext. intro term. unfold TfIdf.inverseDocumentFrequency.
  replace (Nat.max 1 (length (d :: ds))) with (length (d :: ds)) by (cbn [length]; lia).
  reflexivity.
Qed.

Lemma new_termFrequencies (tokens : list jsstring) :
  TfIdfClass.termFrequencies (TfIdfClass.new documents) tokens
  = map (fun term => TfIdf.termCount term tokens) (setOf (concat documents)).
Proof.
  unfold TfIdfClass.termFrequencies, TfIdfClass.new.
  cbn [TfIdfClass.vocabulary TfIdfClass.vocabSize].
  rewrite (@termCount_fold _ buildVocabulary_distinct buildVocabulary_indices)
    by apply repeat_length.
  rewrite combine_repeat, <- buildVocabulary_keys, map_map.
  apply map_ext. intros [k i]. reflexivity.
Qed.

Lemma new_vectorize (tokens : list jsstring) :
  TfIdfClass.vectorize (TfIdfClass.new documents) tokens
  = TfIdf.vectorize (TfIdf.build documents) tokens.
Proof.
  unfold TfIdfClass.vectorize, TfIdf.vectorize, TfIdf.norm, TfIdf.dot.
  rewrite new_termFrequencies, new_idf, combine_map_l, map_map.
  cbn [fst snd]. rewrite sum_squares_dot. reflexivity.
Qed.

Lemma model_vectorize_length (tokens : list jsstring) :
  length (TfIdf.vectorize (TfIdf.build documents) tokens)
  = length (setOf (concat documents)).
Proof.
  unfold TfIdf.vectorize. cbv zeta.
  destruct (Qeq_bool _ 0); rewrite ?length_map, length_combine;
    unfold TfIdf.build; cbn [TfIdf.vocabulary TfIdf.idf]; rewrite length_map; lia.
Qed.

(** X1. The constructor of the class numbers the distinct tokens of the
    corpus in the order of their first occurrence: [vocabSize] is their
    number, and the vocabulary map sends a token to [i] exactly when the
    token is the [i]-th distinct one. *)
Theorem vocabulary_numbers_distinct_tokens (token : jsstring) (i : nat) :
  TfIdfClass.vocabSize (TfIdfClass.new documents) = length (setOf (concat documents))
  /\ (TfIdfClass.get (TfIdfClass.vocabulary (TfIdfClass.new documents)) token = Some i
      <-> nth_error (setOf (concat documents)) i = Some token).
Proof.
  split; [apply new_vocabSize |].
  unfold TfIdfClass.new. cbn [TfIdfClass.vocabulary].
  rewrite buildVocabulary_shape. cbv zeta.
  rewrite get_combine_seq by apply setOf_NoDup.
  rewrite Nat.sub_0_r. split; [tauto | split; [lia | assumption]].
Qed.


Lemma similarity_of_model_vectors (tokensA tokensB : list jsstring) :
  TfIdfClass.similarity (TfIdfClass.new documents)
                        (TfIdf.vectorize (TfIdf.build documents) tokensA)
                        (TfIdf.vectorize (TfIdf.build documents) tokensB)
  = Some (TfIdf.dot (TfIdf.vectorize (TfIdf.build documents) tokensA)
                    (TfIdf.vectorize (TfIdf.build documents) tokensB)).
Proof.
  unfold TfIdfClass.similarity.
  rewrite new_vocabSize, <- (model_vectorize_length tokensA).
  set (va := TfIdf.vectorize (TfIdf.build documents) tokensA).
  set (vb := TfIdf.vectorize (TfIdf.build documents) tokensB).
  assert (Hlen : length va = length vb).
  { unfold va, vb. rewrite !model_vectorize_length. reflexivity. }
  exact (@similarityFrom_dot va vb [] [] 0%Q eq_refl Hlen).
Qed.

(** X3. On two vectors the class made itself, [similarity] is a number (no
    index runs beyond a vector) and it is the model's dot product. *)
Theorem class_similarity_is_dot_product (tokensA tokensB : list jsstring) :
  let model := TfIdfClass.new documents in
  TfIdfClass.similarity model (TfIdfClass.vectorize model tokensA)
                        (TfIdfClass.vectorize model tokensB)
  = Some (TfIdf.similarity (TfIdf.build documents)
            (TfIdf.vectorize (TfIdf.build documents) tokensA)
            (TfIdf.vectorize (TfIdf.build documents) tokensB)).
Proof.
  cbv zeta. rewrite !new_vectorize. unfold TfIdf.similarity.
  apply similarity_of_model_vectors.
Qed.

End ClassRefines.

Lemma filter_length_Permutation {A : Type} (p : A -> bool) (l l' : list A) :
  Permutation l l' -> length (filter p l) = length (filter p l').
Proof.
  induction 1 as [| x l l' _ IH | x y l | l l' l'' _ IH1 _ IH2]; simpl.
  - reflexivity.
  - destruct (p x); simpl; congruence.
  - destruct (p x), (p y); reflexivity.
  - congruence.
Qed.

Lemma filter_filter_implied {A : Type} (p q : A -> bool) (l : list A) :
  (forall x, p x = true -> q x = true) -> filter p (filter q l) = filter p l.
Proof.
  intro H. induction l as [| x l IH]; simpl; [reflexivity |].
  destruct (q x) eqn:Eq; simpl.
  - destruct (p x); congruence.
  - destruct (p x) eqn:Ep; [| exact IH]. apply H in Ep. congruence.
Qed.

Section ClassBehaviour.
Context {host : JsHost}.

(** X4. [similarity] reads [vocabSize] entries of both vectors: on a vector
    with fewer entries the sum is not a number. *)
Theorem similarity_of_short_vector_is_nan (model : TfIdfClass.t) (vecA vecB : list Q) :
  length vecA < TfIdfClass.vocabSize model \/ length vecB < TfIdfClass.vocabSize model ->
  TfIdfClass.similarity model vecA vecB = None.
Proof.
  intro H. apply similarityFrom_short; [lia | lia | exact H].
Qed.

(** X5. A vector depends on the tokens through the vocabulary terms among
    them and their numbers only: the order of the tokens and the tokens
    the corpus does not have make no difference. *)
Theorem vectorize_ignores_order_and_unknown_tokens
        (documents : list (list jsstring)) (tokensA tokensB : list jsstring) :
  let known := fun token => mem token (concat documents) in
  Permutation (filter known tokensA) (filter known tokensB) ->
  TfIdfClass.vectorize (TfIdfClass.new documents) tokensA
  = TfIdfClass.vectorize (TfIdfClass.new documents) tokensB.
Proof.
  intros known Hperm.
  assert (Htf : TfIdfClass.termFrequencies (TfIdfClass.new documents) tokensA
                = TfIdfClass.termFrequencies (TfIdfClass.new documents) tokensB).
  { rewrite !new_termFrequencies. apply map_ext_in. intros term Hin.
    rewrite setOf_In in Hin. unfold TfIdf.termCount.
    rewrite <- (filter_filter_implied (jsstring_eqb term) known tokensA).
    - rewrite <- (filter_filter_implied (jsstring_eqb term) known tokensB).
      + apply filter_length_Permutation, Hperm.
      + intros x Hx. apply jsstring_eqb_eq in Hx. subst x. apply mem_In, Hin.
    - intros x Hx. apply jsstring_eqb_eq in Hx. subst x. apply mem_In, Hin. }
  unfold TfIdfClass.vectorize. rewrite Htf. reflexivity.
Qed.

(** X6. Where the logarithm of the host is not negative from 1 on, every
    weight of the class is at least 1: the quotient under the logarithm is
    never below 1, a term being counted at most once per document. *)
Theorem idf_weights_at_least_one (documents : list (list jsstring)) :
  (forall q, (1 <= q)%Q -> (0 <= Math_log q)%Q) ->
  Forall (fun weight => (1 <= weight)%Q) (TfIdfClass.idf (TfIdfClass.new documents)).
Proof.
  intro Hlog. rewrite new_idf. unfold TfIdf.build. cbn [TfIdf.idf].
  apply Forall_map, Forall_forall. intros term _.
  unfold TfIdf.inverseDocumentFrequency.
  pose proof (documentFrequency_le documents term) as Hle.
  assert (H1 : (1 <= ofNat (length documents + 1)
                     / ofNat (TfIdf.documentFrequency documents term + 1))%Q).
  { apply Qle_shift_div_l.
    - unfold ofNat. change 0%Q with (inject_Z 0). rewrite <- Zlt_Qlt. lia.
    - rewrite Qmult_1_l. unfold ofNat. rewrite <- Zle_Qle. lia. }
  pose proof (Hlog _ H1). lra.
Qed.

End ClassBehaviour.

Section ClassInTheMapper.
Context {host : JsHost}.


End ClassInTheMapper.

(* ===================================================================== *)
(** * src/lib/text.ts: the tokenizer and the n-grams *)
(* ===================================================================== *)

Lemma forallb_rev {A : Type} (p : A -> bool) (l : list A) :
  forallb p (rev l) = forallb p l.
Proof.
  induction l as [| x l IH]; simpl; [reflexivity |].
  rewrite forallb_app, IH. simpl. rewrite andb_true_r. apply andb_comm.
Qed.

Lemma rev_not_nil {A : Type} (l : list A) : l <> [] -> rev l <> [].
Proof.
  intros H E. apply H. rewrite <- (rev_involutive l), E. reflexivity.
Qed.

Lemma tokenize_Some (s : jsstring) : Text.tokenize (Some s) = Text.matchRuns [] s.
Proof. destruct s; reflexivity. Qed.

(** The runs found from a run in progress: well-formed tokens that spell
    the token characters of the input. *)
Lemma matchRuns_spec (s cur : jsstring) :
  forallb Text.isTokenChar cur = true ->
  Forall (fun token => token <> [] /\ forallb Text.isTokenChar token = true)
         (Text.matchRuns cur s)
  /\ concat (Text.matchRuns cur s) = rev cur ++ filter Text.isTokenChar s.
Proof.
  revert cur. induction s as [| c s IH]; intros cur Hcur; cbn [Text.matchRuns filter].
  - destruct cur as [| x cur]; [split; [constructor | reflexivity] |].
    split; [| cbn [concat]; reflexivity].
    constructor; [| constructor]. split.
    + apply rev_not_nil. discriminate.
    + rewrite forallb_rev. exact Hcur.
  - destruct (Text.isTokenChar c) eqn:Ec.
    + destruct (IH (c :: cur)) as [Hwf Hcat].
      { cbn [forallb]. rewrite Ec, Hcur. reflexivity. }
      split; [exact Hwf |]. rewrite Hcat. cbn [rev]. rewrite <- app_assoc. reflexivity.
    + destruct (IH [] eq_refl) as [Hwf Hcat].
      destruct cur as [| x cur]; [split; [exact Hwf | exact Hcat] |].
      split.
      * constructor; [| exact Hwf]. split.
        -- apply rev_not_nil. discriminate.
        -- rewrite forallb_rev. exact Hcur.
      * cbn [concat]. rewrite Hcat. reflexivity.
Qed.

Lemma matchRuns_app (token cur rest : jsstring) :
  forallb Text.isTokenChar token = true ->
  Text.matchRuns cur (token ++ rest) = Text.matchRuns (rev token ++ cur) rest.
Proof.
  revert cur. induction token as [| c token IH]; intros cur H; [reflexivity |].
  cbn [forallb] in H. apply andb_true_iff in H. destruct H as [Hc H].
  cbn [app Text.matchRuns rev]. rewrite Hc, IH by exact H.
  rewrite <- app_assoc. reflexivity.
Qed.

Lemma matchRuns_join (tokens : list jsstring) :
  Forall (fun token => token <> [] /\ forallb Text.isTokenChar token = true) tokens ->
  Text.matchRuns [] (join [32%N] tokens) = tokens.
Proof.
  induction 1 as [| p rest [Hne Hp] Hrest IH]; [reflexivity |].
  assert (Hrev : rev p <> []) by (apply rev_not_nil, Hne).
  destruct rest as [| q rest].
  - cbn [join]. rewrite <- (app_nil_r p) at 1. rewrite matchRuns_app by exact Hp.
    rewrite app_nil_r. cbn [Text.matchRuns].
    destruct (rev p) eqn:E; [contradiction |]. rewrite <- E, rev_involutive. reflexivity.
  - change (join [32%N] (p :: q :: rest)) with (p ++ [32%N] ++ join [32%N] (q :: rest)).
    rewrite matchRuns_app by exact Hp. rewrite app_nil_r.
    cbn [app Text.matchRuns]. change (Text.isTokenChar 32) with false. cbv iota.
    destruct (rev p) eqn:E; [contradiction |]. rewrite <- E, rev_involutive, IH.
    reflexivity.
Qed.

Lemma firstn_skipn_forallb {A : Type} (p : A -> bool) (n i : nat) (l : list A) :
  forallb p l = true -> forallb p (firstn n (skipn i l)) = true.
Proof.
  intro H. rewrite forallb_forall in *. intros x Hx. apply H.
  rewrite <- (firstn_skipn i l). apply in_or_app. right.
  rewrite <- (firstn_skipn n (skipn i l)). apply in_or_app. left. exact Hx.
Qed.

Lemma filter_forallb {A : Type} (p : A -> bool) (l : list A) :
  forallb p (filter p l) = true.
Proof. apply forallb_forall. intros x Hx. apply filter_In in Hx. tauto. Qed.

Section Tokens.
Context {host : JsHost}.

(** X7. The tokens of a text are not empty, consist of token characters
    only, and spell, one after the other, exactly the token characters of
    the text in their order: the tokenizer drops separators and nothing
    else. *)
Theorem tokenize_spells_the_token_characters (text : jsstring) :
  Forall (fun token => token <> [] /\ forallb Text.isTokenChar token = true)
         (Text.tokenize (Some text))
  /\ concat (Text.tokenize (Some text)) = filter Text.isTokenChar text.
Proof. rewrite tokenize_Some. apply (@matchRuns_spec text [] eq_refl). Qed.

(** X8. Joining tokens with a space and tokenizing again gives the tokens
    back, for tokens that are not empty and made of token characters. *)
Theorem tokenize_after_joinTokens (tokens : list jsstring) :
  Forall (fun token => token <> [] /\ forallb Text.isTokenChar token = true) tokens ->
  Text.tokenize (Some (Text.joinTokens tokens)) = tokens.
Proof.
  intro H. rewrite tokenize_Some. unfold Text.joinTokens.
  change (str " ") with [32%N]. apply matchRuns_join, H.
Qed.

(** X9. The character n-grams of a value: each has 3, 4 or 5 code units, all
    of them lower-case letters, digits or the space; a value that keeps [L]
    such characters gives [L-2] trigrams, [L-3] 4-grams and [L-4] 5-grams
    (none of a length that [L] does not reach). *)
Theorem generateCharNgrams_windows (value : jsstring) :
  let cleaned := filter Text.isNgramChar (Text.collapseSpaces false (toLowerCase value)) in
  Forall (fun ngram => 3 <= length ngram <= 5
                       /\ forallb Text.isNgramChar ngram = true)
         (Text.generateCharNgrams value)
  /\ length (Text.generateCharNgrams value)
     = (length cleaned - 2) + (length cleaned - 3) + (length cleaned - 4).
Proof.
  intro cleaned. unfold Text.generateCharNgrams, Text.generateCharNgramsRange.
  cbv zeta. fold cleaned. cbn [Nat.sub Nat.add seq flat_map].
  assert (Hn : forall n, Forall (fun ngram => length ngram = n
                                             /\ forallb Text.isNgramChar ngram = true)
                                (Text.ngramsOfLength cleaned n)).
  { intro n. unfold Text.ngramsOfLength. apply Forall_map, Forall_forall.
    intros i Hi. apply in_seq in Hi. unfold slice. split.
    - rewrite length_firstn, length_skipn. lia.
    - apply firstn_skipn_forallb. apply filter_forallb. }
  assert (Hlen : forall n, length (Text.ngramsOfLength cleaned n) = length cleaned + 1 - n).
  { intro n. unfold Text.ngramsOfLength. rewrite length_map, length_seq. reflexivity. }
  assert (Hn' : forall n, 3 <= n <= 5 ->
                  Forall (fun ngram => 3 <= length ngram <= 5
                                       /\ forallb Text.isNgramChar ngram = true)
                         (Text.ngramsOfLength cleaned n)).
  { intros n Hrange. eapply Forall_impl; [| apply (Hn n)].
    cbv beta. intros g [Hg Hc]. split; [lia | exact Hc]. }
  split.
  - rewrite app_nil_r.
    apply Forall_app. split; [apply Hn'; lia |].
    apply Forall_app. split; apply Hn'; lia.
  - rewrite !length_app, !Hlen. cbn [length]. lia.
Qed.

End Tokens.

(* ===================================================================== *)
(** * src/lib/seo-mapper.ts: what a run keeps *)
(* ===================================================================== *)

Lemma rescore_unscored {host : JsHost} (productEmbedding : option (list Q))
      (embeddings : list (list Q)) (top rescored : list CandidateMatch.t) (index : nat) :
  rescore productEmbedding embeddings top index = Ok rescored ->
  map Shape.unscored rescored = map Shape.unscored top.
Proof.
  revert rescored index. induction top as [| c top IH]; intros rescored index;
    cbn [rescore].
  - intros [= <-]. reflexivity.
  - destruct productEmbedding as [vecA |]; [| discriminate].
    destruct (nth_error embeddings (index + 1)) as [vecB |]; [| discriminate].
    destruct (rescore (Some vecA) embeddings top (S index)) as [rest |] eqn:E;
      [| discriminate].
    intros [= <-]. cbn [map]. rewrite (IH rest (S index) E). reflexivity.
Qed.

Lemma mapGet_buildModels {host : JsHost} (categories : list SeoCategory.t)
      (key : jsstring) (category : SeoCategory.t) :
  mapGet key (categoryMap (buildModels categories)) = Some category ->
  In category categories.
Proof.
  unfold buildModels. cbn [categoryMap].
  assert (H : forall m,
             (forall c, mapGet key m = Some c -> In c categories) ->
             forall l, incl l categories ->
             forall c,
               mapGet key (fold_left (fun m category =>
                                        mapSet (SeoCategory.id category) category m)
                                     l m) = Some c ->
               In c categories).
  { intros m Hm l. revert m Hm. induction l as [| x l IH]; intros m Hm Hl c;
      cbn [fold_left]; [apply Hm |].
    apply IH.
    - intros c'. unfold mapSet. cbn [mapGet].
      destruct (jsstring_eqb key (SeoCategory.id x)); [| apply Hm].
      intros [= <-]. apply Hl. left. reflexivity.
    - intros y Hy. apply Hl. right. exact Hy. }
  apply (H []); [discriminate | apply incl_refl].
Qed.

Lemma nth_error_In_map {A B : Type} (f : A -> B) (l : list A) (i : nat) (x : A)
      (l' : list B) :
  Permutation (map f l) l' -> nth_error l i = Some x -> In (f x) l'.
Proof.
  intros Hperm Hnth. eapply Permutation_in; [exact Hperm |].
  apply in_map. eapply nth_error_In, Hnth.
Qed.

Section RunShape.
Context {host : JsHost}.
Variable service : EmbeddingService.
Variable categories : list SeoCategory.t.
Variable options : MappingOptions.t.
Variable product : ProductRecord.t.

Local Notation "'corpus'" := (map (Shape.unscoredOf product) categories).

Lemma scoreCandidates_unscored (models : Models) :
  map Shape.unscored (scoreCandidates models categories product) = corpus.
Proof.
  unfold scoreCandidates, mapi. rewrite map_map.
  transitivity (map (Shape.unscoredOf product)
                    (map snd (combine (seq 0 (length categories)) categories))).
  - rewrite map_map. apply map_ext. intros [i c]. reflexivity.
  - rewrite map_snd_combine by (rewrite length_seq; reflexivity). reflexivity.
Qed.

Lemma rankCandidates_unscored (models : Models) :
  Permutation (map Shape.unscored (rankCandidates models categories product)) corpus.
Proof.
  unfold rankCandidates. rewrite <- (scoreCandidates_unscored models).
  apply Permutation_map, sortDescBy_perm.
Qed.

Lemma lexicalGate_best (ranked : list CandidateMatch.t) :
  best (lexicalGate options ranked) = nth_error ranked 0.
Proof.
  unfold lexicalGate. destruct (nth_error ranked 0) as [b |]; [| reflexivity].
  destruct (allowMapping _ _ _ _); reflexivity.
Qed.

Lemma lexicalGate_names (models : Models) :
  Shape.NamesCorpus categories product
    (lexicalGate options (rankCandidates models categories product)).
Proof.
  split.
  - rewrite lexicalGate_ranked. apply rankCandidates_unscored.
  - rewrite lexicalGate_best. intros b Hb.
    eapply nth_error_In_map; [apply rankCandidates_unscored | exact Hb].
Qed.

Lemma refineWithEmbeddings_names (ranked : list CandidateMatch.t)
      (embeddings : list (list Q)) (r : Refinement) :
  refineWithEmbeddings options ranked (firstn OPENAI_TOP_K ranked) embeddings
  = Ok (Some r) ->
  Permutation (map Shape.unscored (r_rankedCandidates r)) (map Shape.unscored ranked)
  /\ (forall b, r_bestCandidate r = Some b ->
                In (Shape.unscored b) (map Shape.unscored ranked)).
Proof.
  intro H. apply refineWithEmbeddings_cases in H.
  destruct H as (rescored & Hrescore & Hbest & Hranked & _).
  apply rescore_unscored in Hrescore.
  assert (Hperm : Permutation
                    (map Shape.unscored
                         (sortDescBy CandidateMatch.score rescored
                          ++ skipn (length (firstn OPENAI_TOP_K ranked)) ranked))
                    (map Shape.unscored ranked)).
  { rewrite map_app. rewrite <- (firstn_skipn OPENAI_TOP_K ranked) at 3.
    rewrite map_app. apply Permutation_app.
    - rewrite <- Hrescore. apply Permutation_map, sortDescBy_perm.
    - rewrite length_firstn.
      destruct (Nat.le_ge_cases OPENAI_TOP_K (length ranked)) as [Hle | Hge].
      + rewrite Nat.min_l by exact Hle. apply Permutation_refl.
      + rewrite Nat.min_r by exact Hge.
        rewrite !skipn_all2 by lia. apply Permutation_refl. }
  split.
  - rewrite Hranked. etransitivity; [| exact Hperm].
    apply Permutation_map, sortDescBy_perm.
  - intros b Hb. rewrite Hbest in Hb.
    eapply Permutation_in; [exact Hperm |]. rewrite map_app. apply in_or_app. left.
    apply in_map. eapply nth_error_In, Hb.
Qed.

Lemma applyRefinement_names (r : Refinement) (st : Locals) :
  Permutation (map Shape.unscored (r_rankedCandidates r)) corpus ->
  (forall b, r_bestCandidate r = Some b -> In (Shape.unscored b) corpus) ->
  Shape.NamesCorpus categories product (applyRefinement r st).
Proof.
  intros Hperm Hbest. unfold Shape.NamesCorpus, applyRefinement.
  destruct (r_status r); [destruct (r_bestCandidate r) as [chosen |] |];
    cbn [rankedCandidates best]; (split; [exact Hperm |]); intros b Hb.
  - injection Hb as <-. apply Hbest. reflexivity.
  - eapply nth_error_In_map; eassumption.
  - eapply nth_error_In_map; eassumption.
Qed.

Lemma rerankStep_names (models : Models)
      (st st' : Locals) (log log' : list Request) :
  Shape.NamesCorpus categories product st ->
  rerankStep service models product options st log = (Ok st', log') ->
  Shape.NamesCorpus categories product st'.
Proof.
  intros Hst. rewrite rerankStep_unfold.
  destruct (_ && _ && _); [| intros [= <- _]; exact Hst].
  rewrite refineWithOpenAI_unfold.
  destruct (usableKey options) as [key |]; [| intros [= <- _]; exact Hst].
  cbv zeta. destruct (truthy _).
  - destruct (rankedCandidates st) as [| c rest] eqn:Hranked;
      [intros [= <- _]; exact Hst |].
    destruct (service _) as [message | code errorText | data];
      try (intros [= <- _]; exact Hst).
    destruct (refineWithEmbeddings _ _ _ _) as [[r |] | e] eqn:Hrefine;
      intros [= <- _]; try exact Hst.
    apply refineWithEmbeddings_names in Hrefine. destruct Hrefine as [Hperm Hbest].
    destruct Hst as [Hst _]. rewrite Hranked in Hst.
    apply applyRefinement_names.
    + etransitivity; eassumption.
    + intros b Hb. eapply Permutation_in; [exact Hst | apply Hbest, Hb].
  - intros [= <- _]. destruct Hst as [Hst _].
    apply applyRefinement_names; cbn [r_rankedCandidates r_bestCandidate].
    + exact Hst.
    + intros b Hb.
      exact (@nth_error_In_map _ _ Shape.unscored (rankedCandidates st) 0 b _ Hst Hb).
Qed.

End RunShape.

Lemma NoDup_firstn {A : Type} (n : nat) (l : list A) : NoDup l -> NoDup (firstn n l).
Proof.
  intro H. rewrite <- (firstn_skipn n l) in H. eapply NoDup_app_remove_r, H.
Qed.

Lemma In_firstn {A : Type} (n : nat) (l : list A) (x : A) :
  In x (firstn n l) -> In x l.
Proof.
  intro H. rewrite <- (firstn_skipn n l). apply in_or_app. left. exact H.
Qed.

Lemma toFixed_le_1 (d : nat) (x : Q) : (0 <= x)%Q -> (x <= 1)%Q -> (toFixed d x <= 1)%Q.
Proof.
  intros H0 H1. unfold toFixed, roundHalfAway.
  set (p := (10 ^ Z.of_nat d)%Z).
  assert (Hp : (0 < p)%Z) by (apply Z.pow_pos_nonneg; lia).
  assert (HpQ : (0 < inject_Z p)%Q).
  { change 0%Q with (inject_Z 0). rewrite <- Zlt_Qlt. exact Hp. }
  assert (Hx : (0 <= x * inject_Z p)%Q) by (apply Qmult_le_0_compat; lra).
  apply Qle_bool_iff in Hx. rewrite Hx. apply Qle_bool_iff in Hx.
  apply Qle_shift_div_r; [exact HpQ |]. rewrite Qmult_1_l, <- Zle_Qle.
  assert (Hle : (x * inject_Z p + (1 # 2) <= inject_Z p + (1 # 2))%Q).
  { assert (x * inject_Z p <= 1 * inject_Z p)%Q by (apply Qmult_le_compat_r; lra).
    lra. }
  apply Qfloor_resp_le in Hle. etransitivity; [exact Hle |].
  assert (Hlt : (Qfloor (inject_Z p + (1 # 2)) < p + 1)%Z).
  { rewrite Zlt_Qlt.
    eapply Qle_lt_trans; [apply Qfloor_le |]. rewrite inject_Z_plus.
    change (inject_Z 1) with 1%Q. lra. }
  lia.
Qed.

Lemma overlapOf_le (product : ProductRecord.t) (category : SeoCategory.t) :
  overlapOf product category <= length (setOf (ProductRecord.tokens product))
  /\ overlapOf product category <= length (setOf (SeoCategory.tokens category)).
Proof.
  unfold overlapOf. split.
  - rewrite computeOverlap_count. apply filter_length_le.
  - rewrite computeOverlap_sets, intersectionSize_comm. apply filter_length_le.
Qed.

Lemma jaccardOf_bounds (product : ProductRecord.t) (category : SeoCategory.t) :
  (0 <= jaccardOf product category <= 1)%Q.
Proof.
  unfold jaccardOf. cbv zeta.
  destruct (overlapOf_le product category) as [Ha Hb].
  set (o := overlapOf product category) in *.
  set (u := length _ + length _ - o).
  destruct (Nat.ltb 0 u) eqn:E; [| lra].
  apply Nat.ltb_lt in E.
  assert (Hu : (0 < ofNat u)%Q).
  { unfold ofNat. change 0%Q with (inject_Z 0). rewrite <- Zlt_Qlt. lia. }
  split.
  - apply Qdiv_nonneg; [apply ofNat_nonneg | lra].
  - apply Qle_shift_div_r; [exact Hu |]. rewrite Qmult_1_l.
    unfold ofNat. rewrite <- Zle_Qle. unfold u. lia.
Qed.

Section Outcome.
Context {host : JsHost}.
Variable service : EmbeddingService.
Variable models : Models.
Variable categories : list SeoCategory.t.
Variable options : MappingOptions.t.
Variable product : ProductRecord.t.

(** A turn of the loop ends, with the variables of the body in a state that
    names the corpus and is consistent. *)
Lemma mapProduct_state (log : list Request) :
  exists st log',
    mapProduct service models categories options product log
    = (Ok (outcomeOf options product st), log')
    /\ Shape.NamesCorpus categories product st
    /\ Spec.Consistent st.
Proof.
  destruct (mapProduct_total service models categories options product log)
    as (st & log' & Hverdict & Hrun).
  exists st, log'. split; [exact Hrun |]. unfold verdictOf in Hverdict. split.
  - eapply rerankStep_names; [| exact Hverdict]. apply lexicalGate_names.
  - eapply rerankStep_consistent; [| exact Hverdict]. apply lexicalGate_consistent.
Qed.

(** X10. The candidates reported for a product are categories of the
    corpus: there are five of them, or as many as the corpus has, each with
    the identifier and the path of one category; where the identifiers of
    the corpus are distinct, no category is listed twice; and the path a
    product is mapped to is the path of a category of the corpus. This
    holds with and without reranking, whatever the embedding service
    replies. *)
Theorem outcome_names_corpus_categories (log : list Request) :
  exists item log',
    mapProduct service models categories options product log = (Ok item, log')
    /\ length (MappedProduct.candidates item) = Nat.min 5 (length categories)
    /\ (forall c, In c (MappedProduct.candidates item) ->
          exists category,
            In category categories
            /\ CandidateMatch.categoryId c = SeoCategory.id category
            /\ CandidateMatch.categoryPath c = SeoCategory.rawPath category)
    /\ (NoDup (map SeoCategory.id categories) ->
        NoDup (map CandidateMatch.categoryId (MappedProduct.candidates item)))
    /\ (forall path, MappedProduct.seoCategory item = Some path ->
          exists category,
            In category categories /\ path = SeoCategory.rawPath category).
Proof.
  destruct (mapProduct_state log) as (st & log' & Hrun & [Hperm Hbest] & _).
  exists (outcomeOf options product st), log'. split; [exact Hrun |].
  cbn [outcomeOf MappedProduct.candidates MappedProduct.seoCategory].
  assert (Hin : forall c, In c (rankedCandidates st) ->
                  In (Shape.unscored c) (map (Shape.unscoredOf product) categories)).
  { intros c Hc. eapply Permutation_in; [exact Hperm |]. apply in_map, Hc. }
  split; [| split; [| split]].
  - rewrite length_firstn. apply Permutation_length in Hperm.
    rewrite !length_map in Hperm. rewrite Hperm. reflexivity.
  - intros c Hc. apply In_firstn, Hin, in_map_iff in Hc.
    destruct Hc as (category & Heq & Hcat). injection Heq as H1 H2 _ _.
    exists category. auto.
  - intro Hids. rewrite <- firstn_map. apply NoDup_firstn.
    assert (Hp : Permutation (map CandidateMatch.categoryId (rankedCandidates st))
                             (map SeoCategory.id categories)).
    { apply (Permutation_map (fun u => fst (fst (fst u)))) in Hperm.
      rewrite !map_map in Hperm. exact Hperm. }
    eapply Permutation_NoDup; [apply Permutation_sym, Hp | exact Hids].
  - intros path Hpath. destruct (status st); [| discriminate].
    destruct (best st) as [b |] eqn:Hb; [| discriminate].
    injection Hpath as <-. specialize (Hbest b eq_refl).
    apply in_map_iff in Hbest. destruct Hbest as (category & Heq & Hcat).
    injection Heq as H1 H2 _ _. exists category. auto.
Qed.

(** X11. The outcome of a product carries the product; it has a category
    exactly when its status is mapped; and its reason is never empty. *)
Theorem outcome_has_category_iff_mapped (log : list Request) :
  exists item log',
    mapProduct service models categories options product log = (Ok item, log')
    /\ MappedProduct.product item = product
    /\ (MappedProduct.seoCategory item <> None <-> MappedProduct.status item = mapped)
    /\ MappedProduct.reason item <> [].
Proof.
  destruct (mapProduct_state log) as (st & log' & Hrun & _ & (_ & Hmapped & _)).
  exists (outcomeOf options product st), log'. split; [exact Hrun |].
  cbn [outcomeOf MappedProduct.product MappedProduct.seoCategory MappedProduct.status
       MappedProduct.reason].
  split; [reflexivity |]. split.
  - destruct (status st) eqn:Hst.
    + destruct (best st) as [b |]; [split; [reflexivity | discriminate] |].
      exfalso. apply Hmapped; reflexivity.
    + split; [congruence | discriminate].
  - unfold annotate.
    destruct (Status_eqb (status st) not_mapped && _).
    + destruct (reason st); discriminate.
    + destruct (reason st); [| discriminate].
      destruct (summary st), (status st); discriminate.
Qed.

(** X12. The overlap and the Jaccard index reported with a candidate: the
    overlap is at most the number of distinct tokens of the product, and
    the index lies between 0 and 1; reranking changes neither. *)
Theorem outcome_overlap_and_jaccard_bounds (log : list Request) :
  exists item log',
    mapProduct service models categories options product log = (Ok item, log')
    /\ Forall (fun c =>
                 CandidateMatch.overlap c
                 <= length (setOf (ProductRecord.tokens product))
                 /\ (0 <= CandidateMatch.jaccard c <= 1)%Q)
              (MappedProduct.candidates item).
Proof.
  destruct (mapProduct_state log) as (st & log' & Hrun & [Hperm _] & _).
  exists (outcomeOf options product st), log'. split; [exact Hrun |].
  cbn [outcomeOf MappedProduct.candidates]. apply Forall_forall. intros c Hc.
  apply In_firstn in Hc.
  assert (Hin : In (Shape.unscored c) (map (Shape.unscoredOf product) categories)).
  { eapply Permutation_in; [exact Hperm |]. apply in_map, Hc. }
  apply in_map_iff in Hin. destruct Hin as (category & Heq & _).
  injection Heq as _ _ Ho Hj. rewrite <- Ho, <- Hj.
  destruct (jaccardOf_bounds product category) as [H0 H1]. split.
  - apply overlapOf_le.
  - split; [apply toFixed_nonneg, H0 | apply toFixed_le_1; assumption].
Qed.

End Outcome.

(** ** The requests of a run *)

Lemma forEach_log {A B : Type} (f : A -> M B) (R : A -> Request -> Prop)
      (S : A -> B -> Prop) (xs : list A) :
  (forall x log, exists y log',
      f x log = (Ok y, log') /\ S x y
      /\ (log' = log \/ exists r, R x r /\ log' = log ++ [r])) ->
  forall log,
  exists ys requests,
    forEach f xs log = (Ok ys, log ++ requests)
    /\ length requests <= length xs
    /\ Forall (fun r => exists x, In x xs /\ R x r) requests
    /\ Forall2 S xs ys.
Proof.
  intro Hstep. induction xs as [| x xs IH]; intro log.
  - exists [], []. rewrite app_nil_r. repeat split; constructor.
  - destruct (Hstep x log) as (y & log1 & Hy & HS & Hlog).
    destruct (IH log1) as (ys & requests & Hys & Hlen & Hall & Hall2).
    assert (Hweaken : Forall (fun r => exists x', In x' (x :: xs) /\ R x' r) requests).
    { eapply Forall_impl; [| exact Hall]. intros r (x' & Hin & Hr).
      exists x'. split; [right; exact Hin | exact Hr]. }
    cbn [forEach]. unfold bind, ret. rewrite Hy, Hys.
    destruct Hlog as [-> | (r & Hr & ->)].
    + exists (y :: ys), requests. cbn [length].
      split; [reflexivity |]. split; [lia |]. split; [exact Hweaken |].
      constructor; assumption.
    + exists (y :: ys), (r :: requests). cbn [length].
      split; [rewrite <- app_assoc; reflexivity |]. split; [lia |]. split.
      * constructor; [| exact Hweaken]. exists x. split; [left; reflexivity | exact Hr].
      * constructor; assumption.
Qed.

Section Requests.
Context {host : JsHost}.
Variable service : EmbeddingService.
Variable categories : list SeoCategory.t.
Variable options : MappingOptions.t.

(** The texts of a request are paths of the corpus. *)
Lemma candidateText_corpus (product : ProductRecord.t) (ranked : list CandidateMatch.t)
      (c : CandidateMatch.t) :
  Permutation (map Shape.unscored ranked) (map (Shape.unscoredOf product) categories) ->
  In c ranked ->
  exists category,
    In category categories
    /\ candidateText (categoryMap (buildModels categories)) c
       = SeoCategory.rawPath category.
Proof.
  intros Hperm Hc. unfold candidateText.
  destruct (mapGet _ _) as [category |] eqn:Hget.
  - exists category. split; [| reflexivity]. eapply mapGet_buildModels, Hget.
  - assert (Hin : In (Shape.unscored c) (map (Shape.unscoredOf product) categories)).
    { eapply Permutation_in; [exact Hperm |]. apply in_map, Hc. }
    apply in_map_iff in Hin. destruct Hin as (category & Heq & Hcat).
    injection Heq as _ Hpath _ _. exists category. auto.
Qed.

(** A turn of the loop issues no request or one, of the shape [RequestFor]. *)
Lemma mapProduct_request (product : ProductRecord.t) (log : list Request) :
  exists item log',
    mapProduct service (buildModels categories) categories options product log
    = (Ok item, log')
    /\ (exists l l',
          mapProduct service (buildModels categories) categories options product l
          = (Ok item, l'))
    /\ (log' = log
        \/ exists request,
             Shape.RequestFor categories options product request
             /\ log' = log ++ [request]).
Proof.
  set (models := buildModels categories).
  set (ranked := rankCandidates models categories product).
  pose proof (rankCandidates_unscored categories product models) as Hperm.
  fold ranked in Hperm.
  assert (Hstep : exists st log',
                    rerankStep service models product options
                               (lexicalGate options ranked) log = (Ok st, log')
                    /\ (log' = log
                        \/ exists request,
                             Shape.RequestFor categories options product request
                             /\ log' = log ++ [request])).
  { rewrite rerankStep_unfold.
    destruct (Status_eqb _ not_mapped) eqn:Hnot; cbn [andb]; [| eauto].
    destruct (MappingOptions.useOpenAI options) eqn:Huse; cbn [andb]; [| eauto].
    rewrite refineWithOpenAI_unfold.
    destruct (usableKey options) as [key |] eqn:Hkey; [| eauto].
    cbv zeta. rewrite lexicalGate_ranked.
    destruct (truthy (trim (ProductRecord.aggregatedText product))) eqn:Htext;
      [| eauto].
    destruct ranked as [| c rest] eqn:Hranked; [eauto |].
    set (request := {| inputs := _; apiKey := key |}).
    assert (Hreq : Shape.RequestFor categories options product request).
    { split; [exact Huse |]. split; [exact Hkey |]. split.
      - intro E. rewrite E in Htext. discriminate.
      - eexists. split; [reflexivity |]. split.
        + rewrite length_map, length_firstn.
          apply Permutation_length in Hperm. rewrite !length_map in Hperm.
          rewrite Hperm. reflexivity.
        + apply Forall_map, Forall_forall. intros c' Hc'.
          apply In_firstn in Hc'.
          destruct (@candidateText_corpus product _ c' Hperm Hc') as (category & Hcat & Heq).
          exists category. split; [exact Hcat | exact Heq]. }
    destruct (service request) as [message | code errorText | data];
      [eexists; eexists; split; [reflexivity | right; eauto] ..|].
    destruct (refineWithEmbeddings _ _ _ _) as [[r |] | e];
      eexists; eexists; (split; [reflexivity | right; eauto]). }
  destruct Hstep as (st & log' & Hrun & Hlog).
  exists (outcomeOf options product st), log'.
  assert (Hproduct : mapProduct service models categories options product log
                     = (Ok (outcomeOf options product st), log')).
  { rewrite mapProduct_unfold. unfold verdictOf. fold ranked. rewrite Hrun.
    reflexivity. }
  split; [exact Hproduct |]. split; [eauto | exact Hlog].
Qed.

(** X13. What a run sends to the embedding service: at most one request
    for a product, none unless reranking is switched on and a credential is
    given, each with that credential and with nothing but the text of one
    product, which is not blank, followed by the paths of six categories of
    the corpus (of all, where the corpus has fewer). *)
Theorem run_sends_at_most_one_request_per_product
        (products : ParsedProducts) (log : list Request) :
  categories <> [] ->
  exists response requests,
    mapProducts service categories products options log
    = (Ok response, log ++ requests)
    /\ length requests <= length (records products)
    /\ (MappingOptions.useOpenAI options = false \/ usableKey options = None ->
        requests = [])
    /\ Forall (fun request =>
                 exists product,
                   In product (records products)
                   /\ Shape.RequestFor categories options product request)
              requests.
Proof.
  intro Hne.
  assert (Hunfold :
            mapProducts service categories products options log
            = match forEach (mapProduct service (buildModels categories) categories
                                        options)
                            (records products) log with
              | (Ok items, log') =>
                  (Ok {| MappingResponse.items := items;
                         MappingResponse.stats := statsOf products items |}, log')
              | (Throw e, log') => (Throw e, log')
              end).
  { unfold mapProducts. destruct categories as [| c rest]; [congruence |].
    unfold bind, ret. reflexivity. }
  destruct (forEach_log
              (mapProduct service (buildModels categories) categories options)
              (Shape.RequestFor categories options)
              (fun p item => exists l l',
                   mapProduct service (buildModels categories) categories options p l
                   = (Ok item, l'))
              (records products)) with (log := log)
    as (items & requests & Hrun & Hlen & Hall & _).
  { intros p l. destruct (mapProduct_request p l) as (item & l' & H1 & H2 & H3).
    exists item, l'. auto. }
  exists {| MappingResponse.items := items;
            MappingResponse.stats := statsOf products items |}, requests.
  split; [rewrite Hunfold, Hrun; reflexivity |].
  split; [exact Hlen |]. split; [| exact Hall].
  intros Hoff. destruct requests as [| r requests]; [reflexivity |].
  apply Forall_inv in Hall. destruct Hall as (p & _ & Huse & Hkey & _).
  destruct Hoff as [Hoff | Hoff]; congruence.
Qed.

End Requests.

(** ** The statistics of a run *)

Lemma setOf_length_le (l : list jsstring) : length (setOf l) <= length l.
Proof.
  apply NoDup_incl_length; [apply setOf_NoDup |].
  intros x Hx. apply setOf_In, Hx.
Qed.

Lemma usedCategories_In (items : list MappedProduct.t) (path : jsstring) :
  In path (usedCategories items) ->
  exists item, In item items /\ usedCategory item = Some path.
Proof.
  induction items as [| item items IH]; cbn [usedCategories]; [contradiction |].
  destruct (usedCategory item) as [p |] eqn:E.
  - intros [<- | H].
    + exists item. split; [left; reflexivity | exact E].
    + destruct (IH H) as (item' & Hin & Hp). exists item'. split; [right |]; assumption.
  - intro H. destruct (IH H) as (item' & Hin & Hp).
    exists item'. split; [right |]; assumption.
Qed.

Lemma usedCategories_length (items : list MappedProduct.t) :
  Forall (fun item => usedCategory item <> None -> isMapped item = true) items ->
  length (usedCategories items) <= length (filter isMapped items).
Proof.
  induction 1 as [| item items Hitem _ IH]; cbn [usedCategories filter];
    [cbn [length]; lia |].
  destruct (usedCategory item) as [p |].
  - rewrite Hitem by discriminate. cbn [length]. lia.
  - destruct (isMapped item); cbn [length]; lia.
Qed.

Section Statistics.
Context {host : JsHost}.
Variable service : EmbeddingService.
Variable categories : list SeoCategory.t.
Variable options : MappingOptions.t.

(** What the outcome of a turn says about the category used. *)
Lemma mapProduct_usedCategory (product : ProductRecord.t) (item : MappedProduct.t)
      (log log' : list Request) :
  mapProduct service (buildModels categories) categories options product log
  = (Ok item, log') ->
  forall path, usedCategory item = Some path ->
    isMapped item = true /\ In path (map SeoCategory.rawPath categories).
Proof.
  intros Hrun path.
  destruct (mapProduct_state service (buildModels categories) categories options
                             product log) as (st & log1 & Hst & [_ Hbest] & _).
  rewrite Hst in Hrun. injection Hrun as <- _.
  unfold usedCategory, isMapped.
  cbn [outcomeOf MappedProduct.seoCategory MappedProduct.status].
  destruct (status st); [| discriminate].
  destruct (best st) as [b |]; [| discriminate].
  destruct (truthy (CandidateMatch.categoryPath b)); [| discriminate].
  intros [= <-]. split; [reflexivity |].
  specialize (Hbest b eq_refl). apply in_map_iff in Hbest.
  destruct Hbest as (category & Heq & Hcat). injection Heq as _ Hpath _ _.
  rewrite <- Hpath. apply in_map, Hcat.
Qed.

(** X14. The statistics of a run over a non-empty corpus: one outcome per
    record; the mapped and the unmapped products add up to the total; the
    number of categories used is at most the number of mapped products and
    at most the number of categories; the success rate lies between 0 and
    100; the brand and the file name are those of the dataset. *)
Theorem run_statistics_add_up (products : ParsedProducts) (log : list Request) :
  categories <> [] ->
  exists response log',
    mapProducts service categories products options log = (Ok response, log')
    /\ length (MappingResponse.items response) = length (records products)
    /\ let stats := MappingResponse.stats response in
       MappingStatistics.totalProducts stats = length (records products)
       /\ MappingStatistics.mappedProducts stats
          + MappingStatistics.unmappedProducts stats
          = MappingStatistics.totalProducts stats
       /\ MappingStatistics.categoriesUsed stats
          <= MappingStatistics.mappedProducts stats
       /\ MappingStatistics.categoriesUsed stats <= length categories
       /\ (0 <= MappingStatistics.mappingSuccessRate stats <= 100)%Q
       /\ MappingStatistics.brandName stats = brandName products
       /\ MappingStatistics.sourceFile stats = sourceFile products.
Proof.
  intro Hne.
  destruct (mapProducts_items service products options log Hne)
    as (items & log' & Hrun & Hall).
  eexists. exists log'. split; [exact Hrun |].
  cbn [MappingResponse.items MappingResponse.stats].
  assert (Hlen : length items = length (records products)).
  { symmetry. eapply Forall2_length, Hall. }
  assert (Hused : Forall (fun item =>
                            forall path, usedCategory item = Some path ->
                              isMapped item = true
                              /\ In path (map SeoCategory.rawPath categories))
                         items).
  { clear Hrun Hlen. induction Hall as [| p item ps items' (l & l' & Hp) _ IH];
      constructor; [| exact IH].
    eapply mapProduct_usedCategory, Hp. }
  split; [exact Hlen |].
  unfold statsOf.
  cbn [MappingStatistics.totalProducts MappingStatistics.mappedProducts
       MappingStatistics.unmappedProducts MappingStatistics.categoriesUsed
       MappingStatistics.mappingSuccessRate MappingStatistics.brandName
       MappingStatistics.sourceFile].
  pose proof (filter_length_le isMapped items) as Hmapped.
  set (mappedCount := length (filter isMapped items)) in *.
  split; [exact Hlen |]. split; [lia |]. split; [| split; [| split; [| split]]].
  - etransitivity; [apply setOf_length_le |].
    apply usedCategories_length. eapply Forall_impl; [| exact Hused].
    cbv beta. intros item H Hsome.
    destruct (usedCategory item) as [path |]; [| congruence].
    apply (H path eq_refl).
  - rewrite <- (length_map SeoCategory.rawPath categories).
    apply NoDup_incl_length; [apply setOf_NoDup |].
    intros path Hpath. rewrite setOf_In in Hpath.
    apply usedCategories_In in Hpath. destruct Hpath as (item & Hin & Hp).
    rewrite Forall_forall in Hused. apply (Hused item Hin path Hp).
  - destruct (Nat.ltb 0 (length items)) eqn:E; [| lra].
    apply Nat.ltb_lt in E.
    assert (Hn : (0 < ofNat (length items))%Q).
    { unfold ofNat. change 0%Q with (inject_Z 0). rewrite <- Zlt_Qlt. lia. }
    assert (Hm : (0 <= ofNat mappedCount)%Q) by apply ofNat_nonneg.
    assert (Hle : (ofNat mappedCount <= ofNat (length items))%Q).
    { unfold ofNat. rewrite <- Zle_Qle. lia. }
    assert (H0 : (0 <= ofNat mappedCount / ofNat (length items))%Q)
      by (apply Qdiv_nonneg; lra).
    assert (H1 : (ofNat mappedCount / ofNat (length items) <= 1)%Q).
    { apply Qle_shift_div_r; [exact Hn | lra]. }
    split; lra.
  - reflexivity.
  - reflexivity.
Qed.

End Statistics.

(* ===================================================================== *)
(** * session/store.ts *)
(* ===================================================================== *)


Lemma get_set (sessions : SessionStore.Sessions) (key key' : jsstring) (value : SessionStore.SessionData) :
  SessionStore.get (SessionStore.set sessions key value) key'
  = if jsstring_eqb key' key then Some value else SessionStore.get sessions key'.
Proof.
  induction sessions as [| [k v] rest IH]; cbn [SessionStore.set SessionStore.get].
  - reflexivity.
  - destruct (jsstring_eqb key k) eqn:E; cbn [SessionStore.get].
    + apply jsstring_eqb_eq in E. subst k.
      destruct (jsstring_eqb key' key); reflexivity.
    + destruct (jsstring_eqb key' k) eqn:E'.
      * apply jsstring_eqb_eq in E'. subst k.
        rewrite jsstring_eqb_sym, E. reflexivity.
      * exact IH.
Qed.

Lemma get_delete (sessions : SessionStore.Sessions) (key key' : jsstring) :
  SessionStore.get (SessionStore.delete sessions key) key'
  = if jsstring_eqb key' key then None else SessionStore.get sessions key'.
Proof.
  unfold SessionStore.delete. induction sessions as [| [k v] rest IH]; cbn [filter SessionStore.get fst].
  - destruct (jsstring_eqb key' key); reflexivity.
  - destruct (jsstring_eqb key k) eqn:E; cbn [negb SessionStore.get].
    + apply jsstring_eqb_eq in E. subst k. rewrite IH.
      destruct (jsstring_eqb key' key); reflexivity.
    + destruct (jsstring_eqb key' k) eqn:E'; [| exact IH].
      apply jsstring_eqb_eq in E'. subst k.
      rewrite jsstring_eqb_sym, E. reflexivity.
Qed.

Lemma getSession_get (now : Z) (key : jsstring) (sessions : SessionStore.Sessions) :
  SessionStore.getSession now key sessions
  = match SessionStore.get sessions key with
    | Some session =>
        if Z.ltb SessionStore.SESSION_TTL_MS (now - SessionStore.createdAt session)
        then (None, SessionStore.delete sessions key) else (Some session, sessions)
    | None => (None, sessions)
    end.
Proof. reflexivity. Qed.

(** Reading a session leaves the other sessions alone. *)
Lemma getSession_frame (now : Z) (key key' : jsstring) (sessions : SessionStore.Sessions) :
  key' <> key ->
  SessionStore.get (snd (SessionStore.getSession now key sessions)) key' = SessionStore.get sessions key'.
Proof.
  intro Hne. unfold SessionStore.getSession.
  destruct (SessionStore.get sessions key) as [session |]; [| reflexivity].
  destruct (Z.ltb _ _); [| reflexivity].
  cbn [snd]. rewrite get_delete.
  destruct (jsstring_eqb key' key) eqn:E; [| reflexivity].
  apply jsstring_eqb_eq in E. contradiction.
Qed.

(** A session that is read is bound under its key afterwards. *)
Lemma getSession_Some (now : Z) (key : jsstring) (sessions sessions' : SessionStore.Sessions)
      (session : SessionStore.SessionData) :
  SessionStore.getSession now key sessions = (Some session, sessions') ->
  sessions' = sessions /\ SessionStore.get sessions key = Some session
  /\ (now - SessionStore.createdAt session <= SessionStore.SESSION_TTL_MS)%Z.
Proof.
  unfold SessionStore.getSession. destruct (SessionStore.get sessions key) as [s |]; [| discriminate].
  destruct (Z.ltb_spec SessionStore.SESSION_TTL_MS (now - SessionStore.createdAt s)); [discriminate |].
  intros [= <- <-]. auto.
Qed.

Lemma set_frame (sessions : SessionStore.Sessions) (key key' : jsstring) (value : SessionStore.SessionData) :
  key' <> key -> SessionStore.get (SessionStore.set sessions key value) key' = SessionStore.get sessions key'.
Proof.
  intro Hne. rewrite get_set. destruct (jsstring_eqb key' key) eqn:E; [| reflexivity].
  apply jsstring_eqb_eq in E. contradiction.
Qed.

(** X15. A session lives for an hour: created at [t0], it is returned by
    [SessionStore.getSession] as long as the clock is at most 3600000 ms past [t0], the
    bound included; read once after that, it is gone, and no later read
    finds it, whatever the clock says then. *)
Theorem session_expires_after_an_hour
        (uuid : jsstring) (t0 now later : Z) (sessions : SessionStore.Sessions) :
  let created := SessionStore.createSession uuid t0 sessions in
  let read := SessionStore.getSession now uuid (snd created) in
  fst read = (if Z.ltb 3600000 (now - t0) then None else Some (fst created))
  /\ (fst read = None -> fst (SessionStore.getSession later uuid (snd read)) = None).
Proof.
  cbv zeta. unfold SessionStore.createSession. cbn [fst snd].
  set (session := {| SessionStore.sessionId := uuid; SessionStore.createdAt := t0;
                     SessionStore.categories := None; SessionStore.products := [] |}).
  assert (Hread : SessionStore.getSession now uuid (SessionStore.set sessions uuid session)
                  = if Z.ltb 3600000 (now - t0)
                    then (None, SessionStore.delete (SessionStore.set sessions uuid session) uuid)
                    else (Some session, SessionStore.set sessions uuid session)).
  { rewrite getSession_get, get_set, jsstring_eqb_refl. reflexivity. }
  rewrite Hread. destruct (Z.ltb 3600000 (now - t0)); cbn [fst snd].
  - split; [reflexivity |]. intros _.
    rewrite getSession_get, get_delete, jsstring_eqb_refl. reflexivity.
  - split; [reflexivity | discriminate].
Qed.

(** X16. The functions of the store touch one session: whatever is done
    under one key, with whatever outcome, the binding of every other key is
    what it was. *)
Theorem store_functions_touch_one_session
        (now : Z) (uuid key key' productId : jsstring)
        (newCategories : list SeoCategory.t) (parsedProducts : Mapper.ParsedProducts)
        (mapping : MappingResponse.t) (sessions : SessionStore.Sessions) :
  key' <> key ->
  SessionStore.get (snd (SessionStore.getSession now key sessions)) key' = SessionStore.get sessions key'
  /\ SessionStore.get (SessionStore.deleteSession key sessions) key' = SessionStore.get sessions key'
  /\ SessionStore.get (snd (SessionStore.upsertSeoCategories now key newCategories sessions)) key'
     = SessionStore.get sessions key'
  /\ SessionStore.get (snd (SessionStore.addProductDataset uuid now key parsedProducts sessions)) key'
     = SessionStore.get sessions key'
  /\ SessionStore.get (snd (SessionStore.updateMapping now key productId mapping sessions)) key'
     = SessionStore.get sessions key'
  /\ SessionStore.get (snd (SessionStore.clearSession now key sessions)) key' = SessionStore.get sessions key'.
Proof.
  intro Hne. pose proof (getSession_frame now sessions Hne) as Hread.
  split; [exact Hread |]. split.
  { unfold SessionStore.deleteSession. rewrite get_delete.
    destruct (jsstring_eqb key' key) eqn:E; [| reflexivity].
    apply jsstring_eqb_eq in E. contradiction. }
  unfold SessionStore.upsertSeoCategories, SessionStore.addProductDataset, SessionStore.updateMapping, SessionStore.clearSession.
  destruct (SessionStore.getSession now key sessions) as [[session |] sessions'];
    cbn [snd] in *.
  - destruct (SessionStore.setMapping productId mapping (SessionStore.products session));
      cbn [snd]; rewrite ?set_frame by exact Hne; auto.
  - auto.
Qed.


Lemma setMapping_absent (productId : jsstring) (mapping : MappingResponse.t)
      (items : list SessionStore.ProductPayload) :
  (forall p, In p items -> SessionStore.id p <> productId) ->
  SessionStore.setMapping productId mapping items = None.
Proof.
  induction items as [| p items IH]; intro H; cbn [SessionStore.setMapping];
    [reflexivity |].
  destruct (jsstring_eqb (SessionStore.id p) productId) eqn:E.
  - apply jsstring_eqb_eq in E. exfalso. apply (H p); [left; reflexivity | exact E].
  - rewrite IH; [reflexivity |]. intros q Hq. apply H. right. exact Hq.
Qed.

Lemma setMapping_first (productId : jsstring) (mapping : MappingResponse.t)
      (before after : list SessionStore.ProductPayload)
      (target : SessionStore.ProductPayload) :
  (forall p, In p before -> SessionStore.id p <> productId) ->
  SessionStore.id target = productId ->
  SessionStore.setMapping productId mapping (before ++ target :: after)
  = Some (before
          ++ {| SessionStore.parsed := SessionStore.parsed target;
                SessionStore.id := SessionStore.id target;
                SessionStore.mapped := Some mapping |} :: after).
Proof.
  intros Hbefore Htarget. induction before as [| p before IH];
    cbn [app SessionStore.setMapping].
  - rewrite Htarget, jsstring_eqb_refl. reflexivity.
  - destruct (jsstring_eqb (SessionStore.id p) productId) eqn:E.
    + apply jsstring_eqb_eq in E. exfalso.
      apply (Hbefore p); [left; reflexivity | exact E].
    + rewrite IH; [reflexivity |]. intros q Hq. apply Hbefore. right. exact Hq.
Qed.

Lemma getSession_live (now : Z) (key : jsstring) (sessions : SessionStore.Sessions)
      (session : SessionStore.SessionData) :
  fst (SessionStore.getSession now key sessions) = Some session ->
  SessionStore.getSession now key sessions = (Some session, sessions).
Proof.
  destruct (SessionStore.getSession now key sessions) as [got sessions'] eqn:E.
  cbn [fst]. intros ->. apply getSession_Some in E. destruct E as [-> _].
  reflexivity.
Qed.

(** What a live session is replaced by is what the next read returns. *)
Lemma getSession_after_set (now : Z) (key : jsstring)
      (sessions : SessionStore.Sessions) (session session' : SessionStore.SessionData) :
  fst (SessionStore.getSession now key sessions) = Some session ->
  SessionStore.createdAt session' = SessionStore.createdAt session ->
  SessionStore.getSession now key (SessionStore.set sessions key session')
  = (Some session', SessionStore.set sessions key session').
Proof.
  intros Hlive Hage.
  destruct (SessionStore.getSession now key sessions) as [got sessions'] eqn:E.
  cbn [fst] in Hlive. subst got. apply getSession_Some in E.
  destruct E as (_ & _ & Hfresh).
  rewrite getSession_get, get_set, jsstring_eqb_refl, Hage.
  destruct (Z.ltb_spec SessionStore.SESSION_TTL_MS (now - SessionStore.createdAt session));
    [lia | reflexivity].
Qed.

(** X17. [updateMapping] in a live session: when no dataset has the
    identifier the call fails with 'Файл товаров не найден в сессии' and the
    store is what it was; otherwise the first dataset with the identifier
    takes the mapping, every other dataset is what it was, and this is the
    session the next read returns. *)
Theorem updateMapping_sets_first_dataset
        (now : Z) (key productId : jsstring) (mapping : MappingResponse.t)
        (sessions : SessionStore.Sessions) (session : SessionStore.SessionData) :
  fst (SessionStore.getSession now key sessions) = Some session ->
  ((forall p, In p (SessionStore.products session) -> SessionStore.id p <> productId) ->
   SessionStore.updateMapping now key productId mapping sessions
   = (inl SessionStore.DatasetNotFound, sessions))
  /\ (forall before target after,
        SessionStore.products session = before ++ target :: after ->
        (forall p, In p before -> SessionStore.id p <> productId) ->
        SessionStore.id target = productId ->
        exists sessions',
          SessionStore.updateMapping now key productId mapping sessions
          = (inr tt, sessions')
          /\ fst (SessionStore.getSession now key sessions')
             = Some {| SessionStore.sessionId := SessionStore.sessionId session;
                       SessionStore.createdAt := SessionStore.createdAt session;
                       SessionStore.categories := SessionStore.categories session;
                       SessionStore.products :=
                         before
                         ++ {| SessionStore.parsed := SessionStore.parsed target;
                               SessionStore.id := SessionStore.id target;
                               SessionStore.mapped := Some mapping |} :: after |}).
Proof.
  intro Hlive. pose proof (getSession_live _ _ _ Hlive) as Hread.
  unfold SessionStore.updateMapping. rewrite Hread. split.
  - intro Habsent. rewrite setMapping_absent by exact Habsent. reflexivity.
  - intros before target after Hproducts Hbefore Htarget.
    rewrite Hproducts, (@setMapping_first productId mapping before after target Hbefore Htarget).
    eexists. split; [reflexivity |].
    rewrite (@getSession_after_set now key sessions session _ Hlive) by reflexivity. reflexivity.
Qed.

(** X18. Loading a category structure into a live session drops every
    mapping stored there: the session the call returns, which is the one
    the next read returns, has the new categories and the same datasets in
    the same order, each without a mapping; its identifier and its time of
    creation are unchanged. *)
Theorem upsertSeoCategories_drops_mappings
        (now : Z) (key : jsstring) (newCategories : list SeoCategory.t)
        (sessions : SessionStore.Sessions) (session : SessionStore.SessionData) :
  fst (SessionStore.getSession now key sessions) = Some session ->
  exists session' sessions',
    SessionStore.upsertSeoCategories now key newCategories sessions
    = (inr session', sessions')
    /\ fst (SessionStore.getSession now key sessions') = Some session'
    /\ SessionStore.categories session' = Some newCategories
    /\ Forall (fun p => SessionStore.mapped p = None) (SessionStore.products session')
    /\ map SessionStore.id (SessionStore.products session')
       = map SessionStore.id (SessionStore.products session)
    /\ map SessionStore.parsed (SessionStore.products session')
       = map SessionStore.parsed (SessionStore.products session)
    /\ SessionStore.sessionId session' = SessionStore.sessionId session
    /\ SessionStore.createdAt session' = SessionStore.createdAt session.
Proof.
  intro Hlive. pose proof (getSession_live _ _ _ Hlive) as Hread.
  unfold SessionStore.upsertSeoCategories. rewrite Hread.
  eexists. eexists. split; [reflexivity |].
  split; [rewrite (@getSession_after_set now key sessions session _ Hlive) by reflexivity; reflexivity |].
  cbn [SessionStore.categories SessionStore.products SessionStore.sessionId
       SessionStore.createdAt].
  split; [reflexivity |]. split; [apply Forall_map, Forall_forall; reflexivity |].
  rewrite !map_map. repeat split; reflexivity.
Qed.

Lemma delete_absent (sessions : SessionStore.Sessions) (key : jsstring) :
  SessionStore.get sessions key = None -> SessionStore.delete sessions key = sessions.
Proof.
  unfold SessionStore.delete. induction sessions as [| [k v] rest IH];
    [reflexivity |].
  cbn [SessionStore.get filter fst].
  destruct (jsstring_eqb key k); [discriminate |].
  intro Hget. cbn [negb]. rewrite IH by exact Hget. reflexivity.
Qed.

(** X19. Without a live session under the key (none, or one read after its
    hour) the four functions that change a session fail with 'Сессия не
    найдена', add nothing to the store, and leave no session under the
    key. *)
Theorem store_changes_need_a_live_session
        (now : Z) (uuid key productId : jsstring)
        (newCategories : list SeoCategory.t) (parsedProducts : Mapper.ParsedProducts)
        (mapping : MappingResponse.t) (sessions : SessionStore.Sessions) :
  fst (SessionStore.getSession now key sessions) = None ->
  let after := SessionStore.delete sessions key in
  SessionStore.upsertSeoCategories now key newCategories sessions
  = (inl SessionStore.SessionNotFound, after)
  /\ SessionStore.addProductDataset uuid now key parsedProducts sessions
     = (inl SessionStore.SessionNotFound, after)
  /\ SessionStore.updateMapping now key productId mapping sessions
     = (inl SessionStore.SessionNotFound, after)
  /\ SessionStore.clearSession now key sessions
     = (inl SessionStore.SessionNotFound, after)
  /\ SessionStore.get after key = None.
Proof.
  intros Hdead after.
  assert (Hread : SessionStore.getSession now key sessions = (None, after)).
  { unfold after. rewrite getSession_get in *.
    destruct (SessionStore.get sessions key) as [session |] eqn:Hget.
    - destruct (Z.ltb _ _); [reflexivity | discriminate].
    - rewrite (delete_absent _ _ Hget). reflexivity. }
  unfold SessionStore.upsertSeoCategories, SessionStore.addProductDataset,
    SessionStore.updateMapping, SessionStore.clearSession.
  rewrite Hread. repeat (split; [reflexivity |]).
  unfold after. rewrite get_delete, jsstring_eqb_refl. reflexivity.
Qed.

(* ===================================================================== *)
(** * Trimmed strings *)
(* ===================================================================== *)

Lemma trimStart_idem (s : jsstring) : trimStart (trimStart s) = trimStart s.
Proof.
  induction s as [| c s IH]; [reflexivity |]. cbn [trimStart].
  destruct (isWhiteSpace c) eqn:E; [exact IH |]. cbn [trimStart]. rewrite E.
  reflexivity.
Qed.

Lemma trimStart_length (s : jsstring) : length (trimStart s) <= length s.
Proof.
  induction s as [| c s IH]; [reflexivity |]. cbn [trimStart].
  destruct (isWhiteSpace c); cbn [length]; lia.
Qed.

(** A string that [trimStart] leaves alone is empty or begins with a code
    unit that is no white space. *)
Lemma trimStart_fixed (s : jsstring) :
  trimStart s = s ->
  s = [] \/ exists c rest, s = c :: rest /\ isWhiteSpace c = false.
Proof.
  destruct s as [| c rest]; [auto |]. cbn [trimStart].
  destruct (isWhiteSpace c) eqn:E.
  - intro H. pose proof (trimStart_length rest) as Hlen. rewrite H in Hlen.
    cbn [length] in Hlen. lia.
  - intros _. right. eauto.
Qed.

Lemma trimStart_cons (c : N) (rest : jsstring) :
  isWhiteSpace c = false -> trimStart (c :: rest) = c :: rest.
Proof. intro H. cbn [trimStart]. rewrite H. reflexivity. Qed.

Lemma trimStart_app (a b : jsstring) :
  trimStart a = a -> a <> [] -> trimStart (a ++ b) = a ++ b.
Proof.
  intros Ha Hne. destruct (@trimStart_fixed a Ha) as [-> | (c & rest & -> & Hc)];
    [congruence |].
  cbn [app]. apply trimStart_cons, Hc.
Qed.

Lemma trimStart_snoc (l : jsstring) (c : N) :
  isWhiteSpace c = false -> trimStart (l ++ [c]) = trimStart l ++ [c].
Proof.
  intro Hc. induction l as [| x l IH]; cbn [app trimStart].
  - rewrite Hc. reflexivity.
  - destruct (isWhiteSpace x); [exact IH | reflexivity].
Qed.

(** The two ends of a trimmed string. *)
Lemma trim_ends (s : jsstring) :
  trimStart (trim s) = trim s /\ trimStart (rev (trim s)) = rev (trim s).
Proof.
  unfold trim, trimEnd. split.
  - pose proof (trimStart_idem s) as Hidem.
    destruct (@trimStart_fixed (trimStart s) Hidem) as [-> | (c & rest & -> & Hc)];
      [reflexivity |].
    cbn [rev]. rewrite (@trimStart_snoc (rev rest) c Hc), rev_app_distr. cbn [rev app].
    apply trimStart_cons, Hc.
  - rewrite rev_involutive. apply trimStart_idem.
Qed.

Lemma trim_fixed (s : jsstring) :
  trimStart s = s -> trimStart (rev s) = rev s -> trim s = s.
Proof.
  intros Hs Hr. unfold trim, trimEnd. rewrite Hs, Hr. apply rev_involutive.
Qed.

Lemma trim_idem (s : jsstring) : trim (trim s) = trim s.
Proof. destruct (trim_ends s) as [Hs Hr]. apply trim_fixed; assumption. Qed.

(** Trimmed and not empty. *)
Lemma join_ends (sep : jsstring) (parts : list jsstring) :
  Forall (fun p => p <> [] /\ trimStart p = p /\ trimStart (rev p) = rev p) parts ->
  parts <> [] ->
  join sep parts <> []
  /\ trimStart (join sep parts) = join sep parts
  /\ trimStart (rev (join sep parts)) = rev (join sep parts).
Proof.
  induction 1 as [| p rest (Hne & Hs & Hr) Hrest IH];
    [intro Hnil; exfalso; apply Hnil; reflexivity |]. intros _.
  destruct rest as [| q rest].
  - cbn [join]. auto.
  - change (join sep (p :: q :: rest)) with (p ++ sep ++ join sep (q :: rest)).
    destruct (IH ltac:(discriminate)) as (Hjne & Hjs & Hjr).
    split; [destruct p; [congruence | discriminate] |]. split.
    + apply trimStart_app; assumption.
    + rewrite !rev_app_distr, <- app_assoc. apply trimStart_app; [exact Hjr |].
      intro E. apply Hjne. rewrite <- (rev_involutive (join sep (q :: rest))), E.
      reflexivity.
Qed.

Lemma trimmed_levels (s : jsstring) :
  Forall (fun p => p <> [] /\ trimStart p = p /\ trimStart (rev p) = rev p)
         (filter truthy (map trim (splitLevels [] s))).
Proof.
  apply Forall_forall. intros p Hp. apply filter_In in Hp. destruct Hp as [Hin Ht].
  apply in_map_iff in Hin. destruct Hin as (x & <- & _).
  split; [destruct (trim x); [discriminate | discriminate] | apply trim_ends].
Qed.

(* ===================================================================== *)
(** * src/lib/seo-mapper.ts: reading the two workbooks *)
(* ===================================================================== *)

Lemma trim_join_trimmed (sep : jsstring) (parts : list jsstring) :
  Forall (fun p => exists x, p = trim x) parts ->
  trim (join sep (filter truthy parts)) = join sep (filter truthy parts).
Proof.
  intro Hparts.
  assert (Hends : Forall (fun p => p <> [] /\ trimStart p = p
                                   /\ trimStart (rev p) = rev p)
                         (filter truthy parts)).
  { apply Forall_forall. intros p Hp. apply filter_In in Hp. destruct Hp as [Hin Ht].
    rewrite Forall_forall in Hparts. destruct (Hparts p Hin) as (x & ->).
    split; [destruct (trim x); discriminate | apply trim_ends]. }
  destruct (filter truthy parts) as [| p rest] eqn:E; [reflexivity |].
  destruct (join_ends sep Hends) as (_ & Hs & Hr); [discriminate |].
  apply trim_fixed; assumption.
Qed.

Lemma orElse_orUndefined (s : jsstring) : orElse (orUndefined s) [] = s.
Proof. destruct s; reflexivity. Qed.

Section Workbooks.
Context {host : JsHost}.

Lemma categoryOfCell_cases (uuid cell0 : jsstring) :
  categoryOfCell uuid cell0
  = if truthy (trim cell0)
    then Some {| SeoCategory.id := uuid;
                 SeoCategory.rawPath := trim cell0;
                 SeoCategory.levels :=
                   filter truthy (map trim (splitLevels [] (trim cell0)));
                 SeoCategory.tokens := Text.normalizeTokens (Some (trim cell0));
                 SeoCategory.normalizedText :=
                   Text.joinTokens (Text.normalizeTokens (Some (trim cell0))) |}
    else None.
Proof.
  unfold categoryOfCell. destruct cell0 as [| c cell0]; [reflexivity |].
  cbn [truthy negb]. cbv zeta. destruct (truthy (trim (c :: cell0))); reflexivity.
Qed.

Lemma record_text_trimmed (uuid filename : jsstring) (row : Row) (index : nat) :
  trim (ProductRecord.aggregatedText (recordOfRow uuid filename row index))
  = ProductRecord.aggregatedText (recordOfRow uuid filename row index).
Proof.
  unfold recordOfRow. cbn [ProductRecord.aggregatedText].
  rewrite !orElse_orUndefined. apply trim_join_trimmed.
  repeat (constructor; [eexists; reflexivity |]). constructor.
Qed.

(** X20. The categories read from a sheet are its non-blank first cells in
    their order, trimmed; the k-th category read has the k-th identifier
    drawn; and every category has a path that is not empty, tokens and a
    normalized text computed from that path, and levels that are not empty
    and trimmed. *)
Theorem parseSeoStructure_keeps_non_blank_cells
        (uuidv4 : nat -> jsstring) (cells : list jsstring) :
  let categories := Parsing.parseSeoStructure uuidv4 cells in
  map SeoCategory.rawPath categories = filter truthy (map trim cells)
  /\ map SeoCategory.id categories = map uuidv4 (seq 0 (length categories))
  /\ Forall (fun c =>
               SeoCategory.rawPath c <> []
               /\ trim (SeoCategory.rawPath c) = SeoCategory.rawPath c
               /\ SeoCategory.tokens c
                  = Text.normalizeTokens (Some (SeoCategory.rawPath c))
               /\ SeoCategory.normalizedText c = Text.joinTokens (SeoCategory.tokens c)
               /\ Forall (fun level => level <> [] /\ trim level = level)
                         (SeoCategory.levels c))
            categories.
Proof.
  cbv zeta. unfold Parsing.parseSeoStructure.
  set (step := fun categories cell0 =>
                 match categoryOfCell (uuidv4 (length categories)) cell0 with
                 | Some category => categories ++ [category]
                 | None => categories
                 end).
  set (P := fun c : SeoCategory.t =>
              SeoCategory.rawPath c <> []
              /\ trim (SeoCategory.rawPath c) = SeoCategory.rawPath c
              /\ SeoCategory.tokens c
                 = Text.normalizeTokens (Some (SeoCategory.rawPath c))
              /\ SeoCategory.normalizedText c = Text.joinTokens (SeoCategory.tokens c)
              /\ Forall (fun level => level <> [] /\ trim level = level)
                        (SeoCategory.levels c)).
  assert (H : forall acc,
             map SeoCategory.id acc = map uuidv4 (seq 0 (length acc)) ->
             Forall P acc ->
             map SeoCategory.rawPath (fold_left step cells acc)
             = map SeoCategory.rawPath acc ++ filter truthy (map trim cells)
             /\ map SeoCategory.id (fold_left step cells acc)
                = map uuidv4 (seq 0 (length (fold_left step cells acc)))
             /\ Forall P (fold_left step cells acc)).
  { induction cells as [| cell0 cells IH]; intros acc Hids Hacc; cbn [fold_left].
    - cbn [map filter]. rewrite app_nil_r. auto.
    - set (category := {| SeoCategory.id := uuidv4 (length acc);
                          SeoCategory.rawPath := trim cell0;
                          SeoCategory.levels :=
                            filter truthy (map trim (splitLevels [] (trim cell0)));
                          SeoCategory.tokens :=
                            Text.normalizeTokens (Some (trim cell0));
                          SeoCategory.normalizedText :=
                            Text.joinTokens
                              (Text.normalizeTokens (Some (trim cell0))) |}).
      assert (Hstep : step acc cell0
                      = if truthy (trim cell0) then acc ++ [category] else acc).
      { unfold step. rewrite categoryOfCell_cases.
        destruct (truthy (trim cell0)); reflexivity. }
      rewrite Hstep. cbn [map filter].
      destruct (truthy (trim cell0)) eqn:Ht.
      + destruct (IH (acc ++ [category])) as (H1 & H2 & H3).
        * rewrite map_app, length_app, Hids. cbn [map length].
          rewrite Nat.add_1_r, seq_S, map_app. reflexivity.
        * apply Forall_app. split; [exact Hacc |]. constructor; [| constructor].
          unfold P, category. cbn [SeoCategory.rawPath SeoCategory.tokens
                                   SeoCategory.normalizedText SeoCategory.levels].
          split; [destruct (trim cell0); discriminate |].
          split; [apply trim_idem |]. split; [reflexivity |]. split; [reflexivity |].
          eapply Forall_impl; [| apply trimmed_levels].
          cbv beta. intros level (Hne & Hs & Hr).
          split; [exact Hne | apply trim_fixed; assumption].
        * split; [| split; assumption].
          rewrite H1, map_app, <- app_assoc. reflexivity.
      + apply IH; assumption. }
  destruct (H [] eq_refl (Forall_nil _)) as (H1 & H2 & H3).
  split; [exact H1 |]. split; [exact H2 | exact H3].
Qed.

(** X21. The records read from a product sheet: one per row, in the order
    of the rows; the i-th carries the row, its index [i], the i-th
    identifier drawn and the file name; its aggregated text has no white
    space at either end (so the reranker sends it as it is), and its tokens
    are those of that text. The dataset carries the file name and the brand
    read from it. *)
Theorem parseProducts_reads_every_row
        (uuidv4 : nat -> jsstring) (rows : list Row) (filename : jsstring) :
  let parsedProducts := Parsing.parseProducts uuidv4 rows filename in
  sourceFile parsedProducts = filename
  /\ brandName parsedProducts = Parsing.extractBrandName filename
  /\ length (records parsedProducts) = length rows
  /\ forall i row,
       nth_error rows i = Some row ->
       exists record,
         nth_error (records parsedProducts) i = Some record
         /\ ProductRecord.rowIndex record = i
         /\ ProductRecord.id record = uuidv4 i
         /\ ProductRecord.fields record = row
         /\ ProductRecord.sourceFile record = filename
         /\ trim (ProductRecord.aggregatedText record)
            = ProductRecord.aggregatedText record
         /\ ProductRecord.tokens record
            = Text.normalizeTokens (Some (ProductRecord.aggregatedText record)).
Proof.
  cbv zeta. unfold Parsing.parseProducts. cbn [sourceFile brandName records].
  split; [reflexivity |]. split; [reflexivity |]. split.
  - unfold mapi. rewrite length_map, length_combine, length_seq. lia.
  - intros i row Hrow. eexists. split.
    + apply (mapi_nth_error
               (fun row index => recordOfRow (uuidv4 index) filename row index)
               rows i Hrow).
    + cbv beta. repeat (split; [reflexivity |]). split.
      * apply record_text_trimmed.
      * reflexivity.
Qed.

End Workbooks.

(** ** The brand in the file name *)

Lemma takeUntilDot_no_dot (s : jsstring) : ~ In 46%N (Parsing.takeUntilDot s).
Proof.
  induction s as [| c s IH]; cbn [Parsing.takeUntilDot]; [tauto |].
  destruct (N.eqb_spec c 46); [tauto |]. intros [H | H]; [congruence | tauto].
Qed.

Lemma takeUntilDot_app (name rest : jsstring) :
  ~ In 46%N name -> rest = [] \/ (exists r, rest = 46%N :: r) ->
  Parsing.takeUntilDot (name ++ rest) = name.
Proof.
  intros Hname Hrest. induction name as [| c name IH]; cbn [app Parsing.takeUntilDot].
  - destruct Hrest as [-> | (r & ->)]; reflexivity.
  - destruct (N.eqb_spec c 46) as [-> | _]; [exfalso; apply Hname; left; reflexivity |].
    rewrite IH; [reflexivity |]. intro H. apply Hname. right. exact H.
Qed.

Lemma takeUntilDot_trimStart (s : jsstring) :
  trimStart (Parsing.takeUntilDot (trimStart s)) = Parsing.takeUntilDot (trimStart s).
Proof.
  destruct (@trimStart_fixed (trimStart s) (trimStart_idem s))
    as [-> | (c & rest & -> & Hc)]; [reflexivity |].
  cbn [Parsing.takeUntilDot]. destruct (N.eqb c 46); [reflexivity |].
  apply trimStart_cons, Hc.
Qed.

Lemma In_trimStart (a : N) (s : jsstring) : In a (trimStart s) -> In a s.
Proof.
  induction s as [| c s IH]; [tauto |]. cbn [trimStart].
  destruct (isWhiteSpace c); [right; auto | auto].
Qed.

Lemma In_trim (a : N) (s : jsstring) : In a (trim s) -> In a s.
Proof.
  unfold trim, trimEnd. intro H. apply in_rev, In_trimStart, in_rev in H.
  apply In_trimStart, H.
Qed.

Lemma trim_not_nil (s : jsstring) : trimStart s = s -> s <> [] -> trim s <> [].
Proof.
  intros Hs Hne. destruct (@trimStart_fixed s Hs) as [-> | (c & rest & -> & Hc)];
    [congruence |].
  unfold trim, trimEnd. rewrite Hs. cbn [rev].
  rewrite (@trimStart_snoc (rev rest) c Hc), rev_app_distr. discriminate.
Qed.

Lemma trimStart_whitespace (ws s : jsstring) :
  forallb isWhiteSpace ws = true -> trimStart (ws ++ s) = trimStart s.
Proof.
  induction ws as [| c ws IH]; [reflexivity |]. cbn [forallb app trimStart].
  intro H. apply andb_true_iff in H. destruct H as [-> H]. apply IH, H.
Qed.

Lemma matchLiteral_app (word s tail : jsstring) :
  Forall2 (fun letter c => Parsing.sameLetter letter c = true) word s ->
  Parsing.matchLiteral word (s ++ tail) = Some tail.
Proof.
  induction 1 as [| letter c word s Hc _ IH]; cbn [app Parsing.matchLiteral].
  - destruct tail; reflexivity.
  - rewrite Hc. exact IH.
Qed.

Lemma matchBrand_head (s group : jsstring) :
  Parsing.matchBrandAt s = Some group -> Parsing.matchBrand s = Some group.
Proof. intro H. destruct s; cbn [Parsing.matchBrand]; rewrite H; reflexivity. Qed.

Lemma matchBrand_group (s group : jsstring) :
  Parsing.matchBrand s = Some group ->
  exists x, group = Parsing.takeUntilDot (trimStart x).
Proof.
  assert (Hat : forall s', Parsing.matchBrandAt s' = Some group ->
                           exists x, group = Parsing.takeUntilDot (trimStart x)).
  { intros s'. unfold Parsing.matchBrandAt.
    destruct (Parsing.matchLiteral _ s') as [rest |]; [| discriminate].
    destruct (trimStart rest) as [| c rest']; [discriminate |].
    destruct (N.eqb_spec c 45) as [-> | Hc].
    - intros [= <-]. eauto.
    - destruct c as [| p]; [discriminate |].
      do 6 (destruct p as [p | p |]; try discriminate). congruence. }
  induction s as [| c s IH]; cbn [Parsing.matchBrand].
  - destruct (Parsing.matchBrandAt []) eqn:E; [| discriminate].
    intros [= <-]. eapply Hat, E.
  - destruct (Parsing.matchBrandAt (c :: s)) eqn:E.
    + intros [= <-]. eapply Hat, E.
    + exact IH.
Qed.

(** X22. The brand read from a file name, when there is one, is not empty,
    has no white space at either end and no full stop. *)
Theorem extractBrandName_result (filename brand : jsstring) :
  Parsing.extractBrandName filename = Some brand ->
  brand <> [] /\ trim brand = brand /\ ~ In 46%N brand.
Proof.
  unfold Parsing.extractBrandName.
  destruct (Parsing.matchBrand filename) as [group |] eqn:E; [| discriminate].
  destruct (truthy group) eqn:Ht; [| discriminate]. intros [= <-].
  apply matchBrand_group in E. destruct E as (x & ->).
  split; [| split].
  - apply trim_not_nil; [apply takeUntilDot_trimStart |].
    destruct (Parsing.takeUntilDot (trimStart x)); discriminate.
  - apply trim_idem.
  - intro H. apply In_trim in H. exact (takeUntilDot_no_dot _ H).
Qed.

(** X23. A file name that begins with the word 'бренд' in any case,
    then white space or none, a hyphen, white space or none, and a name
    without a full stop, followed by a full stop or by nothing, gives that
    name as the brand, without the white space at its end. *)
Theorem extractBrandName_reads_the_name (word ws1 ws2 name rest : jsstring) :
  Forall2 (fun letter c => Parsing.sameLetter letter c = true) Parsing.BRAND_WORD word ->
  forallb isWhiteSpace ws1 = true ->
  forallb isWhiteSpace ws2 = true ->
  name <> [] -> trimStart name = name -> ~ In 46%N name ->
  rest = [] \/ (exists r, rest = 46%N :: r) ->
  Parsing.extractBrandName (word ++ ws1 ++ [45%N] ++ ws2 ++ name ++ rest)
  = Some (trim name).
Proof.
  intros Hword Hws1 Hws2 Hne Hstart Hdot Hrest.
  unfold Parsing.extractBrandName.
  rewrite (@matchBrand_head _ name).
  - destruct name; [congruence | reflexivity].
  - unfold Parsing.matchBrandAt.
    rewrite (@matchLiteral_app Parsing.BRAND_WORD word _ Hword).
    rewrite (@trimStart_whitespace ws1 _ Hws1). cbn [app trimStart].
    change (isWhiteSpace 45) with false. cbv iota.
    rewrite (@trimStart_whitespace ws2 _ Hws2), (@trimStart_app name rest Hstart Hne).
    rewrite (@takeUntilDot_app name rest Hdot Hrest). reflexivity.
Qed.

(* ===================================================================== *)
(** * src/lib/exporters.ts: the two category columns *)
(* ===================================================================== *)

Section ExportColumns.
Context {host : JsHost}.

(** The column [Category] is never empty and has no white space at its
    ends. *)
Lemma normalizedCategory_trimmed (seoCategory : option jsstring) :
  Exporters.normalizedCategory seoCategory <> []
  /\ trim (Exporters.normalizedCategory seoCategory)
     = Exporters.normalizedCategory seoCategory.
Proof.
  unfold Exporters.normalizedCategory. cbv zeta.
  set (levels := filter truthy (map trim (splitLevels [] _))).
  destruct (truthy (join (str "///") levels)) eqn:Ht.
  - split; [destruct (join (str "///") levels); discriminate |].
    destruct levels as [| l levels'] eqn:E; [discriminate |].
    destruct (@join_ends (str "///") (l :: levels')) as (_ & Hs & Hr).
    + rewrite <- E. apply trimmed_levels.
    + discriminate.
    + apply trim_fixed; assumption.
  - split; [discriminate | reflexivity].
Qed.

Lemma normalizedCategory_None : Exporters.normalizedCategory None = Exporters.NOT_FOUND.
Proof. reflexivity. Qed.

Hypothesis lower_not_found :
  toLowerCase Exporters.NOT_FOUND = Exporters.not_found_lower.

Lemma buildCategoryBrand_not_found (brand : option jsstring) :
  Exporters.buildCategoryBrand brand (Some Exporters.NOT_FOUND) = Exporters.NOT_FOUND.
Proof.
  unfold Exporters.buildCategoryBrand. cbv zeta.
  change (trim Exporters.NOT_FOUND) with Exporters.NOT_FOUND.
  cbn [truthy Exporters.NOT_FOUND negb]. rewrite lower_not_found. reflexivity.
Qed.

(** X24. A product that a run leaves not mapped is exported with 'Не
    найдено' in the column Category and in the column Category brand,
    whatever the brand, where the host lower-cases 'Не найдено' to 'не
    найдено'. *)
Theorem unmapped_product_is_exported_as_not_found
        (service : EmbeddingService) (models : Models)
        (categories : list SeoCategory.t) (options : MappingOptions.t)
        (product : ProductRecord.t) (brand : option jsstring) (log : list Request) :
  exists item log',
    mapProduct service models categories options product log = (Ok item, log')
    /\ (MappedProduct.status item = not_mapped ->
        Exporters.categoryColumn item = Exporters.NOT_FOUND
        /\ Exporters.categoryBrandColumn item brand = Exporters.NOT_FOUND).
Proof.
  destruct (mapProduct_state service models categories options product log)
    as (st & log' & Hrun & _ & _).
  exists (outcomeOf options product st), log'. split; [exact Hrun |].
  unfold Exporters.categoryColumn, Exporters.categoryBrandColumn.
  cbn [outcomeOf MappedProduct.status MappedProduct.seoCategory]. intros ->.
  rewrite normalizedCategory_None. cbv zeta.
  split; [reflexivity | apply buildCategoryBrand_not_found].
Qed.

End ExportColumns.

Section ExportNoBrand.
Context {host : JsHost}.

(** X25. Without a brand (none in the file name and none in the row, or an
    empty one) the column Category brand repeats the column Category, except
    that a category spelled 'не найдено' in any case is written 'Не
    найдено'. *)
Theorem category_brand_without_brand (product : MappedProduct.t)
        (brand : option jsstring) :
  brand = Some []
  \/ (brand = None
      /\ Exporters.inferredBrand (ProductRecord.fields (MappedProduct.product product))
         = None) ->
  Exporters.categoryBrandColumn product brand
  = if jsstring_eqb (toLowerCase (Exporters.categoryColumn product))
                    Exporters.not_found_lower
    then Exporters.NOT_FOUND
    else Exporters.categoryColumn product.
Proof.
  intro Hbrand. unfold Exporters.categoryBrandColumn, Exporters.categoryColumn.
  cbv zeta.
  destruct (normalizedCategory_trimmed (MappedProduct.seoCategory product))
    as [Hne Htrim].
  set (category := Exporters.normalizedCategory _) in *.
  unfold Exporters.buildCategoryBrand. cbv zeta. rewrite Htrim.
  destruct category as [| c category'] eqn:E; [congruence |]. rewrite <- E.
  replace (truthy category) with true by (rewrite E; reflexivity). cbn [negb].
  destruct (jsstring_eqb (toLowerCase category) Exporters.not_found_lower);
    [reflexivity |].
  destruct Hbrand as [-> | [-> ->]]; reflexivity.
Qed.

End ExportNoBrand.

(* ===================================================================== *)
(** * More on the store and on the levels of a path *)
(* ===================================================================== *)

(** X27. [addProductDataset] on a live session puts the dataset last, under
    the identifier drawn and without a mapping; the datasets that were there,
    the categories, the identifier and the time of creation of the session are
    what they were; and the session so changed is the one the next read
    returns. *)
Theorem addProductDataset_appends
        (uuid : jsstring) (now : Z) (key : jsstring)
        (parsedProducts : Mapper.ParsedProducts)
        (sessions : SessionStore.Sessions) (session : SessionStore.SessionData) :
  fst (SessionStore.getSession now key sessions) = Some session ->
  exists payload sessions',
    SessionStore.addProductDataset uuid now key parsedProducts sessions
    = (inr payload, sessions')
    /\ payload = {| SessionStore.parsed := parsedProducts;
                    SessionStore.id := uuid;
                    SessionStore.mapped := None |}
    /\ fst (SessionStore.getSession now key sessions')
       = Some {| SessionStore.sessionId := SessionStore.sessionId session;
                 SessionStore.createdAt := SessionStore.createdAt session;
                 SessionStore.categories := SessionStore.categories session;
                 SessionStore.products := SessionStore.products session ++ [payload] |}.
Proof.
  intro Hlive. pose proof (getSession_live _ _ _ Hlive) as Hread.
  unfold SessionStore.addProductDataset. rewrite Hread.
  eexists. eexists. split; [reflexivity |]. split; [reflexivity |].
  rewrite (@getSession_after_set now key sessions session _ Hlive) by reflexivity.
  reflexivity.
Qed.

(** One step of [splitLevels]: at three slashes the piece read so far is
    closed, at any other code unit it grows. *)
Lemma splitLevels_step (cur : jsstring) (c : N) (s : jsstring) :
  (exists rest, c = 47%N /\ s = 47%N :: 47%N :: rest
                /\ splitLevels cur (c :: s) = rev cur :: splitLevels [] rest)
  \/ splitLevels cur (c :: s) = splitLevels (c :: cur) s.
Proof.
  destruct (N.eqb_spec c 47) as [-> | Hc].
  - destruct s as [| d s]; [right; reflexivity |].
    destruct (N.eqb_spec d 47) as [-> | Hd].
    + destruct s as [| e s]; [right; reflexivity |].
      destruct (N.eqb_spec e 47) as [-> | He].
      * left. exists s. repeat split; reflexivity.
      * right. destruct e as [| p]; [reflexivity |].
        do 6 (destruct p as [p | p |]; try reflexivity). congruence.
    + right. destruct d as [| p]; [reflexivity |].
      do 6 (destruct p as [p | p |]; try reflexivity). congruence.
  - right. destruct c as [| p]; [reflexivity |].
    do 6 (destruct p as [p | p |]; try reflexivity). congruence.
Qed.

Lemma splitLevels_not_nil (cur s : jsstring) : splitLevels cur s <> [].
Proof.
  remember (length s) as n eqn:Hn. revert cur s Hn.
  induction n as [n IH] using lt_wf_ind. intros cur s Hn.
  destruct s as [| c s]; [discriminate |].
  destruct (splitLevels_step cur c s) as [(rest & _ & _ & ->) | ->]; [discriminate |].
  apply (IH (length s)); [subst n; cbn [length]; lia | reflexivity].
Qed.

Lemma splitLevels_join (s cur : jsstring) :
  join (str "///") (splitLevels cur s) = rev cur ++ s.
Proof.
  remember (length s) as n eqn:Hn. revert cur s Hn.
  induction n as [n IH] using lt_wf_ind. intros cur s Hn.
  destruct s as [| c s]; [cbn [splitLevels join]; rewrite app_nil_r; reflexivity |].
  destruct (splitLevels_step cur c s) as [(rest & -> & -> & ->) | ->].
  - pose proof (splitLevels_not_nil [] rest) as Hne.
    destruct (splitLevels [] rest) as [| l ls] eqn:E; [congruence |].
    change (join (str "///") (rev cur :: l :: ls))
      with (rev cur ++ str "///" ++ join (str "///") (l :: ls)).
    rewrite <- E, (IH (length rest)); [reflexivity | | reflexivity].
    subst n. cbn [length]. lia.
  - rewrite (IH (length s)); [| subst n; cbn [length]; lia | reflexivity].
    cbn [rev]. rewrite <- app_assoc. reflexivity.
Qed.

(** X28. Splitting a path at '///' loses nothing: the pieces, joined with
    '///' again, are the path; and a path without a slash is one piece. *)
Theorem splitLevels_then_join (path : jsstring) :
  join (str "///") (splitLevels [] path) = path
  /\ (~ In 47%N path -> splitLevels [] path = [path]).
Proof.
  split; [apply (splitLevels_join path []) |].
  assert (H : forall s cur, ~ In 47%N s -> splitLevels cur s = [rev cur ++ s]).
  { induction s as [| c s IH]; intros cur Hs.
    - cbn [splitLevels]. rewrite app_nil_r. reflexivity.
    - destruct (splitLevels_step cur c s) as [(rest & -> & _ & _) | ->].
      + exfalso. apply Hs. left. reflexivity.
      + rewrite IH by (intro H; apply Hs; right; exact H).
        cbn [rev]. rewrite <- app_assoc. reflexivity. }
  intro Hpath. apply (H path [] Hpath).
Qed.

(* ===================================================================== *)
(** * Runs of the examples: the class, the tokenizer and the requests *)
(* ===================================================================== *)

(** X4 at a model of two terms and a vector of one entry. *)
Lemma similarity_of_short_vector_is_nan_witness :
  let model := TfIdfClass.new [[str "a"; str "b"]] in
  length [1%Q] < TfIdfClass.vocabSize model
  /\ TfIdfClass.similarity model [1%Q] [1%Q; 0%Q] = None.
Proof.
  intro model.
  assert (H : length [1%Q] < TfIdfClass.vocabSize model) by (vm_compute; lia).
  split; [exact H |].
  exact (@similarity_of_short_vector_is_nan model [1%Q] [1%Q; 0%Q] (or_introl H)).
Defined.

(** X5 at a corpus with the terms a and b: the tokens a, c, b and the
    tokens b, a give one vector. *)
Lemma vectorize_ignores_order_and_unknown_tokens_witness :
  let documents := [[str "a"; str "b"]] in
  TfIdfClass.vectorize (TfIdfClass.new documents) [str "a"; str "c"; str "b"]
  = TfIdfClass.vectorize (TfIdfClass.new documents) [str "b"; str "a"].
Proof.
  intro documents.
  apply (@vectorize_ignores_order_and_unknown_tokens Standin.host documents
           [str "a"; str "c"; str "b"] [str "b"; str "a"]).
  cbv. apply perm_swap.
Defined.

(** X6 with the stand-in host. *)
Lemma idf_weights_at_least_one_witness :
  Forall (fun weight => (1 <= weight)%Q)
         (TfIdfClass.idf (TfIdfClass.new [[str "a"; str "b"]; [str "a"]])).
Proof.
  exact (@idf_weights_at_least_one Standin.host [[str "a"; str "b"]; [str "a"]]
           (proj1 standin_nonneg)).
Defined.

(** X8 at two tokens. *)
Lemma tokenize_after_joinTokens_witness :
  Text.tokenize (Some (Text.joinTokens [str "ab"; str "c1"])) = [str "ab"; str "c1"].
Proof.
  apply tokenize_after_joinTokens.
  repeat constructor; try discriminate.
Defined.

(** X13 at the run of seven categories with reranking. *)
Lemma run_sends_at_most_one_request_per_product_witness :
  Shortlist.categories <> []
  /\ exists response requests,
       mapProducts Shortlist.service Shortlist.categories Shortlist.products
                   Shortlist.options []
       = (Ok response, [] ++ requests)
       /\ length requests <= length (records Shortlist.products)
       /\ (MappingOptions.useOpenAI Shortlist.options = false
           \/ usableKey Shortlist.options = None ->
           requests = [])
       /\ Forall (fun request =>
                    exists product,
                      In product (records Shortlist.products)
                      /\ Shape.RequestFor Shortlist.categories Shortlist.options
                                          product request)
                 requests.
Proof.
  assert (H : Shortlist.categories <> []) by (vm_compute; discriminate).
  split; [exact H |].
  exact (@run_sends_at_most_one_request_per_product Standin.host Shortlist.service
           Shortlist.categories Shortlist.options Shortlist.products [] H).
Defined.

(** X14 at the run of seven categories with reranking. *)
Lemma run_statistics_add_up_witness :
  Shortlist.categories <> []
  /\ exists response log',
       mapProducts Shortlist.service Shortlist.categories Shortlist.products
                   Shortlist.options []
       = (Ok response, log')
       /\ length (MappingResponse.items response) = length (records Shortlist.products)
       /\ let stats := MappingResponse.stats response in
          MappingStatistics.totalProducts stats = length (records Shortlist.products)
          /\ MappingStatistics.mappedProducts stats
             + MappingStatistics.unmappedProducts stats
             = MappingStatistics.totalProducts stats
          /\ MappingStatistics.categoriesUsed stats
             <= MappingStatistics.mappedProducts stats
          /\ MappingStatistics.categoriesUsed stats <= length Shortlist.categories
          /\ (0 <= MappingStatistics.mappingSuccessRate stats <= 100)%Q
          /\ MappingStatistics.brandName stats = brandName Shortlist.products
          /\ MappingStatistics.sourceFile stats = sourceFile Shortlist.products.
Proof.
  assert (H : Shortlist.categories <> []) by (vm_compute; discriminate).
  split; [exact H |].
  exact (@run_statistics_add_up Standin.host Shortlist.service Shortlist.categories
           Shortlist.options Shortlist.products [] H).
Defined.

(** X16 at a store with the session s1: nothing done under s1 changes what
    is bound to s2. *)
Lemma store_functions_touch_one_session_witness :
  let sessions := snd (SessionStore.createSession (str "s1") 0 []) in
  let mapping := {| MappingResponse.items := [];
                    MappingResponse.stats := statsOf FullMatch.products [] |} in
  str "s2" <> str "s1"
  /\ SessionStore.get
       (snd (SessionStore.updateMapping 5 (str "s1") (str "d0") mapping sessions))
       (str "s2")
     = SessionStore.get sessions (str "s2").
Proof.
  intros sessions mapping.
  assert (H : str "s2" <> str "s1") by (vm_compute; discriminate).
  split; [exact H |].
  exact (proj1 (proj2 (proj2 (proj2 (proj2
           (@store_functions_touch_one_session 5 (str "d1") (str "s1") (str "s2")
              (str "d0") [] FullMatch.products mapping sessions H)))))).
Defined.

(** X17 at a session with the one dataset d0. *)
Lemma updateMapping_sets_first_dataset_witness :
  let dataset := {| SessionStore.parsed := FullMatch.products;
                    SessionStore.id := str "d0";
                    SessionStore.mapped := None |} in
  let session := {| SessionStore.sessionId := str "s1";
                    SessionStore.createdAt := 0;
                    SessionStore.categories := None;
                    SessionStore.products := [dataset] |} in
  let sessions := [(str "s1", session)] in
  let mapping := {| MappingResponse.items := [];
                    MappingResponse.stats := statsOf FullMatch.products [] |} in
  fst (SessionStore.getSession 5 (str "s1") sessions) = Some session
  /\ ((forall p, In p (SessionStore.products session) ->
                 SessionStore.id p <> str "d9") ->
      SessionStore.updateMapping 5 (str "s1") (str "d9") mapping sessions
      = (inl SessionStore.DatasetNotFound, sessions)).
Proof.
  intros dataset session sessions mapping.
  assert (H : fst (SessionStore.getSession 5 (str "s1") sessions) = Some session)
    by (vm_compute; reflexivity).
  split; [exact H |].
  exact (proj1 (@updateMapping_sets_first_dataset 5 (str "s1") (str "d9") mapping
                  sessions session H)).
Defined.

(** X18 at a session with one dataset that has a mapping. *)
Lemma upsertSeoCategories_drops_mappings_witness :
  let mapping := {| MappingResponse.items := [];
                    MappingResponse.stats := statsOf FullMatch.products [] |} in
  let dataset := {| SessionStore.parsed := FullMatch.products;
                    SessionStore.id := str "d0";
                    SessionStore.mapped := Some mapping |} in
  let session := {| SessionStore.sessionId := str "s1";
                    SessionStore.createdAt := 0;
                    SessionStore.categories := None;
                    SessionStore.products := [dataset] |} in
  let sessions := [(str "s1", session)] in
  fst (SessionStore.getSession 3600000 (str "s1") sessions) = Some session
  /\ exists session' sessions',
       SessionStore.upsertSeoCategories 3600000 (str "s1") FullMatch.categories sessions
       = (inr session', sessions')
       /\ fst (SessionStore.getSession 3600000 (str "s1") sessions') = Some session'
       /\ SessionStore.categories session' = Some FullMatch.categories
       /\ Forall (fun p => SessionStore.mapped p = None)
                 (SessionStore.products session')
       /\ map SessionStore.id (SessionStore.products session')
          = map SessionStore.id (SessionStore.products session)
       /\ map SessionStore.parsed (SessionStore.products session')
          = map SessionStore.parsed (SessionStore.products session)
       /\ SessionStore.sessionId session' = SessionStore.sessionId session
       /\ SessionStore.createdAt session' = SessionStore.createdAt session.
Proof.
  intros mapping dataset session sessions.
  assert (H : fst (SessionStore.getSession 3600000 (str "s1") sessions) = Some session)
    by (vm_compute; reflexivity).
  split; [exact H |].
  exact (@upsertSeoCategories_drops_mappings 3600000 (str "s1") FullMatch.categories
           sessions session H).
Defined.

(** X19 at a session read one millisecond after its hour. *)
Lemma store_changes_need_a_live_session_witness :
  let session := {| SessionStore.sessionId := str "s1";
                    SessionStore.createdAt := 0;
                    SessionStore.categories := None;
                    SessionStore.products := [] |} in
  let sessions := [(str "s1", session)] in
  fst (SessionStore.getSession 3600001 (str "s1") sessions) = None
  /\ SessionStore.clearSession 3600001 (str "s1") sessions
     = (inl SessionStore.SessionNotFound, SessionStore.delete sessions (str "s1")).
Proof.
  intros session sessions.
  assert (H : fst (SessionStore.getSession 3600001 (str "s1") sessions) = None)
    by (vm_compute; reflexivity).
  split; [exact H |].
  exact (proj1 (proj2 (proj2 (proj2
           (@store_changes_need_a_live_session 3600001 (str "d1") (str "s1") (str "d0")
              [] FullMatch.products
              {| MappingResponse.items := [];
                 MappingResponse.stats := statsOf FullMatch.products [] |}
              sessions H))))).
Defined.

(** X22 at the file name 'Бренд - Acme.xlsx'. *)
Lemma extractBrandName_result_witness :
  let filename := [1041; 1088; 1077; 1085; 1076; 32; 45; 32]%N ++ str "Acme.xlsx" in
  Parsing.extractBrandName filename = Some (str "Acme")
  /\ str "Acme" <> [] /\ trim (str "Acme") = str "Acme" /\ ~ In 46%N (str "Acme").
Proof.
  intro filename.
  assert (H : Parsing.extractBrandName filename = Some (str "Acme"))
    by (vm_compute; reflexivity).
  split; [exact H |].
  exact (@extractBrandName_result filename (str "Acme") H).
Defined.

(** X23 at the same file name, in its parts. *)
Lemma extractBrandName_reads_the_name_witness :
  Parsing.extractBrandName
    ([1041; 1088; 1077; 1085; 1076]%N ++ [32%N] ++ [45%N] ++ [32%N]
     ++ str "Acme" ++ str ".xlsx")
  = Some (trim (str "Acme")).
Proof.
  apply (@extractBrandName_reads_the_name [1041; 1088; 1077; 1085; 1076]%N
           [32%N] [32%N] (str "Acme") (str ".xlsx")).
  - repeat constructor.
  - reflexivity.
  - reflexivity.
  - discriminate.
  - reflexivity.
  - intros [H | [H | [H | [H | []]]]]; discriminate H.
  - right. eexists. reflexivity.
Defined.

(** X24 with the stand-in host, at a product without text. *)
Lemma unmapped_product_is_exported_as_not_found_witness :
  toLowerCase Exporters.NOT_FOUND = Exporters.not_found_lower
  /\ exists item log',
       mapProduct unreachable (buildModels Blank.categories) Blank.categories
                  DEFAULT_OPTIONS Blank.product []
       = (Ok item, log')
       /\ (MappedProduct.status item = not_mapped ->
           Exporters.categoryColumn item = Exporters.NOT_FOUND
           /\ Exporters.categoryBrandColumn item (Some (str "Acme"))
              = Exporters.NOT_FOUND).
Proof.
  assert (H : toLowerCase Exporters.NOT_FOUND = Exporters.not_found_lower)
    by (vm_compute; reflexivity).
  split; [exact H |].
  exact (@unmapped_product_is_exported_as_not_found Standin.host H unreachable
           (buildModels Blank.categories) Blank.categories DEFAULT_OPTIONS
           Blank.product (Some (str "Acme")) []).
Defined.

(** X25 at a product mapped to 'a /// b', with an empty brand. *)
Lemma category_brand_without_brand_witness :
  let item := {| MappedProduct.product := FullMatch.product;
                 MappedProduct.seoCategory := Some (str "a /// b");
                 MappedProduct.confidence := 80;
                 MappedProduct.status := mapped;
                 MappedProduct.candidates := [];
                 MappedProduct.reason := [] |} in
  Exporters.categoryBrandColumn item (Some [])
  = if jsstring_eqb (toLowerCase (Exporters.categoryColumn item))
                    Exporters.not_found_lower
    then Exporters.NOT_FOUND
    else Exporters.categoryColumn item.
Proof.
  intro item.
  exact (@category_brand_without_brand Standin.host item (Some []) (or_introl eq_refl)).
Defined.


(** X27 at a session without datasets. *)
Lemma addProductDataset_appends_witness :
  let session := {| SessionStore.sessionId := str "s1";
                    SessionStore.createdAt := 0;
                    SessionStore.categories := None;
                    SessionStore.products := [] |} in
  let sessions := [(str "s1", session)] in
  fst (SessionStore.getSession 5 (str "s1") sessions) = Some session
  /\ exists payload sessions',
       SessionStore.addProductDataset (str "d0") 5 (str "s1") FullMatch.products sessions
       = (inr payload, sessions')
       /\ payload = {| SessionStore.parsed := FullMatch.products;
                       SessionStore.id := str "d0";
                       SessionStore.mapped := None |}
       /\ fst (SessionStore.getSession 5 (str "s1") sessions')
          = Some {| SessionStore.sessionId := SessionStore.sessionId session;
                    SessionStore.createdAt := SessionStore.createdAt session;
                    SessionStore.categories := SessionStore.categories session;
                    SessionStore.products :=
                      SessionStore.products session ++ [payload] |}.
Proof.
  intros session sessions.
  assert (H : fst (SessionStore.getSession 5 (str "s1") sessions) = Some session)
    by (vm_compute; reflexivity).
  split; [exact H |].
  exact (@addProductDataset_appends (str "d0") 5 (str "s1") FullMatch.products
           sessions session H).
Defined.

(* ===================================================================== *)
(** * Properties of the engine in the arithmetic of the language *)
(* ===================================================================== *)

Import F64.

(** ** The roundings at work *)

Example toFixed_rounds_the_binary_value :
  toFixed 2 1.005%float = DecFixed false 100 2
  /\ toFixed 2 8.345%float = DecFixed false 835 2
  /\ toFixed 0 2.5%float = DecFixed false 3 0
  /\ toFixed 0 (-2.5)%float = DecFixed true 3 0
  /\ toFixed 2 (0 / 0)%float = DecNaN.
Proof. repeat split; vm_compute; reflexivity. Qed.

Example Number_of_a_rounded_third :
  Number (toFixed 6 (1 / 3)%float) = 0.333333%float.
Proof. vm_compute. reflexivity. Qed.

Example Math_round_on_the_binary_value :
  Math_round (1.025 * 100)%float = 102%float
  /\ Math_round 2.5%float = 3%float
  /\ Math_round (-2.5)%float = (-2)%float
  /\ Math_round (1.1 * 100)%float = 110%float.
Proof. repeat split; vm_compute; reflexivity. Qed.

Example fround_beyond_binary32 :
  fround 1e39%float = infinity /\ fround 0.1%float = 0.10000000149011612%float.
Proof. split; vm_compute; reflexivity. Qed.

Example difference_below_the_decimal_one :
  (0.05 <=? 0.568977 - 0.518977)%float = false
  /\ (Math_max (0.05 / 2) 0.02 <=? 0.825 - 0.8)%float = false.
Proof. split; vm_compute; reflexivity. Qed.

(** ** Facts on binary64 *)

Lemma float_mul_comm (a b : float) : (a * b)%float = (b * a)%float.
Proof.
  rewrite <- (SF2Prim_Prim2SF (a * b)), <- (SF2Prim_Prim2SF (b * a)), !mul_spec.
  f_equal. unfold SF64mul.
  destruct (Prim2SF a) as [sa | sa | | sa ma ea], (Prim2SF b) as [sb | sb | | sb mb eb];
    cbn [SFmul]; rewrite ?(xorb_comm sb sa); try reflexivity.
  rewrite (Pos.mul_comm mb ma), (Z.add_comm eb ea). reflexivity.
Qed.

(** The order of binary64, from the definitions of IEEE 754. *)
Section Binary64Facts.
Import Binary64.
Local Open Scope Z_scope.

Lemma digits2_pos_size (p : positive) : digits2_pos p = Pos.size p.
Proof. induction p as [p IH | p IH |]; cbn; rewrite ?IH; reflexivity. Qed.

Lemma digits2_bounds (p : positive) :
  2 ^ (Zpos (digits2_pos p) - 1) <= Zpos p < 2 ^ Zpos (digits2_pos p).
Proof.
  rewrite digits2_pos_size.
  assert (Hpow : 2 ^ Zpos (Pos.size p) = 2 * 2 ^ (Zpos (Pos.size p) - 1)).
  { rewrite <- Z.pow_succ_r by lia. f_equal. lia. }
  pose proof (Pos.size_gt p) as Hgt. pose proof (Pos.size_le p) as Hle.
  apply Pos2Z.pos_lt_pos in Hgt. apply Pos2Z.pos_le_pos in Hle.
  rewrite Pos2Z.inj_pow in Hgt, Hle.
  rewrite (Pos2Z.inj_xO p) in Hle. lia.
Qed.

Lemma shr_1_m (mrs : shr_record) :
  0 <= shr_m mrs -> shr_m (shr_1 mrs) = shr_m mrs / 2.
Proof.
  destruct mrs as [m r s]. cbn [shr_m]. intro Hm.
  rewrite <- Z.div2_div.
  destruct m as [| p | p]; [reflexivity | | lia].
  destruct p; reflexivity.
Qed.

Lemma iter_shr_1_m (p : positive) (mrs : shr_record) :
  0 <= shr_m mrs -> shr_m (iter_pos shr_1 p mrs) = shr_m mrs / 2 ^ Zpos p.
Proof.
  revert mrs. induction p as [p IH | p IH |]; intros mrs Hm; cbn [iter_pos].
  - assert (H1 : 0 <= shr_m (shr_1 mrs)) by (rewrite shr_1_m by exact Hm; apply Z.div_pos; lia).
    assert (H2 : 0 <= shr_m (iter_pos shr_1 p (shr_1 mrs)))
      by (rewrite IH by exact H1; apply Z.div_pos; lia).
    rewrite IH, IH, shr_1_m by assumption.
    rewrite !Z.div_div by lia. f_equal.
    rewrite (Pos2Z.inj_xI p). rewrite <- !Z.pow_add_r by lia. change 2 with (2 ^ 1) at 1. rewrite <- Z.pow_add_r by lia.
    f_equal. lia.
  - assert (H2 : 0 <= shr_m (iter_pos shr_1 p mrs))
      by (rewrite IH by exact Hm; apply Z.div_pos; lia).
    rewrite IH, IH by assumption.
    rewrite !Z.div_div by lia. f_equal.
    rewrite (Pos2Z.inj_xO p). rewrite <- Z.pow_add_r by lia.
    f_equal. lia.
  - rewrite shr_1_m by exact Hm. reflexivity.
Qed.

Lemma shr_record_of_loc_m (m : Z) (l : location) : shr_m (shr_record_of_loc m l) = m.
Proof. destruct l as [| []]; reflexivity. Qed.

Lemma shr_fexp_pos (m e : Z) (l : location) :
  0 < m -> emin64 <= e ->
  0 < shr_m (fst (shr_fexp prec emax m e l))
  /\ emin64 <= snd (shr_fexp prec emax m e l).
Proof.
  intros Hm He. unfold shr_fexp, shr.
  destruct (fexp prec emax (Zdigits2 m + e) - e) as [| p | p] eqn:En;
    cbn [fst snd]; rewrite ?shr_record_of_loc_m; try (split; assumption).
  unfold fexp, SpecFloat.emin, prec, emax in En.
  change IntDef.Z.max with Z.max in En.
  destruct m as [| m' | m']; try lia. cbn [Zdigits2] in En.
  pose proof (digits2_bounds m') as [Hlo _].
  rewrite iter_shr_1_m by (rewrite shr_record_of_loc_m; lia).
  rewrite shr_record_of_loc_m. unfold emin64 in *. split; [| lia].
  apply Z.div_str_pos. split; [lia |].
  eapply Z.le_trans; [| exact Hlo].
  apply Z.pow_le_mono_r; lia.
Qed.

Lemma round_nearest_even_pos (m : Z) (l : location) :
  0 < m -> 0 < round_nearest_even m l.
Proof.
  intro Hm. unfold round_nearest_even.
  destruct l as [| []]; try lia. destruct (IntDef.Z.even m); lia.
Qed.

Lemma binary_round_aux_sign (s : bool) (m e : Z) (l : location) :
  0 < m -> emin64 <= e ->
  positive_sf (binary_round_aux prec emax s m e l) = negb s.
Proof.
  intros Hm He. unfold binary_round_aux.
  pose proof (@shr_fexp_pos m e l Hm He) as [H1 H1'].
  destruct (shr_fexp prec emax m e l) as [mrs' e'] eqn:E1. cbn [fst snd] in H1, H1'.
  pose proof (@shr_fexp_pos (round_nearest_even (shr_m mrs') (loc_of_shr_record mrs'))
                e' loc_Exact (@round_nearest_even_pos _ _ H1) H1') as [H2 _].
  destruct (shr_fexp prec emax (round_nearest_even _ _) e' loc_Exact) as [mrs'' e''].
  cbn [fst] in H2.
  destruct (shr_m mrs'') as [| p | p]; try lia.
  destruct (e'' <=? emax - prec); destruct s; reflexivity.
Qed.

Lemma shl_align_spec (m : positive) (e e' : Z) :
  e' <= e ->
  Zpos (fst (shl_align m e e')) = Zpos m * 2 ^ (e - e')
  /\ snd (shl_align m e e') = e'.
Proof.
  intro Hle. unfold shl_align.
  destruct (e' - e) as [| d | d] eqn:Ed; cbn [fst snd]; try lia.
  - replace (e - e') with 0 by lia. split; lia.
  - replace (e - e') with (Zpos d) by lia. split; [| reflexivity].
    clear. change (@PosDef.Pos.iter) with (@Pos.iter).
    induction d as [| d IH] using Pos.peano_ind.
    + cbn [Pos.iter]. rewrite (Pos2Z.inj_xO m). lia.
    + rewrite Pos.iter_succ, (Pos2Z.inj_xO (Pos.iter xO m d)), IH, Pos2Z.inj_succ, Z.pow_succ_r by lia. lia.
Qed.

Lemma binary_normalize_sign (d e : Z) :
  emin64 <= e ->
  positive_sf (binary_normalize prec emax d e false) = (0 <? d).
Proof.
  intro He. unfold binary_normalize.
  destruct d as [| p | p]; [reflexivity | |].
  - unfold binary_round.
    assert (Hez : emin64 <= snd (shl_align p e (fexp prec emax (Zpos (digits2_pos p) + e)))).
    { unfold shl_align.
      destruct (fexp prec emax (Zpos (digits2_pos p) + e) - e) eqn:Ed; cbn [snd]; try exact He.
      unfold fexp, SpecFloat.emin, prec, emax. change IntDef.Z.max with Z.max.
      unfold emin64. lia. }
    destruct (shl_align p e _) as [mz ez]. cbn [snd] in Hez.
    rewrite binary_round_aux_sign by (try exact Hez; lia). reflexivity.
  - unfold binary_round.
    assert (Hez : emin64 <= snd (shl_align p e (fexp prec emax (Zpos (digits2_pos p) + e)))).
    { unfold shl_align.
      destruct (fexp prec emax (Zpos (digits2_pos p) + e) - e) eqn:Ed; cbn [snd]; try exact He.
      unfold fexp, SpecFloat.emin, prec, emax. change IntDef.Z.max with Z.max.
      unfold emin64. lia. }
    destruct (shl_align p e _) as [mz ez]. cbn [snd] in Hez.
    rewrite binary_round_aux_sign by (try exact Hez; lia). reflexivity.
Qed.

Lemma valid_finite (s : bool) (m : positive) (e : Z) :
  valid_binary (S754_finite s m e) = true ->
  emin64 <= e /\ Zpos m < 2 ^ 53 /\ (emin64 < e -> 2 ^ 52 <= Zpos m).
Proof.
  cbn [SpecFloat.valid_binary]. unfold bounded, canonical_mantissa.
  intro H. apply andb_true_iff in H. destruct H as [H _].
  apply Z.eqb_eq in H. unfold fexp, SpecFloat.emin, prec, emax in H.
  change IntDef.Z.max with Z.max in H.
  pose proof (digits2_bounds m) as [Hlo Hhi]. unfold emin64.
  split; [lia |]. split.
  - eapply Z.lt_le_trans; [exact Hhi |]. apply Z.pow_le_mono_r; lia.
  - intro He. replace (Zpos (digits2_pos m)) with 53 in Hlo by lia. exact Hlo.
Qed.

Lemma SFsub_sign_finite (sx sy : bool) (mx my : positive) (ex ey : Z) :
  valid_binary (S754_finite sx mx ex) = true ->
  valid_binary (S754_finite sy my ey) = true ->
  positive_sf (SFsub prec emax (S754_finite sy my ey) (S754_finite sx mx ex))
  = SFltb (S754_finite sx mx ex) (S754_finite sy my ey).
Proof.
  intros Vx Vy. cbn [SFsub]. cbv zeta.
  change IntDef.Z.min with Z.min.
  destruct (@valid_finite sx mx ex Vx) as (Hex & Hmx & Hnx).
  destruct (@valid_finite sy my ey Vy) as (Hey & Hmy & Hny).
  rewrite binary_normalize_sign by lia.
  destruct (@shl_align_spec mx ex (Z.min ey ex)) as [Hax _]; [lia |].
  destruct (@shl_align_spec my ey (Z.min ey ex)) as [Hay _]; [lia |].
  rewrite Hax, Hay.
  unfold SFltb. cbn [SFcompare].
  change (PosDef.Pos.compare_cont Eq mx my) with (Pos.compare mx my).
  assert (Hpow : forall k, 0 < k -> 2 <= 2 ^ k).
  { intros k Hk. change 2 with (2 ^ 1) at 1. apply Z.pow_le_mono_r; lia. }
  assert (H52 : 2 ^ 53 = 2 * 2 ^ 52) by reflexivity.
  destruct (Z.compare_spec ex ey) as [He | He | He].
  - subst ey. rewrite Z.min_id, Z.sub_diag. cbn [Z.pow]. rewrite !Z.mul_1_r.
    destruct (Pos.compare_spec mx my); destruct sx, sy; cbn [cond_Zopp CompOpp];
      apply Z.ltb_lt || apply Z.ltb_ge; lia.
  - rewrite Z.min_r by lia. rewrite Z.sub_diag. cbn [Z.pow]. rewrite Z.mul_1_r.
    specialize (Hny ltac:(lia)). specialize (Hpow (ey - ex) ltac:(lia)).
    destruct sx, sy; cbn [cond_Zopp];
      apply Z.ltb_lt || apply Z.ltb_ge; nia.
  - rewrite Z.min_l by lia. rewrite Z.sub_diag. cbn [Z.pow]. rewrite Z.mul_1_r.
    specialize (Hnx ltac:(lia)). specialize (Hpow (ex - ey) ltac:(lia)).
    destruct sx, sy; cbn [cond_Zopp];
      apply Z.ltb_lt || apply Z.ltb_ge; nia.
Qed.

Lemma SFsub_sign (x y : spec_float) :
  valid_binary x = true -> valid_binary y = true ->
  match x, y with S754_nan, _ | _, S754_nan => False | _, _ => True end ->
  positive_sf (SFsub prec emax y x) = SFltb x y.
Proof.
  intros Vx Vy Hnan.
  destruct x as [sx | sx | | sx mx ex], y as [sy | sy | | sy my ey];
    try contradiction; try (apply SFsub_sign_finite; assumption);
    cbn [SFsub]; unfold positive_sf, SFltb; cbn [SFcompare];
    try (destruct sx, sy; reflexivity); try (destruct sx; reflexivity);
    try (destruct sy; reflexivity).
Qed.


Lemma float_sub_sign (x y : float) :
  (x =? x)%float = true -> (y =? y)%float = true ->
  (0 <? y - x)%float = (x <? y)%float.
Proof.
  intros Hx Hy.
  rewrite (ltb_spec 0%float), sub_spec, (ltb_spec x y).
  change (Prim2SF 0%float) with (S754_zero false).
  apply (@SFsub_sign (Prim2SF x) (Prim2SF y) (Prim2SF_valid x) (Prim2SF_valid y)).
  rewrite eqb_spec in Hx, Hy.
  destruct (Prim2SF x), (Prim2SF y); try exact I; discriminate.
Qed.

Lemma SFcompare_ord (x y : spec_float) :
  sf_nan x = false -> sf_nan y = false ->
  exists c, SFcompare x y = Some c /\ cmpSpec (ord x) (ord y) c.
Proof.
  intros Hx Hy.
  destruct x as [sx | sx | | sx mx ex], y as [sy | sy | | sy my ey];
    try discriminate; cbn [SFcompare ord].
  - eexists. split; [reflexivity |]. unfold cmpSpec, lexeq. cbn. lia.
  - eexists. split; [reflexivity |]. destruct sy; unfold cmpSpec, lexlt; cbn; lia.
  - eexists. split; [reflexivity |]. destruct sy; unfold cmpSpec, lexlt; cbn; lia.
  - eexists. split; [reflexivity |]. destruct sx; unfold cmpSpec, lexlt; cbn; lia.
  - eexists. split; [reflexivity |].
    destruct sx, sy; unfold cmpSpec, lexlt, lexeq; cbn; lia.
  - eexists. split; [reflexivity |].
    destruct sx, sy; unfold cmpSpec, lexlt, lexeq; cbn; lia.
  - eexists. split; [reflexivity |]. destruct sx; unfold cmpSpec, lexlt; cbn; lia.
  - eexists. split; [reflexivity |].
    destruct sx, sy; unfold cmpSpec, lexlt, lexeq; cbn; lia.
  - eexists. split; [reflexivity |].
    change (PosDef.Pos.compare_cont Eq mx my) with (Pos.compare mx my).
    destruct sx, sy; try (unfold cmpSpec, lexlt; cbn; lia);
      destruct (Z.compare_spec ex ey); try (unfold cmpSpec, lexlt; cbn; lia);
      destruct (Pos.compare_spec mx my); unfold cmpSpec, lexlt, lexeq, CompOpp; cbn; lia.
Qed.

Lemma cmpSpec_unique a b c c' : cmpSpec a b c -> cmpSpec a b c' -> c = c'.
Proof.
  destruct c, c'; unfold cmpSpec, lexlt, lexeq; intros; try reflexivity; exfalso; lia.
Qed.

Lemma cmpSpec_opp a b c : cmpSpec a b c -> cmpSpec b a (CompOpp c).
Proof. destruct c; unfold cmpSpec, lexlt, lexeq; cbn; lia. Qed.

Lemma cmpSpec_trans a b c' c1 c2 c3 :
  cmpSpec a b c1 -> cmpSpec b c' c2 -> cmpSpec a c' c3 ->
  c1 <> Gt -> c2 <> Gt -> c3 <> Gt.
Proof.
  destruct c1, c2, c3; unfold cmpSpec, lexlt, lexeq; intros; try discriminate;
    try congruence; exfalso; lia.
Qed.

Local Open Scope float_scope.

Lemma notNaN_sf (x : float) : (x =? x) = true -> sf_nan (Prim2SF x) = false.
Proof.
  rewrite eqb_spec. destruct (Prim2SF x); try reflexivity.
  discriminate.
Qed.

Lemma float_compare (x y : float) :
  (x =? x) = true -> (y =? y) = true ->
  exists c, cmpSpec (ord (Prim2SF x)) (ord (Prim2SF y)) c
            /\ (x <? y) = match c with Lt => true | _ => false end
            /\ (x <=? y) = match c with Gt => false | _ => true end
            /\ (x =? y) = match c with Eq => true | _ => false end.
Proof.
  intros Hx Hy.
  destruct (@SFcompare_ord (Prim2SF x) (Prim2SF y) (@notNaN_sf x Hx) (@notNaN_sf y Hy))
    as (c & Hc & Hs).
  exists c. split; [exact Hs |].
  rewrite ltb_spec, leb_spec, eqb_spec. unfold SFltb, SFleb, SFeqb. rewrite Hc.
  destruct c; repeat split.
Qed.

Lemma float_order (x y z : float) :
  (x =? x) = true -> (y =? y) = true -> (z =? z) = true ->
  (x <=? y) || (y <=? x) = true
  /\ (x <? y) = (x <=? y) && negb (y <=? x)
  /\ (x =? y) = (x <=? y) && (y <=? x)
  /\ ((x <=? y) = true -> (y <=? z) = true -> (x <=? z) = true).
Proof.
  intros Hx Hy Hz.
  destruct (@float_compare x y Hx Hy) as (c & Hc & Hlt & Hle & Heq).
  destruct (@float_compare y x Hy Hx) as (c' & Hc' & Hlt' & Hle' & Heq').
  assert (c' = CompOpp c) by (eapply cmpSpec_unique; [exact Hc' | apply cmpSpec_opp, Hc]).
  subst c'. rewrite Hlt, Hle, Heq, Hle'.
  split; [destruct c; reflexivity |].
  split; [destruct c; reflexivity |].
  split; [destruct c; reflexivity |].
  destruct (@float_compare y z Hy Hz) as (c2 & Hc2 & _ & Hle2 & _).
  destruct (@float_compare x z Hx Hz) as (c3 & Hc3 & _ & Hle3 & _).
  rewrite Hle2, Hle3. intros H1 H2.
  assert (c3 <> Gt).
  { eapply cmpSpec_trans; [exact Hc | exact Hc2 | exact Hc3 | |].
    - destruct c; [discriminate | discriminate | discriminate].
    - destruct c2; [discriminate | discriminate | discriminate]. }
  destruct c3; congruence.
Qed.

End Binary64Facts.

Lemma Numbers_forallb (keys : list float) :
  forallb (fun x => negb (isNaN x)) keys = true -> Numbers keys.
Proof.
  intro H. apply Forall_forall. intros x Hx.
  rewrite forallb_forall in H. specialize (H x Hx).
  destruct (isNaN x); [discriminate | reflexivity].
Qed.

Lemma Numbers_incl (keys keys' : list float) :
  incl keys' keys -> Numbers keys -> Numbers keys'.
Proof.
  unfold Numbers. rewrite !Forall_forall. intros Hincl H x Hx.
  apply H, Hincl, Hx.
Qed.

Lemma Numbers_perm {A : Type} (key : A -> float) (l l' : list A) :
  Permutation l l' -> Numbers (map key l) -> Numbers (map key l').
Proof.
  intro Hperm. apply Numbers_incl. intros k Hk.
  eapply Permutation_in; [apply Permutation_map, Permutation_sym, Hperm | exact Hk].
Qed.

(** Numbers are ordered by the comparator of the sorts. *)
Lemma Numbers_Ordered (keys : list float) :
  Numbers keys -> Spec64.Ordered keys.
Proof.
  unfold Numbers. rewrite Forall_forall. intros H x y z Hx Hy Hz.
  assert (N : forall k, In k keys -> (k =? k)%float = true).
  { intros k Hk. specialize (H k Hk). unfold isNaN in H.
    destruct (k =? k)%float; [reflexivity | discriminate]. }
  split; [apply float_sub_sign; apply N; assumption |].
  apply float_order; apply N; assumption.
Qed.

Lemma Ordered_incl (keys keys' : list float) :
  incl keys' keys -> Spec64.Ordered keys -> Spec64.Ordered keys'.
Proof.
  intros Hincl H x y z Hx Hy Hz. apply H; apply Hincl; assumption.
Qed.

Lemma Ordered_perm {A : Type} (key : A -> float) (l l' : list A) :
  Permutation l l' -> Spec64.Ordered (map key l) -> Spec64.Ordered (map key l').
Proof.
  intro Hperm. apply Ordered_incl. intros k Hk.
  eapply Permutation_in; [apply Permutation_map, Permutation_sym, Hperm | exact Hk].
Qed.

(** On ordered keys: what the comparator decides, in terms of the order. *)
Lemma Ordered_comesAfter {A : Type} (key : A -> float) (l : list A) (x y : A) :
  Spec64.Ordered (map key l) -> In x l -> In y l ->
  (comesAfter key x y = true -> (key x <? key y)%float = true
                                 /\ (key x <=? key y)%float = true)
  /\ (comesAfter key x y = false -> (key y <=? key x)%float = true).
Proof.
  intros HO Hx Hy. unfold comesAfter.
  destruct (HO (key x) (key y) (key x)) as (O1 & O2 & O3 & _);
    try (apply in_map; assumption).
  rewrite O1. split; intro H.
  - split; [exact H |]. rewrite O3 in H. apply andb_true_iff in H. apply H.
  - rewrite O3 in H.
    destruct (key y <=? key x)%float; [reflexivity |].
    rewrite orb_false_r in O2. rewrite O2 in H. discriminate.
Qed.

Lemma Ordered_trans {A : Type} (key : A -> float) (l : list A) (x y z : A) :
  Spec64.Ordered (map key l) -> In x l -> In y l -> In z l ->
  (key x <=? key y)%float = true -> (key y <=? key z)%float = true ->
  (key x <=? key z)%float = true.
Proof.
  intros HO Hx Hy Hz.
  destruct (HO (key x) (key y) (key z)) as (_ & _ & _ & _ & O5);
    try (apply in_map; assumption).
  exact O5.
Qed.



(** ** The stable descending sort *)

Lemma insertDescBy_perm64 {A : Type} (key : A -> float) (x : A) (l : list A) :
  Permutation (insertDescBy key x l) (x :: l).
Proof.
  induction l as [| y l IH]; simpl.
  - apply Permutation_refl.
  - destruct (comesAfter key x y).
    + eapply Permutation_trans; [apply perm_skip, IH | apply perm_swap].
    + apply Permutation_refl.
Qed.

Lemma sortDescBy_perm64 {A : Type} (key : A -> float) (l : list A) :
  Permutation (sortDescBy key l) l.
Proof.
  induction l as [| x l IH]; simpl.
  - apply Permutation_refl.
  - eapply Permutation_trans; [apply insertDescBy_perm64 | apply perm_skip, IH].
Qed.

Lemma sortDescBy_length64 {A : Type} (key : A -> float) (l : list A) :
  length (sortDescBy key l) = length l.
Proof. apply Permutation_length, sortDescBy_perm64. Qed.

Lemma insertDescBy_Forall64 {A : Type} (key : A -> float) (P : A -> Prop)
      (x : A) (l : list A) :
  P x -> Forall P l -> Forall P (insertDescBy key x l).
Proof.
  intros Hx Hl.
  eapply Permutation_Forall; [apply Permutation_sym, insertDescBy_perm64 |].
  constructor; assumption.
Qed.

Section Sorting64.
Variable A : Type.
Variable key : A -> float.

Lemma insertDescBy_sorted64 (x : A) (l : list A) :
  Spec64.Ordered (map key (x :: l)) ->
  StronglySorted (Spec64.notBelow key) l ->
  StronglySorted (Spec64.notBelow key) (insertDescBy key x l).
Proof.
  induction l as [| y l IH]; intros HO Hs; simpl.
  - repeat constructor.
  - apply StronglySorted_inv in Hs. destruct Hs as [Hl Hy].
    assert (Hx' : In x (x :: y :: l)) by (left; reflexivity).
    assert (Hy' : In y (x :: y :: l)) by (right; left; reflexivity).
    destruct (Ordered_comesAfter key (x :: y :: l) x y HO Hx' Hy') as [Hafter Hbefore].
    destruct (comesAfter key x y) eqn:E.
    + destruct (Hafter eq_refl) as [_ Hle]. constructor.
      * apply IH; [| exact Hl].
        eapply Ordered_incl; [| exact HO].
        intros k Hk. cbn [map] in *. destruct Hk as [Hk | Hk]; [left | right; right];
          exact Hk.
      * apply insertDescBy_Forall64; [exact Hle | exact Hy].
    + specialize (Hbefore eq_refl). constructor.
      * constructor; assumption.
      * constructor; [exact Hbefore |].
        rewrite Forall_forall in Hy. apply Forall_forall. intros z Hz.
        unfold Spec64.notBelow, Spec64.atLeast in *.
        apply (Ordered_trans key (x :: y :: l) z y x HO);
          [right; right; exact Hz | exact Hy' | exact Hx' | apply Hy, Hz | exact Hbefore].
Qed.

Lemma sortDescBy_sorted64 (l : list A) :
  Spec64.Ordered (map key l) ->
  StronglySorted (Spec64.notBelow key) (sortDescBy key l).
Proof.
  induction l as [| x l IH]; intro HO; simpl.
  - constructor.
  - apply insertDescBy_sorted64.
    + eapply Ordered_perm; [| exact HO].
      apply perm_skip, Permutation_sym, sortDescBy_perm64.
    + apply IH. eapply Ordered_incl; [| exact HO].
      intros k Hk. right. exact Hk.
Qed.

End Sorting64.

Section TaggedSorting64.
Variable A : Type.
Variable key : nat * A -> float.




End TaggedSorting64.



(** The insertion sort is a sort of the language. *)
#[export] Instance insertionSort : ArrayHost := {|
  Array_sort := fun A => @sortDescBy A;
  Array_sort_permutation := fun A => @sortDescBy_perm64 A;
  Array_sort_numbers := fun A key xs _ => eq_refl
|}.

Section ArraySort.
Context {array : ArrayHost}.
Variable A : Type.
Variable key : A -> float.

Lemma Array_sort_length (l : list A) : length (Array_sort key l) = length l.
Proof. apply Permutation_length, Array_sort_permutation. Qed.

(** The sort of numbers is sorted. *)
Lemma Array_sort_sorted (l : list A) :
  Numbers (map key l) ->
  StronglySorted (Spec64.notBelow key) (Array_sort key l).
Proof.
  intro H. rewrite Array_sort_numbers by exact H.
  apply sortDescBy_sorted64, Numbers_Ordered, H.
Qed.

End ArraySort.

(** ** The acceptance gate *)

Lemma gapOf_spec64 (b : CandidateMatch.t) (second : option CandidateMatch.t) :
  gapOf (Some b) second = Spec64.gap b second.
Proof. destruct second; reflexivity. Qed.

Lemma allowMapping_rules64 (options : MappingOptions.t) (b : CandidateMatch.t)
      (second : option CandidateMatch.t) :
  allowMapping options b second (Spec64.gap b second) = true
  <-> Spec64.R1 options b second \/ Spec64.R2 options b second
      \/ Spec64.R3 options b second \/ Spec64.R4 options b.
Proof.
  unfold allowMapping, Spec64.R1, Spec64.R2, Spec64.R3, Spec64.R4, Spec64.atLeast.
  rewrite !orb_true_iff, !andb_true_iff.
  rewrite (float_mul_comm (MappingOptions.gapThreshold options) 0.4).
  assert (third :
    (match second with
     | Some _ => (MappingOptions.gapThreshold options * 0.2 <=? Spec64.gap b second)%float
     | None => true
     end) = true
    <-> (second = None
         \/ (0.2 * MappingOptions.gapThreshold options <=? Spec64.gap b second)%float
            = true)).
  { destruct second as [s |].
    - rewrite (float_mul_comm _ 0.2). split.
      + intro H. right. exact H.
      + intros [H | H]; [discriminate | exact H].
    - split; [intros _; left; reflexivity | reflexivity]. }
  rewrite third. tauto.
Qed.

(** C1. The lexical acceptance gate sets the status to mapped exactly when a
    best candidate exists and one of the rules R1, R2, R3, R4 of the
    specification holds, the gap being the best score minus the second score
    when there is a second candidate and the best score otherwise. Scores,
    gap, thresholds and the comparisons are those of the language (binary64);
    the list is any list of candidates, so in particular the ranked list of
    any product against any category corpus. *)
Theorem lexicalGate_mapped_iff_rules
        (options : MappingOptions.t) (ranked : list CandidateMatch.t) :
  status (lexicalGate options ranked) = mapped
  <-> exists best,
        nth_error ranked 0 = Some best
        /\ (Spec64.R1 options best (nth_error ranked 1)
            \/ Spec64.R2 options best (nth_error ranked 1)
            \/ Spec64.R3 options best (nth_error ranked 1)
            \/ Spec64.R4 options best).
Proof.
  unfold lexicalGate.
  destruct (nth_error ranked 0) as [b |] eqn:Hbest.
  - rewrite gapOf_spec64.
    destruct (allowMapping options b (nth_error ranked 1)
                           (Spec64.gap b (nth_error ranked 1))) eqn:Hallow; cbn [status].
    + apply allowMapping_rules64 in Hallow. split; [| reflexivity].
      intros _. exists b. split; [reflexivity | exact Hallow].
    + split; [discriminate |].
      intros (b' & Hb' & Hrules). injection Hb' as <-.
      apply allowMapping_rules64 in Hrules. rewrite Hrules in Hallow.
      discriminate.
  - simpl. split; [discriminate |]. intros (b' & Hb' & _). discriminate.
Qed.

(** ** The ranked candidates of a product *)

Section Ranking64.
Context {host : JsHost} {math : MathHost} {array : ArrayHost}.
Variable models : Models.
Variable categories : list SeoCategory.t.
Variable product : ProductRecord.t.

Lemma rankCandidates_perm64 :
  Permutation (rankCandidates models categories product)
              (scoreCandidates models categories product).
Proof. apply Array_sort_permutation. Qed.

Lemma rankCandidates_length64 :
  length (rankCandidates models categories product) = length categories.
Proof.
  unfold rankCandidates, scoreCandidates, mapi.
  rewrite Array_sort_length, length_map, length_combine, length_seq.
  apply Nat.min_id.
Qed.

Lemma rankCandidates_Numbers64 :
  Numbers (map CandidateMatch.score (scoreCandidates models categories product)) ->
  Numbers (map CandidateMatch.score (rankCandidates models categories product)).
Proof. apply Numbers_perm, Permutation_sym, rankCandidates_perm64. Qed.




End Ranking64.

(** ** The combined score *)

Section CombinedScore64.
Context {host : JsHost} {math : MathHost} {array : ArrayHost}.

Lemma jaccardOf_index64 (product : ProductRecord.t) (category : SeoCategory.t) :
  jaccardOf product category
  = Spec64.jaccardIndex (ProductRecord.tokens product) (SeoCategory.tokens category).
Proof.
  unfold jaccardOf, Mapper.overlapOf, Spec64.jaccardIndex. cbv zeta.
  rewrite computeOverlap_sets.
  pose proof (unionSize_plus_intersection (ProductRecord.tokens product)
                                          (SeoCategory.tokens category)) as Hsum.
  set (i := Spec.intersectionSize _ _) in *.
  set (u := Spec.unionSize _ _) in *.
  replace (length (setOf (ProductRecord.tokens product))
           + length (setOf (SeoCategory.tokens category)) - i) with u by lia.
  reflexivity.
Qed.

Lemma withLegacyBoost_overlap (product : ProductRecord.t) (category : SeoCategory.t)
      (combined : float) :
  withLegacyBoost product category combined
  = if Nat.ltb 0 (Spec.legacyOverlap product category)
    then (combined + 0.05 * ofNat (Spec.legacyOverlap product category))%float
    else combined.
Proof.
  unfold withLegacyBoost, Spec.legacyOverlap. cbv zeta.
  destruct (ProductRecord.categoryOld product) as [label |]; [| reflexivity].
  rewrite computeOverlap_sets.
  destruct (Nat.ltb 0 (length _)) eqn:E; [reflexivity |].
  apply Nat.ltb_ge in E.
  assert (Hnil : setOf (Text.normalizeTokens (Some label)) = [])
    by (apply length_zero_iff_nil; lia).
  unfold Spec.intersectionSize. rewrite Hnil. reflexivity.
Qed.

Lemma combinedScore_formula64 (models : Models) (product : ProductRecord.t)
      (category : SeoCategory.t) (index : nat) :
  combinedScore models product category index
  = Spec64.combinedFormula models product category index.
Proof.
  unfold combinedScore, Spec64.combinedFormula. cbv zeta.
  rewrite withLegacyBoost_overlap, jaccardOf_index64. reflexivity.
Qed.

(** C2 (amended). For every product and every category of the corpus, the
    candidate's score is the number that [toFixed(6)] prints, read back, of
    the sum, taken in binary64 from left to right, of 0.6 times the
    word-axis cosine, 0.4 times the char-axis cosine, 0.05 times the
    stem-overlap count of the legacy label and the category (when the
    product carries a label and the count is positive, without a cap) and
    0.1 times the Jaccard index of the two token sets. The candidate stands
    at the category's position before the sort and is in the ranked list. *)
Theorem candidate_score_is_rounded_binary64_sum
        (models : Models) (categories : list SeoCategory.t)
        (product : ProductRecord.t) (index : nat) (category : SeoCategory.t) :
  nth_error categories index = Some category ->
  exists c,
    nth_error (scoreCandidates models categories product) index = Some c
    /\ In c (rankCandidates models categories product)
    /\ CandidateMatch.categoryId c = SeoCategory.id category
    /\ CandidateMatch.score c
       = Number (toFixed 6 (Spec64.combinedFormula models product category index)).
Proof.
  intro Hnth. exists (candidateOf models product category index).
  assert (Hc : nth_error (scoreCandidates models categories product) index
               = Some (candidateOf models product category index))
    by (apply mapi_nth_error, Hnth).
  split; [exact Hc |]. split; [| split; [reflexivity |]].
  - eapply Permutation_in; [apply Permutation_sym, Array_sort_permutation |].
    eapply nth_error_In, Hc.
  - cbn [candidateOf CandidateMatch.score].
    rewrite combinedScore_formula64. reflexivity.
Qed.

End CombinedScore64.

(** ** The reranker *)

Section Reranker64.
Context {host : JsHost} {math : MathHost} {array : ArrayHost}.
Variable service : EmbeddingService.

Lemma refineWithEmbeddings_cases64 (options : MappingOptions.t)
      (ranked top : list CandidateMatch.t) (embeddings : list (list float))
      (r : Refinement) :
  refineWithEmbeddings options ranked top embeddings = Ok (Some r) ->
  exists rescoredTop,
    rescore (nth_error embeddings 0) embeddings top 0 = Ok rescoredTop
    /\ let rescoredSorted := Array_sort CandidateMatch.score rescoredTop in
       let best := nth_error rescoredSorted 0 in
       let second := nth_error rescoredSorted 1 in
       r_bestCandidate r = best
       /\ r_rankedCandidates r =
            Array_sort CandidateMatch.score (rescoredSorted ++ skipn (length top) ranked)
       /\ r_confidence r = percentOf best
       /\ r_status r =
            (if rerankAccepts options best second (gapOf best second)
             then mapped else not_mapped).
Proof.
  unfold refineWithEmbeddings.
  destruct (rescore (nth_error embeddings 0) embeddings top 0) as [rescoredTop | e];
    [| discriminate].
  intro H. exists rescoredTop. split; [reflexivity |].
  cbv zeta in *.
  destruct (rerankAccepts options _ _ _); injection H as <-; cbn;
    repeat split; reflexivity.
Qed.

Lemma refineWithEmbeddings_never_null64 (options : MappingOptions.t)
      (ranked top : list CandidateMatch.t) (embeddings : list (list float)) :
  refineWithEmbeddings options ranked top embeddings <> Ok None.
Proof.
  unfold refineWithEmbeddings.
  destruct (rescore _ _ _ _); [| discriminate].
  cbv zeta. destruct (rerankAccepts _ _ _ _); discriminate.
Qed.

(** Rescoring that succeeds replaces each score by the rounded cosine. *)
Lemma rescore_ok (embeddings : list (list float)) (top : list CandidateMatch.t)
      (k : nat) (rescoredTop : list CandidateMatch.t) :
  rescore (nth_error embeddings 0) embeddings top k = Ok rescoredTop ->
  rescoredTop
  = map (fun ic =>
           CandidateMatch.withScore (snd ic)
             (Number (toFixed 6 (cosineSimilarity (nth 0 embeddings [])
                                                  (nth (fst ic + 1) embeddings [])))))
        (combine (seq k (length top)) top).
Proof.
  revert k rescoredTop. induction top as [| c rest IH]; intros k rescoredTop H.
  - injection H as <-. reflexivity.
  - cbn [rescore] in H.
    destruct (nth_error embeddings 0) as [vecA |] eqn:HA; [| discriminate].
    destruct (nth_error embeddings (k + 1)) as [vecB |] eqn:HB; [| discriminate].
    destruct (rescore (Some vecA) embeddings rest (S k)) as [rest' | e] eqn:Hrest;
      [| discriminate].
    injection H as <-. cbn [length seq combine map fst snd].
    rewrite <- (IH (S k) rest' Hrest).
    rewrite (nth_error_nth _ _ [] HA), (nth_error_nth _ _ [] HB). reflexivity.
Qed.

Lemma rescore_rescoredBy (embeddings : list (list float))
      (top rescoredTop : list CandidateMatch.t) :
  rescore (nth_error embeddings 0) embeddings top 0 = Ok rescoredTop ->
  rescoredTop = Spec64.rescoredBy embeddings top.
Proof. apply rescore_ok. Qed.

(** With a vector for the product and one for every candidate sent,
    rescoring succeeds. *)
Lemma rescore_enough64 (embeddings : list (list float)) (top : list CandidateMatch.t)
      (k : nat) :
  k + length top < length embeddings ->
  exists rescoredTop,
    rescore (nth_error embeddings 0) embeddings top k = Ok rescoredTop.
Proof.
  revert k. induction top as [| c rest IH]; intros k Hlen; [eexists; reflexivity |].
  cbn [length] in Hlen. cbn [rescore].
  destruct (IH (S k)) as (rest' & Hrest); [lia |].
  destruct (nth_error embeddings 0) as [vecA |] eqn:HA.
  2:{ apply nth_error_None in HA. lia. }
  destruct (nth_error embeddings (k + 1)) as [vecB |] eqn:HB.
  2:{ apply nth_error_None in HB. lia. }
  rewrite Hrest. eexists. reflexivity.
Qed.

(** [refineWithOpenAI] without the monad. *)
Lemma refineWithOpenAI_unfold64 (product : ProductRecord.t)
      (ranked : list CandidateMatch.t) (cmap : Mapper.CategoryMap)
      (options : MappingOptions.t) (log : list Request) :
  refineWithOpenAI service product ranked cmap options log =
  match usableKey options with
  | None => (Ok None, log)
  | Some apiKey =>
      let productText := trim (ProductRecord.aggregatedText product) in
      if truthy productText then
        match ranked with
        | [] => (Ok None, log)
        | _ :: _ =>
            let top := firstn OPENAI_TOP_K ranked in
            let request :=
              {| inputs := productText :: map (candidateText cmap) top;
                 apiKey := apiKey |} in
            (match service request with
             | ReplyRejected message => Throw (HostException message)
             | ReplyNotOk st errorText =>
                 Throw (EmbeddingsRequestFailed st errorText)
             | ReplyData data =>
                 refineWithEmbeddings options ranked top (map normalizeVector data)
             end, log ++ [request])
        end
      else
        (Ok (Some {| r_status := not_mapped;
                     r_bestCandidate := nth_error ranked 0;
                     r_rankedCandidates := ranked;
                     r_confidence := 0%float;
                     r_reason := OpenAINoText |}), log)
  end.
Proof.
  unfold refineWithOpenAI.
  destruct (usableKey options) as [apiKey |]; [| reflexivity].
  cbv zeta.
  destruct (truthy (trim (ProductRecord.aggregatedText product))); cbn [negb];
    [| reflexivity].
  rewrite firstn_min_length.
  destruct ranked as [| c rest]; [reflexivity |].
  change (firstn OPENAI_TOP_K (c :: rest)) with (c :: firstn 5 rest).
  cbv beta iota.
  unfold bind, fetchOpenAIEmbeddings, lift.
  destruct (service _); reflexivity.
Qed.

Section RerankStep64.
Variable models : Models.
Variable product : ProductRecord.t.
Variable options : MappingOptions.t.

(** The rerank step without the monad. *)
Lemma rerankStep_unfold64 (st : Locals) (log : list Request) :
  rerankStep service models product options st log =
  if Status_eqb (status st) not_mapped
     && MappingOptions.useOpenAI options
     && (match usableKey options with Some _ => true | None => false end)
  then
    match refineWithOpenAI service product (rankedCandidates st)
                           (categoryMap models) options log with
    | (Ok (Some r), log') => (Ok (applyRefinement r st), log')
    | (Ok None, log') => (Ok st, log')
    | (Throw e, log') => (Ok (onFallbackError e st), log')
    end
  else (Ok st, log).
Proof.
  unfold rerankStep.
  destruct (Status_eqb (status st) not_mapped && MappingOptions.useOpenAI options
            && _); [| reflexivity].
  unfold tryCatch, bind, ret.
  destruct (refineWithOpenAI _ _ _ _ _ _) as [[[r |] | e] log']; reflexivity.
Qed.

Lemma rerankStep_cases (st : Locals) (log : list Request) :
  exists st' log',
    rerankStep service models product options st log = (Ok st', log')
    /\ Spec64.RerankCase service models product options st log st' log'.
Proof.
  rewrite rerankStep_unfold64.
  destruct (Status_eqb (status st) not_mapped) eqn:Hnot;
    [| exists st, log; split; [reflexivity | constructor]].
  assert (Hstatus : status st = not_mapped)
    by (destruct (status st); [discriminate | reflexivity]).
  destruct (MappingOptions.useOpenAI options) eqn:Hon; cbn [andb];
    [| exists st, log; split; [reflexivity | constructor]].
  rewrite refineWithOpenAI_unfold64.
  destruct (usableKey options) as [key |] eqn:Hkey;
    [| exists st, log; split; [reflexivity | constructor]].
  cbv zeta.
  destruct (truthy (trim (ProductRecord.aggregatedText product))).
  2:{ eexists. eexists. split; [reflexivity |]. apply Spec64.RerankNoText; assumption. }
  destruct (rankedCandidates st) as [| c rest] eqn:Hranked;
    [exists st, log; split; [reflexivity | constructor] |].
  change {| inputs := trim (ProductRecord.aggregatedText product)
                        :: map (candidateText (categoryMap models))
                               (firstn OPENAI_TOP_K (c :: rest));
            apiKey := key |}
    with (Spec64.rerankRequest models product (c :: rest) key).
  destruct (service _) as [message | code errorText | data] eqn:Hreply.
  - eexists. eexists. split; [reflexivity |].
    rewrite <- Hranked. apply Spec64.RerankFailed; assumption.
  - eexists. eexists. split; [reflexivity |].
    rewrite <- Hranked. apply Spec64.RerankFailed; assumption.
  - destruct (refineWithEmbeddings _ _ _ _) as [[r |] | e] eqn:Hrefine.
    + eexists. eexists. split; [reflexivity |].
      rewrite <- Hranked in *. eapply Spec64.RerankRescored; eassumption.
    + exfalso. eapply refineWithEmbeddings_never_null64, Hrefine.
    + eexists. eexists. split; [reflexivity |].
      rewrite <- Hranked. apply Spec64.RerankFailed; assumption.
Qed.

Lemma RerankCase_same_log (st st' : Locals) (log log' : list Request) :
  Spec64.RerankCase service models product options st log st' log' -> log' = log ->
  st' = st
  \/ (status st = not_mapped
      /\ st' = applyRefinement (Spec64.noTextRefinement st) st).
Proof.
  intros Hcase Hlog.
  destruct Hcase as [| Hst Hon | key e Hst Hon Hkey | key data r Hst Hon Hkey Hreply Hrefine].
  - left. reflexivity.
  - right. split; [exact Hst | reflexivity].
  - exfalso. apply (f_equal (@length Request)) in Hlog.
    rewrite length_app in Hlog. cbn in Hlog. lia.
  - exfalso. apply (f_equal (@length Request)) in Hlog.
    rewrite length_app in Hlog. cbn in Hlog. lia.
Qed.

End RerankStep64.

End Reranker64.

(** ** One product *)

Section OneProduct64.
Context {host : JsHost} {math : MathHost} {array : ArrayHost}.
Variable service : EmbeddingService.
Variable models : Models.
Variable categories : list SeoCategory.t.
Variable options : MappingOptions.t.
Variable product : ProductRecord.t.

Lemma lexicalGate_ranked64 (ranked : list CandidateMatch.t) :
  rankedCandidates (lexicalGate options ranked) = ranked.
Proof.
  unfold lexicalGate. destruct (nth_error ranked 0) as [b |]; [| reflexivity].
  destruct (allowMapping _ _ _ _); reflexivity.
Qed.

Lemma lexicalGate_best64 (ranked : list CandidateMatch.t) :
  best (lexicalGate options ranked) = nth_error ranked 0
  /\ confidencePercent (lexicalGate options ranked) = percentOf (nth_error ranked 0)
  /\ (status (lexicalGate options ranked) = mapped -> nth_error ranked 0 <> None).
Proof.
  unfold lexicalGate. destruct (nth_error ranked 0) as [b |] eqn:Hbest.
  - destruct (allowMapping _ _ _ _); cbn [best confidencePercent status];
      repeat split; discriminate.
  - cbn [best confidencePercent status]. repeat split. discriminate.
Qed.

Lemma applyRefinement_ranked64 (r : Refinement) (st : Locals) :
  rankedCandidates (applyRefinement r st) = r_rankedCandidates r.
Proof.
  unfold applyRefinement. destruct (r_status r), (r_bestCandidate r); reflexivity.
Qed.

(** A refinement that does not map leaves the status, takes the head of its
    list as the best candidate and computes the confidence from it. *)
Lemma applyRefinement_not_mapped (r : Refinement) (st : Locals) :
  r_status r = not_mapped \/ r_bestCandidate r = None ->
  status (applyRefinement r st) = status st
  /\ best (applyRefinement r st) = nth_error (r_rankedCandidates r) 0
  /\ confidencePercent (applyRefinement r st)
     = percentOf (nth_error (r_rankedCandidates r) 0).
Proof.
  intro H. unfold applyRefinement.
  destruct (r_status r) eqn:Hs; [destruct (r_bestCandidate r) eqn:Hb |];
    cbn [status best confidencePercent]; try (repeat split; reflexivity).
  destruct H; discriminate.
Qed.

(** A refinement that maps sets the status, the best candidate and the
    confidence. *)
Lemma applyRefinement_mapped (r : Refinement) (st : Locals) (chosen : CandidateMatch.t) :
  r_status r = mapped -> r_bestCandidate r = Some chosen ->
  status (applyRefinement r st) = mapped
  /\ best (applyRefinement r st) = Some chosen
  /\ confidencePercent (applyRefinement r st) = r_confidence r.
Proof.
  intros Hs Hb. unfold applyRefinement. rewrite Hs, Hb.
  cbn [status best confidencePercent]. repeat split; reflexivity.
Qed.

Lemma mapProduct_unfold64 (log : list Request) :
  mapProduct service models categories options product log =
  match verdictOf service models categories options product log with
  | (Ok st, log') => (Ok (outcomeOf options product st), log')
  | (Throw e, log') => (Throw e, log')
  end.
Proof.
  unfold mapProduct, bind, ret.
  destruct (verdictOf _ _ _ _ _ _) as [[st | e] log']; reflexivity.
Qed.

(** A turn of the loop never raises, and it is one of the four cases of the
    rerank step after the lexical verdict. *)
Lemma mapProduct_cases (log : list Request) :
  exists st log',
    verdictOf service models categories options product log = (Ok st, log')
    /\ mapProduct service models categories options product log
       = (Ok (outcomeOf options product st), log')
    /\ Spec64.RerankCase service models product options
         (lexicalGate options (rankCandidates models categories product)) log st log'.
Proof.
  destruct (rerankStep_cases service models product options
              (lexicalGate options (rankCandidates models categories product)) log)
    as (st & log' & H & Hcase).
  exists st, log'. split; [exact H |]. split; [| exact Hcase].
  rewrite mapProduct_unfold64. unfold verdictOf in *. rewrite H. reflexivity.
Qed.



(** ** The acceptance test of the reranker *)

Lemma rerankAccepts_rule64 (b : CandidateMatch.t) (second : option CandidateMatch.t) :
  rerankAccepts options (Some b) second (gapOf (Some b) second) = true
  <-> Spec64.RerankRule options b second.
Proof.
  unfold rerankAccepts, Spec64.RerankRule, Spec64.atLeast.
  rewrite gapOf_spec64, !andb_true_iff.
  unfold OPENAI_SIMILARITY_THRESHOLD, OPENAI_GAP_THRESHOLD.
  destruct second as [s |].
  - split.
    + intros [[H1 H2] H3]. auto.
    + intros (H1 & H2 & [H3 | H3]); [discriminate | auto].
  - split.
    + intros [[H1 H2] _]. auto.
    + intros (H1 & H2 & _). auto.
Qed.

Lemma refineWithOpenAI_called64 (ranked : list CandidateMatch.t)
      (log : list Request) (key : jsstring) :
  usableKey options = Some key ->
  truthy (trim (ProductRecord.aggregatedText product)) = true ->
  ranked <> [] ->
  refineWithOpenAI service product ranked (categoryMap models) options log
  = (match service (Spec64.rerankRequest models product ranked key) with
     | ReplyRejected message => Throw (HostException message)
     | ReplyNotOk st errorText => Throw (EmbeddingsRequestFailed st errorText)
     | ReplyData data =>
         refineWithEmbeddings options ranked (firstn OPENAI_TOP_K ranked)
                              (map normalizeVector data)
     end, log ++ [Spec64.rerankRequest models product ranked key]).
Proof.
  intros Hkey Htext Hne.
  rewrite refineWithOpenAI_unfold64, Hkey. cbv zeta. rewrite Htext.
  destruct ranked; [congruence | reflexivity].
Qed.

(** C5 (amended). When the reranker runs on a product with usable text and
    the service returns a vector for the product and for each of the top
    K = 6 lexical candidates, it replaces the scores of these candidates by
    the embedding cosines, merges them with the untouched remainder and
    re-sorts the full list, which becomes the candidate list; the product is
    mapped if and only if the best of the K rescored candidates satisfies
    score >= max(similarityThreshold, 0.78), overlap >=
    max(0, tokenOverlapThreshold - 1) and either it is the only rescored
    candidate or its gap to the second of the rescored candidates is
    >= max(gapThreshold / 2, 0.02); that best rescored candidate is then the
    chosen one. Scores, gap, thresholds and comparisons are those of the
    language (binary64); where no rescored score is NaN, the rescored
    candidates stand in non-increasing order of score, so that the best one
    has the highest cosine of the shortlist. *)
Theorem rerank_maps_iff_rescored_best_passes
        (log : list Request) (key : jsstring) (data : list (list float)) :
  let ranked := rankCandidates models categories product in
  let top := firstn OPENAI_TOP_K ranked in
  let request := Spec64.rerankRequest models product ranked key in
  let rescoredTop := Spec64.rescoredBy (map normalizeVector data) top in
  let rescored := Array_sort CandidateMatch.score rescoredTop in
  categories <> [] ->
  status (lexicalGate options ranked) = not_mapped ->
  MappingOptions.useOpenAI options = true ->
  usableKey options = Some key ->
  truthy (trim (ProductRecord.aggregatedText product)) = true ->
  service request = ReplyData data ->
  length top < length data ->
  exists st,
    verdictOf service models categories options product log
    = (Ok st, log ++ [request])
    /\ rankedCandidates st
       = Array_sort CandidateMatch.score (rescored ++ skipn (length top) ranked)
    /\ (status st = mapped
        <-> exists b, nth_error rescored 0 = Some b
                      /\ Spec64.RerankRule options b (nth_error rescored 1))
    /\ (status st = mapped -> best st = nth_error rescored 0)
    /\ (Numbers (map CandidateMatch.score rescoredTop) ->
        StronglySorted (Spec64.notBelow CandidateMatch.score) rescored).
Proof.
  intros ranked top request rescoredTop rescored Hne Hlex Hon Hkey Htext Hreply Hlen.
  assert (Hranked : ranked <> []).
  { intro Hnil. apply Hne. apply length_zero_iff_nil.
    rewrite <- (rankCandidates_length64 models categories product).
    fold ranked. rewrite Hnil. reflexivity. }
  assert (Hsorted : Numbers (map CandidateMatch.score rescoredTop) ->
                    StronglySorted (Spec64.notBelow CandidateMatch.score) rescored)
    by apply Array_sort_sorted.
  unfold verdictOf. fold ranked.
  rewrite rerankStep_unfold64, Hlex, Hon, Hkey, lexicalGate_ranked64.
  cbn [Status_eqb andb].
  rewrite (refineWithOpenAI_called64 log Hkey Htext Hranked).
  fold request. rewrite Hreply. fold top. unfold refineWithEmbeddings.
  destruct (rescore_enough64 (map normalizeVector data) top 0) as (rs & Hrescore);
    [rewrite length_map; cbn; exact Hlen |].
  rewrite Hrescore. apply rescore_rescoredBy in Hrescore. subst rs.
  fold rescoredTop. fold rescored. cbv zeta.
  set (gate := lexicalGate options ranked) in *.
  destruct (nth_error rescored 0) as [b |] eqn:Hbest.
  - destruct (rerankAccepts options (Some b) (nth_error rescored 1) _) eqn:Hacc.
    + eexists. split; [reflexivity |].
      cbn [applyRefinement r_status r_bestCandidate r_rankedCandidates
           rankedCandidates status best].
      split; [reflexivity |]. split; [| split; [reflexivity | exact Hsorted]].
      apply rerankAccepts_rule64 in Hacc. split; [| reflexivity].
      intros _. exists b. split; [reflexivity | exact Hacc].
    + eexists. split; [reflexivity |].
      cbn [applyRefinement r_status r_bestCandidate r_rankedCandidates
           rankedCandidates status best].
      split; [reflexivity |]. rewrite Hlex.
      split; [| split; [discriminate | exact Hsorted]].
      split; [discriminate |].
      intros (b' & [= <-] & Hrule). apply rerankAccepts_rule64 in Hrule.
      rewrite Hrule in Hacc. discriminate.
  - eexists. split; [reflexivity |].
    cbn [rerankAccepts applyRefinement r_status r_bestCandidate
         r_rankedCandidates rankedCandidates status best].
    split; [reflexivity |]. rewrite Hlex.
    split; [| split; [discriminate | exact Hsorted]].
    split; [discriminate |]. intros (b' & Hb' & _). discriminate.
Qed.

(** ** The confidence percent *)

(** C8 (amended). In every run the outcome's confidence is
    [Math.round(score * 100)], on the binary64 product, of the score of the
    best candidate: the head of the outcome's candidate list when the
    product is not mapped or no request was sent for it, which for a mapped
    product is also the candidate whose path is reported; and, when the
    product is mapped after a request, the first of the rescored shortlist,
    whose path is reported. The value is not confined to [0, 100]. *)
Theorem confidence_is_rounded_percent (log : list Request) :
  let ranked := rankCandidates models categories product in
  let top := firstn OPENAI_TOP_K ranked in
  exists item log',
    mapProduct service models categories options product log = (Ok item, log')
    /\ (MappedProduct.status item = not_mapped \/ log' = log ->
        MappedProduct.confidence item
        = Math_round (scoreOrZero (nth_error (MappedProduct.candidates item) 0) * 100))
    /\ (MappedProduct.status item = mapped -> log' = log ->
        exists b,
          nth_error (MappedProduct.candidates item) 0 = Some b
          /\ MappedProduct.seoCategory item = Some (CandidateMatch.categoryPath b))
    /\ (MappedProduct.status item = mapped -> log' <> log ->
        exists key data b,
          usableKey options = Some key
          /\ log' = log ++ [Spec64.rerankRequest models product ranked key]
          /\ service (Spec64.rerankRequest models product ranked key) = ReplyData data
          /\ nth_error (Array_sort CandidateMatch.score
                          (Spec64.rescoredBy (map normalizeVector data) top)) 0
             = Some b
          /\ MappedProduct.seoCategory item = Some (CandidateMatch.categoryPath b)
          /\ MappedProduct.confidence item
             = Math_round (CandidateMatch.score b * 100)).
Proof.
  intros ranked top.
  destruct (mapProduct_cases log) as (st & log' & _ & Hrun & Hcase).
  exists (outcomeOf options product st), log'.
  split; [exact Hrun |].
  cbn [outcomeOf MappedProduct.candidates MappedProduct.status
       MappedProduct.confidence MappedProduct.seoCategory].
  fold ranked in Hcase.
  destruct (lexicalGate_best64 ranked) as (Hbest0 & Hconf0 & Hsome0).
  pose proof (lexicalGate_ranked64 ranked) as Hranked0.
  destruct Hcase as [| Hst Hon | key e Hst Hon Hkey | key data r Hst Hon Hkey Hreply Hrefine].
  - rewrite nth_error_firstn_head, Hranked0, Hconf0, Hbest0.
    split; [reflexivity |]. split; [| intros _ Hlog; congruence].
    intros Hmapped _. rewrite Hmapped.
    destruct (nth_error ranked 0) as [b |]; [| exfalso; apply (Hsome0 Hmapped); reflexivity].
    exists b. split; reflexivity.
  - destruct (applyRefinement_not_mapped
                (Spec64.noTextRefinement (lexicalGate options ranked))
                (lexicalGate options ranked) (or_introl eq_refl))
      as (Hs & Hb & Hc).
    rewrite nth_error_firstn_head, applyRefinement_ranked64, Hc, Hs, Hst.
    split; [reflexivity |]. split; discriminate.
  - cbn [onFallbackError confidencePercent rankedCandidates status best].
    rewrite nth_error_firstn_head, Hranked0, Hconf0, Hst.
    split; [reflexivity |]. split; discriminate.
  - rewrite Hranked0 in Hreply, Hrefine.
    apply refineWithEmbeddings_cases64 in Hrefine.
    destruct Hrefine as (rescoredTop & Hrescore & Hbest & _ & Hconf & Hstatus).
    apply rescore_rescoredBy in Hrescore. subst rescoredTop.
    cbv zeta in Hbest, Hconf, Hstatus. fold top in Hbest, Hconf, Hstatus.
    rewrite nth_error_firstn_head, applyRefinement_ranked64.
    destruct (r_status r) eqn:Hrs;
      [destruct (r_bestCandidate r) as [chosen |] eqn:Hrb |].
    + destruct (applyRefinement_mapped r (lexicalGate options ranked) Hrs Hrb)
        as (Hs & Hb & Hc).
      rewrite Hs, Hb, Hc.
      split; [intros [H | H]; [discriminate |] |].
      { exfalso. apply (f_equal (@length Request)) in H.
        rewrite length_app in H. cbn in H. lia. }
      split.
      { intros _ H. exfalso. apply (f_equal (@length Request)) in H.
        rewrite length_app in H. cbn in H. lia. }
      intros _ _. exists key, data, chosen.
      rewrite Hranked0. repeat split; try assumption; try reflexivity.
      * symmetry. exact Hbest.
      * rewrite Hconf, <- Hbest. reflexivity.
    + destruct (applyRefinement_not_mapped r (lexicalGate options ranked)
                  (or_intror Hrb)) as (Hs & Hb & Hc).
      rewrite Hs, Hc, Hst. split; [reflexivity |]. split; discriminate.
    + destruct (applyRefinement_not_mapped r (lexicalGate options ranked)
                  (or_introl Hrs)) as (Hs & Hb & Hc).
      rewrite Hs, Hc, Hst. split; [reflexivity |]. split; discriminate.
Qed.

End OneProduct64.

(* ===================================================================== *)
(** * Runs on the numbers of the language *)
(* ===================================================================== *)

Import Standin64 Examples64.

(** ** The acceptance gate *)

(** Two candidates at 0.568977 and 0.518977 under the default options: the
    difference of the two binary64 scores is below the binary64 threshold
    0.05, and the gate does not map. *)
Example gate_compares_the_binary64_gap :
  let ranked := [candidate "a" 0.568977 1 0.2; candidate "b" 0.518977 1 0.2]%float in
  gap (lexicalGate DEFAULT_OPTIONS ranked) = 0.049999999999999933%float
  /\ status (lexicalGate DEFAULT_OPTIONS ranked) = not_mapped.
Proof. split; vm_compute; reflexivity. Qed.

(** ** The combined score *)

(** C2, counterexample. One category "aa" and a product with the text
    "aa bb cc": the sum is 0.6 * 1 + 0.4 * 0 + 0.1 * (1/3), in binary64
    0.6333333333333333, and the candidate's score is 0.633333. *)
Lemma score_is_not_the_sum :
  exists response log' item category c,
    mapProducts unreachable Thirds.categories Thirds.products DEFAULT_OPTIONS []
    = (Ok response, log')
    /\ MappingResponse.items response = [item]
    /\ MappedProduct.candidates item = [c]
    /\ nth_error Thirds.categories 0 = Some category
    /\ CandidateMatch.categoryId c = SeoCategory.id category
    /\ Spec64.combinedFormula (buildModels Thirds.categories) Thirds.product
                              category 0 = 0.6333333333333333%float
    /\ CandidateMatch.score c = 0.633333%float
    /\ (CandidateMatch.score c
        =? Spec64.combinedFormula (buildModels Thirds.categories) Thirds.product
                                  category 0)%float = false.
Proof.
  eexists. eexists. eexists. eexists. eexists.
  split; [vm_compute; reflexivity |].
  split; [reflexivity |].
  split; [reflexivity |].
  split; [vm_compute; reflexivity |].
  split; [reflexivity |].
  split; [vm_compute; reflexivity |].
  split; [reflexivity |].
  vm_compute. reflexivity.
Qed.

(** C2 (amended) at the run of the counterexample. *)
Lemma candidate_score_is_rounded_binary64_sum_witness :
  let models := buildModels Thirds.categories in
  exists category c,
    nth_error Thirds.categories 0 = Some category
    /\ nth_error (scoreCandidates models Thirds.categories Thirds.product) 0 = Some c
    /\ CandidateMatch.score c
       = Number (toFixed 6 (Spec64.combinedFormula models Thirds.product category 0))
    /\ CandidateMatch.score c = 0.633333%float.
Proof.
  intro models.
  destruct (nth_error Thirds.categories 0) as [category |] eqn:Hnth;
    [| vm_compute in Hnth; discriminate Hnth].
  destruct (candidate_score_is_rounded_binary64_sum models Thirds.categories
              Thirds.product 0 Hnth) as (c & Hc & _ & _ & Hscore).
  exists category, c. split; [reflexivity |]. split; [exact Hc |].
  split; [exact Hscore |].
  vm_compute in Hc. injection Hc as <-. reflexivity.
Defined.

(** ** The order of the candidates *)



(** ** The acceptance test of the reranker *)

(** C5, counterexample. Seven categories, all at the lexical score 0.7; the
    service puts the first at 0.8 and the next five at 0. The product is
    mapped, although in the merged, re-sorted list the second candidate is
    the untouched seventh category at 0.7, and the gap to it, about 0.1, is
    below max(gapThreshold / 2, 0.02) = 0.25. *)
Lemma rerank_gap_is_not_the_merged_gap :
  exists response log' item b,
    mapProducts Shortlist.service Shortlist.categories Shortlist.products
                Shortlist.options []
    = (Ok response, log')
    /\ MappingResponse.items response = [item]
    /\ MappedProduct.status item = mapped
    /\ map CandidateMatch.score (MappedProduct.candidates item)
       = [0.8; 0.7; 0; 0; 0]%float
    /\ nth_error (MappedProduct.candidates item) 0 = Some b
    /\ ~ Spec64.RerankRule Shortlist.options b
                           (nth_error (MappedProduct.candidates item) 1).
Proof.
  eexists. eexists. eexists. eexists.
  split; [vm_compute; reflexivity |].
  split; [reflexivity |].
  split; [reflexivity |].
  split; [reflexivity |].
  split; [reflexivity |].
  intros (_ & _ & [Hnone | Hgap]).
  - discriminate.
  - vm_compute in Hgap. discriminate.
Qed.

(** C5 (amended) at the run of the counterexample. *)
Lemma rerank_maps_iff_rescored_best_passes_witness :
  let models := buildModels Shortlist.categories in
  let ranked := rankCandidates models Shortlist.categories Shortlist.product in
  let top := firstn OPENAI_TOP_K ranked in
  let request := Spec64.rerankRequest models Shortlist.product ranked (str "sk-test") in
  let data := [[1; 0]; [4; 3]; [0; 1]; [0; 1]; [0; 1]; [0; 1]; [0; 1]]%float in
  let rescoredTop := Spec64.rescoredBy (map normalizeVector data) top in
  let rescored := Array_sort CandidateMatch.score rescoredTop in
  map CandidateMatch.score rescored = [0.8; 0; 0; 0; 0; 0]%float
  /\ exists st,
    verdictOf Shortlist.service models Shortlist.categories Shortlist.options
              Shortlist.product []
    = (Ok st, [] ++ [request])
    /\ rankedCandidates st
       = Array_sort CandidateMatch.score (rescored ++ skipn (length top) ranked)
    /\ (status st = mapped
        <-> exists b, nth_error rescored 0 = Some b
                      /\ Spec64.RerankRule Shortlist.options b (nth_error rescored 1))
    /\ (status st = mapped -> best st = nth_error rescored 0)
    /\ status st = mapped
    /\ StronglySorted (Spec64.notBelow CandidateMatch.score) rescored.
Proof.
  intros models ranked top request data rescoredTop rescored.
  split; [vm_compute; reflexivity |].
  assert (Hne : Shortlist.categories <> []) by (vm_compute; discriminate).
  assert (Hlex : status (lexicalGate Shortlist.options ranked) = not_mapped)
    by (vm_compute; reflexivity).
  assert (Htext : truthy (trim (ProductRecord.aggregatedText Shortlist.product)) = true)
    by (vm_compute; reflexivity).
  assert (Hlen : length top < length data) by (vm_compute; lia).
  destruct (rerank_maps_iff_rescored_best_passes
              Shortlist.service models (categories := Shortlist.categories)
              Shortlist.options Shortlist.product []
              (key := str "sk-test") (data := data)
              Hne Hlex eq_refl eq_refl Htext eq_refl Hlen)
    as (st & Hrun & Hmerged & Hiff & Hbest & Hsorted).
  exists st. split; [exact Hrun |]. split; [exact Hmerged |].
  split; [exact Hiff |]. split; [exact Hbest |]. split.
  - vm_compute in Hrun. injection Hrun as <-. reflexivity.
  - apply Hsorted. apply Numbers_forallb. vm_compute. reflexivity.
Defined.

(** ** The confidence percent *)

(** C8, counterexample. One category "abc" and a product named "abc", under
    the default options: the score is 0.6 + 0.4 + 0.1 = 1.1 and the
    confidence is 110. With reranking, two categories whose embeddings are
    opposite to the product's: both are rescored to -1, the product stays
    not_mapped and its confidence is -100. And a reply whose first number is
    1e39: the stored binary32 value is an infinity, the normalized vector
    and the cosines are NaN, and so is the confidence. *)
Lemma confidence_beyond_percent_range :
  (exists response log' item,
      mapProducts unreachable FullMatch.categories FullMatch.products
                  DEFAULT_OPTIONS []
      = (Ok response, log')
      /\ MappingResponse.items response = [item]
      /\ MappedProduct.confidence item = 110%float
      /\ (MappedProduct.confidence item <=? 100)%float = false)
  /\ (exists response log' item,
         mapProducts Opposite.service Ties.categories Ties.products Ties.options []
         = (Ok response, log')
         /\ MappingResponse.items response = [item]
         /\ MappedProduct.confidence item = (-100)%float
         /\ (0 <=? MappedProduct.confidence item)%float = false)
  /\ (exists response log' item,
         mapProducts Overflow.service Ties.categories Ties.products Ties.options []
         = (Ok response, log')
         /\ MappingResponse.items response = [item]
         /\ MappedProduct.confidence item = nan
         /\ (0 <=? MappedProduct.confidence item)%float = false
         /\ (MappedProduct.confidence item <=? 100)%float = false).
Proof.
  split; [| split].
  - eexists. eexists. eexists.
    split; [vm_compute; reflexivity |].
    repeat split.
  - eexists. eexists. eexists.
    split; [vm_compute; reflexivity |].
    repeat split.
  - eexists. eexists. eexists.
    split; [vm_compute; reflexivity |].
    repeat split.
Qed.

(** C8 (amended) at the run of [Shortlist]: the product is mapped after a
    request, the first of the rescored shortlist is "yy 1" at 0.8, and the
    confidence is 80. *)
Lemma confidence_is_rounded_percent_witness :
  let models := buildModels Shortlist.categories in
  let ranked := rankCandidates models Shortlist.categories Shortlist.product in
  let top := firstn OPENAI_TOP_K ranked in
  exists item log' key data b,
    mapProduct Shortlist.service models Shortlist.categories Shortlist.options
               Shortlist.product [] = (Ok item, log')
    /\ MappedProduct.status item = mapped
    /\ log' = [Spec64.rerankRequest models Shortlist.product ranked key]
    /\ Shortlist.service (Spec64.rerankRequest models Shortlist.product ranked key)
       = ReplyData data
    /\ nth_error (Array_sort CandidateMatch.score
                    (Spec64.rescoredBy (map normalizeVector data) top)) 0
       = Some b
    /\ CandidateMatch.score b = 0.8%float
    /\ MappedProduct.seoCategory item = Some (CandidateMatch.categoryPath b)
    /\ MappedProduct.confidence item = Math_round (CandidateMatch.score b * 100)
    /\ MappedProduct.confidence item = 80%float.
Proof.
  intros models ranked top.
  destruct (confidence_is_rounded_percent
              Shortlist.service models Shortlist.categories Shortlist.options
              Shortlist.product [])
    as (item & log' & Hrun & _ & _ & Hreranked).
  assert (Hitem := Hrun). vm_compute in Hitem.
  assert (Hmapped : MappedProduct.status item = mapped)
    by (injection Hitem as <- _; reflexivity).
  assert (Hlog : log' <> [])
    by (injection Hitem as _ <-; discriminate).
  destruct (Hreranked Hmapped Hlog) as (key & data & b & _ & Hsent & Hreply & Hb & Hpath & Hconf).
  exists item, log', key, data, b.
  split; [exact Hrun |]. split; [exact Hmapped |]. split; [exact Hsent |].
  split; [exact Hreply |]. split; [exact Hb |].
  assert (Hdata : data = [[1; 0]; [4; 3]; [0; 1]; [0; 1]; [0; 1]; [0; 1]; [0; 1]]%float)
    by (unfold Shortlist.service in Hreply; injection Hreply as <-; reflexivity).
  assert (Hscore : CandidateMatch.score b = 0.8%float).
  { subst data. vm_compute in Hb. injection Hb as <-. reflexivity. }
  split; [exact Hscore |]. split; [exact Hpath |]. split; [exact Hconf |].
  rewrite Hconf, Hscore. vm_compute. reflexivity.
Defined.
